(** * Octochain Ouroboros node-to-node tip clients: a shallow embedding

    The repository holds three JavaScript clients of the Cardano
    node-to-node wire stack:

    - the promise-driven client whose usage line names it
      [chainsync-tip.cjs] (functions [muxFrame], [MuxReader._pump],
      [handshakePropose], [run]); it is embedded in [Module ChainsyncTip];
    - the callback-driven client built around [connectAndFetchTip]
      (functions [muxHeader], [packSegment], [MuxReader.push],
      [parsePeerAddresses]); it is embedded in [Module FetchTip];
    - the lab script [lab/gemini-ouroboros-client.cjs]
      ([buildHandshakePayload], [createMuxFrame], the socket data
      handler, [handleHandshake], [handleChainSync]); it is embedded in
      [Module Lab].

    JavaScript numbers that the code handles are integers and are
    embedded as [Z]; the 32-bit conversions that the bit operators apply
    are written out, and so is the rounding of the one product that can
    leave the range in which a double is exact.  A BigInt, which the
    decoder gives for an integer written on eight bytes, is a value of
    its own kind.  A [Buffer] is a list of bytes. *)

From Stdlib Require Import ZArith String Ascii List Lia Bool.
From Stdlib.Strings Require Import Byte.
From Stdlib Require DecimalString.
From Equations Require Import Equations.
Import ListNotations.

Open Scope Z_scope.

(** ** JavaScript 32-bit integer operators *)

Module JS.

Definition ToUint32 (z : Z) : Z := z mod 2 ^ 32.

Definition ToInt32 (z : Z) : Z :=
  let m := z mod 2 ^ 32 in
  if m <? 2 ^ 31 then m else m - 2 ^ 32.

(** [a & b] *)
Definition and (a b : Z) : Z := Z.land (ToInt32 a) (ToInt32 b).

(** [a | b] *)
Definition or (a b : Z) : Z := Z.lor (ToInt32 a) (ToInt32 b).

(** [a << b] *)
Definition shl (a b : Z) : Z :=
  ToInt32 (Z.shiftl (ToInt32 a) (ToUint32 b mod 32)).

(** [a >>> b] *)
Definition shru (a b : Z) : Z :=
  Z.shiftr (ToUint32 a) (ToUint32 b mod 32).

(** The double nearest to the integer [z]: [z] itself below [2^53] in
    magnitude; beyond, the significand is cut to 53 bits and rounded to
    the nearest, a tie going to the even significand. *)
Definition to_double (z : Z) : Z :=
  let a := Z.abs z in
  if a <? 2 ^ 53 then z
  else
    let e := Z.log2 a - 52 in
    let q := a / 2 ^ e in
    let r := a mod 2 ^ e in
    let q' :=
      if 2 * r <? 2 ^ e then q
      else if 2 ^ e <? 2 * r then q + 1
      else if Z.even q then q else q + 1 in
    Z.sgn z * (q' * 2 ^ e).

(** [a * b] for two integers that doubles hold exactly: the exact
    product, rounded to a double.  A product beyond the range of
    doubles is [Infinity], which [& 0xFFFFFFFF], the one operator that
    the sources apply to a product, reads as 0, as it reads the
    multiple of [2^32] that this definition gives in its place. *)
Definition times (a b : Z) : Z := to_double (a * b).

End JS.

(** ** Errors and fallible computations *)

Inductive error : Type :=
| Error (message : string)
| RangeError (message : string)
| TypeError (message : string).

Definition result (A : Type) : Type := (error + A)%type.

Definition Ok {A : Type} (a : A) : result A := inr a.
Definition throw {A : Type} (e : error) : result A := inl e.

Definition bind {A B : Type} (m : result A) (k : A -> result B) : result B :=
  match m with
  | inl e => inl e
  | inr a => k a
  end.

Notation "x <- m ;; k" := (bind m (fun x => k))
  (at level 61, m at next level, right associativity).

(** A computation on a state of type [S] that may throw: an exception
    keeps the state that it was raised in, since the effects before it
    did happen. *)
Definition raised (S : Type) (A : Type) : Type := (error * S + A)%type.

(** A pure fallible step inside a stateful computation *)
Definition lift {S A B : Type} (s : S) (m : result A) (k : A -> raised S B)
  : raised S B :=
  match m with
  | inl e => inl (e, s)
  | inr a => k a
  end.

(** ** Buffers *)

Definition Buffer : Type := list byte.

Definition byte_of_Z (z : Z) : byte :=
  match Byte.of_N (Z.to_N (z mod 256)) with
  | Some b => b
  | None => x00
  end.

Definition Z_of_byte (b : byte) : Z := Z.of_N (Byte.to_N b).

(** [Buffer.alloc(n)] *)
Definition alloc (n : nat) : Buffer := repeat x00 n.

(** [buf.length] *)
Definition blen (buf : Buffer) : Z := Z.of_nat (length buf).

(** [buf.subarray(a, b)] for [0 <= a <= b] (the indices are clamped to the
    buffer by [skipn] and [firstn], as [subarray] clamps them). *)
Definition subarray (buf : Buffer) (a b : nat) : Buffer :=
  firstn (b - a) (skipn a buf).

(** [buf.subarray(a)] *)
Definition subarray_from (buf : Buffer) (a : nat) : Buffer := skipn a buf.

(** The four bytes of an unsigned 32-bit value, most significant first. *)
Definition be32 (v : Z) : Buffer :=
  [byte_of_Z (v / 2 ^ 24); byte_of_Z (v / 2 ^ 16);
   byte_of_Z (v / 2 ^ 8); byte_of_Z v].

Definition be16 (v : Z) : Buffer :=
  [byte_of_Z (v / 2 ^ 8); byte_of_Z v].

(** Overwrites [length src] bytes of [buf] from offset [off]. *)
Definition blit (buf : Buffer) (off : nat) (src : Buffer) : Buffer :=
  firstn off buf ++ src ++ skipn (off + length src) buf.

(** [buf.writeUInt32BE(v, off)]: Node refuses a value outside
    [0 .. 2^32-1] and an offset that leaves no room for four bytes. *)
Definition writeUInt32BE (buf : Buffer) (v : Z) (off : nat) : result Buffer :=
  if (0 <=? v) && (v <? 2 ^ 32) then
    if (off + 4 <=? length buf)%nat then Ok (blit buf off (be32 v))
    else throw (RangeError "offset out of range")
  else throw (RangeError "value out of range").

(** [buf.writeUInt16BE(v, off)] *)
Definition writeUInt16BE (buf : Buffer) (v : Z) (off : nat) : result Buffer :=
  if (0 <=? v) && (v <? 2 ^ 16) then
    if (off + 2 <=? length buf)%nat then Ok (blit buf off (be16 v))
    else throw (RangeError "offset out of range")
  else throw (RangeError "value out of range").

Definition byte_at (buf : Buffer) (i : nat) : Z := Z_of_byte (nth i buf x00).

(** [buf.readUInt32BE(off)]; every call in the clients is guarded by a
    test that the buffer holds at least eight bytes, so the out-of-range
    error of Node cannot arise for offsets 0 and 4. *)
Definition readUInt32BE (buf : Buffer) (off : nat) : Z :=
  byte_at buf off * 2 ^ 24 + byte_at buf (off + 1) * 2 ^ 16
  + byte_at buf (off + 2) * 2 ^ 8 + byte_at buf (off + 3).

(** [buf.readUInt16BE(off)], under the same guard. *)
Definition readUInt16BE (buf : Buffer) (off : nat) : Z :=
  byte_at buf off * 2 ^ 8 + byte_at buf (off + 1).

(** *** Facts about bytes and big-endian words *)

Lemma Z_of_byte_range (b : byte) : 0 <= Z_of_byte b < 256.
Proof.
  unfold Z_of_byte. pose proof (Byte.to_N_bounded b). lia.
Qed.

Lemma Z_of_byte_of_Z (z : Z) : Z_of_byte (byte_of_Z z) = z mod 256.
Proof.
  unfold Z_of_byte, byte_of_Z.
  assert (Hr : 0 <= z mod 256 < 256) by (apply Z.mod_pos_bound; lia).
  destruct (Byte.of_N (Z.to_N (z mod 256))) as [b|] eqn:E.
  - apply Byte.to_of_N in E. rewrite E. lia.
  - apply Byte.of_N_None_iff in E. lia.
Qed.

Lemma byte_of_Z_of_byte (b : byte) : byte_of_Z (Z_of_byte b) = b.
Proof.
  unfold byte_of_Z. pose proof (Z_of_byte_range b) as Hr.
  rewrite Z.mod_small by lia. unfold Z_of_byte.
  rewrite N2Z.id, Byte.of_to_N. reflexivity.
Qed.

Lemma readUInt32BE_be32 (v : Z) (tl : Buffer) :
  0 <= v < 2 ^ 32 -> readUInt32BE (be32 v ++ tl) 0 = v.
Proof.
  intros Hv. unfold readUInt32BE, byte_at, be32. cbn [nth app Nat.add].
  rewrite !Z_of_byte_of_Z.
  change (2 ^ 24) with 16777216. change (2 ^ 16) with 65536.
  change (2 ^ 8) with 256. change (2 ^ 32) with 4294967296 in Hv.
  Z.div_mod_to_equations. lia.
Qed.

Lemma readUInt32BE_skip (pre : Buffer) (buf : Buffer) (off : nat) :
  readUInt32BE (pre ++ buf) (length pre + off) = readUInt32BE buf off.
Proof.
  unfold readUInt32BE, byte_at.
  rewrite <- !Nat.add_assoc.
  rewrite !app_nth2_plus. reflexivity.
Qed.

Lemma readUInt32BE_range (buf : Buffer) (off : nat) :
  0 <= readUInt32BE buf off < 2 ^ 32.
Proof.
  unfold readUInt32BE, byte_at.
  pose proof (Z_of_byte_range (nth off buf x00)).
  pose proof (Z_of_byte_range (nth (off + 1) buf x00)).
  pose proof (Z_of_byte_range (nth (off + 2) buf x00)).
  pose proof (Z_of_byte_range (nth (off + 3) buf x00)).
  change (2 ^ 24) with 16777216. change (2 ^ 16) with 65536.
  change (2 ^ 8) with 256. change (2 ^ 32) with 4294967296. lia.
Qed.

(** Reading a word only looks at the bytes it covers. *)
Lemma readUInt32BE_app (buf more : Buffer) (off : nat) :
  (off + 4 <= length buf)%nat ->
  readUInt32BE (buf ++ more) off = readUInt32BE buf off.
Proof.
  intros H. unfold readUInt32BE, byte_at.
  rewrite !app_nth1 by lia. reflexivity.
Qed.

Lemma readUInt16BE_app (buf more : Buffer) (off : nat) :
  (off + 2 <= length buf)%nat ->
  readUInt16BE (buf ++ more) off = readUInt16BE buf off.
Proof.
  intros H. unfold readUInt16BE, byte_at.
  rewrite !app_nth1 by lia. reflexivity.
Qed.

(** ** Decoded CBOR items and other JavaScript values *)

#[local] Set Warnings "-register-all".

Inductive value : Type :=
| VUndefined
| VNull
| VBool (b : bool)
| VNum (n : Z)
| VBig (n : Z)
| VStr (s : string)
| VBuf (b : Buffer)
| VArr (items : list value)
| VObj (props : list (string * value))
| VMap (entries : list (value * value)).

(** [Array.isArray(v)] *)
Definition isArray (v : value) : bool :=
  match v with VArr _ => true | _ => false end.

(** [v === n] for a number literal [n]; a BigInt is never strictly
    equal to a number. *)
Definition is_num (v : value) (n : Z) : bool :=
  match v with VNum m => m =? n | _ => false end.

(** [a[i]] on an array: a missing index reads as [undefined]. *)
Definition item (a : list value) (i : nat) : value := nth i a VUndefined.

(** [a.slice(i, j)] on an array, for [i <= j] *)
Definition slice (a : list value) (i j : nat) : list value :=
  firstn (j - i) (skipn i a).

(** Own property of a plain object. *)
Fixpoint prop (props : list (string * value)) (k : string) : value :=
  match props with
  | [] => VUndefined
  | (k', v) :: rest => if String.eqb k k' then v else prop rest k
  end.

(** Decimal rendering of an integer, as [String(n)] and template literals
    give it. *)
Definition decimal (n : Z) : string :=
  DecimalString.NilZero.string_of_int (Z.to_int n).

(** [v[i]] on any value.  Reading a property of [undefined] or [null]
    raises a [TypeError]; a [Map] object has no indexed properties. *)
Definition get (v : value) (i : Z) : result value :=
  match v with
  | VUndefined | VNull =>
      throw (TypeError "Cannot read properties of undefined or null")
  | VArr a => Ok (if i <? 0 then VUndefined else item a (Z.to_nat i))
  | VStr s =>
      Ok (if i <? 0 then VUndefined
          else match String.get (Z.to_nat i) s with
               | Some c => VStr (String c EmptyString)
               | None => VUndefined
               end)
  | VBuf b =>
      Ok (if (0 <=? i) && (i <? blen b) then VNum (byte_at b (Z.to_nat i))
          else VUndefined)
  | VObj props => Ok (prop props (decimal i))
  | VBool _ | VNum _ | VBig _ | VMap _ => Ok VUndefined
  end.

(** [str.padStart(n, "0")] *)
Definition padStart0 (n : nat) (s : string) : string :=
  (String.concat EmptyString (repeat "0" (n - String.length s)) ++ s)%string.

Definition hex_digit (d : Z) : ascii :=
  match d with
  | 0 => "0" | 1 => "1" | 2 => "2" | 3 => "3" | 4 => "4" | 5 => "5"
  | 6 => "6" | 7 => "7" | 8 => "8" | 9 => "9" | 10 => "a" | 11 => "b"
  | 12 => "c" | 13 => "d" | 14 => "e" | _ => "f"
  end%char.

Fixpoint hex_digits (fuel : nat) (n : Z) (acc : string) : string :=
  match fuel with
  | O => acc
  | S fuel' =>
      let acc' := String (hex_digit (n mod 16)) acc in
      if n / 16 =? 0 then acc' else hex_digits fuel' (n / 16) acc'
  end.

(** [n.toString(16)] for a non-negative integer: lower-case digits, no
    leading zero.  A number below [2^k] has at most [k] digits, so the
    bit length bounds the number of rounds. *)
Definition toString16 (n : Z) : string :=
  hex_digits (S (Z.to_nat (Z.log2 n))) n EmptyString.

(** [buf.toString('hex')] *)
Definition toHex (buf : Buffer) : string :=
  String.concat EmptyString
    (map (fun b => String (hex_digit (Z_of_byte b / 16))
                     (String (hex_digit (Z_of_byte b mod 16)) EmptyString))
       buf).

(** The library and runtime services that the clients call and that are
    not code of the repository: the CBOR encoder and decoder, the JSON
    printer, string conversion, and the conversion to a number of
    strings and objects. *)
Class Runtime : Type := {
  (** [enc.encode(v)] *)
  encode : value -> Buffer;
  (** [dec.decode(buf)], which may throw *)
  decode : Buffer -> result value;
  (** the text that [JSON.stringify(v)] gives, as a template literal
      renders it, for a [v] in which it meets no BigInt *)
  JSON_stringify : value -> string;
  (** [String(v)] *)
  ToString : value -> string;
  (** [Number(v)] for a string, buffer, array, object or map [v];
      [None] stands for [NaN] *)
  ToNumber_object : value -> option Z
}.

(** Whether [JSON.stringify(v)] meets a BigInt.  It visits the elements
    of an array and the properties of a plain object; it prints a buffer
    through its [toJSON], as a list of numbers, and a [Map] as [{}],
    without looking at its entries. *)
Fixpoint holds_bigint (v : value) : bool :=
  match v with
  | VBig _ => true
  | VArr items => existsb holds_bigint items
  | VObj props => existsb (fun kv => holds_bigint (snd kv)) props
  | _ => false
  end.

(** [JSON.stringify(v)]: it throws on a BigInt. *)
Definition stringify `{RT : Runtime} (v : value) : result string :=
  if holds_bigint v then
    throw (TypeError "Do not know how to serialize a BigInt")
  else Ok (JSON_stringify v).

(** The number that an arithmetic or shift operator takes from [v] when
    its other operand is a number, [None] standing for [NaN]: a BigInt
    does not mix with a number. *)
Definition ToNumber `{Runtime} (v : value) : result (option Z) :=
  match v with
  | VNum n => Ok (Some n)
  | VBig _ =>
      throw (TypeError "Cannot mix BigInt and other types, use explicit conversions")
  | VBool true => Ok (Some 1)
  | VBool false | VNull => Ok (Some 0)
  | VUndefined => Ok None
  | _ => Ok (ToNumber_object v)
  end.

(** [v >>> 0] *)
Definition shru0 `{Runtime} (v : value) : result Z :=
  n <- ToNumber v ;;
  Ok (match n with
      | Some n => JS.shru n 0
      | None => 0
      end).

(** [arr.map(f)] for a callback that may throw: the first exception
    leaves the loop. *)
Fixpoint map_result {A B : Type} (f : A -> result B) (l : list A)
  : result (list B) :=
  match l with
  | [] => Ok []
  | x :: rest =>
      y <- f x ;;
      ys <- map_result f rest ;;
      Ok (y :: ys)
  end.

(** A loop over [l] whose body updates [acc] and may throw *)
Fixpoint for_of {A B : Type} (body : B -> A -> result B) (l : list A)
    (acc : B) : result B :=
  match l with
  | [] => Ok acc
  | x :: rest =>
      acc' <- body acc x ;;
      for_of body rest acc'
  end.

(** The values that an iterator protocol reads from [v], as array
    destructuring and [for ... of] use it. *)
Definition iterator (v : value) : result (list value) :=
  match v with
  | VArr a => Ok a
  | VStr s => Ok (map (fun c => VStr (String c EmptyString)) (list_ascii_of_string s))
  | VBuf b => Ok (map (fun x => VNum (Z_of_byte x)) b)
  | VMap m => Ok (map (fun kv => VArr [fst kv; snd kv]) m)
  | VUndefined | VNull | VBool _ | VNum _ | VBig _ | VObj _ =>
      throw (TypeError "value is not iterable")
  end.

(** Whether [v || other] takes [other] *)
Definition falsy (v : value) : bool :=
  match v with
  | VUndefined | VNull | VBool false => true
  | VNum n | VBig n => n =? 0
  | VStr s => String.eqb s EmptyString
  | _ => false
  end.

(** [String(e)] for an error object *)
Definition error_string (e : error) : string :=
  match e with
  | Error m => "Error: " ++ m
  | RangeError m => "RangeError: " ++ m
  | TypeError m => "TypeError: " ++ m
  end%string.

Definition inspect {A : Type} (a : A) : {b : A | a = b} := exist _ a eq_refl.

(** [arr.findIndex(p)], [None] standing for [-1] *)
Fixpoint findIndex {A : Type} (p : A -> bool) (l : list A) : option nat :=
  match l with
  | [] => None
  | x :: rest =>
      if p x then Some O else option_map S (findIndex p rest)
  end.

(** What is left of [arr] after [arr.splice(i, 1)] *)
Definition splice1 {A : Type} (i : nat) (l : list A) : list A :=
  firstn i l ++ skipn (S i) l.

(** Mini-protocol numbers *)
Definition MP_HANDSHAKE : Z := 0.
Definition MP_CHAINSYNC : Z := 2.
Definition MP_PEERSHARE : Z := 10.

(** [v.length] and the elements of an array value *)
Definition elements (v : value) : list value :=
  match v with VArr a => a | _ => [] end.

(** * The promise-driven client ([chainsync-tip.cjs]) *)

Module ChainsyncTip.

#[local] Obligation Tactic := idtac.

Record frame : Type := {
  transmissionTime : Z;
  mode : Z;
  miniProtocolId : Z;
  payload : Buffer
}.

Definition u32be (n : Z) : result Buffer :=
  writeUInt32BE (alloc 4) (JS.shru n 0) 0.

Definition muxFrame (miniProtocolId mode : Z) (payload : Buffer)
  : result Buffer :=
  if (miniProtocolId <? 0) || (miniProtocolId >? 0x7fff) then
    throw (Error "miniProtocolId out of range")
  else if blen payload >? 0xffff then
    throw (Error "payload too large for single mux segment")
  else
    let transmissionTime := 0 in
    word0 <- u32be transmissionTime ;;
    let word1 :=
      JS.or (JS.or (JS.shl (JS.and mode 1) 31)
                   (JS.shl (JS.and miniProtocolId 0x7fff) 16))
            (JS.and (blen payload) 0xffff) in
    hdr <- writeUInt32BE (alloc 4) (JS.shru word1 0) 0 ;;
    Ok (word0 ++ hdr ++ payload).

(** *** [class MuxReader] *)

(** A waiter holds the filter of a pending [readFrame] and names the
    promise that its [resolve] and [reject] settle. *)
Record waiter : Type := {
  filter : Z -> Z -> bool;
  promise : nat
}.

Record MuxReader : Type := {
  buf : Buffer;
  waiters : list waiter
}.

(** The header fields that [_pump] reads from a buffer of at least eight
    bytes. *)
Definition word1 (b : Buffer) : Z := readUInt32BE b 4.
Definition len (b : Buffer) : Z := JS.and (word1 b) 0xffff.

Definition head_frame (b : Buffer) : frame :=
  {| transmissionTime := readUInt32BE b 0;
     mode := JS.and (JS.shru (word1 b) 31) 1;
     miniProtocolId := JS.and (JS.shru (word1 b) 16) 0x7fff;
     payload := subarray b 8 (Z.to_nat (8 + len b)) |}.

Lemma len_range (b : Buffer) : 0 <= len b < 2 ^ 16.
Proof.
  unfold len, JS.and. change (JS.ToInt32 65535) with (Z.ones 16).
  rewrite Z.land_ones by lia. apply Z.mod_pos_bound. lia.
Qed.

(** [_pump()]: the buffer and the waiters it leaves, and the promises it
    resolved with their frames, in order.  A frame that no waiter's
    filter accepts is dropped. *)
#[local] Opaque len head_frame findIndex splice1.

Equations? _pump (b : Buffer) (ws : list waiter)
  : MuxReader * list (nat * frame) by wf (length b) lt :=
  _pump b ws with inspect (blen b <? 8) := {
    | exist _ true _ => ({| buf := b; waiters := ws |}, [])
    | exist _ false H1 with inspect (blen b <? 8 + len b) := {
      | exist _ true _ => ({| buf := b; waiters := ws |}, [])
      | exist _ false H2 =>
          match findIndex
                  (fun w => filter w (miniProtocolId (head_frame b))
                              (mode (head_frame b))) ws with
          | Some waiterIndex =>
              let r := _pump (subarray_from b (Z.to_nat (8 + len b)))
                         (splice1 waiterIndex ws) in
              (fst r,
               (promise (nth waiterIndex ws {| filter := fun _ _ => false;
                                               promise := O |}),
                head_frame b) :: snd r)
          | None =>
              _pump (subarray_from b (Z.to_nat (8 + len b))) ws
          end } }.
Proof.
  all: unfold subarray_from; rewrite length_skipn; unfold blen in *;
    pose proof (len_range b); apply Z.ltb_ge in H1, H2; lia.
Qed.

#[local] Transparent len head_frame findIndex splice1.

(** The [data] listener of the constructor *)
Definition on_data (m : MuxReader) (d : Buffer)
  : MuxReader * list (nat * frame) :=
  _pump (buf m ++ d) (waiters m).

(** The [data] listener called on each chunk in turn, no [readFrame]
    coming in between; the resolved promises accumulate. *)
Fixpoint feed (chunks : list Buffer) (m : MuxReader)
  : MuxReader * list (nat * frame) :=
  match chunks with
  | [] => (m, [])
  | d :: rest =>
      let r := on_data m d in
      let r' := feed rest (fst r) in
      (fst r', snd r ++ snd r')
  end.

(** [_failAll(err)]: every waiter is rejected and removed. *)
Definition _failAll (m : MuxReader) : MuxReader * list nat :=
  ({| buf := buf m; waiters := [] |}, map promise (waiters m)).

(** [readFrame(filter, timeoutMs)] up to its call of [_pump]: a waiter is
    queued for promise [p]. *)
Definition enqueue (m : MuxReader) (f : Z -> Z -> bool) (p : nat)
  : MuxReader :=
  {| buf := buf m; waiters := waiters m ++ [{| filter := f; promise := p |}] |}.

(** [w.resolve === resolve] in the timer of [readFrame] for promise [p].
    The [resolve] field of a waiter is the arrow function that
    [readFrame] stored, which clears the timer and then calls the
    [resolve] of the promise; it is another function object than that
    [resolve] itself, for the waiter of [p] as for any other. *)
Definition same_resolve (w : waiter) (p : nat) : bool := false.

(** The timer of [readFrame] for promise [p] fires: it removes the
    waiter that [same_resolve] finds, if any, before it rejects the
    promise. *)
Definition expire (m : MuxReader) (p : nat) : MuxReader :=
  match findIndex (fun w => same_resolve w p) (waiters m) with
  | Some idx => {| buf := buf m; waiters := splice1 idx (waiters m) |}
  | None => m
  end.

(** *** The client *)

Inductive peer : Type :=
| PeerRaw (raw : value)
| PeerAddr (ip : string) (port : value).

(** The record that the client prints on success *)
Record report : Type := {
  peer_host : string;
  peer_port : Z;
  handshake_version : value;
  handshake_versionData : value;
  tipDecoded : value;
  tipCborHex : string;
  discoveredPeers : list peer
}.

(** Where [run] is suspended *)
Inductive phase : Type :=
| Connecting
| AwaitHandshake
| AwaitChainSync (negotiatedVersion negotiatedData : value)
| AwaitPeerShare (negotiatedVersion negotiatedData tip : value)
| Exited (code : Z).

Record state : Type := {
  mux : MuxReader;
  at_phase : phase;
  (** the buffers given to [socket.write], oldest first *)
  written : list Buffer;
  stdout : list report;
  stderr : list error
}.

(** What the environment delivers to the process *)
Inductive event : Type :=
| SocketConnect
| SocketData (d : Buffer)
| SocketClose
| SocketError (e : error)
| TimerFired.

(** The promise that [run] awaits in a phase *)
Definition awaited (ph : phase) : nat :=
  match ph with
  | AwaitChainSync _ _ => 1
  | AwaitPeerShare _ _ _ => 2
  | _ => 0
  end.

Definition initial : state :=
  {| mux := {| buf := []; waiters := [] |};
     at_phase := Connecting; written := []; stdout := []; stderr := [] |}.

Section Client.

Context `{RT : Runtime}.

(** The command line *)
Variables (HOST : string) (PORT : Z) (NETWORK_MAGIC : Z)
          (WANT_PEER_SHARING : bool).

Definition decodeCbor (b : Buffer) : value :=
  match decode b with
  | inr v => v
  | inl e => VObj [("_decodeError"%string, VStr (error_string e));
                   ("_hex"%string, VStr (toHex b))]
  end.

(** The object literal lists key 15 before key 14; an object enumerates
    integer keys in ascending order, and its keys are strings. *)
Definition handshakePropose : value :=
  let diffusionMode := false in
  let peerSharing := if WANT_PEER_SHARING then 1 else 0 in
  let query := false in
  let versionTable :=
    VObj [("14"%string,
           VArr [VNum (JS.shru NETWORK_MAGIC 0); VBool diffusionMode;
                 VNum peerSharing; VBool query]);
          ("15"%string,
           VArr [VNum (JS.shru NETWORK_MAGIC 0); VBool diffusionMode;
                 VNum peerSharing; VBool query])] in
  VArr [VNum 0; versionTable].

Definition hs_filter (mp mode : Z) : bool := (mp =? MP_HANDSHAKE) && (mode =? 1).
Definition cs_filter (mp mode : Z) : bool := (mp =? MP_CHAINSYNC) && (mode =? 1).
Definition ps_filter (mp mode : Z) : bool := (mp =? MP_PEERSHARE) && (mode =? 1).

(** The rejection handler of [run()]: the error is printed and the
    process exits with status 1. *)
Definition fail (e : error) (st : state) : state :=
  {| mux := mux st; at_phase := Exited 1; written := written st;
     stdout := stdout st; stderr := stderr st ++ [e] |}.

Definition socket_write (b : Buffer) (st : state) : state :=
  {| mux := mux st; at_phase := at_phase st; written := written st ++ [b];
     stdout := stdout st; stderr := stderr st |}.

(** [await mux.readFrame(f, TIMEOUT_MS)]: the waiter is queued and [run]
    is suspended at [ph].  The [_pump] call that [readFrame] ends with
    finds no complete frame, because every earlier [_pump] only stops on
    an incomplete buffer (lemma [_pump_idle]). *)
Definition readFrame (f : Z -> Z -> bool) (p : nat) (ph : phase) (st : state)
  : state :=
  {| mux := enqueue (mux st) f p; at_phase := ph; written := written st;
     stdout := stdout st; stderr := stderr st |}.

(** The body of the [map] callback over the shared peer addresses; the
    shifts throw on a BigInt. *)
Definition peer_of (addr : value) : result peer :=
  if negb (isArray addr) then Ok (PeerRaw addr)
  else if is_num (item (elements addr) 0) 0 then
    ipNum <- shru0 (item (elements addr) 1) ;;
    let ip :=
      String.concat "."
        [decimal (JS.and (JS.shru ipNum 24) 255);
         decimal (JS.and (JS.shru ipNum 16) 255);
         decimal (JS.and (JS.shru ipNum 8) 255);
         decimal (JS.and ipNum 255)] in
    Ok (PeerAddr ip (item (elements addr) 2))
  else if is_num (item (elements addr) 0) 1 then
    parts <- map_result
               (fun w => n <- shru0 w ;; Ok (padStart0 8 (toString16 n)))
               (slice (elements addr) 1 5) ;;
    let ip := String.concat ":" parts in
    Ok (PeerAddr ip (item (elements addr) 5))
  else Ok (PeerRaw addr).

(** Whether [JSON.stringify] meets a BigInt in a peer of the report, of
    which it prints the raw address or the port as decoded *)
Definition peer_holds_bigint (p : peer) : bool :=
  match p with
  | PeerRaw raw => holds_bigint raw
  | PeerAddr _ port => holds_bigint port
  end.

(** Whether [JSON.stringify] prints the report: the host, the port and
    the hex text are a string and numbers, the rest is as decoded. *)
Definition printable (r : report) : bool :=
  negb (holds_bigint (handshake_version r)
        || holds_bigint (handshake_versionData r)
        || holds_bigint (tipDecoded r)
        || existsb peer_holds_bigint (discoveredPeers r)).

(** The output block: the report is printed, the socket destroyed, and
    the process ends with status 0.  No [try] surrounds the block: when
    [JSON.stringify] throws, [run] is rejected with its exception. *)
Definition finish (negotiatedVersion negotiatedData tip : value)
    (peers : list peer) (st : state) : state :=
  let r :=
    {| peer_host := HOST; peer_port := PORT;
       handshake_version := negotiatedVersion;
       handshake_versionData := negotiatedData;
       tipDecoded := tip;
       tipCborHex := toHex (encode tip);
       discoveredPeers := peers |} in
  if printable r then
    {| mux := mux st; at_phase := Exited 0; written := written st;
       stdout := stdout st ++ [r]; stderr := stderr st |}
  else fail (TypeError "Do not know how to serialize a BigInt") st.

(** [run] up to its first [await] on the multiplexer *)
Definition on_connect (st : state) : state :=
  let hsMsg := handshakePropose in
  let hsPayload := encode hsMsg in
  match muxFrame MP_HANDSHAKE 0 hsPayload with
  | inl e => fail e st
  | inr f => readFrame hs_filter 0 AwaitHandshake (socket_write f st)
  end.

(** [run] from the handshake response to the ChainSync [await] *)
Definition after_handshake (hsResp : frame) (st : state) : state :=
  let hsObj := decodeCbor (payload hsResp) in
  if negb (isArray hsObj) || (length (elements hsObj) <? 1)%nat then
    fail (Error "bad handshake response") st
  else if is_num (item (elements hsObj) 0) 2 then
    match stringify hsObj with
    | inl e => fail e st
    | inr text => fail (Error ("handshake refused: " ++ text)) st
    end
  else if negb (is_num (item (elements hsObj) 0) 1) then
    match stringify hsObj with
    | inl e => fail e st
    | inr text =>
        fail (Error ("unexpected handshake response tag "
                     ++ ToString (item (elements hsObj) 0) ++ ": "
                     ++ text)) st
    end
  else
    let negotiatedVersion := item (elements hsObj) 1 in
    let negotiatedData := item (elements hsObj) 2 in
    let findIntersect := VArr [VNum 4; VArr []] in
    match muxFrame MP_CHAINSYNC 0 (encode findIntersect) with
    | inl e => fail e st
    | inr f =>
        readFrame cs_filter 1
          (AwaitChainSync negotiatedVersion negotiatedData)
          (socket_write f st)
    end.

(** The tip that [run] takes from the decoded ChainSync response *)
Definition tip_of (csObj : value) : result value :=
  if isArray csObj && is_num (item (elements csObj) 0) 6 then
    Ok (item (elements csObj) 1)
  else if isArray csObj && is_num (item (elements csObj) 0) 5 then
    Ok (item (elements csObj) 2)
  else
    text <- stringify csObj ;;
    throw (Error ("unexpected ChainSync response: " ++ text)).

(** [run] from the ChainSync response to the PeerSharing [await], or to
    the end when peer sharing is not wanted.  An exception of the
    PeerSharing block is caught and leaves the peer list empty. *)
Definition after_chainsync (negotiatedVersion negotiatedData : value)
    (csResp : frame) (st : state) : state :=
  let csObj := decodeCbor (payload csResp) in
  match tip_of csObj with
  | inl e => fail e st
  | inr tip =>
      if WANT_PEER_SHARING then
        let reqN := 25 in
        match muxFrame MP_PEERSHARE 0 (encode (VArr [VNum 0; VNum reqN])) with
        | inl _ => finish negotiatedVersion negotiatedData tip [] st
        | inr f =>
            readFrame ps_filter 2
              (AwaitPeerShare negotiatedVersion negotiatedData tip)
              (socket_write f st)
        end
      else finish negotiatedVersion negotiatedData tip [] st
  end.

(** [run] from the PeerSharing response to the end *)
Definition after_peershare (negotiatedVersion negotiatedData tip : value)
    (psResp : frame) (st : state) : state :=
  let psObj := decodeCbor (payload psResp) in
  let peers :=
    if isArray psObj && is_num (item (elements psObj) 0) 1
       && isArray (item (elements psObj) 1)
    then
      match map_result peer_of (elements (item (elements psObj) 1)) with
      | inr found => found
      | inl _ => []
      end
    else [] in
  finish negotiatedVersion negotiatedData tip peers st.

(** The awaited promise resolves with [f]. *)
Definition resume (f : frame) (st : state) : state :=
  match at_phase st with
  | AwaitHandshake => after_handshake f st
  | AwaitChainSync v d => after_chainsync v d f st
  | AwaitPeerShare v d tip => after_peershare v d tip f st
  | Connecting | Exited _ => st
  end.

(** The awaited promise is rejected with [e]. *)
Definition reject (e : error) (st : state) : state :=
  match at_phase st with
  | AwaitPeerShare v d tip => finish v d tip [] st
  | _ => fail e st
  end.

Definition with_mux (m : MuxReader) (st : state) : state :=
  {| mux := m; at_phase := at_phase st; written := written st;
     stdout := stdout st; stderr := stderr st |}.

(** One event of the process.  Promise continuations run between two
    events, so a [data] event pumps the whole buffer before [run]
    resumes. *)
Definition step (st : state) (ev : event) : state :=
  match at_phase st with
  | Exited _ => st
  | Connecting =>
      match ev with
      | SocketConnect => on_connect st
      | SocketError e => fail e st
      | TimerFired => fail (Error "connect timeout") st
      | SocketData _ | SocketClose => st
      end
  | _ =>
      match ev with
      | SocketConnect => st
      | SocketData d =>
          let r := on_data (mux st) d in
          match snd r with
          | [] => with_mux (fst r) st
          | (_, f) :: _ => resume f (with_mux (fst r) st)
          end
      | SocketClose =>
          reject (Error "socket closed") (with_mux (fst (_failAll (mux st))) st)
      | SocketError e =>
          reject e (with_mux (fst (_failAll (mux st))) st)
      | TimerFired =>
          reject (Error "timeout waiting for mux frame")
                 (with_mux (expire (mux st) (awaited (at_phase st))) st)
      end
  end.

Definition run (evs : list event) : state := fold_left step evs initial.

End Client.

End ChainsyncTip.

(** * The callback-driven client ([connectAndFetchTip]) *)

Module FetchTip.

#[local] Obligation Tactic := idtac.

Definition MAINNET_MAGIC : Z := 764824073.

Definition HANDSHAKE : Z := 0.
Definition CHAINSYNC : Z := 2.
Definition PEERSHARE : Z := 10.

(** [now32()], given the reading of [Date.now()] *)
Definition now32 (now : Z) : Z := JS.shru now 0.

Definition muxHeader (now : Z) (modeBit miniProtocolId length : Z)
  : result Buffer :=
  let buf := alloc 8 in
  buf <- writeUInt32BE buf (now32 now) 0 ;;
  let word2 :=
    JS.or (JS.or (JS.shl (JS.and modeBit 1) 31)
                 (JS.shl (JS.and miniProtocolId 0x7fff) 16))
          (JS.and length 0xffff) in
  writeUInt32BE buf (JS.shru word2 0) 4.

(** The payload is always a [Buffer] here, so the [Buffer.from]
    conversion of the first line does not apply. *)
Definition packSegment (now : Z) (miniProtocolId modeBit : Z)
    (payloadBuf : Buffer) : result Buffer :=
  if blen payloadBuf >? 0xffff then
    throw (Error ("payload too big for mux uint16 length: "
                  ++ decimal (blen payloadBuf)))
  else
    header <- muxHeader now modeBit miniProtocolId (blen payloadBuf) ;;
    Ok (header ++ payloadBuf).

Record segment : Type := {
  t : Z;
  modeBit : Z;
  miniProtocolId : Z;
  payload : Buffer
}.

Definition w2 (b : Buffer) : Z := readUInt32BE b 4.
Definition length_field (b : Buffer) : Z := JS.and (w2 b) 0xffff.

Definition head_segment (b : Buffer) : segment :=
  {| t := readUInt32BE b 0;
     modeBit := JS.and (JS.shru (w2 b) 31) 1;
     miniProtocolId := JS.and (JS.shru (w2 b) 16) 0x7fff;
     payload := subarray b 8 (Z.to_nat (8 + length_field b)) |}.

Lemma length_field_range (b : Buffer) : 0 <= length_field b < 2 ^ 16.
Proof.
  unfold length_field, JS.and. change (JS.ToInt32 65535) with (Z.ones 16).
  rewrite Z.land_ones by lia. apply Z.mod_pos_bound. lia.
Qed.

(** *** [class MuxReader] *)

Section MuxReader.

(** The callback given to the constructor acts on a state of the
    caller; an exception that it raises leaves [push]. *)
Context {S : Type} (onSegment : segment -> S -> raised S S).

#[local] Opaque length_field head_segment.

(** The loop of [push] on the buffer [b]; it gives the buffer that is
    left and the caller's state. *)
Equations? push_loop (b : Buffer) (s : S) : raised S (Buffer * S)
  by wf (length b) lt :=
  push_loop b s with inspect (blen b >=? 8) := {
    | exist _ false _ => inr (b, s)
    | exist _ true H1 with inspect (blen b <? 8 + length_field b) := {
      | exist _ true _ => inr (b, s)
      | exist _ false H2 with onSegment (head_segment b) s := {
        | inl e => inl e
        | inr s' =>
            push_loop (subarray_from b (Z.to_nat (8 + length_field b))) s' } } }.
Proof.
  unfold subarray_from; rewrite length_skipn; unfold blen in *.
  pose proof (length_field_range b).
  apply Z.geb_le in H1. apply Z.ltb_ge in H2. lia.
Qed.

#[local] Transparent length_field head_segment.

(** [push(chunk)] on a reader whose buffer is [b] *)
Definition push (chunk : Buffer) (b : Buffer) (s : S) : raised S (Buffer * S) :=
  push_loop (b ++ chunk) s.

(** [push] called on each chunk in turn *)
Fixpoint feed (chunks : list Buffer) (b : Buffer) (s : S)
  : raised S (Buffer * S) :=
  match chunks with
  | [] => inr (b, s)
  | chunk :: rest =>
      match push chunk b s with
      | inl e => inl e
      | inr r => feed rest (fst r) (snd r)
      end
  end.

End MuxReader.

Record peer : Type := {
  ip : string;
  port : Z
}.

Inductive pretty : Type :=
| Tip (slot : Z) (hashHex : string) (blockNo : Z)
| RawTip (tip : value).

(** The object [state] of [connectAndFetchTip] *)
Record client : Type := {
  handshakeDone : bool;
  negotiatedVersion : value;
  peers : list peer;
  gotTip : bool
}.

(** The value that the promise is resolved with; its [peersDiscovered]
    field is the array [state.peers] itself, so it is read from the
    client state when the result is printed. *)
Record resolution : Type := {
  res_negotiatedVersion : value;
  res_tip : pretty;
  res_tipRaw : value
}.

(** What the success handler prints *)
Record report : Type := {
  rep_host : string;
  rep_port : Z;
  rep_negotiatedVersion : value;
  rep_tip : pretty;
  rep_peersDiscovered : list peer;
  rep_peersDiscoveredCount : Z
}.

Record state : Type := {
  cl : client;
  (** [mux.buf] *)
  mux_buf : Buffer;
  (** false once [socket.destroy()] or [socket.end()] was called: later
      writes send nothing *)
  writable : bool;
  (** the buffers that the socket accepted, oldest first *)
  written : list Buffer;
  (** how the promise was settled, if it was *)
  settled : option (error + resolution);
  (** the number of readings of [Date.now()] so far *)
  ticks : nat;
  stdout : list report;
  stderr : list error;
  (** the status that the process exited with, if it did *)
  exited : option Z
}.

Inductive event : Type :=
| SocketConnect
| SocketData (chunk : Buffer)
| SocketError (e : error)
| SocketEnd
| TimerFired.

Definition initial : state :=
  {| cl := {| handshakeDone := false; negotiatedVersion := VNull;
              peers := []; gotTip := false |};
     mux_buf := []; writable := true; written := []; settled := None;
     ticks := O; stdout := []; stderr := []; exited := None |}.

Definition ipv4FromWord32 (w : Z) : string :=
  String.concat "."
    [decimal (JS.and (JS.shru w 24) 0xff);
     decimal (JS.and (JS.shru w 16) 0xff);
     decimal (JS.and (JS.shru w 8) 0xff);
     decimal (JS.and w 0xff)].

Section Client.

Context `{RT : Runtime}.

(** The [n]-th reading of [Date.now()] in the life of the process *)
Variable Date_now : nat -> Z.

(** The arguments of [connectAndFetchTip] *)
Variables (host : string) (port_arg : Z).

(** The body of the loop of [parsePeerAddresses] for one element, given
    the peers collected so far; the shifts throw on a BigInt. *)
Definition parse_one (out : list peer) (a : value) : result (list peer) :=
  if negb (isArray a) || (length (elements a) <? 3)%nat then Ok out
  else
    let tag := item (elements a) 0 in
    if is_num tag 0 && (length (elements a) =? 3)%nat then
      w <- shru0 (item (elements a) 1) ;;
      let ip := ipv4FromWord32 w in
      port <- shru0 (item (elements a) 2) ;;
      Ok (out ++ [{| ip := ip; port := port |}])
    else if is_num tag 1 && (length (elements a) =? 6)%nat then
      words <- map_result
                 (fun x => n <- shru0 x ;; Ok (padStart0 8 (toString16 n)))
                 (slice (elements a) 1 5) ;;
      let ip := String.concat ":" words in
      port <- shru0 (item (elements a) 5) ;;
      Ok (out ++ [{| ip := ip; port := port |}])
    else Ok out.

Definition parsePeerAddresses (peerAddresses : value) : result (list peer) :=
  l <- (if falsy peerAddresses then Ok [] else iterator peerAddresses) ;;
  for_of parse_one l [].

Definition prettyTip (tip : value) : pretty :=
  match tip with
  | VArr [VNum slot; VBuf hash; VNum blockNo] => Tip slot (toHex hash) blockNo
  | _ => RawTip tip
  end.

(** [kill(err)] with an error: the socket is destroyed and the promise
    rejected, which has no effect on a settled promise. *)
Definition kill (err : error) (st : state) : state :=
  {| cl := cl st; mux_buf := mux_buf st; writable := false;
     written := written st;
     settled := match settled st with
                | None => Some (inl err)
                | Some r => Some r
                end;
     ticks := ticks st; stdout := stdout st; stderr := stderr st;
     exited := exited st |}.

(** [socket.write(packSegment(mp, 0, payload))]: the segment is packed,
    which reads the clock and may throw, and is sent if the socket still
    accepts data. *)
Definition write_segment (mp : Z) (payloadBuf : Buffer) (st : state)
  : raised state state :=
  match packSegment (Date_now (ticks st)) mp 0 payloadBuf with
  | inl e => inl (e, st)
  | inr seg =>
      inr {| cl := cl st; mux_buf := mux_buf st; writable := writable st;
             written := if writable st then written st ++ [seg]
                        else written st;
             settled := settled st; ticks := Datatypes.S (ticks st);
             stdout := stdout st; stderr := stderr st; exited := exited st |}
  end.

Definition with_client (c : client) (st : state) : state :=
  {| cl := c; mux_buf := mux_buf st; writable := writable st;
     written := written st; settled := settled st; ticks := ticks st;
     stdout := stdout st; stderr := stderr st; exited := exited st |}.

(** The end of the ChainSync branch: [socket.end()] and [resolve]. *)
Definition resolve (r : resolution) (st : state) : state :=
  {| cl := cl st; mux_buf := mux_buf st; writable := false;
     written := written st;
     settled := match settled st with
                | None => Some (inr r)
                | Some r' => Some r'
                end;
     ticks := ticks st; stdout := stdout st; stderr := stderr st;
     exited := exited st |}.

(** [mkVData], [versionTable] and [propose] of the connection
    callback *)
Definition mkVData (peerSharing diffusionMode query : bool) : value :=
  VArr [VNum MAINNET_MAGIC; VBool diffusionMode;
        VNum (if peerSharing then 1 else 0); VBool query].

Definition versionTable : value :=
  VMap [(VNum 15, mkVData true false false);
        (VNum 14, mkVData true false false)].

Definition propose : value := VArr [VNum 0; versionTable].

(** The callback of the connection: the first write of the client *)
Definition on_connect (st : state) : raised state state :=
  let proposeBuf := encode propose in
  write_segment HANDSHAKE proposeBuf st.

(** The callback given to [new MuxReader] *)
Definition onSegment (seg : segment) (st : state) : raised state state :=
  match decode (payload seg) with
  | inl e =>
      inr (kill (Error ("CBOR decode failed on miniProtocol "
                       ++ decimal (miniProtocolId seg) ++ ": "
                       ++ match e with
                          | Error m | RangeError m | TypeError m => m
                          end)) st)
  | inr msg =>
      if miniProtocolId seg =? HANDSHAKE then
        if negb (isArray msg) || (length (elements msg) <? 1)%nat then inr st
        else
          let tag := item (elements msg) 0 in
          if is_num tag 1 then
            let st :=
              with_client
                {| handshakeDone := true;
                   negotiatedVersion := item (elements msg) 1;
                   peers := peers (cl st); gotTip := gotTip (cl st) |} st in
            let wantPeers := 8 in
            let psReq := VArr [VNum 0; VNum wantPeers] in
            match write_segment PEERSHARE (encode psReq) st with
            | inl ex => inl ex
            | inr st =>
                let findIntersect := VArr [VNum 4; VArr []] in
                write_segment CHAINSYNC (encode findIntersect) st
            end
          else if is_num tag 2 then
            match stringify msg with
            | inl e => inl (e, st)
            | inr text => inr (kill (Error ("Handshake refused: " ++ text)) st)
            end
          else inr st
      else if miniProtocolId seg =? PEERSHARE then
        if isArray msg && is_num (item (elements msg) 0) 1 then
          match parsePeerAddresses (item (elements msg) 1) with
          | inl e => inl (e, st)
          | inr found =>
              inr (with_client
                     {| handshakeDone := handshakeDone (cl st);
                        negotiatedVersion := negotiatedVersion (cl st);
                        peers := peers (cl st) ++ found;
                        gotTip := gotTip (cl st) |} st)
          end
        else inr st
      else if miniProtocolId seg =? CHAINSYNC then
        if isArray msg
           && (is_num (item (elements msg) 0) 5
               || is_num (item (elements msg) 0) 6) then
          let tip :=
            if is_num (item (elements msg) 0) 5 then item (elements msg) 1
            else item (elements msg) 2 in
          let st :=
            with_client
              {| handshakeDone := handshakeDone (cl st);
                 negotiatedVersion := negotiatedVersion (cl st);
                 peers := peers (cl st); gotTip := true |} st in
          inr (resolve {| res_negotiatedVersion := negotiatedVersion (cl st);
                          res_tip := prettyTip tip;
                          res_tipRaw := tip |} st)
        else inr st
      else inr st
  end.

(** An exception that no handler catches ends the process with
    status 1. *)
Definition crash (e : error) (st : state) : state :=
  {| cl := cl st; mux_buf := mux_buf st; writable := writable st;
     written := written st; settled := settled st; ticks := ticks st;
     stdout := stdout st; stderr := stderr st ++ [e]; exited := Some 1 |}.

(** Whether [JSON.stringify] prints the report: the peer, the peers
    discovered and their count are strings and numbers; the negotiated
    version is as decoded, and so is a tip that [prettyTip] left as it
    was. *)
Definition printable (r : report) : bool :=
  negb (holds_bigint (rep_negotiatedVersion r)
        || match rep_tip r with
           | Tip _ _ _ => false
           | RawTip tip => holds_bigint tip
           end).

(** The rejection handler: the error is printed and the process exits
    with status 1. *)
Definition failed (e : error) (st : state) : state :=
  {| cl := cl st; mux_buf := mux_buf st; writable := writable st;
     written := written st; settled := settled st; ticks := ticks st;
     stdout := stdout st; stderr := stderr st ++ [e]; exited := Some 1 |}.

(** The handlers of the promise run once the event callback returned:
    a resolved promise prints the report and exits with status 0, a
    rejected one prints the error and exits with status 1.  When
    [JSON.stringify] throws in the first handler, its exception rejects
    the promise that the second handler is attached to. *)
Definition settle (st : state) : state :=
  match exited st, settled st with
  | None, Some (inr r) =>
      let rep :=
        {| rep_host := host; rep_port := port_arg;
           rep_negotiatedVersion := res_negotiatedVersion r;
           rep_tip := res_tip r;
           rep_peersDiscovered := firstn 30 (peers (cl st));
           rep_peersDiscoveredCount := Z.of_nat (length (peers (cl st))) |} in
      if printable rep then
        {| cl := cl st; mux_buf := mux_buf st; writable := writable st;
           written := written st; settled := settled st; ticks := ticks st;
           stdout := stdout st ++ [rep];
           stderr := stderr st; exited := Some 0 |}
      else failed (TypeError "Do not know how to serialize a BigInt") st
  | None, Some (inl e) => failed e st
  | _, _ => st
  end.

Definition with_buf (b : Buffer) (st : state) : state :=
  {| cl := cl st; mux_buf := b; writable := writable st;
     written := written st; settled := settled st; ticks := ticks st;
     stdout := stdout st; stderr := stderr st; exited := exited st |}.

(** The listeners of the socket and the timer *)
Definition handle (st : state) (ev : event) : raised state state :=
  match ev with
  | SocketConnect => on_connect st
  | SocketData chunk =>
      match push onSegment chunk (mux_buf st) st with
      | inl ex => inl ex
      | inr r => inr (with_buf (fst r) (snd r))
      end
  | SocketError e => inr (kill e st)
  | SocketEnd =>
      if negb (gotTip (cl st)) then
        inr (kill (Error "Socket ended before receiving tip.") st)
      else inr st
  | TimerFired =>
      inr (kill (Error "Timeout waiting for handshake/tip (peer may not like our handshake or mux framing).") st)
  end.

(** One event of the process *)
Definition step (st : state) (ev : event) : state :=
  match exited st with
  | Some _ => st
  | None =>
      match handle st ev with
      | inl (e, st') => crash e st'
      | inr st' => settle st'
      end
  end.

Definition run (evs : list event) : state := fold_left step evs initial.

End Client.

End FetchTip.

(** * The lab script ([lab/gemini-ouroboros-client.cjs]) *)

Module Lab.

#[local] Obligation Tactic := idtac.


Definition HANDSHAKE : Z := 0.
Definition CHAIN_SYNC : Z := 2.

Definition PROPOSE : Z := 0.
Definition ACCEPT : Z := 1.
Definition REFUSE : Z := 2.

Definition FIND_INTERSECT : Z := 4.
Definition INTERSECT_FOUND : Z := 5.
Definition INTERSECT_NOT_FOUND : Z := 6.

(** The value of a hexadecimal digit, in either case *)
Definition hex_value (c : ascii) : option Z :=
  let n := Z.of_nat (nat_of_ascii c) in
  if (48 <=? n) && (n <=? 57) then Some (n - 48)
  else if (97 <=? n) && (n <=? 102) then Some (n - 87)
  else if (65 <=? n) && (n <=? 70) then Some (n - 55)
  else None.

(** [Buffer.from(s, 'hex')]: decoding stops at the first pair that is
    not hexadecimal. *)
Fixpoint from_hex (s : string) : Buffer :=
  match s with
  | String a (String b rest) =>
      match hex_value a, hex_value b with
      | Some x, Some y => byte_of_Z (16 * x + y) :: from_hex rest
      | _, _ => []
      end
  | _ => []
  end.

Definition buildHandshakePayload : Buffer :=
  let v10Data :=
    concat [from_hex "82"; from_hex "1A2D964A09"; from_hex "F5"] in
  let v13Data :=
    concat [from_hex "84"; from_hex "1A2D964A09"; from_hex "F5";
            from_hex "00"; from_hex "F4"] in
  let versionMapHeader := from_hex "A2" in
  let entryV10 := concat [from_hex "0A"; v10Data] in
  let entryV13 := concat [from_hex "0D"; v13Data] in
  concat [from_hex "82"; from_hex "00"; versionMapHeader; entryV10; entryV13].

(** [createMuxFrame(protocolId, payload)], given the reading of
    [Date.now()], an integer number of milliseconds that a double holds
    exactly; its product with 1000 is a double again. *)
Definition createMuxFrame (now : Z) (protocolId : Z) (payload : Buffer)
  : result Buffer :=
  let header := alloc 8 in
  let ts := JS.and (JS.times now 1000) 0xFFFFFFFF in
  header <- writeUInt32BE header ts 0 ;;
  header <- writeUInt16BE header protocolId 4 ;;
  header <- writeUInt16BE header (blen payload) 6 ;;
  Ok (header ++ payload).

(** What the script prints, with the values that the messages show *)
Inductive line : Type :=
| Connected
| SendingHandshake
| HandshakeAccepted (version : value)
| SendingChainSync
| HandshakeRefused (shown : value)
| DecodingError (err : error)
| TipBanner
| TipRule
| TipSlot (slot : value)
| TipBlockNo (blockNo : value)
| TipHash (hash : string)
| SocketErrorLine (e : error)
| Disconnected.

Record state : Type := {
  (** the module variable [buffer] *)
  buffer : Buffer;
  (** true once [socket.destroy()] was called: later writes send
      nothing *)
  destroyed : bool;
  (** the buffers that the socket accepted, oldest first *)
  written : list Buffer;
  console : list line;
  (** the number of readings of [Date.now()] so far *)
  ticks : nat;
  (** the status that the process ended with, if it did *)
  exited : option Z
}.

Inductive event : Type :=
| SocketConnect
| SocketData (chunk : Buffer)
| SocketError (e : error)
| SocketClose.

Definition initial : state :=
  {| buffer := []; destroyed := false; written := []; console := [];
     ticks := O; exited := None |}.

Definition log (l : line) (st : state) : state :=
  {| buffer := buffer st; destroyed := destroyed st; written := written st;
     console := console st ++ [l]; ticks := ticks st; exited := exited st |}.

Definition destroy (st : state) : state :=
  {| buffer := buffer st; destroyed := true; written := written st;
     console := console st; ticks := ticks st; exited := exited st |}.

Definition protocolId_of (b : Buffer) : Z := readUInt16BE b 4.
Definition payloadLen_of (b : Buffer) : Z := readUInt16BE b 6.

Lemma payloadLen_range (b : Buffer) : 0 <= payloadLen_of b < 2 ^ 16.
Proof.
  unfold payloadLen_of, readUInt16BE, byte_at.
  pose proof (Z_of_byte_range (nth 6 b x00)).
  pose proof (Z_of_byte_range (nth (6 + 1) b x00)).
  change (2 ^ 8) with 256. change (2 ^ 16) with 65536. lia.
Qed.

(** [v.length] *)
Definition length_of (v : value) : value :=
  match v with
  | VArr a => VNum (Z.of_nat (length a))
  | VStr s => VNum (Z.of_nat (String.length s))
  | VBuf b => VNum (blen b)
  | VObj props => prop props "length"
  | _ => VUndefined
  end.

(** [v[k]] for a property name that is not an array index *)
Definition get_named (v : value) (k : string) : result value :=
  match v with
  | VUndefined | VNull =>
      throw (TypeError "Cannot read properties of undefined or null")
  | VObj props => Ok (prop props k)
  | _ => Ok VUndefined
  end.

Section Client.

Context `{RT : Runtime}.

(** The [n]-th reading of [Date.now()] in the life of the process *)
Variable Date_now : nat -> Z.

(** [socket.write(createMuxFrame(protocolId, payload))]: building the
    frame reads the clock and may throw; a destroyed socket sends
    nothing. *)
Definition write_frame (protocolId : Z) (payload : Buffer) (st : state)
  : raised state state :=
  match createMuxFrame (Date_now (ticks st)) protocolId payload with
  | inl e =>
      inl (e, {| buffer := buffer st; destroyed := destroyed st;
                 written := written st; console := console st;
                 ticks := S (ticks st); exited := exited st |})
  | inr f =>
      inr {| buffer := buffer st; destroyed := destroyed st;
             written := if destroyed st then written st
                        else written st ++ [f];
             console := console st; ticks := S (ticks st);
             exited := exited st |}
  end.

(** [hash.toString('hex')] *)
Definition toString_hex (hash : value) : result string :=
  match hash with
  | VUndefined | VNull =>
      throw (TypeError "Cannot read properties of undefined or null")
  | VBuf b => Ok (toHex b)
  | VStr s => Ok s
  | VNum _ | VBig _ =>
      throw (RangeError "toString() radix must be between 2 and 36")
  | _ => Ok (ToString hash)
  end.

Definition handleHandshake (payload : Buffer) (st : state)
  : raised state state :=
  lift st (decode payload) (fun decoded =>
  lift st (get decoded 0) (fun msgId =>
  if is_num msgId ACCEPT then
    lift st (get decoded 1) (fun version =>
    let st := log (HandshakeAccepted version) st in
    let st := log SendingChainSync st in
    let chainSyncPayload := from_hex "820480" in
    write_frame CHAIN_SYNC chainSyncPayload st)
  else if is_num msgId REFUSE then
    lift st (get decoded 2) (fun shown =>
    lift st (stringify shown) (fun _ =>
    let st := log (HandshakeRefused shown) st in
    inr (destroy st)))
  else inr st)).

(** [decoded[decoded.length - 1]] *)
Definition last_element (decoded : value) : result value :=
  n <- ToNumber (length_of decoded) ;;
  match n with
  | Some n => get decoded (n - 1)
  | None => get_named decoded "NaN"
  end.

(** [const [x, y] = v] *)
Definition destructure2 (v : value) : result (value * value) :=
  l <- iterator v ;; Ok (item l 0, item l 1).

Definition handleChainSync (payload : Buffer) (st : state)
  : raised state state :=
  lift st (decode payload) (fun decoded =>
  lift st (get decoded 0) (fun msgId =>
  if is_num msgId INTERSECT_FOUND || is_num msgId INTERSECT_NOT_FOUND then
    lift st (last_element decoded) (fun tip =>
    lift st (destructure2 tip) (fun '(point, blockNo) =>
    lift st (destructure2 point) (fun '(slot, hash) =>
    let st := log TipBanner st in
    let st := log TipRule st in
    let st := log (TipSlot slot) st in
    let st := log (TipBlockNo blockNo) st in
    lift st (toString_hex hash) (fun hashHex =>
    let st := log (TipHash hashHex) st in
    let st := log TipRule st in
    inr (destroy st)))))
  else inr st)).

(** The body of the [try] statement of the data listener, with its
    [catch] clause *)
Definition dispatch (protocolId : Z) (payload : Buffer) (st : state) : state :=
  match
    (if protocolId =? HANDSHAKE then handleHandshake payload st
     else if protocolId =? CHAIN_SYNC then handleChainSync payload st
     else inr st)
  with
  | inr st' => st'
  | inl (err, st') => destroy (log (DecodingError err) st')
  end.

#[local] Opaque payloadLen_of protocolId_of dispatch.

(** The loop of the data listener on the buffer [b] *)
Equations? data_loop (b : Buffer) (st : state) : Buffer * state
  by wf (length b) lt :=
  data_loop b st with inspect (blen b >=? 8) := {
    | exist _ false _ => (b, st)
    | exist _ true H1 with inspect (blen b <? 8 + payloadLen_of b) := {
      | exist _ true _ => (b, st)
      | exist _ false H2 =>
          data_loop (subarray_from b (Z.to_nat (8 + payloadLen_of b)))
            (dispatch (protocolId_of b)
               (subarray b 8 (Z.to_nat (8 + payloadLen_of b))) st) } }.
Proof.
  unfold subarray_from; rewrite length_skipn; unfold blen in *.
  pose proof (payloadLen_range b).
  apply Z.geb_le in H1. apply Z.ltb_ge in H2. lia.
Qed.

#[local] Transparent payloadLen_of protocolId_of dispatch.

Definition with_buffer (b : Buffer) (st : state) : state :=
  {| buffer := b; destroyed := destroyed st; written := written st;
     console := console st; ticks := ticks st; exited := exited st |}.

Definition on_data (chunk : Buffer) (st : state) : state :=
  let r := data_loop (buffer st ++ chunk) st in
  with_buffer (fst r) (snd r).

(** The data listener called on each chunk in turn *)
Definition feed (chunks : list Buffer) (st : state) : state :=
  fold_left (fun st chunk => on_data chunk st) chunks st.

(** The callback of [socket.connect]; it has no [try] around it. *)
Definition on_connect (st : state) : raised state state :=
  let st := log Connected st in
  let st := log SendingHandshake st in
  let payload := buildHandshakePayload in
  write_frame HANDSHAKE payload st.

Definition exit (code : Z) (st : state) : state :=
  {| buffer := buffer st; destroyed := destroyed st; written := written st;
     console := console st; ticks := ticks st; exited := Some code |}.

(** One event of the process.  An exception that no handler catches
    ends the process with status 1; once the socket has closed nothing
    keeps the process alive and it ends with status 0, the script never
    setting another one. *)
Definition step (st : state) (ev : event) : state :=
  match exited st with
  | Some _ => st
  | None =>
      match ev with
      | SocketConnect =>
          match on_connect st with
          | inl (_, st') => exit 1 st'
          | inr st' => st'
          end
      | SocketData chunk => on_data chunk st
      | SocketError e => log (SocketErrorLine e) st
      | SocketClose => exit 0 (log Disconnected st)
      end
  end.

Definition run (evs : list event) : state := fold_left step evs initial.

End Client.

End Lab.

(** * A reference runtime

    To run the clients on concrete byte streams, the runtime services
    are instantiated with a codec for the definite-length fragment of
    CBOR (RFC 8949: unsigned and negative integers, byte and text
    strings, arrays, maps, and the simple values [false], [true], [null]
    and [undefined]) and a JSON-like printer.  An integer written on
    eight bytes is decoded to a BigInt, and a BigInt is written on eight
    bytes.  The theorems about the clients hold for every runtime; this
    one serves the examples. *)

Module Reference.

(** The initial bytes of a data item of major type [major] with
    argument [n], in the shortest form *)
Definition head (major : Z) (n : Z) : Buffer :=
  if n <? 24 then [byte_of_Z (major * 32 + n)]
  else if n <? 2 ^ 8 then [byte_of_Z (major * 32 + 24); byte_of_Z n]
  else if n <? 2 ^ 16 then byte_of_Z (major * 32 + 25) :: be16 n
  else if n <? 2 ^ 32 then byte_of_Z (major * 32 + 26) :: be32 n
  else byte_of_Z (major * 32 + 27) :: be32 (n / 2 ^ 32) ++ be32 n.

Definition text_bytes (s : string) : Buffer :=
  map (fun c => byte_of_Z (Z.of_nat (nat_of_ascii c))) (list_ascii_of_string s).

Definition bytes_text (b : Buffer) : string :=
  string_of_list_ascii (map (fun x => ascii_of_nat (Z.to_nat (Z_of_byte x))) b).

(** The initial bytes of an integer of major type [major] written on
    eight bytes, as a BigInt is encoded *)
Definition head8 (major : Z) (n : Z) : Buffer :=
  byte_of_Z (major * 32 + 27) :: be32 (n / 2 ^ 32) ++ be32 n.

Fixpoint cbor_encode (v : value) : Buffer :=
  match v with
  | VNum n => if 0 <=? n then head 0 n else head 1 (- 1 - n)
  | VBig n => if 0 <=? n then head8 0 n else head8 1 (- 1 - n)
  | VBool false => [xf4]
  | VBool true => [xf5]
  | VNull => [xf6]
  | VUndefined => [xf7]
  | VBuf b => head 2 (blen b) ++ b
  | VStr s => head 3 (Z.of_nat (String.length s)) ++ text_bytes s
  | VArr a => head 4 (Z.of_nat (length a)) ++ concat (map cbor_encode a)
  | VObj props =>
      head 5 (Z.of_nat (length props))
      ++ concat (map (fun kv => match kv with
                                | (k, x) =>
                                    head 3 (Z.of_nat (String.length k))
                                    ++ text_bytes k ++ cbor_encode x
                                end) props)
  | VMap m =>
      head 5 (Z.of_nat (length m))
      ++ concat (map (fun kv => match kv with
                                | (k, x) => cbor_encode k ++ cbor_encode x
                                end) m)
  end.

(** The argument of a head byte with additional information [ai], and
    the bytes after it *)
Definition argument (ai : Z) (b : Buffer) : option (Z * Buffer) :=
  if ai <? 24 then Some (ai, b)
  else if ai =? 24 then
    if (1 <=? length b)%nat then Some (byte_at b 0, skipn 1 b) else None
  else if ai =? 25 then
    if (2 <=? length b)%nat then Some (readUInt16BE b 0, skipn 2 b) else None
  else if ai =? 26 then
    if (4 <=? length b)%nat then Some (readUInt32BE b 0, skipn 4 b) else None
  else if ai =? 27 then
    if (8 <=? length b)%nat then
      Some (readUInt32BE b 0 * 2 ^ 32 + readUInt32BE b 4, skipn 8 b)
    else None
  else None.

(** Pairs up the keys and values of a map that were read in sequence. *)
Fixpoint pair_up (l : list value) : list (value * value) :=
  match l with
  | k :: x :: rest => (k, x) :: pair_up rest
  | _ => []
  end.

(** Reads [count] data items, then builds a value from them with
    [build]; every call uses up one unit of [fuel]. *)
Fixpoint read_items (fuel : nat) (count : nat) (acc : list value)
    (b : Buffer) : option (list value * Buffer) :=
  match fuel with
  | O => None
  | S fuel' =>
      match count with
      | O => Some (rev acc, b)
      | S count' =>
          match b with
          | [] => None
          | first :: rest =>
              let major := Z_of_byte first / 32 in
              let ai := Z_of_byte first mod 32 in
              if major =? 7 then
                (if ai =? 20 then read_items fuel' count' (VBool false :: acc) rest
                 else if ai =? 21 then read_items fuel' count' (VBool true :: acc) rest
                 else if ai =? 22 then read_items fuel' count' (VNull :: acc) rest
                 else if ai =? 23 then read_items fuel' count' (VUndefined :: acc) rest
                 else None)
              else
                match argument ai rest with
                | None => None
                | Some (n, rest) =>
                    if major =? 0 then
                      read_items fuel' count'
                        ((if ai =? 27 then VBig n else VNum n) :: acc) rest
                    else if major =? 1 then
                      read_items fuel' count'
                        ((if ai =? 27 then VBig (- 1 - n) else VNum (- 1 - n))
                         :: acc) rest
                    else if major =? 2 then
                      if (Z.to_nat n <=? length rest)%nat then
                        read_items fuel' count'
                          (VBuf (firstn (Z.to_nat n) rest) :: acc)
                          (skipn (Z.to_nat n) rest)
                      else None
                    else if major =? 3 then
                      if (Z.to_nat n <=? length rest)%nat then
                        read_items fuel' count'
                          (VStr (bytes_text (firstn (Z.to_nat n) rest)) :: acc)
                          (skipn (Z.to_nat n) rest)
                      else None
                    else if major =? 4 then
                      match read_items fuel' (Z.to_nat n) [] rest with
                      | Some (a, rest) =>
                          read_items fuel' count' (VArr a :: acc) rest
                      | None => None
                      end
                    else if major =? 5 then
                      match read_items fuel' (2 * Z.to_nat n) [] rest with
                      | Some (a, rest) =>
                          read_items fuel' count' (VMap (pair_up a) :: acc) rest
                      | None => None
                      end
                    else None
                end
          end
      end
  end.

Definition cbor_decode (b : Buffer) : result value :=
  match read_items (2 * length b + 2) 1 [] b with
  | Some ([v], []) => Ok v
  | Some _ => throw (Error "Data read, but end of buffer not reached")
  | None => throw (Error "Unexpected end of CBOR data")
  end.

Definition quote : ascii := ascii_of_nat 34.

Fixpoint show (v : value) : string :=
  match v with
  | VUndefined => "undefined"
  | VNull => "null"
  | VBool true => "true"
  | VBool false => "false"
  | VNum n | VBig n => decimal n
  | VStr s => String quote (s ++ String quote EmptyString)
  | VBuf b => toHex b
  | VArr a => "[" ++ String.concat "," (map show a) ++ "]"
  | VObj props =>
      "{" ++ String.concat ","
               (map (fun kv => match kv with
                               | (k, x) => k ++ ":" ++ show x
                               end) props) ++ "}"
  | VMap m =>
      "{" ++ String.concat ","
               (map (fun kv => match kv with
                               | (k, x) => show k ++ ":" ++ show x
                               end) m) ++ "}"
  end%string.

Definition runtime : Runtime :=
  {| encode := cbor_encode;
     decode := cbor_decode;
     JSON_stringify := show;
     ToString := show;
     ToNumber_object := fun _ => None |}.

End Reference.
(** * Facts about the header word *)

Module HeaderWord.

Lemma ToInt32_id (x : Z) : - 2 ^ 31 <= x < 2 ^ 31 -> JS.ToInt32 x = x.
Proof.
  intros H. unfold JS.ToInt32.
  change (2 ^ 31) with 2147483648 in *. change (2 ^ 32) with 4294967296.
  destruct (Z.ltb_spec (x mod 4294967296) 2147483648);
    Z.div_mod_to_equations; lia.
Qed.

Lemma ToUint32_id (x : Z) : 0 <= x < 2 ^ 32 -> JS.ToUint32 x = x.
Proof. intros H. unfold JS.ToUint32. apply Z.mod_small. exact H. Qed.

Lemma land_high_low (k r n : Z) :
  0 <= n -> 0 <= r < 2 ^ n -> Z.land (k * 2 ^ n) r = 0.
Proof.
  intros Hn Hr. apply Z.bits_inj'. intros i Hi.
  rewrite Z.land_spec, Z.bits_0.
  destruct (Z.ltb_spec i n) as [Hlt | Hge].
  - rewrite Z.mul_pow2_bits_low by lia. reflexivity.
  - assert (Z.testbit r i = false) as ->; [| apply andb_false_r].
    destruct (Z.eq_dec r 0) as [-> | Hnz]; [apply Z.bits_0 |].
    apply Z.bits_above_log2; [lia |].
    apply Z.log2_lt_pow2; [lia |].
    apply Z.lt_le_trans with (2 ^ n); [lia |].
    apply Z.pow_le_mono_r; lia.
Qed.

Lemma lor_high_low (k r n : Z) :
  0 <= n -> 0 <= r < 2 ^ n -> Z.lor (k * 2 ^ n) r = k * 2 ^ n + r.
Proof.
  intros Hn Hr. pose proof (Z.add_lor_land (k * 2 ^ n) r) as H.
  rewrite land_high_low in H by assumption. lia.
Qed.

Lemma and_mask (x n : Z) :
  0 <= n < 31 -> - 2 ^ 31 <= x < 2 ^ 31 ->
  JS.and x (2 ^ n - 1) = x mod 2 ^ n.
Proof.
  intros Hn Hx. unfold JS.and. rewrite (ToInt32_id x) by exact Hx.
  assert (0 < 2 ^ n) by (apply Z.pow_pos_nonneg; lia).
  assert (2 ^ n <= 2 ^ 30) by (apply Z.pow_le_mono_r; lia).
  rewrite ToInt32_id by (change (2 ^ 31) with 2147483648;
                         change (2 ^ 30) with 1073741824 in *; lia).
  replace (2 ^ n - 1) with (Z.ones n) by (rewrite Z.ones_equiv; lia).
  apply Z.land_ones. lia.
Qed.

(** The second header word, as both encoders compute it *)
Definition pack (mode mpid length : Z) : Z :=
  JS.shru
    (JS.or (JS.or (JS.shl (JS.and mode 1) 31)
                  (JS.shl (JS.and mpid 0x7fff) 16))
           (JS.and length 0xffff)) 0.

Lemma pack_value (mode mpid length : Z) :
  0 <= mode <= 1 -> 0 <= mpid <= 32767 -> 0 <= length <= 65535 ->
  pack mode mpid length = mode * 2 ^ 31 + mpid * 2 ^ 16 + length.
Proof.
  intros Hm Hp Hl. unfold pack.
  change 1 with (2 ^ 1 - 1) at 1. change 0x7fff with (2 ^ 15 - 1).
  change 0xffff with (2 ^ 16 - 1).
  rewrite !and_mask by (change (2 ^ 31) with 2147483648; lia).
  rewrite (Z.mod_small mode) by (change (2 ^ 1) with 2; lia).
  rewrite (Z.mod_small mpid) by (change (2 ^ 15) with 32768; lia).
  rewrite (Z.mod_small length) by (change (2 ^ 16) with 65536; lia).
  unfold JS.shl, JS.or, JS.shru.
  change (JS.ToUint32 31 mod 32) with 31. change (JS.ToUint32 16 mod 32) with 16.
  change (JS.ToUint32 0 mod 32) with 0.
  rewrite Z.shiftr_0_r, !Z.shiftl_mul_pow2 by lia.
  assert (Hs1 : JS.ToInt32 (JS.ToInt32 mode * 2 ^ 31) = - mode * 2 ^ 31).
  { rewrite (ToInt32_id mode) by (change (2 ^ 31) with 2147483648; lia).
    assert (mode = 0 \/ mode = 1) as [-> | ->] by lia; reflexivity. }
  assert (Hs2 : JS.ToInt32 (JS.ToInt32 mpid * 2 ^ 16) = mpid * 2 ^ 16).
  { rewrite (ToInt32_id mpid) by (change (2 ^ 31) with 2147483648; lia).
    apply ToInt32_id.
    change (2 ^ 31) with 2147483648; change (2 ^ 16) with 65536; lia. }
  rewrite Hs1, Hs2.
  rewrite (ToInt32_id (- mode * 2 ^ 31))
    by (change (2 ^ 31) with 2147483648; lia).
  rewrite (ToInt32_id (mpid * 2 ^ 16))
    by (change (2 ^ 31) with 2147483648; change (2 ^ 16) with 65536; lia).
  rewrite (ToInt32_id length) by (change (2 ^ 31) with 2147483648; lia).
  rewrite (lor_high_low (- mode) (mpid * 2 ^ 16) 31)
    by (change (2 ^ 31) with 2147483648; change (2 ^ 16) with 65536; lia).
  replace (- mode * 2 ^ 31 + mpid * 2 ^ 16)
    with ((- mode * 2 ^ 15 + mpid) * 2 ^ 16)
    by (change (2 ^ 31) with 2147483648; change (2 ^ 16) with 65536;
        change (2 ^ 15) with 32768; lia).
  rewrite ToInt32_id
    by (change (2 ^ 31) with 2147483648; change (2 ^ 16) with 65536;
        change (2 ^ 15) with 32768; lia).
  rewrite lor_high_low by (change (2 ^ 16) with 65536; lia).
  unfold JS.ToUint32.
  change (2 ^ 31) with 2147483648; change (2 ^ 16) with 65536;
    change (2 ^ 15) with 32768; change (2 ^ 32) with 4294967296.
  Z.div_mod_to_equations. lia.
Qed.

Lemma pack_range (mode mpid length : Z) : 0 <= pack mode mpid length < 2 ^ 32.
Proof.
  unfold pack, JS.shru. change (JS.ToUint32 0 mod 32) with 0.
  rewrite Z.shiftr_0_r. unfold JS.ToUint32. apply Z.mod_pos_bound. lia.
Qed.

(** The three fields that the decoders take from a header word *)
Lemma unpack_mode (w mode mpid length : Z) :
  0 <= mode <= 1 -> 0 <= mpid <= 32767 -> 0 <= length <= 65535 ->
  w = mode * 2 ^ 31 + mpid * 2 ^ 16 + length ->
  JS.and (JS.shru w 31) 1 = mode.
Proof.
  intros Hm Hp Hl ->. unfold JS.shru. change (JS.ToUint32 31 mod 32) with 31.
  rewrite Z.shiftr_div_pow2 by lia. unfold JS.ToUint32.
  match goal with
  | |- JS.and ?a 1 = _ => change (JS.and a (2 ^ 1 - 1) = mode)
  end.
  change (2 ^ 31) with 2147483648; change (2 ^ 16) with 65536;
    change (2 ^ 32) with 4294967296.
  rewrite and_mask; change (2 ^ 31) with 2147483648; change (2 ^ 1) with 2;
    Z.div_mod_to_equations; lia.
Qed.

Lemma unpack_mpid (w mode mpid length : Z) :
  0 <= mode <= 1 -> 0 <= mpid <= 32767 -> 0 <= length <= 65535 ->
  w = mode * 2 ^ 31 + mpid * 2 ^ 16 + length ->
  JS.and (JS.shru w 16) 0x7fff = mpid.
Proof.
  intros Hm Hp Hl ->. unfold JS.shru. change (JS.ToUint32 16 mod 32) with 16.
  rewrite Z.shiftr_div_pow2 by lia. unfold JS.ToUint32.
  change 0x7fff with (2 ^ 15 - 1).
  change (2 ^ 31) with 2147483648; change (2 ^ 16) with 65536;
    change (2 ^ 32) with 4294967296.
  rewrite and_mask; change (2 ^ 31) with 2147483648;
    change (2 ^ 15) with 32768; Z.div_mod_to_equations; lia.
Qed.

Lemma unpack_length (w mode mpid length : Z) :
  0 <= mode <= 1 -> 0 <= mpid <= 32767 -> 0 <= length <= 65535 ->
  w = mode * 2 ^ 31 + mpid * 2 ^ 16 + length ->
  JS.and w 0xffff = length.
Proof.
  intros Hm Hp Hl ->. unfold JS.and.
  change (JS.ToInt32 65535) with (Z.ones 16).
  rewrite Z.land_ones by lia. unfold JS.ToInt32.
  change (2 ^ 31) with 2147483648; change (2 ^ 16) with 65536;
    change (2 ^ 32) with 4294967296.
  destruct (Z.ltb_spec
              ((mode * 2147483648 + mpid * 65536 + length) mod 4294967296)
              2147483648);
    Z.div_mod_to_equations; lia.
Qed.

End HeaderWord.

(** * The mux codec *)

Module MuxFacts.

Import HeaderWord.

Ltac by_equations :=
  repeat match goal with
         | H : ?x = _ |- context [?x] => rewrite H
         end;
  reflexivity.

(** The loops, one round unfolded *)

Lemma _pump_body (b : Buffer) (ws : list ChainsyncTip.waiter) :
  ChainsyncTip._pump b ws =
  if blen b <? 8 then ({| ChainsyncTip.buf := b; ChainsyncTip.waiters := ws |}, [])
  else if blen b <? 8 + ChainsyncTip.len b then
    ({| ChainsyncTip.buf := b; ChainsyncTip.waiters := ws |}, [])
  else
    match findIndex
            (fun w => ChainsyncTip.filter w
                        (ChainsyncTip.miniProtocolId (ChainsyncTip.head_frame b))
                        (ChainsyncTip.mode (ChainsyncTip.head_frame b))) ws with
    | Some waiterIndex =>
        let r := ChainsyncTip._pump
                   (subarray_from b (Z.to_nat (8 + ChainsyncTip.len b)))
                   (splice1 waiterIndex ws) in
        (fst r,
         (ChainsyncTip.promise
            (nth waiterIndex ws
               {| ChainsyncTip.filter := fun _ _ => false;
                  ChainsyncTip.promise := O |}),
          ChainsyncTip.head_frame b) :: snd r)
    | None =>
        ChainsyncTip._pump
          (subarray_from b (Z.to_nat (8 + ChainsyncTip.len b))) ws
    end.
Proof. funelim (ChainsyncTip._pump b ws); by_equations. Qed.

Lemma push_loop_body {S : Type}
    (onSegment : FetchTip.segment -> S -> raised S S) (b : Buffer) (s : S) :
  FetchTip.push_loop onSegment b s =
  if blen b >=? 8 then
    if blen b <? 8 + FetchTip.length_field b then inr (b, s)
    else
      match onSegment (FetchTip.head_segment b) s with
      | inl e => inl e
      | inr s' =>
          FetchTip.push_loop onSegment
            (subarray_from b (Z.to_nat (8 + FetchTip.length_field b))) s'
      end
  else inr (b, s).
Proof. funelim (FetchTip.push_loop onSegment b s); by_equations. Qed.

Lemma data_loop_body `{RT : Runtime} (Date_now : nat -> Z)
    (b : Buffer) (st : Lab.state) :
  Lab.data_loop Date_now b st =
  if blen b >=? 8 then
    if blen b <? 8 + Lab.payloadLen_of b then (b, st)
    else
      Lab.data_loop Date_now
        (subarray_from b (Z.to_nat (8 + Lab.payloadLen_of b)))
        (Lab.dispatch Date_now (Lab.protocolId_of b)
           (subarray b 8 (Z.to_nat (8 + Lab.payloadLen_of b))) st)
  else (b, st).
Proof. funelim (Lab.data_loop Date_now b st); by_equations. Qed.

(** The encoders *)

Lemma pack_fold (mode mpid len : Z) :
  JS.shru
    (JS.or (JS.or (JS.shl (JS.and mode 1) 31)
                  (JS.shl (JS.and mpid 0x7fff) 16))
           (JS.and len 0xffff)) 0 = pack mode mpid len.
Proof. unfold pack. reflexivity. Qed.

Lemma blit_alloc4 (v : Z) : blit (alloc 4) 0 (be32 v) = be32 v.
Proof. reflexivity. Qed.

Lemma muxFrame_ok (mpid mode : Z) (payload : Buffer) :
  0 <= mpid <= 32767 -> blen payload <= 65535 ->
  ChainsyncTip.muxFrame mpid mode payload =
  inr (be32 0 ++ be32 (pack mode mpid (blen payload)) ++ payload).
Proof.
  intros Hp Hl. unfold ChainsyncTip.muxFrame.
  destruct (Z.ltb_spec mpid 0); [lia |].
  destruct (Z.gtb_spec mpid 0x7fff); [lia |]. cbn [orb].
  destruct (Z.gtb_spec (blen payload) 0xffff); [lia |].
  cbv zeta. rewrite pack_fold.
  pose proof (pack_range mode mpid (blen payload)) as Hr.
  unfold ChainsyncTip.u32be, writeUInt32BE.
  change (JS.shru 0 0) with 0.
  destruct (Z.leb_spec 0 (pack mode mpid (blen payload))); [| lia].
  destruct (Z.ltb_spec (pack mode mpid (blen payload)) (2 ^ 32)); [| lia].
  reflexivity.
Qed.

Lemma now32_range (now : Z) : 0 <= FetchTip.now32 now < 2 ^ 32.
Proof.
  unfold FetchTip.now32, JS.shru. change (JS.ToUint32 0 mod 32) with 0.
  rewrite Z.shiftr_0_r. unfold JS.ToUint32. apply Z.mod_pos_bound. lia.
Qed.

Lemma muxHeader_ok (now modeBit mpid len : Z) :
  FetchTip.muxHeader now modeBit mpid len =
  inr (be32 (FetchTip.now32 now) ++ be32 (pack modeBit mpid len)).
Proof.
  unfold FetchTip.muxHeader. cbv zeta. rewrite pack_fold.
  pose proof (pack_range modeBit mpid len) as Hr.
  pose proof (now32_range now) as Hn.
  unfold writeUInt32BE at 1.
  destruct (Z.leb_spec 0 (FetchTip.now32 now)); [| lia].
  destruct (Z.ltb_spec (FetchTip.now32 now) (2 ^ 32)); [| lia].
  cbn [andb alloc repeat length Nat.leb Nat.add bind Ok].
  unfold writeUInt32BE.
  destruct (Z.leb_spec 0 (pack modeBit mpid len)); [| lia].
  destruct (Z.ltb_spec (pack modeBit mpid len) (2 ^ 32)); [| lia].
  reflexivity.
Qed.

Lemma packSegment_ok (now mpid modeBit : Z) (payloadBuf : Buffer) :
  blen payloadBuf <= 65535 ->
  FetchTip.packSegment now mpid modeBit payloadBuf =
  inr (be32 (FetchTip.now32 now)
       ++ be32 (pack modeBit mpid (blen payloadBuf)) ++ payloadBuf).
Proof.
  intros Hl. unfold FetchTip.packSegment.
  destruct (Z.gtb_spec (blen payloadBuf) 0xffff); [lia |].
  rewrite muxHeader_ok. cbn [bind Ok]. rewrite <- app_assoc. reflexivity.
Qed.

Lemma packSegment_too_big (now mpid modeBit : Z) (payloadBuf : Buffer) :
  65536 <= blen payloadBuf ->
  FetchTip.packSegment now mpid modeBit payloadBuf =
  inl (Error ("payload too big for mux uint16 length: "
              ++ decimal (blen payloadBuf))).
Proof.
  intros Hl. unfold FetchTip.packSegment.
  destruct (Z.gtb_spec (blen payloadBuf) 0xffff); [reflexivity | lia].
Qed.

(** Reading back a header that was written *)

Lemma read_word0 (t w : Z) (payload : Buffer) :
  0 <= t < 2 ^ 32 -> readUInt32BE (be32 t ++ be32 w ++ payload) 0 = t.
Proof. intros H. apply readUInt32BE_be32. exact H. Qed.

Lemma read_word1 (t w : Z) (payload : Buffer) :
  0 <= w < 2 ^ 32 -> readUInt32BE (be32 t ++ be32 w ++ payload) 4 = w.
Proof.
  intros H. change 4%nat with (length (be32 t) + 0)%nat.
  rewrite readUInt32BE_skip. apply readUInt32BE_be32. exact H.
Qed.

Lemma blen_framed (t w : Z) (payload : Buffer) :
  blen (be32 t ++ be32 w ++ payload) = 8 + blen payload.
Proof. unfold blen. rewrite !length_app. cbn [be32 length]. lia. Qed.

Lemma payload_framed (t w : Z) (payload : Buffer) :
  subarray (be32 t ++ be32 w ++ payload) 8 (Z.to_nat (8 + blen payload))
  = payload.
Proof.
  unfold subarray, blen. cbn [be32 app skipn].
  replace (Z.to_nat (8 + Z.of_nat (length payload)) - 8)%nat
    with (length payload) by lia.
  apply firstn_all.
Qed.

Lemma rest_framed (t w : Z) (payload : Buffer) :
  subarray_from (be32 t ++ be32 w ++ payload) (Z.to_nat (8 + blen payload))
  = [].
Proof.
  unfold subarray_from, blen. apply skipn_all2.
  rewrite !length_app. cbn [be32 length]. lia.
Qed.

(** Decoding a frame that was just encoded *)

Section Framed.

Variables (t mode mpid : Z) (payload : Buffer).
Hypothesis Ht : 0 <= t < 2 ^ 32.
Hypothesis Hmode : 0 <= mode <= 1.
Hypothesis Hmpid : 0 <= mpid <= 32767.
Hypothesis Hlen : blen payload <= 65535.

Variable bytes : Buffer.
Hypothesis Hbytes :
  bytes = be32 t ++ be32 (pack mode mpid (blen payload)) ++ payload.

Lemma blen_nonneg (b : Buffer) : 0 <= blen b.
Proof. unfold blen. lia. Qed.

Lemma length_field_len (b : Buffer) :
  FetchTip.length_field b = ChainsyncTip.len b.
Proof. reflexivity. Qed.

Lemma framed_word : readUInt32BE bytes 4 = mode * 2 ^ 31 + mpid * 2 ^ 16 + blen payload.
Proof.
  rewrite Hbytes, read_word1 by apply pack_range.
  apply pack_value; try assumption. pose proof (blen_nonneg payload). lia.
Qed.

Lemma framed_blen : blen bytes = 8 + blen payload.
Proof. rewrite Hbytes. apply blen_framed. Qed.

Lemma framed_rest :
  subarray_from bytes (Z.to_nat (8 + blen payload)) = [].
Proof. rewrite Hbytes. apply rest_framed. Qed.

Lemma framed_len : ChainsyncTip.len bytes = blen payload.
Proof.
  unfold ChainsyncTip.len, ChainsyncTip.word1.
  pose proof (blen_nonneg payload).
  apply (unpack_length _ mode mpid); try assumption; try lia.
  apply framed_word.
Qed.

Lemma framed_head_frame :
  ChainsyncTip.head_frame bytes =
  {| ChainsyncTip.transmissionTime := t; ChainsyncTip.mode := mode;
     ChainsyncTip.miniProtocolId := mpid; ChainsyncTip.payload := payload |}.
Proof.
  unfold ChainsyncTip.head_frame. rewrite framed_len.
  pose proof (blen_nonneg payload).
  unfold ChainsyncTip.word1.
  rewrite (unpack_mode _ mode mpid (blen payload)) by (try assumption; try lia; apply framed_word).
  rewrite (unpack_mpid _ mode mpid (blen payload)) by (try assumption; try lia; apply framed_word).
  rewrite Hbytes, read_word0 by assumption. rewrite payload_framed.
  reflexivity.
Qed.

Lemma framed_head_segment :
  FetchTip.head_segment bytes =
  {| FetchTip.t := t; FetchTip.modeBit := mode;
     FetchTip.miniProtocolId := mpid; FetchTip.payload := payload |}.
Proof.
  unfold FetchTip.head_segment.
  rewrite length_field_len, framed_len.
  pose proof (blen_nonneg payload).
  unfold FetchTip.w2.
  rewrite (unpack_mode _ mode mpid (blen payload)) by (try assumption; try lia; apply framed_word).
  rewrite (unpack_mpid _ mode mpid (blen payload)) by (try assumption; try lia; apply framed_word).
  rewrite Hbytes, read_word0 by assumption. rewrite payload_framed.
  reflexivity.
Qed.

Lemma framed_pump (w : ChainsyncTip.waiter) :
  ChainsyncTip.filter w mpid mode = true ->
  ChainsyncTip._pump bytes [w] =
  ({| ChainsyncTip.buf := []; ChainsyncTip.waiters := [] |},
   [(ChainsyncTip.promise w,
     {| ChainsyncTip.transmissionTime := t; ChainsyncTip.mode := mode;
        ChainsyncTip.miniProtocolId := mpid;
        ChainsyncTip.payload := payload |})]).
Proof.
  intros Hw. rewrite _pump_body.
  pose proof (blen_nonneg payload).
  rewrite framed_len, framed_head_frame.
  rewrite framed_blen.
  destruct (Z.ltb_spec (8 + blen payload) 8); [lia |].
  destruct (Z.ltb_spec (8 + blen payload) (8 + blen payload)); [lia |].
  cbn [ChainsyncTip.miniProtocolId ChainsyncTip.mode findIndex].
  rewrite Hw, framed_rest.
  cbv zeta. rewrite _pump_body. reflexivity.
Qed.

Lemma framed_push {S : Type} (onSegment : FetchTip.segment -> S -> raised S S)
    (s : S) :
  FetchTip.push_loop onSegment bytes s =
  match onSegment {| FetchTip.t := t; FetchTip.modeBit := mode;
                     FetchTip.miniProtocolId := mpid;
                     FetchTip.payload := payload |} s with
  | inl e => inl e
  | inr s' => inr ([], s')
  end.
Proof.
  rewrite push_loop_body.
  pose proof (blen_nonneg payload).
  rewrite framed_head_segment.
  rewrite length_field_len, framed_len.
  rewrite framed_blen.
  destruct (Z.geb_spec (8 + blen payload) 8); [| lia].
  destruct (Z.ltb_spec (8 + blen payload) (8 + blen payload)); [lia |].
  destruct (onSegment _ s) as [e | s']; [reflexivity |].
  rewrite framed_rest, push_loop_body. reflexivity.
Qed.

End Framed.

End MuxFacts.

Import HeaderWord MuxFacts.

(** C2. Mux round trip: a segment that an encoder produced for a
    mini-protocol number in [0 .. 32767], a mode bit and a payload of at
    most 65535 bytes is decoded back to the same mini-protocol number,
    mode bit and payload, by [muxFrame] and [MuxReader._pump] of
    [chainsync-tip.cjs] and by [packSegment] and [MuxReader.push] of the
    callback-driven client. *)
Theorem mux_roundtrip (mpid mode : Z) (payload : Buffer) :
  0 <= mpid <= 32767 -> mode = 0 \/ mode = 1 -> blen payload <= 65535 ->
  (forall w : ChainsyncTip.waiter,
      ChainsyncTip.filter w mpid mode = true ->
      exists bytes,
        ChainsyncTip.muxFrame mpid mode payload = inr bytes /\
        ChainsyncTip.on_data
          {| ChainsyncTip.buf := []; ChainsyncTip.waiters := [w] |} bytes =
        ({| ChainsyncTip.buf := []; ChainsyncTip.waiters := [] |},
         [(ChainsyncTip.promise w,
           {| ChainsyncTip.transmissionTime := 0;
              ChainsyncTip.mode := mode;
              ChainsyncTip.miniProtocolId := mpid;
              ChainsyncTip.payload := payload |})]))
  /\
  (forall now : Z,
      exists bytes,
        FetchTip.packSegment now mpid mode payload = inr bytes /\
        FetchTip.push (fun seg emitted => inr (emitted ++ [seg])) bytes [] [] =
        inr ([], [{| FetchTip.t := FetchTip.now32 now;
                     FetchTip.modeBit := mode;
                     FetchTip.miniProtocolId := mpid;
                     FetchTip.payload := payload |}])).
Proof.
  intros Hp Hm Hl. assert (Hm' : 0 <= mode <= 1) by lia. split.
  - intros w Hw. eexists. split; [apply muxFrame_ok; assumption |].
    unfold ChainsyncTip.on_data. cbn [ChainsyncTip.buf ChainsyncTip.waiters app].
    apply framed_pump; try assumption; try reflexivity.
    change (2 ^ 32) with 4294967296. lia.
  - intros now. eexists. split; [apply packSegment_ok; assumption |].
    unfold FetchTip.push. cbn [app].
    erewrite framed_push; try eassumption; try reflexivity.
    apply now32_range.
Qed.

Lemma mux_roundtrip_witness :
  (forall w : ChainsyncTip.waiter,
      ChainsyncTip.filter w 2 1 = true ->
      exists bytes,
        ChainsyncTip.muxFrame 2 1 [x82; x04; x80] = inr bytes /\
        ChainsyncTip.on_data
          {| ChainsyncTip.buf := []; ChainsyncTip.waiters := [w] |} bytes =
        ({| ChainsyncTip.buf := []; ChainsyncTip.waiters := [] |},
         [(ChainsyncTip.promise w,
           {| ChainsyncTip.transmissionTime := 0;
              ChainsyncTip.mode := 1;
              ChainsyncTip.miniProtocolId := 2;
              ChainsyncTip.payload := [x82; x04; x80] |})]))
  /\
  (forall now : Z,
      exists bytes,
        FetchTip.packSegment now 2 1 [x82; x04; x80] = inr bytes /\
        FetchTip.push (fun seg emitted => inr (emitted ++ [seg])) bytes [] [] =
        inr ([], [{| FetchTip.t := FetchTip.now32 now;
                     FetchTip.modeBit := 1;
                     FetchTip.miniProtocolId := 2;
                     FetchTip.payload := [x82; x04; x80] |}])).
Proof.
  apply (mux_roundtrip 2 1 [x82; x04; x80]).
  - lia.
  - right. reflexivity.
  - vm_compute. discriminate.
Defined.

(** * Chunk boundaries *)

Module Chunks.

Import MuxFacts.

Lemma subarray_app (b more : Buffer) (i j : nat) :
  (j <= length b)%nat -> subarray (b ++ more) i j = subarray b i j.
Proof.
  intros H. unfold subarray. rewrite skipn_app, firstn_app.
  rewrite length_skipn.
  replace (j - i - (length b - i))%nat with 0%nat by lia.
  cbn [firstn]. apply app_nil_r.
Qed.

Lemma subarray_from_app (b more : Buffer) (i : nat) :
  (i <= length b)%nat ->
  subarray_from (b ++ more) i = subarray_from b i ++ more.
Proof.
  intros H. unfold subarray_from. rewrite skipn_app.
  replace (i - length b)%nat with 0%nat by lia. reflexivity.
Qed.

Lemma blen_app (b more : Buffer) : blen (b ++ more) = blen b + blen more.
Proof. unfold blen. rewrite length_app. lia. Qed.

Lemma len_app (b more : Buffer) :
  8 <= blen b -> ChainsyncTip.len (b ++ more) = ChainsyncTip.len b.
Proof.
  intros H. unfold ChainsyncTip.len, ChainsyncTip.word1.
  rewrite readUInt32BE_app; [reflexivity | unfold blen in H; lia].
Qed.

Lemma head_frame_app (b more : Buffer) :
  8 <= blen b -> 8 + ChainsyncTip.len b <= blen b ->
  ChainsyncTip.head_frame (b ++ more) = ChainsyncTip.head_frame b.
Proof.
  intros H8 Hc. unfold ChainsyncTip.head_frame.
  rewrite len_app by assumption. unfold ChainsyncTip.word1.
  pose proof (ChainsyncTip.len_range b).
  rewrite !readUInt32BE_app by (unfold blen in H8; lia).
  rewrite subarray_app by (unfold blen in Hc; lia). reflexivity.
Qed.

Lemma head_segment_app (b more : Buffer) :
  8 <= blen b -> 8 + FetchTip.length_field b <= blen b ->
  FetchTip.head_segment (b ++ more) = FetchTip.head_segment b.
Proof.
  intros H8 Hc. unfold FetchTip.head_segment.
  rewrite !length_field_len in *. rewrite len_app by assumption.
  unfold FetchTip.w2.
  pose proof (ChainsyncTip.len_range b).
  rewrite !readUInt32BE_app by (unfold blen in H8; lia).
  rewrite subarray_app by (unfold blen in Hc; lia). reflexivity.
Qed.

Lemma payloadLen_app (b more : Buffer) :
  8 <= blen b -> Lab.payloadLen_of (b ++ more) = Lab.payloadLen_of b.
Proof.
  intros H. unfold Lab.payloadLen_of.
  rewrite readUInt16BE_app; [reflexivity | unfold blen in H; lia].
Qed.

Lemma protocolId_app (b more : Buffer) :
  8 <= blen b -> Lab.protocolId_of (b ++ more) = Lab.protocolId_of b.
Proof.
  intros H. unfold Lab.protocolId_of.
  rewrite readUInt16BE_app; [reflexivity | unfold blen in H; lia].
Qed.

(** *** [MuxReader.push] of the callback-driven client *)

Section Push.

Context {S : Type} (onSegment : FetchTip.segment -> S -> raised S S).

Lemma push_loop_app_bounded (n : nat) :
  forall (b more : Buffer) (s : S),
    (length b <= n)%nat ->
    FetchTip.push_loop onSegment (b ++ more) s =
    match FetchTip.push_loop onSegment b s with
    | inl e => inl e
    | inr r => FetchTip.push_loop onSegment (fst r ++ more) (snd r)
    end.
Proof.
  induction n as [| n IH]; intros b more s Hn.
  - destruct b; [| cbn in Hn; lia].
    rewrite (push_loop_body onSegment [] s). reflexivity.
  - rewrite (push_loop_body onSegment b s).
    destruct (Z.geb_spec (blen b) 8) as [H8 | H8]; [| reflexivity].
    destruct (Z.ltb_spec (blen b) (8 + FetchTip.length_field b)) as [Hc | Hc];
      [reflexivity |].
    rewrite (push_loop_body onSegment (b ++ more) s).
    pose proof (blen_nonneg more) as Hm.
    pose proof (FetchTip.length_field_range b) as Hr.
    rewrite head_segment_app by lia.
    rewrite length_field_len, len_app, <- length_field_len by lia.
    rewrite blen_app.
    destruct (Z.geb_spec (blen b + blen more) 8); [| lia].
    destruct (Z.ltb_spec (blen b + blen more) (8 + FetchTip.length_field b));
      [lia |].
    destruct (onSegment (FetchTip.head_segment b) s) as [e | s'];
      [reflexivity |].
    rewrite subarray_from_app by (unfold blen in Hc; lia).
    apply IH. unfold subarray_from. rewrite length_skipn.
    unfold blen in *. lia.
Qed.

Lemma push_loop_app (b more : Buffer) (s : S) :
  FetchTip.push_loop onSegment (b ++ more) s =
  match FetchTip.push_loop onSegment b s with
  | inl e => inl e
  | inr r => FetchTip.push_loop onSegment (fst r ++ more) (snd r)
  end.
Proof. apply (push_loop_app_bounded (length b)). lia. Qed.

Lemma feed_cons (rest : list Buffer) :
  forall (chunk b : Buffer) (s : S),
    FetchTip.feed onSegment (chunk :: rest) b s =
    FetchTip.push_loop onSegment (b ++ chunk ++ concat rest) s.
Proof.
  induction rest as [| c rest IH]; intros chunk b s.
  - cbn [FetchTip.feed concat]. rewrite app_nil_r. unfold FetchTip.push.
    destruct (FetchTip.push_loop onSegment (b ++ chunk) s) as [e | [b' s']];
      reflexivity.
  - change (FetchTip.feed onSegment (chunk :: c :: rest) b s)
      with (match FetchTip.push onSegment chunk b s with
            | inl e => inl e
            | inr r => FetchTip.feed onSegment (c :: rest) (fst r) (snd r)
            end).
    cbn [concat]. rewrite (app_assoc b chunk), push_loop_app.
    unfold FetchTip.push.
    destruct (FetchTip.push_loop onSegment (b ++ chunk) s) as [e | r];
      [reflexivity |].
    apply IH.
Qed.

Lemma feed_fresh (chunks : list Buffer) (s : S) :
  FetchTip.feed onSegment chunks [] s =
  FetchTip.push_loop onSegment (concat chunks) s.
Proof.
  destruct chunks as [| chunk rest].
  - cbn [FetchTip.feed concat]. rewrite push_loop_body. reflexivity.
  - rewrite feed_cons. reflexivity.
Qed.

End Push.

(** *** [MuxReader._pump] of [chainsync-tip.cjs] *)

(** [_pump] on what an earlier [_pump] left, once [more] arrived *)
Definition then_pump (more : Buffer)
    (r : ChainsyncTip.MuxReader * list (nat * ChainsyncTip.frame))
  : ChainsyncTip.MuxReader * list (nat * ChainsyncTip.frame) :=
  let r' := ChainsyncTip._pump (ChainsyncTip.buf (fst r) ++ more)
              (ChainsyncTip.waiters (fst r)) in
  (fst r', snd r ++ snd r').

Lemma then_pump_idle (more b : Buffer) (ws : list ChainsyncTip.waiter) :
  then_pump more ({| ChainsyncTip.buf := b; ChainsyncTip.waiters := ws |}, [])
  = ChainsyncTip._pump (b ++ more) ws.
Proof.
  unfold then_pump. cbn [fst snd ChainsyncTip.buf ChainsyncTip.waiters app].
  destruct (ChainsyncTip._pump (b ++ more) ws); reflexivity.
Qed.

Lemma then_pump_cons (more : Buffer) (x : nat * ChainsyncTip.frame)
    (r : ChainsyncTip.MuxReader * list (nat * ChainsyncTip.frame)) :
  then_pump more (fst r, x :: snd r) =
  (fst (then_pump more r), x :: snd (then_pump more r)).
Proof. reflexivity. Qed.

Lemma _pump_app_bounded (n : nat) :
  forall (b more : Buffer) (ws : list ChainsyncTip.waiter),
    (length b <= n)%nat ->
    ChainsyncTip._pump (b ++ more) ws =
    then_pump more (ChainsyncTip._pump b ws).
Proof.
  induction n as [| n IH]; intros b more ws Hn.
  - destruct b; [| cbn in Hn; lia].
    rewrite (_pump_body [] ws).
    change (blen [] <? 8) with true. cbv iota.
    rewrite then_pump_idle. reflexivity.
  - rewrite (_pump_body b ws).
    destruct (Z.ltb_spec (blen b) 8) as [H8 | H8].
    { rewrite then_pump_idle. reflexivity. }
    destruct (Z.ltb_spec (blen b) (8 + ChainsyncTip.len b)) as [Hc | Hc].
    { rewrite then_pump_idle. reflexivity. }
    rewrite (_pump_body (b ++ more) ws).
    pose proof (blen_nonneg more) as Hm.
    pose proof (ChainsyncTip.len_range b) as Hr.
    rewrite head_frame_app, len_app by lia.
    rewrite blen_app.
    destruct (Z.ltb_spec (blen b + blen more) 8); [lia |].
    destruct (Z.ltb_spec (blen b + blen more) (8 + ChainsyncTip.len b));
      [lia |].
    rewrite subarray_from_app by (unfold blen in Hc; lia).
    assert (Hlt : (length (subarray_from b (Z.to_nat (8 + ChainsyncTip.len b)))
                   <= n)%nat).
    { unfold subarray_from. rewrite length_skipn. unfold blen in *. lia. }
    destruct (findIndex _ ws) as [i |].
    + cbv zeta. rewrite then_pump_cons. rewrite (IH _ more _ Hlt). reflexivity.
    + apply (IH _ more _ Hlt).
Qed.

Lemma _pump_app (b more : Buffer) (ws : list ChainsyncTip.waiter) :
  ChainsyncTip._pump (b ++ more) ws =
  then_pump more (ChainsyncTip._pump b ws).
Proof. apply (_pump_app_bounded (length b)). lia. Qed.

Lemma tip_feed_cons (rest : list Buffer) :
  forall (d : Buffer) (m : ChainsyncTip.MuxReader),
    ChainsyncTip.feed (d :: rest) m =
    ChainsyncTip._pump (ChainsyncTip.buf m ++ d ++ concat rest)
      (ChainsyncTip.waiters m).
Proof.
  induction rest as [| c rest IH]; intros d m.
  - cbn [ChainsyncTip.feed concat]. rewrite !app_nil_r.
    unfold ChainsyncTip.on_data.
    destruct (ChainsyncTip._pump _ _); reflexivity.
  - change (ChainsyncTip.feed (d :: c :: rest) m)
      with (let r := ChainsyncTip.on_data m d in
            let r' := ChainsyncTip.feed (c :: rest) (fst r) in
            (fst r', snd r ++ snd r')).
    cbv zeta. rewrite IH. cbn [concat].
    rewrite (app_assoc (ChainsyncTip.buf m) d (c ++ concat rest)).
    rewrite (_pump_app (ChainsyncTip.buf m ++ d) (c ++ concat rest)).
    reflexivity.
Qed.

Lemma tip_feed_fresh (chunks : list Buffer) (ws : list ChainsyncTip.waiter) :
  ChainsyncTip.feed chunks
    {| ChainsyncTip.buf := []; ChainsyncTip.waiters := ws |} =
  ChainsyncTip._pump (concat chunks) ws.
Proof.
  destruct chunks as [| d rest].
  - cbn [ChainsyncTip.feed concat]. rewrite _pump_body. reflexivity.
  - rewrite tip_feed_cons. reflexivity.
Qed.

End Chunks.

Module LabChunks.

Import MuxFacts Chunks.

Section Listener.

Context `{RT : Runtime}.
Variable Date_now : nat -> Z.

(** The handlers neither read nor change the module variable
    [buffer]. *)
Definition rebuffer (x : Buffer) (r : raised Lab.state Lab.state)
  : raised Lab.state Lab.state :=
  match r with
  | inl (e, st) => inl (e, Lab.with_buffer x st)
  | inr st => inr (Lab.with_buffer x st)
  end.

Ltac split_matches :=
  repeat match goal with
         | |- context [match ?x with _ => _ end] => destruct x
         end.

Lemma write_frame_rebuffer (x : Buffer) (pid : Z) (pl : Buffer) (st : Lab.state) :
  Lab.write_frame Date_now pid pl (Lab.with_buffer x st) =
  rebuffer x (Lab.write_frame Date_now pid pl st).
Proof.
  unfold Lab.write_frame, rebuffer, Lab.with_buffer.
  cbn [Lab.ticks Lab.destroyed Lab.written Lab.console Lab.exited Lab.buffer].
  destruct (Lab.createMuxFrame _ _ _); reflexivity.
Qed.

Lemma handleHandshake_rebuffer (x : Buffer) (pl : Buffer) (st : Lab.state) :
  Lab.handleHandshake Date_now pl (Lab.with_buffer x st) =
  rebuffer x (Lab.handleHandshake Date_now pl st).
Proof.
  unfold Lab.handleHandshake, lift.
  destruct (decode pl) as [e | decoded]; [reflexivity |].
  destruct (get decoded 0) as [e | msgId]; [reflexivity |].
  destruct (is_num msgId Lab.ACCEPT).
  - destruct (get decoded 1) as [e | version]; [reflexivity |].
    apply (write_frame_rebuffer x _ _
             (Lab.log Lab.SendingChainSync
                (Lab.log (Lab.HandshakeAccepted version) st))).
  - destruct (is_num msgId Lab.REFUSE); [| reflexivity].
    destruct (get decoded 2) as [e | shown]; [reflexivity |].
    destruct (stringify shown); reflexivity.
Qed.

Lemma handleChainSync_rebuffer (x : Buffer) (pl : Buffer) (st : Lab.state) :
  Lab.handleChainSync pl (Lab.with_buffer x st) =
  rebuffer x (Lab.handleChainSync pl st).
Proof.
  unfold Lab.handleChainSync, lift.
  destruct (decode pl) as [e | decoded]; [reflexivity |].
  destruct (get decoded 0) as [e | msgId]; [reflexivity |].
  destruct (is_num msgId Lab.INTERSECT_FOUND
            || is_num msgId Lab.INTERSECT_NOT_FOUND); [| reflexivity].
  destruct (Lab.last_element decoded) as [e | tip]; [reflexivity |].
  destruct (Lab.destructure2 tip) as [e | [point blockNo]]; [reflexivity |].
  destruct (Lab.destructure2 point) as [e | [slot hash]]; [reflexivity |].
  destruct (Lab.toString_hex hash); reflexivity.
Qed.

Lemma dispatch_rebuffer (x : Buffer) (pid : Z) (pl : Buffer) (st : Lab.state) :
  Lab.dispatch Date_now pid pl (Lab.with_buffer x st) =
  Lab.with_buffer x (Lab.dispatch Date_now pid pl st).
Proof.
  unfold Lab.dispatch.
  destruct (pid =? Lab.HANDSHAKE).
  - rewrite handleHandshake_rebuffer.
    destruct (Lab.handleHandshake Date_now pl st) as [[e s] | s]; reflexivity.
  - destruct (pid =? Lab.CHAIN_SYNC); [| reflexivity].
    rewrite handleChainSync_rebuffer.
    destruct (Lab.handleChainSync pl st) as [[e s] | s]; reflexivity.
Qed.

Lemma data_loop_rebuffer_bounded (n : nat) :
  forall (x b : Buffer) (st : Lab.state),
    (length b <= n)%nat ->
    Lab.data_loop Date_now b (Lab.with_buffer x st) =
    (fst (Lab.data_loop Date_now b st),
     Lab.with_buffer x (snd (Lab.data_loop Date_now b st))).
Proof.
  induction n as [| n IH]; intros x b st Hn.
  - destruct b; [| cbn in Hn; lia].
    rewrite (data_loop_body Date_now [] (Lab.with_buffer x st)).
    rewrite (data_loop_body Date_now [] st). reflexivity.
  - rewrite (data_loop_body Date_now b (Lab.with_buffer x st)).
    rewrite (data_loop_body Date_now b st).
    destruct (Z.geb_spec (blen b) 8) as [H8 | H8]; [| reflexivity].
    destruct (Z.ltb_spec (blen b) (8 + Lab.payloadLen_of b)) as [Hc | Hc];
      [reflexivity |].
    rewrite dispatch_rebuffer. apply IH.
    pose proof (Lab.payloadLen_range b).
    unfold subarray_from. rewrite length_skipn. unfold blen in *. lia.
Qed.

Lemma data_loop_app_bounded (n : nat) :
  forall (b more : Buffer) (st : Lab.state),
    (length b <= n)%nat ->
    Lab.data_loop Date_now (b ++ more) st =
    Lab.data_loop Date_now (fst (Lab.data_loop Date_now b st) ++ more)
      (snd (Lab.data_loop Date_now b st)).
Proof.
  induction n as [| n IH]; intros b more st Hn.
  - destruct b; [| cbn in Hn; lia].
    rewrite (data_loop_body Date_now [] st). reflexivity.
  - rewrite (data_loop_body Date_now b st).
    destruct (Z.geb_spec (blen b) 8) as [H8 | H8]; [| reflexivity].
    destruct (Z.ltb_spec (blen b) (8 + Lab.payloadLen_of b)) as [Hc | Hc];
      [reflexivity |].
    rewrite (data_loop_body Date_now (b ++ more) st).
    pose proof (blen_nonneg more) as Hm.
    pose proof (Lab.payloadLen_range b) as Hr.
    rewrite payloadLen_app, protocolId_app by lia.
    rewrite blen_app.
    destruct (Z.geb_spec (blen b + blen more) 8); [| lia].
    destruct (Z.ltb_spec (blen b + blen more) (8 + Lab.payloadLen_of b));
      [lia |].
    rewrite subarray_app by (unfold blen in Hc; lia).
    rewrite subarray_from_app by (unfold blen in Hc; lia).
    apply IH. unfold subarray_from. rewrite length_skipn.
    unfold blen in *. lia.
Qed.

Lemma on_data_app (a c : Buffer) (st : Lab.state) :
  Lab.on_data Date_now (a ++ c) st =
  Lab.on_data Date_now c (Lab.on_data Date_now a st).
Proof.
  unfold Lab.on_data.
  cbn [Lab.buffer Lab.with_buffer].
  set (r := Lab.data_loop Date_now (Lab.buffer st ++ a) st).
  rewrite (data_loop_rebuffer_bounded (length (fst r ++ c)) (fst r)
             (fst r ++ c) (snd r)) by lia.
  cbn [fst snd].
  rewrite (app_assoc (Lab.buffer st) a c).
  rewrite (data_loop_app_bounded (length (Lab.buffer st ++ a))
             (Lab.buffer st ++ a) c st) by lia.
  fold r. destruct (Lab.data_loop Date_now (fst r ++ c) (snd r)) as [b' st'].
  reflexivity.
Qed.

Lemma on_data_nil (st : Lab.state) :
  Lab.buffer st = [] -> Lab.on_data Date_now [] st = st.
Proof.
  intros H. unfold Lab.on_data. rewrite H. cbn [app].
  rewrite data_loop_body. cbn [blen length Z.of_nat Z.geb Z.compare fst snd].
  destruct st; cbn in *; subst; reflexivity.
Qed.

Lemma lab_feed_cons (rest : list Buffer) :
  forall (chunk : Buffer) (st : Lab.state),
    Lab.feed Date_now (chunk :: rest) st =
    Lab.on_data Date_now (chunk ++ concat rest) st.
Proof.
  induction rest as [| c rest IH]; intros chunk st.
  - cbn [concat]. rewrite app_nil_r. reflexivity.
  - change (Lab.feed Date_now (chunk :: c :: rest) st)
      with (Lab.feed Date_now (c :: rest) (Lab.on_data Date_now chunk st)).
    rewrite IH. cbn [concat]. symmetry. apply on_data_app.
Qed.

Lemma lab_feed_fresh (chunks : list Buffer) (st : Lab.state) :
  Lab.buffer st = [] ->
  Lab.feed Date_now chunks st = Lab.on_data Date_now (concat chunks) st.
Proof.
  intros H. destruct chunks as [| chunk rest].
  - cbn [concat]. rewrite on_data_nil by exact H. reflexivity.
  - apply lab_feed_cons.
Qed.

End Listener.

End LabChunks.

Import MuxFacts Chunks LabChunks.

(** C10. The mux decoders do not see chunk boundaries.  A reader that
    starts with an empty buffer and is fed the chunks of one partition
    of a byte sequence ends like one fed the chunks of any other
    partition of it: [MuxReader.push] of the callback-driven client
    makes the same calls of the segment callback, in the same order
    (same final state of the callback, same exception if it throws);
    [MuxReader] of [chainsync-tip.cjs] resolves the same promises with
    the same frames; the data listener of the lab script leaves the same
    state.  From any buffer, [push] on [a ++ c] does what [push] on [a]
    followed by [push] on [c] does. *)
Theorem chunking_insensitive :
  (forall (S : Type) (onSegment : FetchTip.segment -> S -> raised S S)
          (s : S) (chunks1 chunks2 : list Buffer),
      concat chunks1 = concat chunks2 ->
      FetchTip.feed onSegment chunks1 [] s =
      FetchTip.feed onSegment chunks2 [] s)
  /\
  (forall (S : Type) (onSegment : FetchTip.segment -> S -> raised S S)
          (a c b : Buffer) (s : S),
      FetchTip.push onSegment (a ++ c) b s =
      match FetchTip.push onSegment a b s with
      | inl e => inl e
      | inr r => FetchTip.push onSegment c (fst r) (snd r)
      end)
  /\
  (forall (ws : list ChainsyncTip.waiter) (chunks1 chunks2 : list Buffer),
      concat chunks1 = concat chunks2 ->
      ChainsyncTip.feed chunks1
        {| ChainsyncTip.buf := []; ChainsyncTip.waiters := ws |} =
      ChainsyncTip.feed chunks2
        {| ChainsyncTip.buf := []; ChainsyncTip.waiters := ws |})
  /\
  (forall (RT : Runtime) (Date_now : nat -> Z) (st : Lab.state)
          (chunks1 chunks2 : list Buffer),
      Lab.buffer st = [] ->
      concat chunks1 = concat chunks2 ->
      Lab.feed Date_now chunks1 st = Lab.feed Date_now chunks2 st).
Proof.
  repeat split.
  - intros S onSegment s chunks1 chunks2 H.
    rewrite !feed_fresh, H. reflexivity.
  - intros S onSegment a c b s. unfold FetchTip.push.
    rewrite app_assoc. apply push_loop_app.
  - intros ws chunks1 chunks2 H. rewrite !tip_feed_fresh, H. reflexivity.
  - intros RT Date_now st chunks1 chunks2 Hb H.
    rewrite !lab_feed_fresh, H by exact Hb. reflexivity.
Qed.

Lemma chunking_insensitive_witness :
  FetchTip.feed (fun seg emitted => inr (emitted ++ [seg]))
    [[x00; x00; x00]; [x00; x80; x02; x00; x01; xf6; x00]] [] [] =
  FetchTip.feed (fun seg emitted => inr (emitted ++ [seg]))
    [[x00; x00; x00; x00; x80; x02; x00; x01; xf6]; []; [x00]] [] [].
Proof.
  apply (proj1 chunking_insensitive). reflexivity.
Defined.

(** C6. Both encoders accept a payload of exactly 65535 bytes (they give
    a segment of 8 + 65535 bytes; [muxFrame] of [chainsync-tip.cjs] for
    a mini-protocol number in range), and refuse every payload of 65536
    bytes or more with an exception instead of a segment, so that the
    write that would have sent it does not happen: [write_segment] of the
    callback-driven client leaves the socket as it was, and the first
    write of [chainsync-tip.cjs] is not made. *)
Theorem mux_payload_bound (mpid mode now : Z) (payload : Buffer) :
  (blen payload = 65535 ->
     (0 <= mpid <= 32767 ->
        exists seg, ChainsyncTip.muxFrame mpid mode payload = inr seg
                    /\ blen seg = 8 + 65535)
     /\ (exists seg, FetchTip.packSegment now mpid mode payload = inr seg
                     /\ blen seg = 8 + 65535))
  /\
  (65536 <= blen payload ->
     (exists e, ChainsyncTip.muxFrame mpid mode payload = inl e)
     /\ (exists e, FetchTip.packSegment now mpid mode payload = inl e)
     /\ (forall (RT : Runtime) (Date_now : nat -> Z) (st : FetchTip.state),
            exists e,
              FetchTip.write_segment Date_now mpid payload st = inl (e, st))
     /\ (forall (RT : Runtime) (NETWORK_MAGIC : Z) (WANT_PEER_SHARING : bool)
                (st : ChainsyncTip.state),
            encode (ChainsyncTip.handshakePropose NETWORK_MAGIC WANT_PEER_SHARING)
            = payload ->
            ChainsyncTip.written
              (ChainsyncTip.on_connect NETWORK_MAGIC WANT_PEER_SHARING st)
            = ChainsyncTip.written st)).
Proof.
  split.
  - intros Hl. split.
    + intros Hp. eexists. split; [apply muxFrame_ok; lia |].
      rewrite blen_framed. lia.
    + eexists. split; [apply packSegment_ok; lia |].
      rewrite blen_framed. lia.
  - intros Hl.
    assert (Hmux : exists e, ChainsyncTip.muxFrame mpid mode payload = inl e).
    { unfold ChainsyncTip.muxFrame.
      destruct ((mpid <? 0) || (mpid >? 32767)); [eexists; reflexivity |].
      destruct (Z.gtb_spec (blen payload) 65535); [eexists; reflexivity | lia]. }
    repeat split.
    + exact Hmux.
    + eexists. apply packSegment_too_big. exact Hl.
    + intros RT Date_now st. eexists. unfold FetchTip.write_segment.
      rewrite packSegment_too_big by exact Hl. reflexivity.
    + intros RT MAGIC WANT st He. unfold ChainsyncTip.on_connect.
      rewrite He. unfold ChainsyncTip.muxFrame.
      change ((MP_HANDSHAKE <? 0) || (MP_HANDSHAKE >? 32767)) with false.
      cbv iota.
      destruct (Z.gtb_spec (blen payload) 65535); [reflexivity | lia].
Qed.

Lemma mux_payload_bound_witness :
  ((exists seg,
       ChainsyncTip.muxFrame 2 0 (repeat x00 (Z.to_nat 65535)) = inr seg
       /\ blen seg = 8 + 65535)
   /\ (exists seg,
         FetchTip.packSegment 0 2 0 (repeat x00 (Z.to_nat 65535)) = inr seg
         /\ blen seg = 8 + 65535))
  /\ (exists e,
        ChainsyncTip.muxFrame 2 0 (repeat x00 (Z.to_nat 65536)) = inl e).
Proof.
  split.
  - destruct (mux_payload_bound 2 0 0 (repeat x00 (Z.to_nat 65535)))
      as [H _].
    assert (Hl : blen (repeat x00 (Z.to_nat 65535)) = 65535)
      by (vm_compute; reflexivity).
    destruct (H Hl) as [H1 H2]. split; [apply H1; lia | exact H2].
  - destruct (mux_payload_bound 2 0 0 (repeat x00 (Z.to_nat 65536)))
      as [_ H].
    assert (Hl : 65536 <= blen (repeat x00 (Z.to_nat 65536)))
      by (vm_compute; discriminate).
    exact (proj1 (H Hl)).
Defined.

(** * Hexadecimal groups of a peer address *)

Module Hex.

(** The [j] lowest hexadecimal digits of [n], most significant first,
    in front of [acc] *)
Fixpoint fixed (j : nat) (n : Z) (acc : string) : string :=
  match j with
  | O => acc
  | S j' => fixed j' (n / 16) (String (hex_digit (n mod 16)) acc)
  end.

(** The eight hexadecimal digits of a 32-bit word *)
Definition hex8 (n : Z) : string := fixed 8 n EmptyString.

Fixpoint zeros (m : nat) : string :=
  match m with
  | O => EmptyString
  | S m' => String "0" (zeros m')
  end.

(** The number that a string of hexadecimal digits writes, after the
    digits already read gave [v] *)
Fixpoint value_from (v : Z) (s : string) : Z :=
  match s with
  | EmptyString => v
  | String c rest =>
      value_from (16 * v + match Lab.hex_value c with
                           | Some d => d
                           | None => 0
                           end) rest
  end.

Definition value (s : string) : Z := value_from 0 s.

Definition is_hex (c : ascii) : bool :=
  match Lab.hex_value c with Some _ => true | None => false end.

Fixpoint all_hex (s : string) : bool :=
  match s with
  | EmptyString => true
  | String c rest => is_hex c && all_hex rest
  end.

(** The pieces of [s] between its colons, as [s.split(':')] gives them *)
Fixpoint split_colon (s : string) : list string :=
  match s with
  | EmptyString => [EmptyString]
  | String c rest =>
      if Ascii.eqb c ":" then EmptyString :: split_colon rest
      else match split_colon rest with
           | h :: t => String c h :: t
           | [] => [String c EmptyString]
           end
  end.

Lemma hex_digit_value (d : Z) :
  0 <= d < 16 -> Lab.hex_value (hex_digit d) = Some d.
Proof.
  intros H.
  assert (d = 0 \/ d = 1 \/ d = 2 \/ d = 3 \/ d = 4 \/ d = 5 \/ d = 6 \/ d = 7
          \/ d = 8 \/ d = 9 \/ d = 10 \/ d = 11 \/ d = 12 \/ d = 13 \/ d = 14
          \/ d = 15) as Hd by lia.
  repeat (destruct Hd as [-> | Hd]; [reflexivity |]). subst. reflexivity.
Qed.

Lemma hex_digit_is_hex (d : Z) : is_hex (hex_digit d) = true.
Proof. destruct d as [| p | p]; try reflexivity;
  do 4 (destruct p; try reflexivity). Qed.

Lemma append_assoc (a b c : string) :
  ((a ++ b) ++ c = a ++ (b ++ c))%string.
Proof.
  induction a as [| x a IH]; [reflexivity |].
  cbn [append]. rewrite IH. reflexivity.
Qed.

Lemma fixed_app (j : nat) :
  forall n acc, fixed j n acc = (fixed j n EmptyString ++ acc)%string.
Proof.
  induction j as [| j IH]; intros n acc; [reflexivity |].
  cbn [fixed]. rewrite IH. rewrite (IH _ (String _ EmptyString)).
  rewrite append_assoc. reflexivity.
Qed.

Lemma length_fixed (j : nat) :
  forall n acc, String.length (fixed j n acc) = (j + String.length acc)%nat.
Proof.
  induction j as [| j IH]; intros n acc; [reflexivity |].
  cbn [fixed]. rewrite IH. cbn [String.length]. lia.
Qed.

Lemma all_hex_fixed (j : nat) :
  forall n acc, all_hex acc = true -> all_hex (fixed j n acc) = true.
Proof.
  induction j as [| j IH]; intros n acc H; [exact H |].
  cbn [fixed]. apply IH. cbn [all_hex]. rewrite hex_digit_is_hex. exact H.
Qed.

Lemma value_from_app (s1 s2 : string) :
  forall v, value_from v (s1 ++ s2) = value_from (value_from v s1) s2.
Proof.
  induction s1 as [| c s1 IH]; intros v; [reflexivity |].
  cbn [append value_from]. apply IH.
Qed.

Lemma value_from_fixed (j : nat) :
  forall n v, 0 <= n ->
    value_from v (fixed j n EmptyString)
    = v * 16 ^ Z.of_nat j + n mod 16 ^ Z.of_nat j.
Proof.
  induction j as [| j IH]; intros n v Hn.
  - cbn [fixed value_from]. change (16 ^ Z.of_nat 0) with 1.
    rewrite Z.mod_1_r. lia.
  - cbn [fixed]. rewrite fixed_app, value_from_app.
    rewrite IH by (apply Z.div_pos; lia).
    cbn [value_from]. rewrite hex_digit_value by (apply Z.mod_pos_bound; lia).
    rewrite Nat2Z.inj_succ, Z.pow_succ_r by lia.
    rewrite (Z.rem_mul_r n 16 (16 ^ Z.of_nat j)) by
      (try lia; apply Z.pow_pos_nonneg; lia).
    lia.
Qed.

Lemma value_hex8 (n : Z) : 0 <= n < 2 ^ 32 -> value (hex8 n) = n.
Proof.
  intros H. unfold value, hex8. rewrite value_from_fixed by lia.
  change (16 ^ Z.of_nat 8) with (2 ^ 32). rewrite Z.mod_small by lia. lia.
Qed.

(** A number below [16^j] has zeros above its [j] lowest digits. *)
Lemma fixed_zeros (m : nat) :
  forall acc, fixed m 0 acc = (zeros m ++ acc)%string.
Proof.
  induction m as [| m IH]; intros acc; [reflexivity |].
  cbn [fixed]. change (0 / 16) with 0. change (hex_digit (0 mod 16)) with "0"%char.
  rewrite IH. clear IH. induction m as [| m IHm]; [reflexivity |].
  cbn [zeros append]. f_equal. exact IHm.
Qed.

Lemma fixed_pad (j : nat) :
  forall (m : nat) n acc,
    0 <= n < 16 ^ Z.of_nat j ->
    fixed (j + m) n acc = (zeros m ++ fixed j n acc)%string.
Proof.
  induction j as [| j IH]; intros m n acc Hn.
  - change (16 ^ Z.of_nat 0) with 1 in Hn. assert (n = 0) as -> by lia.
    cbn [Nat.add fixed]. apply fixed_zeros.
  - cbn [Nat.add fixed]. apply IH.
    rewrite Nat2Z.inj_succ, Z.pow_succ_r in Hn by lia.
    split; [apply Z.div_pos; lia |].
    apply Z.div_lt_upper_bound; lia.
Qed.

(** [toString(16)] writes the digits down to the last one that is not a
    leading zero. *)
Lemma hex_digits_fixed (fuel : nat) :
  forall n acc,
    0 <= n < 16 ^ Z.of_nat fuel -> (1 <= fuel)%nat ->
    exists j : nat,
      (1 <= j)%nat /\ n < 16 ^ Z.of_nat j
      /\ (j = 1%nat \/ 16 ^ (Z.of_nat j - 1) <= n)
      /\ hex_digits fuel n acc = fixed j n acc.
Proof.
  induction fuel as [| fuel IH]; intros n acc Hn Hf; [lia |].
  cbn [hex_digits].
  destruct (Z.eqb_spec (n / 16) 0) as [Hz | Hz].
  - exists 1%nat. repeat split; try lia.
    change (16 ^ Z.of_nat 1) with 16.
    pose proof (Z.div_mod n 16). pose proof (Z.mod_pos_bound n 16). lia.
  - assert (Hq : 1 <= n / 16).
    { pose proof (Z.div_pos n 16). lia. }
    rewrite Nat2Z.inj_succ, Z.pow_succ_r in Hn by lia.
    assert (Hlt : n / 16 < 16 ^ Z.of_nat fuel)
      by (apply Z.div_lt_upper_bound; lia).
    assert (Hf' : (1 <= fuel)%nat).
    { destruct fuel; [| lia]. change (16 ^ Z.of_nat 0) with 1 in Hlt. lia. }
    destruct (IH (n / 16) (String (hex_digit (n mod 16)) acc)) as
      (j & Hj1 & Hj2 & Hj3 & Hj4); [lia | lia |].
    exists (S j). rewrite Hj4. repeat split; try lia.
    + rewrite Nat2Z.inj_succ, Z.pow_succ_r by lia.
      pose proof (Z.div_mod n 16). pose proof (Z.mod_pos_bound n 16). lia.
    + right. replace (Z.of_nat (S j) - 1) with (Z.succ (Z.of_nat j - 1)) by lia.
      rewrite Z.pow_succ_r by lia.
      pose proof (Z.div_mod n 16). pose proof (Z.mod_pos_bound n 16).
      destruct Hj3 as [-> | Hj3].
      * change (16 ^ (Z.of_nat 1 - 1)) with 1. lia.
      * lia.
Qed.

Lemma concat_repeat_zero (m : nat) :
  String.concat EmptyString (repeat "0"%string m) = zeros m.
Proof.
  induction m as [| m IH]; [reflexivity |].
  cbn [repeat]. destruct m as [| m]; [reflexivity |].
  cbn [repeat] in *. cbn [String.concat] in *. rewrite IH. reflexivity.
Qed.

Lemma log2_fuel (n : Z) :
  0 <= n -> n < 16 ^ Z.of_nat (S (Z.to_nat (Z.log2 n))).
Proof.
  intros Hn. destruct (Z.eq_dec n 0) as [-> | Hnz]; [reflexivity |].
  pose proof (Z.log2_nonneg n) as Hl.
  assert (Hs : n < 2 ^ Z.succ (Z.log2 n)) by (apply Z.log2_spec; lia).
  apply Z.lt_le_trans with (2 ^ Z.succ (Z.log2 n)); [exact Hs |].
  rewrite Nat2Z.inj_succ, Z2Nat.id by lia.
  change 16 with (2 ^ 4). rewrite <- Z.pow_mul_r by lia.
  apply Z.pow_le_mono_r; lia.
Qed.

Lemma toString16_padded (n : Z) :
  0 <= n < 2 ^ 32 -> padStart0 8 (toString16 n) = hex8 n.
Proof.
  intros Hn. unfold toString16.
  destruct (hex_digits_fixed (S (Z.to_nat (Z.log2 n))) n EmptyString)
    as (j & Hj1 & Hj2 & Hj3 & Hj4); [split; [lia | apply log2_fuel; lia] | lia |].
  rewrite Hj4. unfold padStart0. rewrite length_fixed, concat_repeat_zero.
  cbn [String.length]. rewrite Nat.add_0_r.
  assert (Hj8 : (j <= 8)%nat).
  { destruct Hj3 as [-> | Hj3]; [lia |].
    destruct (Nat.le_gt_cases j 8) as [H | H]; [exact H | exfalso].
    assert (16 ^ 8 <= 16 ^ (Z.of_nat j - 1)) by (apply Z.pow_le_mono_r; lia).
    change (16 ^ 8) with (2 ^ 32) in *. lia. }
  unfold hex8. replace 8%nat with (j + (8 - j))%nat at 2 by lia.
  rewrite fixed_pad by lia. reflexivity.
Qed.

Lemma split_colon_hex (g : string) :
  all_hex g = true -> split_colon g = [g].
Proof.
  induction g as [| c g IH]; intros H; [reflexivity |].
  cbn [all_hex] in H. apply andb_prop in H as [Hc Hg].
  cbn [split_colon]. destruct (Ascii.eqb_spec c ":") as [-> | _];
    [discriminate Hc |].
  rewrite IH by exact Hg. reflexivity.
Qed.

Lemma split_colon_group (g rest : string) :
  all_hex g = true ->
  split_colon (g ++ String ":" rest) = g :: split_colon rest.
Proof.
  induction g as [| c g IH]; intros H; [reflexivity |].
  cbn [all_hex] in H. apply andb_prop in H as [Hc Hg].
  cbn [append split_colon]. destruct (Ascii.eqb_spec c ":") as [-> | _];
    [discriminate Hc |].
  rewrite IH by exact Hg. reflexivity.
Qed.

Lemma all_hex_hex8 (n : Z) : all_hex (hex8 n) = true.
Proof. apply all_hex_fixed. reflexivity. Qed.

Lemma length_hex8 (n : Z) : String.length (hex8 n) = 8%nat.
Proof. unfold hex8. rewrite length_fixed. reflexivity. Qed.

Lemma shru_0 (n : Z) : JS.shru n 0 = JS.ToUint32 n.
Proof. unfold JS.shru. change (JS.ToUint32 0 mod 32) with 0. apply Z.shiftr_0_r. Qed.

Lemma ToUint32_range (n : Z) : 0 <= JS.ToUint32 n < 2 ^ 32.
Proof. unfold JS.ToUint32. apply Z.mod_pos_bound. lia. Qed.

End Hex.

(** C9 (as amended). A decoded PeerSharing entry
    [[1, w0, w1, w2, w3, port]] gives an address string of four groups
    separated by colons, one for each word, each group being the eight
    lower-case hexadecimal digits of the word taken as an unsigned
    32-bit integer; [parsePeerAddresses] pairs it with [port >>> 0]
    (and throws where that shift does, on a port that is a BigInt), the
    [map] callback of [chainsync-tip.cjs] with [port] as it is. *)
Theorem ipv6_entry_groups `{RT : Runtime} (w0 w1 w2 w3 : Z) (port : value)
    (out : list FetchTip.peer) :
  let g := fun w => Hex.hex8 (JS.ToUint32 w) in
  let ip := (g w0 ++ ":" ++ g w1 ++ ":" ++ g w2 ++ ":" ++ g w3)%string in
  FetchTip.parse_one out
    (VArr [VNum 1; VNum w0; VNum w1; VNum w2; VNum w3; port])
  = (p <- shru0 port ;;
     Ok (out ++ [{| FetchTip.ip := ip; FetchTip.port := p |}]))
  /\ ChainsyncTip.peer_of
       (VArr [VNum 1; VNum w0; VNum w1; VNum w2; VNum w3; port])
     = Ok (ChainsyncTip.PeerAddr ip port)
  /\ Hex.split_colon ip = [g w0; g w1; g w2; g w3]
  /\ Forall (fun group => String.length group = 8%nat
                          /\ Hex.all_hex group = true)
            [g w0; g w1; g w2; g w3]
  /\ map Hex.value [g w0; g w1; g w2; g w3]
     = [JS.ToUint32 w0; JS.ToUint32 w1; JS.ToUint32 w2; JS.ToUint32 w3].
Proof.
  intros g ip.
  assert (Hpad : forall w, padStart0 8 (toString16 (JS.shru w 0)) = g w).
  { intros w. rewrite Hex.shru_0.
    apply Hex.toString16_padded. apply Hex.ToUint32_range. }
  repeat split.
  - unfold FetchTip.parse_one.
    cbn [isArray elements length negb Nat.ltb Nat.leb orb item nth is_num
         Z.eqb andb Nat.eqb slice skipn firstn Nat.sub map_result shru0
         ToNumber bind Ok].
    rewrite !Hpad. reflexivity.
  - unfold ChainsyncTip.peer_of.
    cbn [isArray elements negb item nth is_num Z.eqb slice skipn firstn
         Nat.sub map_result shru0 ToNumber bind Ok].
    rewrite !Hpad. reflexivity.
  - unfold ip.
    change (Hex.split_colon
              (g w0 ++ String ":" (g w1 ++ String ":" (g w2 ++ String ":" (g w3))))
            = [g w0; g w1; g w2; g w3]).
    rewrite !Hex.split_colon_group by apply Hex.all_hex_hex8.
    rewrite Hex.split_colon_hex by apply Hex.all_hex_hex8. reflexivity.
  - repeat constructor; try apply Hex.length_hex8; apply Hex.all_hex_hex8.
  - cbn [map]. unfold g.
    rewrite !Hex.value_hex8 by apply Hex.ToUint32_range. reflexivity.
Qed.

(** C9, counterexample: the entry [[1, 0x20010DB8, 0, 0, 1, 3001]]
    gives the string [20010db8:00000000:00000000:00000001], which has
    four groups between its colons, not eight. *)
Lemma ipv6_entry_groups_counterexample :
  FetchTip.parse_one (RT := Reference.runtime) []
    (VArr [VNum 1; VNum 0x20010DB8; VNum 0; VNum 0; VNum 1; VNum 3001])
  = inr [{| FetchTip.ip := "20010db8:00000000:00000000:00000001";
            FetchTip.port := 3001 |}]
  /\ ChainsyncTip.peer_of (RT := Reference.runtime)
       (VArr [VNum 1; VNum 0x20010DB8; VNum 0; VNum 0; VNum 1; VNum 3001])
     = inr (ChainsyncTip.PeerAddr "20010db8:00000000:00000000:00000001"
              (VNum 3001))
  /\ length (Hex.split_colon "20010db8:00000000:00000000:00000001") <> 8%nat.
Proof.
  repeat split; try (vm_compute; reflexivity).
  vm_compute. discriminate.
Qed.

(** * The ChainSync reply *)

(** C1. The reply [MsgIntersectFound] is [[5, point, tip]] and
    [MsgIntersectNotFound] is [[6, tip]], and the tip is the last
    element of either.  [run] of [chainsync-tip.cjs] and
    [handleChainSync] of the lab script take it so.  The segment
    callback of [connectAndFetchTip] reads the two tags the other way
    round: from [[5, point, tip]] it takes the second element, the
    point, and from [[6, tip]] the third, which is [undefined]. *)
Theorem tip_extraction `{RT : Runtime} (Date_now : nat -> Z)
    (point tip : value) (seg : FetchTip.segment) (st : FetchTip.state) :
  ChainsyncTip.tip_of (VArr [VNum 5; point; tip]) = inr tip
  /\ ChainsyncTip.tip_of (VArr [VNum 6; tip]) = inr tip
  /\ Lab.last_element (VArr [VNum 5; point; tip]) = inr tip
  /\ Lab.last_element (VArr [VNum 6; tip]) = inr tip
  /\ (FetchTip.miniProtocolId seg = FetchTip.CHAINSYNC ->
      FetchTip.settled st = None ->
      (decode (FetchTip.payload seg) = inr (VArr [VNum 5; point; tip]) ->
       exists st',
         FetchTip.onSegment Date_now seg st = inr st'
         /\ FetchTip.settled st'
            = Some (inr {| FetchTip.res_negotiatedVersion :=
                             FetchTip.negotiatedVersion (FetchTip.cl st);
                           FetchTip.res_tip := FetchTip.prettyTip point;
                           FetchTip.res_tipRaw := point |}))
      /\
      (decode (FetchTip.payload seg) = inr (VArr [VNum 6; tip]) ->
       exists st',
         FetchTip.onSegment Date_now seg st = inr st'
         /\ FetchTip.settled st'
            = Some (inr {| FetchTip.res_negotiatedVersion :=
                             FetchTip.negotiatedVersion (FetchTip.cl st);
                           FetchTip.res_tip := FetchTip.RawTip VUndefined;
                           FetchTip.res_tipRaw := VUndefined |}))).
Proof.
  do 4 (split; [reflexivity |]).
  intros Hmp Hs. split; intros Hd; unfold FetchTip.onSegment;
    rewrite Hd, Hmp; cbn [Z.eqb FetchTip.CHAINSYNC FetchTip.HANDSHAKE
      FetchTip.PEERSHARE isArray elements item nth is_num andb orb];
    eexists; (split; [reflexivity |]);
    unfold FetchTip.resolve, FetchTip.with_client;
    cbn [FetchTip.settled FetchTip.cl FetchTip.negotiatedVersion];
    rewrite Hs; reflexivity.
Qed.

Lemma tip_extraction_witness :
  exists st',
    FetchTip.onSegment (RT := Reference.runtime) (fun _ => 0)
      {| FetchTip.t := 0; FetchTip.modeBit := 1;
         FetchTip.miniProtocolId := 2;
         FetchTip.payload := [x83; x05; x80; x01] |} FetchTip.initial
    = inr st'
    /\ FetchTip.settled st'
       = Some (inr {| FetchTip.res_negotiatedVersion := VNull;
                      FetchTip.res_tip := FetchTip.RawTip (VArr []);
                      FetchTip.res_tipRaw := VArr [] |}).
Proof.
  refine (proj1 (proj2 (proj2 (proj2 (proj2
            (tip_extraction (RT := Reference.runtime) (fun _ => 0)
               (VArr []) (VNum 1)
               {| FetchTip.t := 0; FetchTip.modeBit := 1;
                  FetchTip.miniProtocolId := 2;
                  FetchTip.payload := [x83; x05; x80; x01] |}
               FetchTip.initial)))) _ _) _);
    reflexivity.
Defined.

(** * The handshake proposal *)







(** * What the clients write, and when *)

(** The mini-protocol number in the header of a written segment *)
Definition segment_mpid (seg : Buffer) : Z :=
  JS.and (JS.shru (readUInt32BE seg 4) 16) 0x7fff.

Module Written.

Import HeaderWord MuxFacts.

Lemma framed_mpid (t mpid : Z) (payload : Buffer) :
  0 <= t < 2 ^ 32 -> 0 <= mpid <= 32767 -> blen payload <= 65535 ->
  segment_mpid (be32 t ++ be32 (pack 0 mpid (blen payload)) ++ payload) = mpid.
Proof.
  intros Ht Hp Hl. unfold segment_mpid.
  pose proof (blen_nonneg payload).
  apply (unpack_mpid _ 0 mpid (blen payload)); try lia.
  rewrite read_word1 by apply pack_range. apply pack_value; lia.
Qed.

Lemma muxFrame_inr (mpid : Z) (payload seg : Buffer) :
  ChainsyncTip.muxFrame mpid 0 payload = inr seg ->
  0 <= mpid <= 32767 /\ blen payload <= 65535.
Proof.
  unfold ChainsyncTip.muxFrame.
  destruct (Z.ltb_spec mpid 0); [discriminate |].
  destruct (Z.gtb_spec mpid 0x7fff); [discriminate |]. cbn [orb].
  destruct (Z.gtb_spec (blen payload) 0xffff); [discriminate |]. lia.
Qed.

Lemma muxFrame_mpid (mpid : Z) (payload seg : Buffer) :
  ChainsyncTip.muxFrame mpid 0 payload = inr seg -> segment_mpid seg = mpid.
Proof.
  intros H. destruct (muxFrame_inr _ _ _ H) as [Hp Hl].
  rewrite muxFrame_ok in H by assumption. injection H as <-.
  apply framed_mpid; try assumption. change (2 ^ 32) with 4294967296. lia.
Qed.

Lemma packSegment_mpid (now mpid : Z) (payload seg : Buffer) :
  0 <= mpid <= 32767 ->
  FetchTip.packSegment now mpid 0 payload = inr seg -> segment_mpid seg = mpid.
Proof.
  intros Hp H.
  assert (Hl : blen payload <= 65535).
  { unfold FetchTip.packSegment in H.
    destruct (Z.gtb_spec (blen payload) 0xffff); [discriminate | lia]. }
  rewrite packSegment_ok in H by assumption. injection H as <-.
  apply framed_mpid; try assumption. apply now32_range.
Qed.

Lemma readUInt16BE_be16 (v : Z) (tl : Buffer) :
  0 <= v < 2 ^ 16 -> readUInt16BE (be16 v ++ tl) 0 = v.
Proof.
  intros Hv. unfold readUInt16BE, byte_at, be16. cbn [nth app Nat.add].
  rewrite !Z_of_byte_of_Z.
  change (2 ^ 8) with 256. change (2 ^ 16) with 65536 in Hv.
  Z.div_mod_to_equations. lia.
Qed.

Lemma readUInt16BE_skip (pre buf : Buffer) (off : nat) :
  readUInt16BE (pre ++ buf) (length pre + off) = readUInt16BE buf off.
Proof.
  unfold readUInt16BE, byte_at. rewrite <- !Nat.add_assoc.
  rewrite !app_nth2_plus. reflexivity.
Qed.

Lemma createMuxFrame_protocolId (now pid : Z) (payload frame : Buffer) :
  Lab.createMuxFrame now pid payload = inr frame ->
  Lab.protocolId_of frame = pid.
Proof.
  unfold Lab.createMuxFrame, writeUInt32BE, writeUInt16BE.
  cbn [alloc repeat length Nat.leb Nat.add].
  destruct ((0 <=? JS.and (JS.times now 1000) 4294967295)
            && (JS.and (JS.times now 1000) 4294967295 <? 2 ^ 32));
    [| discriminate].
  cbn [bind Ok blit be32 firstn skipn length Nat.add app Nat.leb].
  destruct (Z.leb_spec 0 pid); [| discriminate].
  destruct (Z.ltb_spec pid (2 ^ 16)); [| discriminate].
  cbn [andb bind Ok blit be16 firstn skipn length Nat.add app Nat.leb].
  destruct ((0 <=? blen payload) && (blen payload <? 2 ^ 16));
    [| discriminate].
  cbn [bind Ok blit be16 firstn skipn length Nat.add app Nat.leb].
  intros Hf. injection Hf as <-. unfold Lab.protocolId_of.
  match goal with
  | |- readUInt16BE (?a :: ?b :: ?c :: ?d :: ?rest) 4 = _ =>
      change (readUInt16BE ([a; b; c; d] ++ rest)
                (length [a; b; c; d] + 0) = pid)
  end.
  rewrite readUInt16BE_skip.
  match goal with
  | |- readUInt16BE (?a :: ?b :: ?rest) 0 = _ =>
      change (readUInt16BE (be16 pid ++ rest) 0 = pid)
  end.
  apply readUInt16BE_be16. lia.
Qed.

End Written.

(** * Runs of [chainsync-tip.cjs] *)

Module TipRuns.

Import HeaderWord MuxFacts Chunks Written.
Import ChainsyncTip.

Lemma In_splice1 {A : Type} (i : nat) (l : list A) (x : A) :
  In x (splice1 i l) -> In x l.
Proof.
  unfold splice1. intros H. apply in_app_or in H.
  rewrite <- (firstn_skipn i l). apply in_or_app.
  destruct H as [H | H]; [left; exact H | right].
  rewrite <- (firstn_skipn 1 (skipn i l)). apply in_or_app. right.
  rewrite skipn_skipn. exact H.
Qed.

Lemma findIndex_Some {A : Type} (p : A -> bool) (l : list A) (d : A) :
  forall i, findIndex p l = Some i ->
            (i < length l)%nat /\ p (nth i l d) = true.
Proof.
  induction l as [| x l IH]; intros i H; [discriminate |].
  cbn [findIndex] in H. destruct (p x) eqn:Hx.
  - injection H as <-. cbn. split; [lia | exact Hx].
  - destruct (findIndex p l) as [j |]; [| discriminate].
    injection H as <-. destruct (IH j eq_refl) as [H1 H2].
    cbn. split; [lia | exact H2].
Qed.

(** Every promise that [_pump] resolves was waited for with a filter
    that accepts the frame. *)
Lemma _pump_resolved_bounded (n : nat) :
  forall (b : Buffer) (ws : list waiter),
    (length b <= n)%nat ->
    Forall (fun pf =>
              exists w, In w ws
                        /\ filter w (miniProtocolId (snd pf)) (mode (snd pf))
                           = true)
           (snd (_pump b ws)).
Proof.
  induction n as [| n IH]; intros b ws Hn.
  - destruct b; [| cbn in Hn; lia]. rewrite _pump_body. constructor.
  - rewrite _pump_body.
    destruct (Z.ltb_spec (blen b) 8) as [H8 | H8]; [constructor |].
    destruct (Z.ltb_spec (blen b) (8 + len b)) as [Hc | Hc]; [constructor |].
    pose proof (len_range b) as Hr.
    assert (Hlt : (length (subarray_from b (Z.to_nat (8 + len b))) <= n)%nat).
    { unfold subarray_from. rewrite length_skipn. unfold blen in *. lia. }
    destruct (findIndex _ ws) as [i |] eqn:Hi.
    + cbv zeta. cbn [snd]. constructor.
      * cbn [snd].
        destruct (findIndex_Some _ ws
                    {| filter := fun _ _ => false; promise := O |} i Hi)
          as [Hlen Hf].
        eexists. split; [apply nth_In; exact Hlen | exact Hf].
      * eapply Forall_impl; [| apply (IH _ (splice1 i ws) Hlt)].
        intros pf (w & Hw & Hfw). exists w. split; [| exact Hfw].
        apply (In_splice1 i). exact Hw.
    + apply IH. exact Hlt.
Qed.

Lemma _pump_resolved (b : Buffer) (ws : list waiter) :
  Forall (fun pf =>
            exists w, In w ws
                      /\ filter w (miniProtocolId (snd pf)) (mode (snd pf))
                         = true)
         (snd (_pump b ws)).
Proof. apply (_pump_resolved_bounded (length b)). lia. Qed.

(** When [_pump] resolves nothing it leaves the waiters as they were. *)
Lemma _pump_quiet_bounded (n : nat) :
  forall (b : Buffer) (ws : list waiter),
    (length b <= n)%nat ->
    snd (_pump b ws) = [] -> waiters (fst (_pump b ws)) = ws.
Proof.
  induction n as [| n IH]; intros b ws Hn.
  - destruct b; [| cbn in Hn; lia]. rewrite _pump_body. reflexivity.
  - rewrite _pump_body.
    destruct (Z.ltb_spec (blen b) 8) as [H8 | H8]; [reflexivity |].
    destruct (Z.ltb_spec (blen b) (8 + len b)) as [Hc | Hc]; [reflexivity |].
    pose proof (len_range b) as Hr.
    assert (Hlt : (length (subarray_from b (Z.to_nat (8 + len b))) <= n)%nat).
    { unfold subarray_from. rewrite length_skipn. unfold blen in *. lia. }
    destruct (findIndex _ ws) as [i |].
    + cbv zeta. cbn [snd]. discriminate.
    + apply IH. exact Hlt.
Qed.

Section Runs.

Context `{RT : Runtime}.
Variables (HOST : string) (PORT NETWORK_MAGIC : Z) (WANT_PEER_SHARING : bool).

#[local] Set Warnings "-notation-for-abbreviation".
Local Notation step :=
  (ChainsyncTip.step HOST PORT NETWORK_MAGIC WANT_PEER_SHARING).
Local Notation run :=
  (ChainsyncTip.run HOST PORT NETWORK_MAGIC WANT_PEER_SHARING).

Lemma tip_run_snoc (evs : list event) (ev : event) :
  run (evs ++ [ev]) = step (run evs) ev.
Proof. unfold ChainsyncTip.run. rewrite fold_left_app. reflexivity. Qed.

Lemma tip_run_app (evs rest : list event) :
  run (evs ++ rest) = fold_left step rest (run evs).
Proof. unfold ChainsyncTip.run. apply fold_left_app. Qed.

(** A process that exited does nothing more. *)
Lemma tip_exited_absorbs (rest : list event) :
  forall st code, at_phase st = Exited code -> fold_left step rest st = st.
Proof.
  induction rest as [| ev rest IH]; intros st code H; [reflexivity |].
  cbn [fold_left]. assert (Hs : step st ev = st).
  { unfold ChainsyncTip.step. rewrite H. reflexivity. }
  rewrite Hs. apply (IH st code H).
Qed.

(** How the three continuations of [run] end *)

Lemma after_handshake_cases (f : frame) (st : state) :
  (exists e, after_handshake f st = fail e st)
  \/ (exists seg rest,
        decodeCbor (payload f) = VArr (VNum 1 :: rest)
        /\ muxFrame MP_CHAINSYNC 0 (encode (VArr [VNum 4; VArr []])) = inr seg
        /\ after_handshake f st =
           readFrame cs_filter 1
             (AwaitChainSync (item (VNum 1 :: rest) 1) (item (VNum 1 :: rest) 2))
             (socket_write seg st)).
Proof.
  unfold after_handshake.
  destruct (decodeCbor (payload f)) as [| | | | | | | a | |];
    try (left; eexists; reflexivity).
  cbn [isArray negb elements orb].
  destruct (length a <? 1)%nat eqn:Hl; [left; eexists; reflexivity |].
  destruct (is_num (item a 0) 2) eqn:H2;
    [left; destruct (stringify (VArr a)); eexists; reflexivity |].
  destruct (is_num (item a 0) 1) eqn:H1;
    [| left; destruct (stringify (VArr a)); eexists; reflexivity].
  cbn [negb].
  destruct (muxFrame MP_CHAINSYNC 0 (encode (VArr [VNum 4; VArr []])))
    as [e | seg] eqn:Hm; [left; eexists; reflexivity |].
  right. destruct a as [| x a]; [discriminate Hl |].
  cbn [item nth] in H1. destruct x; try discriminate H1.
  cbn [is_num] in H1. apply Z.eqb_eq in H1. subst.
  exists seg, a. repeat split; reflexivity.
Qed.

Lemma after_chainsync_cases (v d : value) (f : frame) (st : state) :
  (exists e, after_chainsync HOST PORT WANT_PEER_SHARING v d f st = fail e st)
  \/ (exists tip,
        after_chainsync HOST PORT WANT_PEER_SHARING v d f st
        = finish HOST PORT v d tip [] st)
  \/ (WANT_PEER_SHARING = true
      /\ exists seg tip,
           muxFrame MP_PEERSHARE 0 (encode (VArr [VNum 0; VNum 25])) = inr seg
           /\ after_chainsync HOST PORT WANT_PEER_SHARING v d f st =
              readFrame ps_filter 2 (AwaitPeerShare v d tip)
                (socket_write seg st)).
Proof.
  unfold after_chainsync.
  destruct (tip_of (decodeCbor (payload f))) as [e | tip];
    [left; eexists; reflexivity |].
  destruct WANT_PEER_SHARING; [| right; left; eexists; reflexivity].
  destruct (muxFrame MP_PEERSHARE 0 (encode (VArr [VNum 0; VNum 25])))
    as [e | seg] eqn:Hm; [right; left; eexists; reflexivity |].
  right; right. split; [reflexivity |]. exists seg, tip. split; reflexivity.
Qed.

(** What one event adds to the written segments, and from which phase *)
Inductive wrote (st st' : state) : Prop :=
| wrote_nothing :
    written st' = written st ->
    (at_phase st' = at_phase st \/ exists code, at_phase st' = Exited code) ->
    wrote st st'
| wrote_handshake (seg : Buffer) :
    written st' = written st ++ [seg] -> segment_mpid seg = MP_HANDSHAKE ->
    at_phase st = Connecting -> at_phase st' = AwaitHandshake ->
    wrote st st'
| wrote_chainsync (seg : Buffer) (v d : value) :
    written st' = written st ++ [seg] -> segment_mpid seg = MP_CHAINSYNC ->
    at_phase st = AwaitHandshake -> at_phase st' = AwaitChainSync v d ->
    wrote st st'
| wrote_peershare (seg : Buffer) (v d tip : value) :
    written st' = written st ++ [seg] -> segment_mpid seg = MP_PEERSHARE ->
    at_phase st = AwaitChainSync v d -> WANT_PEER_SHARING = true ->
    at_phase st' = AwaitPeerShare v d tip ->
    wrote st st'.

Lemma wrote_with_mux (m : MuxReader) (st st' : state) :
  wrote (with_mux m st) st' -> wrote st st'.
Proof.
  intros H. destruct H;
    [eapply wrote_nothing | eapply wrote_handshake | eapply wrote_chainsync
     | eapply wrote_peershare]; eassumption.
Qed.

Lemma wrote_fail (e : error) (st : state) : wrote st (fail e st).
Proof. apply wrote_nothing; [reflexivity | right; eexists; reflexivity]. Qed.

Lemma wrote_finish (v d tip : value) (peers : list peer) (st : state) :
  wrote st (finish HOST PORT v d tip peers st).
Proof.
  unfold finish. destruct (printable _); [| apply wrote_fail].
  apply wrote_nothing; [reflexivity | right; eexists; reflexivity].
Qed.

Lemma wrote_reject (e : error) (st : state) :
  wrote st (reject HOST PORT e st).
Proof.
  unfold reject. destruct (at_phase st);
    try apply wrote_fail; apply wrote_finish.
Qed.

Lemma wrote_resume (f : frame) (st : state) :
  wrote st (resume HOST PORT WANT_PEER_SHARING f st).
Proof.
  unfold resume. destruct (at_phase st) as [| | v d | v d tip | code] eqn:Hp.
  - apply wrote_nothing; [reflexivity | left; reflexivity].
  - destruct (after_handshake_cases f st) as [[e ->] | (seg & rest & _ & Hm & ->)].
    + apply wrote_fail.
    + eapply wrote_chainsync; try reflexivity; try exact Hp.
      apply (muxFrame_mpid _ _ _ Hm).
  - destruct (after_chainsync_cases v d f st)
      as [[e ->] | [[tip ->] | (Hw & seg & tip & Hm & ->)]].
    + apply wrote_fail.
    + apply wrote_finish.
    + eapply wrote_peershare; try reflexivity; try exact Hp; try exact Hw.
      apply (muxFrame_mpid _ _ _ Hm).
  - apply wrote_finish.
  - apply wrote_nothing; [reflexivity | left; reflexivity].
Qed.

Lemma wrote_step (st : state) (ev : event) : wrote st (step st ev).
Proof.
  unfold ChainsyncTip.step.
  destruct (at_phase st) as [| | v d | v d tip | code] eqn:Hp.
  - destruct ev; try (apply wrote_nothing; [reflexivity | left; reflexivity]);
      try apply wrote_fail.
    unfold on_connect.
    destruct (muxFrame MP_HANDSHAKE 0 _) as [e | seg] eqn:Hm;
      [apply wrote_fail |].
    eapply wrote_handshake; try reflexivity; try exact Hp.
    apply (muxFrame_mpid _ _ _ Hm).
  - destruct ev; try (apply wrote_nothing; [reflexivity | left; reflexivity]);
      try (eapply wrote_with_mux; apply wrote_reject).
    destruct (snd (on_data (mux st) d)) as [| [p f] more].
    + apply wrote_nothing; [reflexivity | left; reflexivity].
    + eapply wrote_with_mux. apply wrote_resume.
  - destruct ev; try (apply wrote_nothing; [reflexivity | left; reflexivity]);
      try (eapply wrote_with_mux; apply wrote_reject).
    destruct (snd (on_data (mux st) d0)) as [| [p f] more].
    + apply wrote_nothing; [reflexivity | left; reflexivity].
    + eapply wrote_with_mux. apply wrote_resume.
  - destruct ev; try (apply wrote_nothing; [reflexivity | left; reflexivity]);
      try (eapply wrote_with_mux; apply wrote_reject).
    destruct (snd (on_data (mux st) d0)) as [| [p f] more].
    + apply wrote_nothing; [reflexivity | left; reflexivity].
    + eapply wrote_with_mux. apply wrote_resume.
  - apply wrote_nothing; [reflexivity | left; reflexivity].
Qed.

(** Until the responder's frame has been read, the client has written
    nothing but its proposal, and waits with the handshake filter. *)
Lemma run_before_accept (evs : list event) :
  (at_phase (run evs) = Connecting ->
   written (run evs) = [] /\ waiters (mux (run evs)) = [])
  /\ (at_phase (run evs) = AwaitHandshake ->
      Forall (fun seg => segment_mpid seg = MP_HANDSHAKE) (written (run evs))
      /\ waiters (mux (run evs)) = [{| filter := hs_filter; promise := O |}]).
Proof.
  induction evs as [| ev evs IH] using rev_ind.
  - split; [intros _; split; reflexivity | discriminate].
  - rewrite tip_run_snoc. destruct IH as [IHc IHh].
    set (st := run evs) in *.
    pose proof (wrote_step st ev) as Hw.
    split; intros Hp.
    + destruct Hw as [Hwr Hph | seg Hwr _ _ Hph | seg v d Hwr _ _ Hph
                      | seg v d tip Hwr _ _ _ Hph];
        try (rewrite Hp in Hph; discriminate Hph).
      destruct Hph as [Hph | [code Hph]];
        [| rewrite Hp in Hph; discriminate Hph].
      rewrite Hp in Hph. symmetry in Hph. destruct (IHc Hph) as [H1 H2].
      split; [rewrite Hwr; exact H1 |].
      unfold ChainsyncTip.step in *. rewrite Hph in *.
      destruct ev; try exact H2; try discriminate Hp.
      unfold on_connect in Hp.
      destruct (muxFrame MP_HANDSHAKE 0 _); discriminate Hp.
    + destruct Hw as [Hwr Hph | seg Hwr Hm Hc Hph | seg v d Hwr _ _ Hph
                      | seg v d tip Hwr _ _ _ Hph];
        try (rewrite Hp in Hph; discriminate Hph).
      * destruct Hph as [Hph | [code Hph]];
          [| rewrite Hp in Hph; discriminate Hph].
        rewrite Hp in Hph. symmetry in Hph. destruct (IHh Hph) as [H1 H2].
        split; [rewrite Hwr; exact H1 |].
        unfold ChainsyncTip.step in *. rewrite Hph in *.
        destruct ev; try exact H2; try discriminate Hp;
          try (unfold reject in Hp; cbn [with_mux at_phase] in Hp;
               rewrite Hph in Hp; discriminate Hp).
        destruct (snd (on_data (mux st) d)) as [| [p f] more] eqn:Hr.
        -- cbn [with_mux mux]. unfold on_data in *.
           rewrite (_pump_quiet_bounded (length (buf (mux st) ++ d)))
             by (try lia; exact Hr).
           exact H2.
        -- exfalso. unfold resume in Hp. cbn [with_mux at_phase] in Hp.
           rewrite Hph in Hp.
           destruct (after_handshake_cases f
                       (with_mux (fst (on_data (mux st) d)) st))
             as [[e He] | (seg & rest & _ & _ & He)];
             rewrite He in Hp; discriminate Hp.
      * destruct (IHc Hc) as [H1 H2]. split.
        -- rewrite Hwr, H1. repeat constructor. exact Hm.
        -- unfold ChainsyncTip.step in *. rewrite Hc in *.
           destruct ev; try discriminate Hp; try congruence.
           unfold on_connect in *.
           destruct (muxFrame MP_HANDSHAKE 0 _); [discriminate Hp |].
           cbn [readFrame mux socket_write enqueue waiters]. rewrite H2.
           reflexivity.
Qed.

(** A client that does not want peer sharing writes no PeerSharing
    segment. *)
Lemma run_no_peershare (evs : list event) :
  WANT_PEER_SHARING = false ->
  Forall (fun seg => segment_mpid seg <> MP_PEERSHARE) (written (run evs)).
Proof.
  intros Hw. induction evs as [| ev evs IH] using rev_ind; [constructor |].
  rewrite tip_run_snoc.
  destruct (wrote_step (run evs) ev)
    as [Hwr _ | seg Hwr Hm _ _ | seg v d Hwr Hm _ _ | seg v d tip _ _ _ Hwant _].
  - rewrite Hwr. exact IH.
  - rewrite Hwr. apply Forall_app. split; [exact IH |].
    repeat constructor. rewrite Hm. discriminate.
  - rewrite Hwr. apply Forall_app. split; [exact IH |].
    repeat constructor. rewrite Hm. discriminate.
  - rewrite Hw in Hwant. discriminate Hwant.
Qed.

(** The data event that brings the responder's handshake frame *)
Lemma step_handshake_frame (st : state) (d : Buffer) (p : nat) (f : frame)
    (more : list (nat * frame)) :
  at_phase st = AwaitHandshake ->
  snd (on_data (mux st) d) = (p, f) :: more ->
  step st (SocketData d)
  = after_handshake f (with_mux (fst (on_data (mux st) d)) st).
Proof.
  intros Hp Hr. unfold ChainsyncTip.step. rewrite Hp, Hr.
  unfold resume. cbn [with_mux at_phase]. rewrite Hp. reflexivity.
Qed.

(** The error that a handshake response other than an accept makes
    [run] fail with: the message built around the JSON text of the
    response, or the exception of [JSON.stringify]. *)
Definition refusal (prefix : string) (msg : value) : error :=
  match stringify msg with
  | inl e => e
  | inr text => Error (prefix ++ text)
  end.

Lemma after_handshake_refuse (f : frame) (st : state) (reason : list value) :
  decodeCbor (payload f) = VArr (VNum 2 :: reason) ->
  after_handshake f st
  = fail (refusal "handshake refused: " (VArr (VNum 2 :: reason))) st.
Proof.
  intros H. unfold after_handshake, refusal. rewrite H.
  cbn [isArray negb elements length Nat.ltb Nat.leb orb item nth is_num Z.eqb
       Pos.eqb].
  destruct (stringify _); reflexivity.
Qed.

Lemma after_handshake_unexpected (f : frame) (st : state) (tag : Z)
    (rest : list value) :
  tag <> 1 -> tag <> 2 ->
  decodeCbor (payload f) = VArr (VNum tag :: rest) ->
  after_handshake f st
  = fail (refusal ("unexpected handshake response tag "
                   ++ ToString (VNum tag) ++ ": ")
                  (VArr (VNum tag :: rest))) st.
Proof.
  intros H1 H2 H. unfold after_handshake, refusal. rewrite H.
  cbn [isArray negb elements length Nat.ltb Nat.leb orb item nth is_num].
  destruct (Z.eqb_spec tag 2); [contradiction |].
  destruct (Z.eqb_spec tag 1); [contradiction |]. cbn [negb].
  destruct (stringify _); [reflexivity |].
  rewrite <- !Hex.append_assoc. reflexivity.
Qed.

End Runs.

End TipRuns.

(** * Runs of [connectAndFetchTip] *)

Module FetchRuns.

Import HeaderWord MuxFacts Chunks Written.
Import FetchTip.

(** What the callback keeps, [push] keeps. *)
Lemma push_loop_keeps_bounded {S : Type}
    (onSegment : segment -> S -> raised S S) (P : S -> Prop)
    (Hon : forall seg s, P s ->
             match onSegment seg s with
             | inl (_, s') => P s'
             | inr s' => P s'
             end) (n : nat) :
  forall (b : Buffer) (s : S),
    (length b <= n)%nat -> P s ->
    match push_loop onSegment b s with
    | inl (_, s') => P s'
    | inr (_, s') => P s'
    end.
Proof.
  induction n as [| n IH]; intros b s Hn Hs.
  - destruct b; [| cbn in Hn; lia]. rewrite push_loop_body. exact Hs.
  - rewrite push_loop_body.
    destruct (Z.geb_spec (blen b) 8) as [H8 | H8]; [| exact Hs].
    destruct (Z.ltb_spec (blen b) (8 + length_field b)) as [Hc | Hc];
      [exact Hs |].
    pose proof (Hon (head_segment b) s Hs) as Hh.
    destruct (onSegment (head_segment b) s) as [[e s'] | s']; [exact Hh |].
    apply IH; [| exact Hh].
    pose proof (length_field_range b).
    unfold subarray_from. rewrite length_skipn. unfold blen in *. lia.
Qed.

Lemma push_loop_keeps {S : Type}
    (onSegment : segment -> S -> raised S S) (P : S -> Prop)
    (Hon : forall seg s, P s ->
             match onSegment seg s with
             | inl (_, s') => P s'
             | inr s' => P s'
             end) (b : Buffer) (s : S) :
  P s ->
  match push_loop onSegment b s with
  | inl (_, s') => P s'
  | inr (_, s') => P s'
  end.
Proof. apply (push_loop_keeps_bounded onSegment P Hon (length b)). lia. Qed.

Section Runs.

Context `{RT : Runtime}.
Variable Date_now : nat -> Z.
Variables (host : string) (port_arg : Z).

#[local] Set Warnings "-notation-for-abbreviation".
Local Notation onSegment := (FetchTip.onSegment Date_now).
Local Notation step := (FetchTip.step Date_now host port_arg).
Local Notation run := (FetchTip.run Date_now host port_arg).

Lemma fetch_run_snoc (evs : list event) (ev : event) :
  run (evs ++ [ev]) = step (run evs) ev.
Proof. unfold FetchTip.run. rewrite fold_left_app. reflexivity. Qed.

Lemma fetch_run_app (evs rest : list event) :
  run (evs ++ rest) = fold_left step rest (run evs).
Proof. unfold FetchTip.run. apply fold_left_app. Qed.

Lemma fetch_exited_absorbs (rest : list event) :
  forall st code, exited st = Some code -> fold_left step rest st = st.
Proof.
  induction rest as [| ev rest IH]; intros st code H; [reflexivity |].
  cbn [fold_left]. assert (Hs : step st ev = st).
  { unfold FetchTip.step. rewrite H. reflexivity. }
  rewrite Hs. apply (IH st code H).
Qed.

(** What one call of [write_segment] does *)
Lemma write_segment_cases (mp : Z) (payloadBuf : Buffer) (st : state) :
  0 <= mp <= 32767 ->
  match write_segment Date_now mp payloadBuf st with
  | inl (_, st') => st' = st
  | inr st' =>
      cl st' = cl st /\ writable st' = writable st
      /\ settled st' = settled st /\ exited st' = exited st
      /\ stderr st' = stderr st /\ stdout st' = stdout st
      /\ (written st' = written st
          \/ exists seg, written st' = written st ++ [seg]
                         /\ segment_mpid seg = mp /\ writable st = true)
  end.
Proof.
  intros Hmp. unfold write_segment.
  destruct (packSegment _ mp 0 payloadBuf) as [e | seg] eqn:Hp; [reflexivity |].
  cbn [cl writable settled exited stderr stdout written].
  repeat split. destruct (writable st); [right | left; reflexivity].
  exists seg. repeat split. apply (packSegment_mpid _ _ _ _ Hmp Hp).
Qed.

(** The effect of the segment callback on what the claims speak of:
    the segments written, the promise, the exit status and the error
    output. *)
Record kept (st st' : state) : Prop := {
  kept_exited : exited st' = exited st;
  kept_stderr : stderr st' = stderr st;
  kept_stdout : stdout st' = stdout st;
  kept_settled : forall r, settled st = Some r -> settled st' = Some r;
  kept_closed : writable st = false ->
                writable st' = false /\ written st' = written st;
  kept_handshake :
    handshakeDone (cl st') = false ->
    handshakeDone (cl st) = false
    /\ exists added,
         written st' = written st ++ added
         /\ Forall (fun seg => segment_mpid seg = HANDSHAKE) added
}.

Lemma fetch_kept_refl (st : state) : kept st st.
Proof.
  constructor; try reflexivity; try (intros; assumption).
  - intros H. split; [exact H | reflexivity].
  - intros H. split; [exact H |]. exists []. rewrite app_nil_r.
    split; [reflexivity | constructor].
Qed.

Lemma fetch_kept_trans (st1 st2 st3 : state) :
  kept st1 st2 -> kept st2 st3 -> kept st1 st3.
Proof.
  intros [E1 R1 O1 S1 C1 H1] [E2 R2 O2 S2 C2 H2]. constructor.
  - congruence.
  - congruence.
  - congruence.
  - intros r Hr. apply S2, S1, Hr.
  - intros Hc. destruct (C1 Hc) as [Hw1 Hx1]. destruct (C2 Hw1) as [Hw2 Hx2].
    split; [exact Hw2 | congruence].
  - intros Hd. destruct (H2 Hd) as [Hd2 (a2 & Ha2 & Hf2)].
    destruct (H1 Hd2) as [Hd1 (a1 & Ha1 & Hf1)].
    split; [exact Hd1 |]. exists (a1 ++ a2).
    split; [rewrite Ha2, Ha1, app_assoc; reflexivity |].
    apply Forall_app. split; assumption.
Qed.

Lemma kept_kill (e : error) (st : state) : kept st (kill e st).
Proof.
  constructor; try reflexivity.
  - intros r Hr. cbn [kill settled]. rewrite Hr. reflexivity.
  - intros _. split; reflexivity.
  - intros H. split; [exact H |]. exists []. rewrite app_nil_r.
    split; [reflexivity | constructor].
Qed.

Lemma kept_resolve (r : resolution) (st : state) : kept st (resolve r st).
Proof.
  constructor; try reflexivity.
  - intros r' Hr. cbn [resolve settled]. rewrite Hr. reflexivity.
  - intros _. split; reflexivity.
  - intros H. split; [exact H |]. exists []. rewrite app_nil_r.
    split; [reflexivity | constructor].
Qed.

(** Writing a segment of another mini-protocol, once the handshake is
    marked done *)
Lemma kept_write_done (mp : Z) (payloadBuf : Buffer) (st : state) :
  0 <= mp <= 32767 -> handshakeDone (cl st) = true ->
  match write_segment Date_now mp payloadBuf st with
  | inl (_, st') => kept st st' /\ handshakeDone (cl st') = true
  | inr st' => kept st st' /\ handshakeDone (cl st') = true
  end.
Proof.
  intros Hmp Hd. pose proof (write_segment_cases mp payloadBuf st Hmp) as H.
  destruct (write_segment Date_now mp payloadBuf st) as [[e st'] | st'].
  - subst. split; [apply fetch_kept_refl | exact Hd].
  - destruct H as (Hcl & Hw & Hs & He & Hr & Ho & Hwr).
    split; [| rewrite Hcl; exact Hd].
    constructor; try assumption.
    + intros r Hr'. rewrite Hs. exact Hr'.
    + intros Hc. split; [rewrite Hw; exact Hc |].
      destruct Hwr as [Hwr | (seg & _ & _ & Hopen)]; [exact Hwr |].
      rewrite Hc in Hopen. discriminate Hopen.
    + rewrite Hcl, Hd. discriminate.
Qed.

Lemma kept_with_client (c : client) (st : state) :
  (handshakeDone c = false -> handshakeDone (cl st) = false) ->
  kept st (with_client c st).
Proof.
  intros Hc. constructor; try reflexivity.
  - intros r Hr. exact Hr.
  - intros H. split; [exact H | reflexivity].
  - intros H. split; [apply Hc; exact H |]. exists []. rewrite app_nil_r.
    split; [reflexivity | constructor].
Qed.

Lemma kept_onSegment (seg : segment) (st : state) :
  match onSegment seg st with
  | inl (_, st') => kept st st'
  | inr st' => kept st st'
  end.
Proof.
  unfold FetchTip.onSegment.
  destruct (decode (payload seg)) as [e | msg]; [apply kept_kill |].
  destruct (miniProtocolId seg =? HANDSHAKE).
  - destruct (negb (isArray msg) || (length (elements msg) <? 1)%nat);
      [apply fetch_kept_refl |].
    destruct (is_num (item (elements msg) 0) 1).
    + set (st1 := with_client _ st).
      assert (H1 : kept st st1)
        by (apply kept_with_client; cbn; discriminate).
      assert (Hd1 : handshakeDone (cl st1) = true) by reflexivity.
      pose proof (kept_write_done PEERSHARE (encode (VArr [VNum 0; VNum 8]))
                    st1 ltac:(unfold PEERSHARE; lia) Hd1) as H2.
      destruct (write_segment Date_now PEERSHARE _ st1) as [[e st2] | st2].
      * apply (fetch_kept_trans _ _ _ H1 (proj1 H2)).
      * destruct H2 as [H2 Hd2].
        pose proof (kept_write_done CHAINSYNC
                      (encode (VArr [VNum 4; VArr []]))
                      st2 ltac:(unfold CHAINSYNC; lia) Hd2) as H3.
        destruct (write_segment Date_now CHAINSYNC _ st2) as [[e st3] | st3];
          apply (fetch_kept_trans _ _ _ H1 (fetch_kept_trans _ _ _ H2 (proj1 H3))).
    + destruct (is_num (item (elements msg) 0) 2); [| apply fetch_kept_refl].
      destruct (stringify msg); [apply fetch_kept_refl | apply kept_kill].
  - destruct (miniProtocolId seg =? PEERSHARE).
    + destruct (isArray msg && is_num (item (elements msg) 0) 1);
        [| apply fetch_kept_refl].
      destruct (parsePeerAddresses (item (elements msg) 1));
        [apply fetch_kept_refl |].
      apply kept_with_client. cbn. intros H; exact H.
    + destruct (miniProtocolId seg =? CHAINSYNC); [| apply fetch_kept_refl].
      destruct (isArray msg && _); [| apply fetch_kept_refl].
      eapply fetch_kept_trans; [| apply kept_resolve].
      apply kept_with_client. cbn. intros H; exact H.
Qed.

Lemma kept_push_loop (b : Buffer) (st : state) :
  match push_loop onSegment b st with
  | inl (_, st') => kept st st'
  | inr (_, st') => kept st st'
  end.
Proof.
  apply (push_loop_keeps onSegment (kept st)); [| apply fetch_kept_refl].
  intros seg s Hs. pose proof (kept_onSegment seg s) as H.
  destruct (onSegment seg s) as [[e s'] | s'];
    apply (fetch_kept_trans _ _ _ Hs H).
Qed.

Lemma kept_on_connect (st : state) :
  match on_connect Date_now st with
  | inl (_, st') => kept st st'
  | inr st' => kept st st'
  end.
Proof.
  unfold on_connect.
  pose proof (write_segment_cases HANDSHAKE (encode propose) st
                ltac:(unfold HANDSHAKE; lia)) as H.
  destruct (write_segment Date_now HANDSHAKE _ st) as [[e st'] | st'].
  - subst. apply fetch_kept_refl.
  - destruct H as (Hcl & Hw & Hs & He & Hr & Ho & Hwr).
    constructor; try assumption.
    + intros r Hr'. rewrite Hs. exact Hr'.
    + intros Hc. split; [rewrite Hw; exact Hc |].
      destruct Hwr as [Hwr | (seg & _ & _ & Hopen)]; [exact Hwr |].
      rewrite Hc in Hopen. discriminate Hopen.
    + intros Hd. rewrite Hcl in Hd. split; [exact Hd |].
      destruct Hwr as [Hwr | (seg & Hwr & Hm & _)].
      * exists []. rewrite app_nil_r. split; [exact Hwr | constructor].
      * exists [seg]. split; [exact Hwr |]. repeat constructor. exact Hm.
Qed.

Lemma kept_with_buf (b : Buffer) (st : state) : kept st (with_buf b st).
Proof.
  constructor; try reflexivity.
  - intros r Hr. exact Hr.
  - intros H. split; [exact H | reflexivity].
  - intros H. split; [exact H |]. exists []. rewrite app_nil_r.
    split; [reflexivity | constructor].
Qed.

Lemma kept_handle (st : state) (ev : event) :
  match handle Date_now st ev with
  | inl (_, st') => kept st st'
  | inr st' => kept st st'
  end.
Proof.
  destruct ev; cbn [handle].
  - apply kept_on_connect.
  - unfold push. pose proof (kept_push_loop (mux_buf st ++ chunk) st) as H.
    destruct (push_loop onSegment (mux_buf st ++ chunk) st)
      as [[e st'] | [b st']]; [exact H |].
    cbn [fst snd]. apply (fetch_kept_trans _ _ _ H (kept_with_buf b st')).
  - apply kept_kill.
  - destruct (negb (gotTip (cl st))); [apply kept_kill | apply fetch_kept_refl].
  - apply kept_kill.
Qed.

(** While the process runs its promise is pending, and until a handshake
    was marked done only handshake segments were written. *)
Lemma run_invariant (evs : list event) :
  (exited (run evs) = None -> settled (run evs) = None)
  /\ (handshakeDone (cl (run evs)) = false ->
      Forall (fun seg => segment_mpid seg = HANDSHAKE) (written (run evs))).
Proof.
  induction evs as [| ev evs IH] using rev_ind.
  - split; [reflexivity | constructor].
  - rewrite fetch_run_snoc. destruct IH as [IHs IHw]. set (st := run evs) in *.
    unfold FetchTip.step.
    destruct (exited st) as [code |] eqn:Hex.
    { split; [intros H; rewrite Hex in H; discriminate H | exact IHw]. }
    pose proof (kept_handle st ev) as Hk.
    destruct (handle Date_now st ev) as [[e st'] | st'].
    + split; [discriminate |]. cbn [crash cl written].
      intros Hd. destruct (kept_handshake _ _ Hk Hd) as [Hd0 (a & Ha & Hf)].
      rewrite Ha. apply Forall_app. split; [apply IHw; exact Hd0 | exact Hf].
    + assert (Hw : handshakeDone (cl st') = false ->
                   Forall (fun seg => segment_mpid seg = HANDSHAKE)
                          (written st')).
      { intros Hd. destruct (kept_handshake _ _ Hk Hd) as [Hd0 (a & Ha & Hf)].
        rewrite Ha. apply Forall_app.
        split; [apply IHw; exact Hd0 | exact Hf]. }
      unfold settle. rewrite (kept_exited _ _ Hk), Hex.
      destruct (settled st') as [[e | r] |] eqn:Hs.
      * split; [discriminate | exact Hw].
      * cbv zeta. destruct (printable _); (split; [discriminate | exact Hw]).
      * split; [intros _; exact Hs | exact Hw].
Qed.

(** The data event whose first segment is a handshake [MsgRefuse]: the
    process ends with status 1 and one error, having written nothing.
    When [JSON.stringify] prints the message, the promise is rejected
    with the refusal; the refusal is the error printed when no later
    segment of the chunk throws. *)
Lemma fetch_step_refused (st : state) (chunk : Buffer) (reason : list value) :
  exited st = None -> settled st = None ->
  8 <= blen (mux_buf st ++ chunk) ->
  8 + length_field (mux_buf st ++ chunk) <= blen (mux_buf st ++ chunk) ->
  miniProtocolId (head_segment (mux_buf st ++ chunk)) = HANDSHAKE ->
  decode (payload (head_segment (mux_buf st ++ chunk)))
  = inr (VArr (VNum 2 :: reason)) ->
  let b := mux_buf st ++ chunk in
  let behind := subarray_from b (Z.to_nat (8 + length_field b)) in
  let st' := step st (SocketData chunk) in
  exited st' = Some 1
  /\ written st' = written st
  /\ stdout st' = stdout st
  /\ (exists e, stderr st' = stderr st ++ [e])
  /\ (forall text,
        stringify (VArr (VNum 2 :: reason)) = inr text ->
        let refused := Error ("Handshake refused: " ++ text) in
        settled st' = Some (inl refused)
        /\ ((forall e s,
                push_loop onSegment behind (kill refused st) <> inl (e, s)) ->
            stderr st' = stderr st ++ [refused])).
Proof.
  intros Hex Hs H8 Hc Hmp Hd b behind st'. subst st'.
  unfold FetchTip.step. rewrite Hex. cbn [handle]. unfold push. fold b.
  rewrite push_loop_body.
  destruct (Z.geb_spec (blen b) 8); [| unfold b in *; lia].
  destruct (Z.ltb_spec (blen b) (8 + length_field b)); [unfold b in *; lia |].
  fold behind.
  assert (Hon : onSegment (head_segment b) st
                = match stringify (VArr (VNum 2 :: reason)) with
                  | inl e => inl (e, st)
                  | inr text =>
                      inr (kill (Error ("Handshake refused: " ++ text)) st)
                  end).
  { unfold FetchTip.onSegment. fold b in Hd, Hmp. rewrite Hd, Hmp. reflexivity. }
  rewrite Hon.
  destruct (stringify (VArr (VNum 2 :: reason))) as [e0 | text].
  { cbn [crash exited written stdout stderr].
    split; [reflexivity |]. split; [reflexivity |]. split; [reflexivity |].
    split; [eexists; reflexivity |]. intros text Ht. discriminate Ht. }
  set (refused := Error ("Handshake refused: " ++ text)).
  pose proof (kept_push_loop behind (kill refused st)) as Hk.
  assert (Hsk : settled (kill refused st) = Some (inl refused))
    by (cbn [kill settled]; rewrite Hs; reflexivity).
  destruct (push_loop onSegment behind (kill refused st))
    as [[e s'] | [b' s']] eqn:Hpl.
  - destruct (kept_closed _ _ Hk eq_refl) as [_ Hw].
    cbn [crash exited written stdout stderr settled].
    rewrite (kept_stdout _ _ Hk), (kept_stderr _ _ Hk).
    split; [reflexivity |]. split; [exact Hw |]. split; [reflexivity |].
    split; [eexists; reflexivity |].
    intros text' Ht. injection Ht as <-. split.
    + apply (kept_settled _ _ Hk _ Hsk).
    + intros Hno. exfalso. apply (Hno e s'). exact Hpl.
  - destruct (kept_closed _ _ Hk eq_refl) as [_ Hw].
    cbn [fst snd]. unfold settle. cbn [with_buf exited settled].
    rewrite (kept_exited _ _ Hk). cbn [kill exited]. rewrite Hex.
    rewrite (kept_settled _ _ Hk _ Hsk).
    cbn [failed exited written stdout stderr settled with_buf].
    rewrite (kept_stdout _ _ Hk), (kept_stderr _ _ Hk).
    split; [reflexivity |]. split; [exact Hw |]. split; [reflexivity |].
    split; [eexists; reflexivity |].
    intros text' Ht. injection Ht as <-. split.
    + apply (kept_settled _ _ Hk _ Hsk).
    + intros _. reflexivity.
Qed.

(** A handshake [MsgQueryReply], or any handshake message whose tag is
    neither 1 nor 2, changes nothing. *)
Lemma onSegment_ignored (seg : segment) (st : state) (tag : Z)
    (rest : list value) :
  tag <> 1 -> tag <> 2 ->
  miniProtocolId seg = HANDSHAKE ->
  decode (payload seg) = inr (VArr (VNum tag :: rest)) ->
  onSegment seg st = inr st.
Proof.
  intros H1 H2 Hmp Hd. unfold FetchTip.onSegment. rewrite Hd, Hmp.
  cbn [Z.eqb HANDSHAKE isArray negb elements length Nat.ltb Nat.leb orb item
       nth is_num].
  destruct (Z.eqb_spec tag 1); [contradiction |].
  destruct (Z.eqb_spec tag 2); [contradiction |]. reflexivity.
Qed.

(** A data event that brings exactly one segment *)
Lemma step_one_segment (st : state) (chunk : Buffer) :
  exited st = None ->
  8 <= blen (mux_buf st ++ chunk) ->
  blen (mux_buf st ++ chunk) = 8 + length_field (mux_buf st ++ chunk) ->
  step st (SocketData chunk)
  = match onSegment (head_segment (mux_buf st ++ chunk)) st with
    | inl (e, st') => crash e st'
    | inr st' => settle host port_arg (with_buf [] st')
    end.
Proof.
  intros Hex H8 Hb. set (b := mux_buf st ++ chunk) in *.
  unfold FetchTip.step. rewrite Hex. cbn [handle]. unfold push. fold b.
  rewrite push_loop_body.
  destruct (Z.geb_spec (blen b) 8); [| lia].
  destruct (Z.ltb_spec (blen b) (8 + length_field b)); [lia |].
  destruct (onSegment (head_segment b) st) as [[e s'] | s']; [reflexivity |].
  replace (subarray_from b (Z.to_nat (8 + length_field b))) with (@nil byte).
  - rewrite push_loop_body. reflexivity.
  - symmetry. unfold subarray_from. apply skipn_all2. unfold blen in Hb. lia.
Qed.

End Runs.

End FetchRuns.

(** * Runs of the lab script *)

Module LabRuns.

Import HeaderWord MuxFacts Chunks Written.
Import Lab.

Section Runs.

Context `{RT : Runtime}.
Variable Date_now : nat -> Z.

#[local] Set Warnings "-notation-for-abbreviation".
Local Notation step := (Lab.step Date_now).
Local Notation run := (Lab.run Date_now).

Lemma lab_run_snoc (evs : list event) (ev : event) :
  run (evs ++ [ev]) = step (run evs) ev.
Proof. unfold Lab.run. rewrite fold_left_app. reflexivity. Qed.

Lemma lab_run_app (evs rest : list event) :
  run (evs ++ rest) = fold_left step rest (run evs).
Proof. unfold Lab.run. apply fold_left_app. Qed.

(** What the handlers keep: the exit status, a destroyed socket and
    what it had sent; and they send ChainSync frames only. *)
Record kept (st st' : state) : Prop := {
  kept_exited : exited st' = exited st;
  kept_destroyed : destroyed st = true ->
                   destroyed st' = true /\ written st' = written st;
  kept_written :
    exists added,
      written st' = written st ++ added
      /\ Forall (fun frame => protocolId_of frame = CHAIN_SYNC) added
}.

Lemma lab_kept_refl (st : state) : kept st st.
Proof.
  constructor; [reflexivity | intros H; split; [exact H | reflexivity] |].
  exists []. rewrite app_nil_r. split; [reflexivity | constructor].
Qed.

Lemma lab_kept_trans (st1 st2 st3 : state) :
  kept st1 st2 -> kept st2 st3 -> kept st1 st3.
Proof.
  intros [E1 D1 (a1 & W1 & F1)] [E2 D2 (a2 & W2 & F2)]. constructor.
  - congruence.
  - intros Hd. destruct (D1 Hd) as [Hd1 Hw1]. destruct (D2 Hd1) as [Hd2 Hw2].
    split; [exact Hd2 | congruence].
  - exists (a1 ++ a2). split; [rewrite W2, W1, app_assoc; reflexivity |].
    apply Forall_app. split; assumption.
Qed.

Lemma kept_log (l : line) (st : state) : kept st (log l st).
Proof.
  constructor; [reflexivity | intros H; split; [exact H | reflexivity] |].
  exists []. rewrite app_nil_r. split; [reflexivity | constructor].
Qed.

Lemma kept_destroy (st : state) : kept st (destroy st).
Proof.
  constructor; [reflexivity | intros H; split; reflexivity |].
  exists []. rewrite app_nil_r. split; [reflexivity | constructor].
Qed.

Lemma write_frame_cases (pid : Z) (payload : Buffer) (st : state) :
  match write_frame Date_now pid payload st with
  | inl (_, st') | inr st' =>
      (destroyed st = true ->
       destroyed st' = true /\ written st' = written st)
      /\ exists added,
           written st' = written st ++ added
           /\ Forall (fun frame => protocolId_of frame = pid) added
  end.
Proof.
  unfold write_frame.
  destruct (createMuxFrame _ pid payload) as [e | f] eqn:Hf;
    cbn [destroyed written].
  - split; [intros H; split; [exact H | reflexivity] |].
    exists []. rewrite app_nil_r. split; [reflexivity | constructor].
  - split; [intros H; rewrite H; split; reflexivity |].
    destruct (destroyed st).
    + exists []. rewrite app_nil_r. split; [reflexivity | constructor].
    + exists [f]. split; [reflexivity |]. repeat constructor.
      apply (createMuxFrame_protocolId _ _ _ _ Hf).
Qed.

Lemma kept_write_frame (payload : Buffer) (st : state) :
  match write_frame Date_now CHAIN_SYNC payload st with
  | inl (_, st') => kept st st'
  | inr st' => kept st st'
  end.
Proof.
  unfold write_frame.
  destruct (createMuxFrame _ CHAIN_SYNC payload) as [e | f] eqn:Hf.
  - constructor; [reflexivity | intros H; split; [exact H | reflexivity] |].
    exists []. rewrite app_nil_r. split; [reflexivity | constructor].
  - constructor; [reflexivity | |]; cbn [destroyed written].
    + intros H. rewrite H. split; reflexivity.
    + destruct (destroyed st).
      * exists []. rewrite app_nil_r. split; [reflexivity | constructor].
      * exists [f]. split; [reflexivity |]. repeat constructor.
        apply (createMuxFrame_protocolId _ _ _ _ Hf).
Qed.

Lemma kept_handleHandshake (payload : Buffer) (st : state) :
  match handleHandshake Date_now payload st with
  | inl (_, st') => kept st st'
  | inr st' => kept st st'
  end.
Proof.
  unfold handleHandshake, lift.
  destruct (decode payload) as [e | decoded]; [apply lab_kept_refl |].
  destruct (get decoded 0) as [e | msgId]; [apply lab_kept_refl |].
  destruct (is_num msgId ACCEPT).
  - destruct (get decoded 1) as [e | version]; [apply lab_kept_refl |].
    set (st1 := log SendingChainSync (log (HandshakeAccepted version) st)).
    assert (H1 : kept st st1)
      by (eapply lab_kept_trans; apply kept_log).
    pose proof (kept_write_frame (from_hex "820480") st1) as H2.
    destruct (write_frame Date_now CHAIN_SYNC _ st1) as [[e st2] | st2];
      apply (lab_kept_trans _ _ _ H1 H2).
  - destruct (is_num msgId REFUSE); [| apply lab_kept_refl].
    destruct (get decoded 2) as [e | shown]; [apply lab_kept_refl |].
    destruct (stringify shown); [apply lab_kept_refl |].
    eapply lab_kept_trans; [apply kept_log | apply kept_destroy].
Qed.

Lemma kept_handleChainSync (payload : Buffer) (st : state) :
  match handleChainSync payload st with
  | inl (_, st') => kept st st'
  | inr st' => kept st st'
  end.
Proof.
  unfold handleChainSync, lift.
  destruct (decode payload) as [e | decoded]; [apply lab_kept_refl |].
  destruct (get decoded 0) as [e | msgId]; [apply lab_kept_refl |].
  destruct (is_num msgId INTERSECT_FOUND || is_num msgId INTERSECT_NOT_FOUND);
    [| apply lab_kept_refl].
  destruct (last_element decoded) as [e | tip]; [apply lab_kept_refl |].
  destruct (destructure2 tip) as [e | [point blockNo]]; [apply lab_kept_refl |].
  destruct (destructure2 point) as [e | [slot hash]]; [apply lab_kept_refl |].
  assert (H4 : kept st (log (TipBlockNo blockNo)
                          (log (TipSlot slot) (log TipRule (log TipBanner st))))).
  { repeat (eapply lab_kept_trans; [| apply kept_log]). apply lab_kept_refl. }
  destruct (toString_hex hash) as [e | hashHex]; [exact H4 |].
  eapply lab_kept_trans; [exact H4 |].
  eapply lab_kept_trans; [apply kept_log |].
  eapply lab_kept_trans; [apply kept_log | apply kept_destroy].
Qed.

Lemma kept_dispatch (pid : Z) (payload : Buffer) (st : state) :
  kept st (dispatch Date_now pid payload st).
Proof.
  unfold dispatch. destruct (pid =? HANDSHAKE).
  - pose proof (kept_handleHandshake payload st) as H.
    destruct (handleHandshake Date_now payload st) as [[e st'] | st'];
      [| exact H].
    eapply lab_kept_trans; [exact H |].
    eapply lab_kept_trans; [apply kept_log | apply kept_destroy].
  - destruct (pid =? CHAIN_SYNC); [| apply lab_kept_refl].
    pose proof (kept_handleChainSync payload st) as H.
    destruct (handleChainSync payload st) as [[e st'] | st']; [| exact H].
    eapply lab_kept_trans; [exact H |].
    eapply lab_kept_trans; [apply kept_log | apply kept_destroy].
Qed.

Lemma kept_data_loop_bounded (n : nat) :
  forall (b : Buffer) (st : state),
    (length b <= n)%nat -> kept st (snd (data_loop Date_now b st)).
Proof.
  induction n as [| n IH]; intros b st Hn.
  - destruct b; [| cbn in Hn; lia]. rewrite data_loop_body. apply lab_kept_refl.
  - rewrite data_loop_body.
    destruct (Z.geb_spec (blen b) 8) as [H8 | H8]; [| apply lab_kept_refl].
    destruct (Z.ltb_spec (blen b) (8 + payloadLen_of b)) as [Hc | Hc];
      [apply lab_kept_refl |].
    eapply lab_kept_trans; [apply kept_dispatch |]. apply IH.
    pose proof (payloadLen_range b).
    unfold subarray_from. rewrite length_skipn. unfold blen in *. lia.
Qed.

Lemma kept_on_data (chunk : Buffer) (st : state) :
  kept st (on_data Date_now chunk st).
Proof.
  unfold on_data.
  pose proof (kept_data_loop_bounded (length (buffer st ++ chunk))
                (buffer st ++ chunk) st (le_n _)) as [E D W].
  constructor; assumption.
Qed.

(** One event adds at most the proposal of the connection callback and
    ChainSync frames; a destroyed socket stays destroyed and sends
    nothing. *)
Lemma step_written (st : state) (ev : event) :
  (destroyed st = true ->
   destroyed (step st ev) = true /\ written (step st ev) = written st)
  /\ exists added,
       written (step st ev) = written st ++ added
       /\ Forall (fun frame => protocolId_of frame = HANDSHAKE
                               \/ protocolId_of frame = CHAIN_SYNC) added.
Proof.
  assert (Hnone : exists added : list Buffer,
             written st = written st ++ added
             /\ Forall (fun frame => protocolId_of frame = HANDSHAKE
                                     \/ protocolId_of frame = CHAIN_SYNC) added).
  { exists []. rewrite app_nil_r. split; [reflexivity | constructor]. }
  unfold Lab.step. destruct (exited st).
  { split; [intros H; split; [exact H | reflexivity] | exact Hnone]. }
  destruct ev.
  - unfold on_connect.
    pose proof (write_frame_cases HANDSHAKE buildHandshakePayload
                  (log SendingHandshake (log Connected st))) as H.
    destruct (write_frame Date_now HANDSHAKE buildHandshakePayload _)
      as [[e st'] | st']; destruct H as [D (a & Ha & Hf)];
      cbn [exit destroyed written log] in *.
    + split; [exact D |]. exists a. split; [exact Ha |].
      eapply Forall_impl; [| exact Hf]. intros f H. left. exact H.
    + split; [exact D |]. exists a. split; [exact Ha |].
      eapply Forall_impl; [| exact Hf]. intros f H. left. exact H.
  - destruct (kept_on_data chunk st) as [_ D (a & Ha & Hf)].
    split; [exact D |]. exists a. split; [exact Ha |].
    eapply Forall_impl; [| exact Hf]. intros f H. right. exact H.
  - split; [intros H; split; [exact H | reflexivity] | exact Hnone].
  - split; [intros H; split; [exact H | reflexivity] | exact Hnone].
Qed.

(** The script writes handshake and ChainSync frames only. *)
Lemma run_written (evs : list event) :
  Forall (fun frame => protocolId_of frame = HANDSHAKE
                       \/ protocolId_of frame = CHAIN_SYNC)
         (written (run evs)).
Proof.
  induction evs as [| ev evs IH] using rev_ind; [constructor |].
  rewrite lab_run_snoc. destruct (step_written (run evs) ev) as [_ (a & Ha & Hf)].
  rewrite Ha. apply Forall_app. split; assumption.
Qed.

(** Once the socket is destroyed nothing more is sent. *)
Lemma destroyed_frozen (rest : list event) :
  forall st, destroyed st = true ->
             written (fold_left step rest st) = written st.
Proof.
  induction rest as [| ev rest IH]; intros st H; [reflexivity |].
  cbn [fold_left]. destruct (step_written st ev) as [D _].
  destruct (D H) as [Hd Hw]. rewrite (IH _ Hd). exact Hw.
Qed.

Lemma lab_exited_absorbs (rest : list event) :
  forall st code, exited st = Some code -> fold_left step rest st = st.
Proof.
  induction rest as [| ev rest IH]; intros st code H; [reflexivity |].
  cbn [fold_left]. assert (Hs : step st ev = st).
  { unfold Lab.step. rewrite H. reflexivity. }
  rewrite Hs. apply (IH st code H).
Qed.

Lemma destroyed_stays (rest : list event) :
  forall st, destroyed st = true ->
             destroyed (fold_left step rest st) = true.
Proof.
  induction rest as [| ev rest IH]; intros st H; [exact H |].
  cbn [fold_left]. destruct (step_written st ev) as [D _].
  destruct (D H) as [Hd _]. apply (IH _ Hd).
Qed.

(** The line that the handler prints for a [MsgRefuse]: the third
    element of the message, or the exception of [JSON.stringify] on it,
    which the [catch] of the listener prints. *)
Definition refuse_line (shown : value) : line :=
  match stringify shown with
  | inl e => DecodingError e
  | inr _ => HandshakeRefused shown
  end.

Lemma dispatch_refuse (payload : Buffer) (st : state) (reason : list value) :
  decode payload = inr (VArr (VNum 2 :: reason)) ->
  dispatch Date_now HANDSHAKE payload st
  = destroy (log (refuse_line (item (VNum 2 :: reason) 2)) st).
Proof.
  intros Hd. unfold dispatch, handleHandshake, lift, refuse_line. rewrite Hd.
  change (HANDSHAKE =? HANDSHAKE) with true. cbv iota.
  change (get (VArr (VNum 2 :: reason)) 0) with (Ok (VNum 2)).
  change (get (VArr (VNum 2 :: reason)) 2)
    with (Ok (item (VNum 2 :: reason) 2)).
  change (is_num (VNum 2) ACCEPT) with false.
  change (is_num (VNum 2) REFUSE) with true. cbv iota beta delta [Ok].
  destruct (stringify _); reflexivity.
Qed.

(** The data event whose first frame is a handshake [MsgRefuse]: the
    socket is destroyed and nothing is written from then on; the process
    goes on, and ends with status 0 when the socket closes. *)
Lemma lab_step_refused (st : state) (chunk : Buffer) (reason : list value) :
  exited st = None ->
  8 <= blen (buffer st ++ chunk) ->
  8 + payloadLen_of (buffer st ++ chunk) <= blen (buffer st ++ chunk) ->
  protocolId_of (buffer st ++ chunk) = HANDSHAKE ->
  decode (subarray (buffer st ++ chunk) 8
            (Z.to_nat (8 + payloadLen_of (buffer st ++ chunk))))
  = inr (VArr (VNum 2 :: reason)) ->
  (forall rest,
      destroyed (fold_left step (SocketData chunk :: rest) st) = true
      /\ written (fold_left step (SocketData chunk :: rest) st) = written st)
  /\ exited (step st (SocketData chunk)) = None
  /\ exited (fold_left step [SocketData chunk; SocketClose] st) = Some 0.
Proof.
  intros Hex H8 Hc Hp Hd.
  set (b := buffer st ++ chunk) in *.
  assert (Hs : destroyed (step st (SocketData chunk)) = true
               /\ written (step st (SocketData chunk)) = written st
               /\ exited (step st (SocketData chunk)) = None).
  { unfold Lab.step. rewrite Hex.
    split; [| split];
      [| | rewrite (kept_exited _ _ (kept_on_data chunk st)); exact Hex];
      unfold on_data; fold b; rewrite data_loop_body;
      (destruct (Z.geb_spec (blen b) 8); [| lia]);
      (destruct (Z.ltb_spec (blen b) (8 + payloadLen_of b)); [lia |]);
      rewrite Hp, (dispatch_refuse _ st reason Hd);
      set (st1 := destroy _);
      pose proof (kept_data_loop_bounded
                    (length (subarray_from b (Z.to_nat (8 + payloadLen_of b))))
                    (subarray_from b (Z.to_nat (8 + payloadLen_of b))) st1
                    (le_n _)) as Hk;
      destruct (kept_destroyed _ _ Hk eq_refl) as [Hd1 Hw1];
      cbn [with_buffer destroyed written]; [exact Hd1 | exact Hw1]. }
  destruct Hs as (Hd' & Hw & He). split; [| split].
  - intros rest. cbn [fold_left]. split.
    + apply (destroyed_stays rest _ Hd').
    + rewrite (destroyed_frozen rest _ Hd'). exact Hw.
  - exact He.
  - cbn [fold_left]. unfold Lab.step at 1. rewrite He. reflexivity.
Qed.

(** A chunk that completes exactly one frame whose protocol field is
    neither that of the handshake nor that of ChainSync: the listener
    takes the frame off the buffer and does nothing else. *)
Lemma lab_step_other (st : state) (chunk : Buffer) :
  exited st = None ->
  8 <= blen (buffer st ++ chunk) ->
  blen (buffer st ++ chunk) = 8 + payloadLen_of (buffer st ++ chunk) ->
  protocolId_of (buffer st ++ chunk) <> HANDSHAKE ->
  protocolId_of (buffer st ++ chunk) <> CHAIN_SYNC ->
  step st (SocketData chunk) = with_buffer [] st.
Proof.
  intros Hex H8 Hb Hh Hc. unfold Lab.step. rewrite Hex.
  unfold on_data. set (b := buffer st ++ chunk) in *.
  rewrite data_loop_body.
  destruct (Z.geb_spec (blen b) 8); [| lia].
  destruct (Z.ltb_spec (blen b) (8 + payloadLen_of b)); [lia |].
  unfold dispatch.
  destruct (Z.eqb_spec (protocolId_of b) HANDSHAKE); [contradiction |].
  destruct (Z.eqb_spec (protocolId_of b) CHAIN_SYNC); [contradiction |].
  assert (Hnil : subarray_from b (Z.to_nat (8 + payloadLen_of b)) = []).
  { unfold subarray_from. apply skipn_all2. unfold blen in Hb. lia. }
  rewrite Hnil, data_loop_body. reflexivity.
Qed.

End Runs.

End LabRuns.

(** * The handshake replies *)

(** Segments as a peer sends them, for the examples: the bytes that
    [muxFrame] frames a CBOR item with. *)
Definition peer_segment (mpid mode : Z) (msg : value) : Buffer :=
  match ChainsyncTip.muxFrame mpid mode (Reference.cbor_encode msg) with
  | inr seg => seg
  | inl _ => []
  end.

(** [[2, ["VersionMismatch", [15, 14]]]] *)
Definition refuse_example : value :=
  VArr [VNum 2; VArr [VStr "VersionMismatch"; VArr [VNum 15; VNum 14]]].

(** [[1, 14, [764824073, false, 1, false]]] *)
Definition accept_example : value :=
  VArr [VNum 1; VNum 14;
        VArr [VNum 764824073; VBool false; VNum 1; VBool false]].

(** C4 (as amended). When the responder's reply to the proposal is
    [MsgRefuse] (tag 2):

    - [chainsync-tip.cjs] fails the run and exits with status 1, having
      printed one error and written nothing after the proposal; the
      error carries the JSON text of the refuse message, reason
      included, or is the exception of [JSON.stringify] when the message
      holds a BigInt;
    - [connectAndFetchTip] exits with status 1, having printed one
      error and no report and written nothing after the proposal; when
      [JSON.stringify] prints the message, the promise is rejected with
      an error that carries its JSON text, and this is the error printed
      unless a later segment of the same chunk throws (so it is, when
      the refuse ends its chunk);
    - the lab script, when it reads the frame as a handshake frame (the
      16-bit field it takes for the protocol number is 0), writes
      nothing more, destroys the socket and goes on: the refuse does not
      end the process, which ends with status 0 when the socket
      closes.  A frame whose field it reads as another number than 0
      and 2, as it does when the frame carries the responder's mode
      bit, is taken off the buffer and ignored, whatever it holds. *)
Theorem handshake_refused `{RT : Runtime} (Date_now : nat -> Z)
    (HOST : string) (PORT NETWORK_MAGIC : Z) (WANT_PEER_SHARING : bool)
    (reason : list value) :
  (forall (evs rest : list ChainsyncTip.event) (d : Buffer) (p : nat)
          (f : ChainsyncTip.frame) (more : list (nat * ChainsyncTip.frame)),
      let run := ChainsyncTip.run HOST PORT NETWORK_MAGIC WANT_PEER_SHARING in
      ChainsyncTip.at_phase (run evs) = ChainsyncTip.AwaitHandshake ->
      snd (ChainsyncTip.on_data (ChainsyncTip.mux (run evs)) d)
      = (p, f) :: more ->
      ChainsyncTip.decodeCbor (ChainsyncTip.payload f)
      = VArr (VNum 2 :: reason) ->
      let st' := run (evs ++ ChainsyncTip.SocketData d :: rest) in
      ChainsyncTip.at_phase st' = ChainsyncTip.Exited 1
      /\ ChainsyncTip.stderr st'
         = ChainsyncTip.stderr (run evs)
           ++ [match stringify (VArr (VNum 2 :: reason)) with
               | inr text => Error ("handshake refused: " ++ text)
               | inl e => e
               end]
      /\ ChainsyncTip.stdout st' = ChainsyncTip.stdout (run evs)
      /\ ChainsyncTip.written st' = ChainsyncTip.written (run evs)
      /\ Forall (fun seg => segment_mpid seg = MP_HANDSHAKE)
                (ChainsyncTip.written st'))
  /\
  (forall (evs rest : list FetchTip.event) (chunk : Buffer),
      let run := FetchTip.run Date_now HOST PORT in
      let b := FetchTip.mux_buf (run evs) ++ chunk in
      let behind :=
        subarray_from b (Z.to_nat (8 + FetchTip.length_field b)) in
      FetchTip.exited (run evs) = None ->
      FetchTip.handshakeDone (FetchTip.cl (run evs)) = false ->
      8 <= blen b -> 8 + FetchTip.length_field b <= blen b ->
      FetchTip.miniProtocolId (FetchTip.head_segment b) = FetchTip.HANDSHAKE ->
      decode (FetchTip.payload (FetchTip.head_segment b))
      = inr (VArr (VNum 2 :: reason)) ->
      let st' := run (evs ++ FetchTip.SocketData chunk :: rest) in
      FetchTip.exited st' = Some 1
      /\ Forall (fun seg => segment_mpid seg = FetchTip.HANDSHAKE)
                (FetchTip.written st')
      /\ FetchTip.written st' = FetchTip.written (run evs)
      /\ FetchTip.stdout st' = FetchTip.stdout (run evs)
      /\ (exists e, FetchTip.stderr st' = FetchTip.stderr (run evs) ++ [e])
      /\ (forall text,
            stringify (VArr (VNum 2 :: reason)) = inr text ->
            let refused := Error ("Handshake refused: " ++ text) in
            FetchTip.settled st' = Some (inl refused)
            /\ ((forall e s,
                    FetchTip.push_loop (FetchTip.onSegment Date_now) behind
                      (FetchTip.kill refused (run evs)) <> inl (e, s)) ->
                FetchTip.stderr st' = FetchTip.stderr (run evs) ++ [refused])
            /\ (blen b = 8 + FetchTip.length_field b ->
                FetchTip.stderr st'
                = FetchTip.stderr (run evs) ++ [refused])))
  /\
  (forall (evs : list Lab.event) (chunk : Buffer),
      let run := Lab.run Date_now in
      let b := Lab.buffer (run evs) ++ chunk in
      8 <= blen b -> 8 + Lab.payloadLen_of b <= blen b ->
      Lab.protocolId_of b = Lab.HANDSHAKE ->
      decode (subarray b 8 (Z.to_nat (8 + Lab.payloadLen_of b)))
      = inr (VArr (VNum 2 :: reason)) ->
      (forall rest,
          Lab.written (run (evs ++ Lab.SocketData chunk :: rest))
          = Lab.written (run evs))
      /\ (Lab.exited (run evs) = None ->
          (forall rest,
              Lab.destroyed (run (evs ++ Lab.SocketData chunk :: rest)) = true)
          /\ Lab.exited (run (evs ++ [Lab.SocketData chunk])) = None
          /\ Lab.exited (run (evs ++ [Lab.SocketData chunk; Lab.SocketClose]))
             = Some 0))
  /\
  (forall (evs : list Lab.event) (chunk : Buffer),
      let run := Lab.run Date_now in
      let b := Lab.buffer (run evs) ++ chunk in
      Lab.exited (run evs) = None ->
      8 <= blen b -> blen b = 8 + Lab.payloadLen_of b ->
      Lab.protocolId_of b <> Lab.HANDSHAKE ->
      Lab.protocolId_of b <> Lab.CHAIN_SYNC ->
      run (evs ++ [Lab.SocketData chunk]) = Lab.with_buffer [] (run evs)).
Proof.
  split; [| split; [| split]]; cycle 3.
  { intros evs chunk run b Hex H8 Hb Hh Hc. subst run.
    rewrite LabRuns.lab_run_snoc.
    apply LabRuns.lab_step_other; assumption. }
  - intros evs rest d p f more run Hp Hr Hd st'. subst st' run.
    rewrite TipRuns.tip_run_app. cbn [fold_left].
    rewrite (TipRuns.step_handshake_frame _ _ _ _ _ _ _ _ _ Hp Hr).
    rewrite (TipRuns.after_handshake_refuse _ _ _ Hd).
    erewrite TipRuns.tip_exited_absorbs by reflexivity.
    unfold TipRuns.refusal.
    cbn [ChainsyncTip.fail ChainsyncTip.at_phase ChainsyncTip.stderr
         ChainsyncTip.written ChainsyncTip.with_mux ChainsyncTip.stdout].
    split; [reflexivity |].
    split; [destruct (stringify _); reflexivity |].
    split; [reflexivity |]. split; [reflexivity |].
    apply (proj2 (TipRuns.run_before_accept HOST PORT NETWORK_MAGIC
                    WANT_PEER_SHARING evs) Hp).
  - intros evs rest chunk run b behind Hex Hdone H8 Hc Hmp Hd st'.
    subst st' run.
    rewrite FetchRuns.fetch_run_app. cbn [fold_left].
    destruct (FetchRuns.run_invariant Date_now HOST PORT evs) as [Hs Hw].
    destruct (FetchRuns.fetch_step_refused Date_now HOST PORT _ chunk reason
                Hex (Hs Hex) H8 Hc Hmp Hd) as (He & Hwr & Hout & Herr & Hmsg).
    erewrite FetchRuns.fetch_exited_absorbs by exact He.
    split; [exact He |]. split; [rewrite Hwr; apply Hw; exact Hdone |].
    split; [exact Hwr |]. split; [exact Hout |]. split; [exact Herr |].
    intros text Ht. destruct (Hmsg text Ht) as [Hset Hlast].
    split; [exact Hset |]. split; [exact Hlast |].
    intros Hb. apply Hlast. intros e s.
    assert (Hnil : behind = []).
    { unfold behind, subarray_from. apply skipn_all2.
      unfold blen in Hb. fold b. lia. }
    fold b. fold behind. rewrite Hnil, push_loop_body. discriminate.
  - intros evs chunk run b H8 Hc Hp Hd. subst run. split.
    + intros rest. rewrite LabRuns.lab_run_app.
      destruct (Lab.exited (Lab.run Date_now evs)) as [code |] eqn:Hex.
      * cbn [fold_left].
        assert (Hs : Lab.step Date_now (Lab.run Date_now evs)
                       (Lab.SocketData chunk) = Lab.run Date_now evs)
          by (unfold Lab.step; rewrite Hex; reflexivity).
        rewrite Hs, (LabRuns.lab_exited_absorbs Date_now rest _ code Hex).
        reflexivity.
      * apply (proj1 (LabRuns.lab_step_refused Date_now _ chunk reason
                        Hex H8 Hc Hp Hd) rest).
    + intros Hex.
      destruct (LabRuns.lab_step_refused Date_now _ chunk reason
                  Hex H8 Hc Hp Hd) as (Hall & Hgo & Hend).
      split; [| split].
      * intros rest. rewrite LabRuns.lab_run_app. apply (Hall rest).
      * rewrite LabRuns.lab_run_snoc. exact Hgo.
      * rewrite LabRuns.lab_run_app. exact Hend.
Qed.

Lemma handshake_refused_witness :
  let run := ChainsyncTip.run (RT := Reference.runtime)
               "relay" 3001 764824073 true in
  let st' := run [ChainsyncTip.SocketConnect;
                  ChainsyncTip.SocketData (peer_segment 0 1 refuse_example)] in
  ChainsyncTip.at_phase st' = ChainsyncTip.Exited 1
  /\ ChainsyncTip.stderr st'
     = ChainsyncTip.stderr (run [ChainsyncTip.SocketConnect])
       ++ [match stringify (RT := Reference.runtime) refuse_example with
           | inr text => Error ("handshake refused: " ++ text)
           | inl e => e
           end]
  /\ ChainsyncTip.stdout st'
     = ChainsyncTip.stdout (run [ChainsyncTip.SocketConnect])
  /\ ChainsyncTip.written st'
     = ChainsyncTip.written (run [ChainsyncTip.SocketConnect])
  /\ Forall (fun seg => segment_mpid seg = MP_HANDSHAKE)
            (ChainsyncTip.written st').
Proof.
  refine (proj1 (handshake_refused (RT := Reference.runtime) (fun _ => 0)
                   "relay" 3001 764824073 true
                   [VArr [VStr "VersionMismatch"; VArr [VNum 15; VNum 14]]])
            [ChainsyncTip.SocketConnect] [] (peer_segment 0 1 refuse_example)
            O
            {| ChainsyncTip.transmissionTime := 0; ChainsyncTip.mode := 1;
               ChainsyncTip.miniProtocolId := 0;
               ChainsyncTip.payload := Reference.cbor_encode refuse_example |}
            [] _ _ _);
    vm_compute; reflexivity.
Defined.

(** C4, counterexample: the lab script, sent the refuse message in a
    frame that it reads as a handshake frame, prints [undefined] for the
    reason, destroys the socket and ends with status 0 once the socket
    has closed; sent the same message in a frame that carries the
    responder's mode bit, it reads protocol number 32768, prints nothing
    about it, and also ends with status 0. *)
Lemma handshake_refused_counterexample :
  let as_read :=
    Lab.run (RT := Reference.runtime) (fun _ => 0)
      [Lab.SocketConnect; Lab.SocketData (peer_segment 0 0 refuse_example);
       Lab.SocketClose] in
  let as_sent :=
    Lab.run (RT := Reference.runtime) (fun _ => 0)
      [Lab.SocketConnect; Lab.SocketData (peer_segment 0 1 refuse_example);
       Lab.SocketClose] in
  Lab.exited as_read = Some 0
  /\ Lab.console as_read
     = [Lab.Connected; Lab.SendingHandshake; Lab.HandshakeRefused VUndefined;
        Lab.Disconnected]
  /\ Lab.exited as_sent = Some 0
  /\ Lab.console as_sent
     = [Lab.Connected; Lab.SendingHandshake; Lab.Disconnected]
  /\ ~ (exists code, Lab.exited as_read = Some code /\ code <> 0).
Proof.
  repeat split; try (vm_compute; reflexivity).
  intros (code & H & Hc). vm_compute in H. injection H as <-. apply Hc.
  reflexivity.
Qed.

(** C5 (as amended). When the responder's reply to the proposal is
    [MsgQueryReply] (tag 3), [run] of [chainsync-tip.cjs] fails and
    exits with status 1, having written nothing after the proposal and
    negotiated no session; the error reads "unexpected handshake
    response tag 3" and the JSON text of the message, or is the
    exception of [JSON.stringify] when the message holds a BigInt.  The
    segment callback of [connectAndFetchTip] ignores the message: it
    returns with its state, the socket and the promise unchanged and
    nothing written, and a run that receives the message in a chunk of
    its own is left as it was, the buffer emptied. *)
Theorem handshake_query_reply `{RT : Runtime} (Date_now : nat -> Z)
    (HOST : string) (PORT NETWORK_MAGIC : Z) (WANT_PEER_SHARING : bool)
    (table : list value) :
  (forall (evs rest : list ChainsyncTip.event) (d : Buffer) (p : nat)
          (f : ChainsyncTip.frame) (more : list (nat * ChainsyncTip.frame)),
      let run := ChainsyncTip.run HOST PORT NETWORK_MAGIC WANT_PEER_SHARING in
      ChainsyncTip.at_phase (run evs) = ChainsyncTip.AwaitHandshake ->
      snd (ChainsyncTip.on_data (ChainsyncTip.mux (run evs)) d)
      = (p, f) :: more ->
      ChainsyncTip.decodeCbor (ChainsyncTip.payload f)
      = VArr (VNum 3 :: table) ->
      let st' := run (evs ++ ChainsyncTip.SocketData d :: rest) in
      ChainsyncTip.at_phase st' = ChainsyncTip.Exited 1
      /\ ChainsyncTip.stderr st'
         = ChainsyncTip.stderr (run evs)
           ++ [match stringify (VArr (VNum 3 :: table)) with
               | inr text =>
                   Error ("unexpected handshake response tag "
                          ++ ToString (VNum 3) ++ ": " ++ text)
               | inl e => e
               end]
      /\ ChainsyncTip.stdout st' = ChainsyncTip.stdout (run evs)
      /\ ChainsyncTip.written st' = ChainsyncTip.written (run evs))
  /\
  (forall (seg : FetchTip.segment) (st : FetchTip.state),
      FetchTip.miniProtocolId seg = FetchTip.HANDSHAKE ->
      decode (FetchTip.payload seg) = inr (VArr (VNum 3 :: table)) ->
      FetchTip.onSegment Date_now seg st = inr st)
  /\
  (forall (evs : list FetchTip.event) (chunk : Buffer),
      let run := FetchTip.run Date_now HOST PORT in
      let b := FetchTip.mux_buf (run evs) ++ chunk in
      FetchTip.exited (run evs) = None ->
      8 <= blen b -> blen b = 8 + FetchTip.length_field b ->
      FetchTip.miniProtocolId (FetchTip.head_segment b) = FetchTip.HANDSHAKE ->
      decode (FetchTip.payload (FetchTip.head_segment b))
      = inr (VArr (VNum 3 :: table)) ->
      run (evs ++ [FetchTip.SocketData chunk])
      = FetchTip.with_buf [] (run evs)).
Proof.
  split; [| split].
  - intros evs rest d p f more run Hp Hr Hd st'. subst st' run.
    rewrite TipRuns.tip_run_app. cbn [fold_left].
    rewrite (TipRuns.step_handshake_frame _ _ _ _ _ _ _ _ _ Hp Hr).
    rewrite (TipRuns.after_handshake_unexpected _ _ 3 table) by
      (try exact Hd; discriminate).
    erewrite TipRuns.tip_exited_absorbs by reflexivity.
    unfold TipRuns.refusal.
    cbn [ChainsyncTip.fail ChainsyncTip.at_phase ChainsyncTip.stderr
         ChainsyncTip.written ChainsyncTip.with_mux ChainsyncTip.stdout].
    split; [reflexivity |]. split; [| split; reflexivity].
    destruct (stringify _); [reflexivity |].
    rewrite <- !Hex.append_assoc. reflexivity.
  - intros seg st Hmp Hd.
    apply (FetchRuns.onSegment_ignored Date_now seg st 3 table);
      try assumption; discriminate.
  - intros evs chunk run b Hex H8 Hb Hmp Hd. subst run.
    rewrite FetchRuns.fetch_run_snoc.
    rewrite (FetchRuns.step_one_segment Date_now HOST PORT _ chunk Hex H8 Hb).
    fold b.
    rewrite (FetchRuns.onSegment_ignored Date_now _ _ 3 table) by
      (try assumption; discriminate).
    destruct (FetchRuns.run_invariant Date_now HOST PORT evs) as [Hs _].
    unfold FetchTip.settle. cbn [FetchTip.with_buf FetchTip.exited
                                  FetchTip.settled].
    rewrite Hex, (Hs Hex). reflexivity.
Qed.

Lemma handshake_query_reply_witness :
  let run := FetchTip.run (RT := Reference.runtime) (fun _ => 0)
               "relay" 3001 in
  run [FetchTip.SocketConnect;
       FetchTip.SocketData (peer_segment 0 1 (VArr [VNum 3; VMap []]))]
  = FetchTip.with_buf [] (run [FetchTip.SocketConnect]).
Proof.
  refine (proj2 (proj2 (handshake_query_reply (RT := Reference.runtime)
                          (fun _ => 0) "relay" 3001 764824073 true
                          [VMap []]))
            [FetchTip.SocketConnect]
            (peer_segment 0 1 (VArr [VNum 3; VMap []])) _ _ _ _ _);
    vm_compute; try reflexivity; discriminate.
Defined.

(** C5, counterexample: [connectAndFetchTip], sent a [MsgQueryReply]
    after its proposal, neither fails nor exits; an accept and a tip
    that follow are acted on, and the run ends with status 0 and a
    negotiated version. *)
Lemma handshake_query_reply_counterexample :
  let run := FetchTip.run (RT := Reference.runtime) (fun _ => 0)
               "relay" 3001 in
  let queried :=
    run [FetchTip.SocketConnect;
         FetchTip.SocketData (peer_segment 0 1 (VArr [VNum 3; VMap []]))] in
  let went_on :=
    run [FetchTip.SocketConnect;
         FetchTip.SocketData (peer_segment 0 1 (VArr [VNum 3; VMap []]));
         FetchTip.SocketData (peer_segment 0 1 accept_example);
         FetchTip.SocketData (peer_segment 2 1 (VArr [VNum 5; VNum 7]))] in
  FetchTip.exited queried = None
  /\ FetchTip.settled queried = None
  /\ FetchTip.stderr queried = []
  /\ FetchTip.exited went_on = Some 0
  /\ map FetchTip.rep_negotiatedVersion (FetchTip.stdout went_on) = [VNum 14].
Proof. repeat split; vm_compute; reflexivity. Qed.

(** * Before the handshake is accepted *)

(** C7. Before a handshake accept no segment of another mini-protocol
    is to be written and no inbound message of one acted on.  The
    segment callback of [connectAndFetchTip] sets [handshakeDone] on an
    accept but never tests it: a ChainSync reply that arrives while
    [handshakeDone] is still false is acted on like any other, the
    promise is resolved with its tip, and the process prints a report
    and exits with status 0 without a handshake having been accepted
    (or, when the report holds a BigInt, prints the exception of
    [JSON.stringify] and exits with status 1). *)
Theorem chainsync_before_accept `{RT : Runtime} (Date_now : nat -> Z)
    (HOST : string) (PORT : Z) (tip : value)
    (evs : list FetchTip.event) (chunk : Buffer) :
  let run := FetchTip.run Date_now HOST PORT in
  let b := FetchTip.mux_buf (run evs) ++ chunk in
  FetchTip.exited (run evs) = None ->
  FetchTip.handshakeDone (FetchTip.cl (run evs)) = false ->
  8 <= blen b -> blen b = 8 + FetchTip.length_field b ->
  FetchTip.miniProtocolId (FetchTip.head_segment b) = FetchTip.CHAINSYNC ->
  decode (FetchTip.payload (FetchTip.head_segment b))
  = inr (VArr [VNum 5; tip]) ->
  let st' := run (evs ++ [FetchTip.SocketData chunk]) in
  let rep :=
    {| FetchTip.rep_host := HOST;
       FetchTip.rep_port := PORT;
       FetchTip.rep_negotiatedVersion :=
         FetchTip.negotiatedVersion (FetchTip.cl (run evs));
       FetchTip.rep_tip := FetchTip.prettyTip tip;
       FetchTip.rep_peersDiscovered :=
         firstn 30 (FetchTip.peers (FetchTip.cl (run evs)));
       FetchTip.rep_peersDiscoveredCount :=
         Z.of_nat (length (FetchTip.peers (FetchTip.cl (run evs)))) |} in
  FetchTip.handshakeDone (FetchTip.cl st') = false
  /\ FetchTip.settled st'
     = Some (inr {| FetchTip.res_negotiatedVersion :=
                      FetchTip.negotiatedVersion (FetchTip.cl (run evs));
                    FetchTip.res_tip := FetchTip.prettyTip tip;
                    FetchTip.res_tipRaw := tip |})
  /\ (FetchTip.printable rep = true ->
      FetchTip.exited st' = Some 0
      /\ FetchTip.stdout st' = FetchTip.stdout (run evs) ++ [rep]
      /\ FetchTip.stderr st' = FetchTip.stderr (run evs))
  /\ (FetchTip.printable rep = false ->
      FetchTip.exited st' = Some 1
      /\ FetchTip.stdout st' = FetchTip.stdout (run evs)
      /\ FetchTip.stderr st'
         = FetchTip.stderr (run evs)
           ++ [TypeError "Do not know how to serialize a BigInt"]).
Proof.
  intros run b Hex Hdone H8 Hb Hmp Hd st' rep. subst st' run.
  rewrite FetchRuns.fetch_run_snoc.
  rewrite (FetchRuns.step_one_segment Date_now HOST PORT _ chunk Hex H8 Hb).
  fold b.
  set (st := FetchTip.run Date_now HOST PORT evs) in *.
  assert (Hon :
    FetchTip.onSegment Date_now (FetchTip.head_segment b) st
    = inr (FetchTip.resolve
             {| FetchTip.res_negotiatedVersion :=
                  FetchTip.negotiatedVersion (FetchTip.cl st);
                FetchTip.res_tip := FetchTip.prettyTip tip;
                FetchTip.res_tipRaw := tip |}
             (FetchTip.with_client
                {| FetchTip.handshakeDone :=
                     FetchTip.handshakeDone (FetchTip.cl st);
                   FetchTip.negotiatedVersion :=
                     FetchTip.negotiatedVersion (FetchTip.cl st);
                   FetchTip.peers := FetchTip.peers (FetchTip.cl st);
                   FetchTip.gotTip := true |} st))).
  { unfold FetchTip.onSegment. rewrite Hd, Hmp. reflexivity. }
  rewrite Hon.
  destruct (FetchRuns.run_invariant Date_now HOST PORT evs) as [Hs _].
  fold st in Hs.
  unfold FetchTip.settle, FetchTip.resolve, FetchTip.with_client,
    FetchTip.with_buf.
  cbn [FetchTip.exited FetchTip.settled FetchTip.cl FetchTip.stdout
       FetchTip.handshakeDone FetchTip.negotiatedVersion FetchTip.peers].
  rewrite Hex, (Hs Hex).
  cbn [FetchTip.res_negotiatedVersion FetchTip.res_tip].
  fold rep.
  destruct (FetchTip.printable rep);
    cbn [FetchTip.failed FetchTip.exited FetchTip.settled FetchTip.cl
         FetchTip.stdout FetchTip.stderr FetchTip.handshakeDone].
  - split; [exact Hdone |]. split; [reflexivity |].
    split; [intros _; repeat split | discriminate].
  - split; [exact Hdone |]. split; [reflexivity |].
    split; [discriminate | intros _; repeat split].
Qed.

Lemma chainsync_before_accept_witness :
  let run := FetchTip.run (RT := Reference.runtime) (fun _ => 0)
               "relay" 3001 in
  let st' := run [FetchTip.SocketConnect;
                  FetchTip.SocketData
                    (peer_segment 2 1 (VArr [VNum 5; VNum 7]))] in
  FetchTip.exited st' = Some 0
  /\ FetchTip.handshakeDone (FetchTip.cl st') = false
  /\ FetchTip.stdout st'
     = [{| FetchTip.rep_host := "relay";
           FetchTip.rep_port := 3001;
           FetchTip.rep_negotiatedVersion := VNull;
           FetchTip.rep_tip := FetchTip.RawTip (VNum 7);
           FetchTip.rep_peersDiscovered := [];
           FetchTip.rep_peersDiscoveredCount := 0 |}].
Proof.
  pose proof (chainsync_before_accept (RT := Reference.runtime) (fun _ => 0)
                "relay" 3001 (VNum 7) [FetchTip.SocketConnect]
                (peer_segment 2 1 (VArr [VNum 5; VNum 7]))) as H.
  cbv zeta in H.
  repeat match type of H with
         | ?A -> _ =>
             let Ha := fresh "Ha" in
             assert (Ha : A)
               by (vm_compute; first [reflexivity | discriminate]);
             specialize (H Ha); clear Ha
         end.
  destruct H as (Hdone & _ & Hok & _).
  destruct (Hok eq_refl) as (He & Hout & _).
  split; [exact He |]. split; [exact Hdone |]. exact Hout.
Defined.

(** * Peer sharing *)

(** The [peerSharing] fields of the version data that a proposal
    carries, one for each version of its table *)
Definition proposed_peerSharing (msg : value) : list value :=
  match item (elements msg) 1 with
  | VObj props => map (fun kv => item (elements (snd kv)) 2) props
  | VMap entries => map (fun kv => item (elements (snd kv)) 2) entries
  | _ => []
  end.

(** C8. A run of [chainsync-tip.cjs] whose proposal carries
    [peerSharing = 0] for a version writes no segment of the
    PeerSharing mini-protocol, so no [MsgShareRequest].  The proposal
    of the lab script carries [peerSharing = 0] for version 13, and the
    script writes handshake and ChainSync frames only. *)
Theorem no_share_request_without_peer_sharing `{RT : Runtime}
    (Date_now : nat -> Z) (HOST : string) (PORT NETWORK_MAGIC : Z)
    (WANT_PEER_SHARING : bool) :
  (forall evs : list ChainsyncTip.event,
      In (VNum 0)
         (proposed_peerSharing
            (ChainsyncTip.handshakePropose NETWORK_MAGIC WANT_PEER_SHARING)) ->
      Forall (fun seg => segment_mpid seg <> MP_PEERSHARE)
             (ChainsyncTip.written
                (ChainsyncTip.run HOST PORT NETWORK_MAGIC WANT_PEER_SHARING
                   evs)))
  /\
  (forall msg : value,
      Reference.cbor_decode Lab.buildHandshakePayload = inr msg ->
      proposed_peerSharing msg = [VUndefined; VNum 0])
  /\
  (forall evs : list Lab.event,
      Forall (fun frame => Lab.protocolId_of frame <> MP_PEERSHARE)
             (Lab.written (Lab.run Date_now evs))).
Proof.
  split; [| split].
  - intros evs Hin. apply TipRuns.run_no_peershare.
    destruct WANT_PEER_SHARING; [| reflexivity].
    cbn in Hin. destruct Hin as [H | [H | []]]; discriminate H.
  - intros msg H. vm_compute in H. injection H as <-. reflexivity.
  - intros evs. eapply Forall_impl; [| apply LabRuns.run_written].
    intros f [H | H]; rewrite H; discriminate.
Qed.

Lemma no_share_request_without_peer_sharing_witness :
  Forall (fun seg => segment_mpid seg <> MP_PEERSHARE)
         (ChainsyncTip.written
            (ChainsyncTip.run (RT := Reference.runtime)
               "relay" 3001 764824073 false
               [ChainsyncTip.SocketConnect;
                ChainsyncTip.SocketData (peer_segment 0 1 accept_example);
                ChainsyncTip.SocketData
                  (peer_segment 2 1 (VArr [VNum 6; VNum 7]))])).
Proof.
  apply (proj1 (no_share_request_without_peer_sharing
                  (RT := Reference.runtime) (fun _ => 0)
                  "relay" 3001 764824073 false)).
  vm_compute. left. reflexivity.
Defined.

(** * Further properties of the multiplexers *)

(** ** The fields of a header word, for every argument *)

Module WordFields.

Import HeaderWord.

(** The bit operator [x & (2^n - 1)] keeps the low [n] bits of any
    integer, negative or beyond 32 bits. *)
Lemma and_low (x n : Z) :
  0 <= n <= 31 -> JS.and x (2 ^ n - 1) = x mod 2 ^ n.
Proof.
  intros Hn. unfold JS.and.
  assert (Hm : JS.ToInt32 (2 ^ n - 1) = Z.ones n).
  { rewrite Z.ones_equiv, <- Z.sub_1_r. apply ToInt32_id.
    assert (0 < 2 ^ n) by (apply Z.pow_pos_nonneg; lia).
    assert (2 ^ n <= 2 ^ 31) by (apply Z.pow_le_mono_r; lia). lia. }
  rewrite Hm, Z.land_ones by lia.
  assert (Hk : exists k, JS.ToInt32 x = x + k * 2 ^ 32).
  { unfold JS.ToInt32. cbv zeta.
    destruct (x mod 2 ^ 32 <? 2 ^ 31).
    - exists (- (x / 2 ^ 32)). rewrite (Z.mod_eq x (2 ^ 32)) by lia. lia.
    - exists (- (x / 2 ^ 32) - 1). rewrite (Z.mod_eq x (2 ^ 32)) by lia. lia. }
  destruct Hk as [k Hk]. rewrite Hk.
  replace (2 ^ 32) with (2 ^ (32 - n) * 2 ^ n)
    by (rewrite <- Z.pow_add_r by lia; f_equal; lia).
  rewrite Z.mul_assoc. apply Z.mod_add.
  assert (0 < 2 ^ n) by (apply Z.pow_pos_nonneg; lia). lia.
Qed.

Lemma and_1 (x : Z) : JS.and x 1 = x mod 2.
Proof. exact (and_low x 1 ltac:(lia)). Qed.

Lemma and_7fff (x : Z) : JS.and x 0x7fff = x mod 32768.
Proof. exact (and_low x 15 ltac:(lia)). Qed.

Lemma and_ffff (x : Z) : JS.and x 0xffff = x mod 65536.
Proof. exact (and_low x 16 ltac:(lia)). Qed.

Lemma and_ff (x : Z) : JS.and x 0xff = x mod 256.
Proof. exact (and_low x 8 ltac:(lia)). Qed.

Lemma shru_small (w k : Z) :
  0 <= w < 2 ^ 32 -> 0 <= k < 32 -> JS.shru w k = w / 2 ^ k.
Proof.
  intros Hw Hk. unfold JS.shru.
  rewrite (ToUint32_id w Hw). unfold JS.ToUint32.
  rewrite (Z.mod_small k) by lia. rewrite (Z.mod_small k) by lia.
  apply Z.shiftr_div_pow2. lia.
Qed.

(** The header word for arbitrary arguments: each field is reduced to
    its width. *)
Lemma pack_reduced (mode mpid len : Z) :
  pack mode mpid len = pack (mode mod 2) (mpid mod 32768) (len mod 65536).
Proof.
  unfold pack. rewrite !and_1, !and_7fff, !and_ffff.
  rewrite !Z.mod_mod by lia. reflexivity.
Qed.

Lemma pack_any (mode mpid len : Z) :
  pack mode mpid len
  = (mode mod 2) * 2 ^ 31 + (mpid mod 32768) * 2 ^ 16 + len mod 65536.
Proof.
  rewrite pack_reduced. apply pack_value.
  - pose proof (Z.mod_pos_bound mode 2). lia.
  - pose proof (Z.mod_pos_bound mpid 32768). lia.
  - pose proof (Z.mod_pos_bound len 65536). lia.
Qed.

(** Packing the three fields read from a word gives the word back. *)
Lemma pack_fields (w : Z) :
  0 <= w < 2 ^ 32 ->
  pack (JS.and (JS.shru w 31) 1) (JS.and (JS.shru w 16) 0x7fff)
       (JS.and w 0xffff) = w.
Proof.
  intros Hw. rewrite pack_any, and_1, and_7fff, and_ffff.
  rewrite !shru_small by lia. rewrite !Z.mod_mod by lia.
  change (2 ^ 31) with 2147483648. change (2 ^ 16) with 65536.
  change (2 ^ 32) with 4294967296 in Hw.
  Z.div_mod_to_equations. lia.
Qed.

Lemma byte_of_Z_eq (x : Z) (b : byte) :
  x mod 256 = Z_of_byte b -> byte_of_Z x = b.
Proof.
  intros H. rewrite <- (byte_of_Z_of_byte b). unfold byte_of_Z.
  rewrite H. pose proof (Z_of_byte_range b).
  rewrite (Z.mod_small (Z_of_byte b)) by lia. reflexivity.
Qed.

(** Writing back a word that was read gives the four bytes it was read
    from. *)
Lemma be32_read (b : Buffer) (off : nat) :
  (off + 4 <= length b)%nat ->
  be32 (readUInt32BE b off) = subarray b off (off + 4).
Proof.
  intros Hlen. unfold subarray.
  replace (off + 4 - off)%nat with 4%nat by lia.
  assert (Hpre : length (firstn off b) = off) by (rewrite length_firstn; lia).
  assert (H4 : (4 <= length (skipn off b))%nat) by (rewrite length_skipn; lia).
  pose proof (firstn_skipn off b) as Hb.
  remember (firstn off b) as pre eqn:Epre.
  remember (skipn off b) as l eqn:El.
  clear Epre. rewrite <- Hb, <- Hpre.
  rewrite <- (Nat.add_0_r (length pre)) at 1.
  rewrite readUInt32BE_skip.
  destruct l as [| b0 [| b1 [| b2 [| b3 post]]]]; cbn [length] in H4; try lia.
  cbn [firstn]. unfold readUInt32BE, byte_at, be32. cbn [nth Nat.add].
  pose proof (Z_of_byte_range b0). pose proof (Z_of_byte_range b1).
  pose proof (Z_of_byte_range b2). pose proof (Z_of_byte_range b3).
  change (2 ^ 24) with 16777216. change (2 ^ 16) with 65536.
  change (2 ^ 8) with 256.
  f_equal; [| f_equal; [| f_equal; [| f_equal]]];
    apply byte_of_Z_eq; Z.div_mod_to_equations; lia.
Qed.

Lemma firstn_plus {A : Type} (n m : nat) :
  forall l : list A, firstn (n + m) l = firstn n l ++ firstn m (skipn n l).
Proof.
  induction n as [| n IH]; intros l; [reflexivity |].
  destruct l as [| x l]; cbn [Nat.add firstn skipn app].
  - rewrite firstn_nil. reflexivity.
  - rewrite IH. reflexivity.
Qed.

Lemma subarray_split (b : Buffer) (i j k : nat) :
  (i <= j)%nat -> (j <= k)%nat ->
  subarray b i k = subarray b i j ++ subarray b j k.
Proof.
  intros Hij Hjk. unfold subarray.
  replace (k - i)%nat with ((j - i) + (k - j))%nat by lia.
  rewrite firstn_plus, skipn_skipn.
  replace (j - i + i)%nat with j by lia. reflexivity.
Qed.

Lemma blen_subarray (b : Buffer) (i j : nat) :
  (i <= j)%nat -> (j <= length b)%nat ->
  blen (subarray b i j) = Z.of_nat (j - i).
Proof.
  intros Hij Hj. unfold blen, subarray.
  rewrite length_firstn, length_skipn. lia.
Qed.

End WordFields.

(** X1.  Decoding the head of a buffer and packing the fields again
    gives the bytes back: [packSegment] on the fields that [push] reads
    from a complete segment rebuilds the segment from its fifth byte on,
    after the four bytes of the packer's own clock; [muxFrame] on the
    fields that [_pump] reads does the same after four zero bytes. *)
Theorem header_reencode (now : Z) (b : Buffer) :
  8 <= blen b ->
  (8 + FetchTip.length_field b <= blen b ->
   FetchTip.packSegment now
     (FetchTip.miniProtocolId (FetchTip.head_segment b))
     (FetchTip.modeBit (FetchTip.head_segment b))
     (FetchTip.payload (FetchTip.head_segment b))
   = inr (be32 (FetchTip.now32 now)
          ++ subarray b 4 (Z.to_nat (8 + FetchTip.length_field b))))
  /\
  (8 + ChainsyncTip.len b <= blen b ->
   ChainsyncTip.muxFrame
     (ChainsyncTip.miniProtocolId (ChainsyncTip.head_frame b))
     (ChainsyncTip.mode (ChainsyncTip.head_frame b))
     (ChainsyncTip.payload (ChainsyncTip.head_frame b))
   = inr (be32 0 ++ subarray b 4 (Z.to_nat (8 + ChainsyncTip.len b)))).
Proof.
  intros H8.
  assert (Hsplit : forall n : Z,
             0 <= n -> 8 + n <= blen b ->
             blen (subarray b 8 (Z.to_nat (8 + n))) = n
             /\ subarray b 4 (Z.to_nat (8 + n))
                = be32 (readUInt32BE b 4) ++ subarray b 8 (Z.to_nat (8 + n))).
  { intros n Hn Hfit.
    assert (Hb : (8 <= length b)%nat) by (unfold blen in H8; lia).
    assert (Hn' : (Z.to_nat (8 + n) <= length b)%nat)
      by (unfold blen in Hfit; lia).
    split.
    - rewrite WordFields.blen_subarray by lia. lia.
    - rewrite (WordFields.subarray_split b 4 8) by lia.
      rewrite (WordFields.be32_read b 4) by lia. reflexivity. }
  split; intros Hfit.
  - pose proof (FetchTip.length_field_range b) as Hr.
    destruct (Hsplit _ (proj1 Hr) Hfit) as [Hlen Hbytes].
    unfold FetchTip.head_segment.
    cbn [FetchTip.miniProtocolId FetchTip.modeBit FetchTip.payload].
    rewrite MuxFacts.packSegment_ok by (rewrite Hlen; lia).
    rewrite Hlen, Hbytes. do 3 f_equal. f_equal.
    unfold FetchTip.length_field, FetchTip.w2.
    apply WordFields.pack_fields. apply readUInt32BE_range.
  - pose proof (ChainsyncTip.len_range b) as Hr.
    destruct (Hsplit _ (proj1 Hr) Hfit) as [Hlen Hbytes].
    unfold ChainsyncTip.head_frame.
    cbn [ChainsyncTip.miniProtocolId ChainsyncTip.mode ChainsyncTip.payload].
    rewrite MuxFacts.muxFrame_ok.
    + rewrite Hlen, Hbytes. do 3 f_equal. f_equal.
      unfold ChainsyncTip.len, ChainsyncTip.word1.
      apply WordFields.pack_fields. apply readUInt32BE_range.
    + rewrite WordFields.and_7fff.
      pose proof (Z.mod_pos_bound (JS.shru (ChainsyncTip.word1 b) 16) 32768).
      lia.
    + rewrite Hlen. change (2 ^ 16) with 65536 in Hr. lia.
Qed.

Lemma header_reencode_witness :
  FetchTip.packSegment 7 2 1 [xf6]
  = inr ([x00; x00; x00; x07] ++ [x80; x02; x00; x01; xf6])
  /\ ChainsyncTip.muxFrame 2 1 [xf6]
     = inr ([x00; x00; x00; x00] ++ [x80; x02; x00; x01; xf6]).
Proof.
  pose (b := [x00; x00; x00; x05; x80; x02; x00; x01; xf6; xff]).
  assert (H8 : 8 <= blen b) by (vm_compute; discriminate).
  destruct (header_reencode 7 b H8) as [HF HT]. split.
  - apply HF. vm_compute. discriminate.
  - apply HT. vm_compute. discriminate.
Defined.

(** X2.  The header word that the packers write, for every argument:
    [packSegment] reduces the mode to one bit and the mini-protocol
    number to fifteen bits and never rejects them, whereas [muxFrame]
    throws on a mini-protocol number outside [0 .. 0x7fff] and reduces
    the mode only. *)
Theorem header_word_fields (now mpid mode : Z) (payload : Buffer) :
  blen payload <= 65535 ->
  FetchTip.packSegment now mpid mode payload
  = inr (be32 (FetchTip.now32 now)
         ++ be32 ((mode mod 2) * 2 ^ 31 + (mpid mod 32768) * 2 ^ 16
                  + blen payload)
         ++ payload)
  /\ (0 <= mpid <= 32767 ->
      ChainsyncTip.muxFrame mpid mode payload
      = inr (be32 0
             ++ be32 ((mode mod 2) * 2 ^ 31 + mpid * 2 ^ 16 + blen payload)
             ++ payload))
  /\ (mpid < 0 \/ 32767 < mpid ->
      ChainsyncTip.muxFrame mpid mode payload
      = inl (Error "miniProtocolId out of range")).
Proof.
  intros Hlen.
  assert (Hl : blen payload mod 65536 = blen payload).
  { apply Z.mod_small. unfold blen in *. lia. }
  split; [| split].
  - rewrite MuxFacts.packSegment_ok by exact Hlen.
    rewrite WordFields.pack_any, Hl. reflexivity.
  - intros Hm. rewrite MuxFacts.muxFrame_ok by lia.
    rewrite WordFields.pack_any, Hl, (Z.mod_small mpid) by lia. reflexivity.
  - intros Hm. unfold ChainsyncTip.muxFrame.
    destruct Hm as [Hm | Hm].
    + apply Z.ltb_lt in Hm. rewrite Hm. reflexivity.
    + apply Z.gtb_lt in Hm. change 0x7fff with 32767. rewrite Hm.
      rewrite orb_true_r. reflexivity.
Qed.

Lemma header_word_fields_witness :
  FetchTip.packSegment 0 32770 3 [xf6]
  = inr (be32 (FetchTip.now32 0)
         ++ be32 ((3 mod 2) * 2 ^ 31 + (32770 mod 32768) * 2 ^ 16 + 1)
         ++ [xf6])
  /\ ChainsyncTip.muxFrame 32770 3 [xf6]
     = inl (Error "miniProtocolId out of range").
Proof.
  assert (Hlen : blen [xf6] <= 65535) by (vm_compute; discriminate).
  destruct (header_word_fields 0 32770 3 [xf6] Hlen) as (HP & _ & HM).
  split; [exact HP | apply HM; right; lia].
Defined.

(** ** What the readers leave in their buffer *)

Module Leftover.

Import MuxFacts.

(** No complete frame is at the head of [b]. *)
Definition starved (length_of_head : Buffer -> Z) (b : Buffer) : Prop :=
  blen b < 8 \/ blen b < 8 + length_of_head b.

Lemma starved_pump (b : Buffer) (ws : list ChainsyncTip.waiter) :
  starved ChainsyncTip.len b ->
  ChainsyncTip._pump b ws
  = ({| ChainsyncTip.buf := b; ChainsyncTip.waiters := ws |}, []).
Proof.
  intros Hs. rewrite _pump_body.
  destruct (Z.ltb_spec (blen b) 8) as [H8 | H8]; [reflexivity |].
  destruct (Z.ltb_spec (blen b) (8 + ChainsyncTip.len b)) as [Hc | Hc];
    [reflexivity |].
  destruct Hs; lia.
Qed.

Lemma starved_push {S : Type}
    (onSegment : FetchTip.segment -> S -> raised S S) (b : Buffer) (s : S) :
  starved FetchTip.length_field b ->
  FetchTip.push_loop onSegment b s = inr (b, s).
Proof.
  intros Hs. rewrite push_loop_body.
  destruct (Z.geb_spec (blen b) 8) as [H8 | H8]; [| reflexivity].
  destruct (Z.ltb_spec (blen b) (8 + FetchTip.length_field b)) as [Hc | Hc];
    [reflexivity |].
  destruct Hs; lia.
Qed.

Lemma starved_data_loop `{RT : Runtime} (Date_now : nat -> Z) (b : Buffer)
    (st : Lab.state) :
  starved Lab.payloadLen_of b -> Lab.data_loop Date_now b st = (b, st).
Proof.
  intros Hs. rewrite data_loop_body.
  destruct (Z.geb_spec (blen b) 8) as [H8 | H8]; [| reflexivity].
  destruct (Z.ltb_spec (blen b) (8 + Lab.payloadLen_of b)) as [Hc | Hc];
    [reflexivity |].
  destruct Hs; lia.
Qed.

Lemma _pump_starved_bounded (n : nat) :
  forall (b : Buffer) (ws : list ChainsyncTip.waiter),
    (length b <= n)%nat ->
    starved ChainsyncTip.len
      (ChainsyncTip.buf (fst (ChainsyncTip._pump b ws))).
Proof.
  induction n as [| n IH]; intros b ws Hn.
  - destruct b; [| cbn in Hn; lia]. rewrite _pump_body. left.
    cbn. lia.
  - rewrite _pump_body.
    destruct (Z.ltb_spec (blen b) 8) as [H8 | H8]; [left; exact H8 |].
    destruct (Z.ltb_spec (blen b) (8 + ChainsyncTip.len b)) as [Hc | Hc];
      [right; exact Hc |].
    pose proof (ChainsyncTip.len_range b) as Hr.
    assert (Hlt : (length (subarray_from b (Z.to_nat (8 + ChainsyncTip.len b)))
                   <= n)%nat).
    { unfold subarray_from. rewrite length_skipn. unfold blen in *. lia. }
    destruct (findIndex _ ws) as [i |].
    + cbv zeta. cbn [fst]. apply IH. exact Hlt.
    + apply IH. exact Hlt.
Qed.

Lemma push_loop_starved_bounded {S : Type}
    (onSegment : FetchTip.segment -> S -> raised S S) (n : nat) :
  forall (b : Buffer) (s : S) (r : Buffer * S),
    (length b <= n)%nat ->
    FetchTip.push_loop onSegment b s = inr r ->
    starved FetchTip.length_field (fst r).
Proof.
  induction n as [| n IH]; intros b s r Hn.
  - destruct b; [| cbn in Hn; lia]. rewrite push_loop_body.
    cbn. intros [= <-]. left. cbn. lia.
  - rewrite push_loop_body.
    destruct (Z.geb_spec (blen b) 8) as [H8 | H8];
      [| intros [= <-]; left; exact H8].
    destruct (Z.ltb_spec (blen b) (8 + FetchTip.length_field b)) as [Hc | Hc];
      [intros [= <-]; right; exact Hc |].
    pose proof (FetchTip.length_field_range b) as Hr.
    assert (Hlt : (length (subarray_from b
                             (Z.to_nat (8 + FetchTip.length_field b)))
                   <= n)%nat).
    { unfold subarray_from. rewrite length_skipn. unfold blen in *. lia. }
    destruct (onSegment _ s) as [e | s']; [discriminate |].
    apply IH. exact Hlt.
Qed.

Lemma data_loop_starved_bounded `{RT : Runtime} (Date_now : nat -> Z)
    (n : nat) :
  forall (b : Buffer) (st : Lab.state),
    (length b <= n)%nat ->
    starved Lab.payloadLen_of (fst (Lab.data_loop Date_now b st)).
Proof.
  induction n as [| n IH]; intros b st Hn.
  - destruct b; [| cbn in Hn; lia]. rewrite data_loop_body.
    left. cbn. lia.
  - rewrite data_loop_body.
    destruct (Z.geb_spec (blen b) 8) as [H8 | H8]; [| left; exact H8].
    destruct (Z.ltb_spec (blen b) (8 + Lab.payloadLen_of b)) as [Hc | Hc];
      [right; exact Hc |].
    pose proof (Lab.payloadLen_range b) as Hr.
    apply IH. unfold subarray_from. rewrite length_skipn.
    unfold blen in *. lia.
Qed.

(** [_pump] run again on what it left does nothing: the call that ends
    [readFrame] delivers no frame. *)
Lemma _pump_idle (b : Buffer) (ws ws' : list ChainsyncTip.waiter) :
  ChainsyncTip._pump (ChainsyncTip.buf (fst (ChainsyncTip._pump b ws))) ws'
  = ({| ChainsyncTip.buf := ChainsyncTip.buf (fst (ChainsyncTip._pump b ws));
        ChainsyncTip.waiters := ws' |}, []).
Proof.
  apply starved_pump. apply (_pump_starved_bounded (length b)). lia.
Qed.

(** *** How many promises [_pump] resolves *)

Lemma length_splice1 {A : Type} (i : nat) (l : list A) :
  (i < length l)%nat -> S (length (splice1 i l)) = length l.
Proof.
  intros Hi. unfold splice1.
  rewrite length_app, length_firstn, length_skipn. lia.
Qed.

Lemma _pump_count_bounded (n : nat) :
  forall (b : Buffer) (ws : list ChainsyncTip.waiter),
    (length b <= n)%nat ->
    (length (snd (ChainsyncTip._pump b ws))
     + length (ChainsyncTip.waiters (fst (ChainsyncTip._pump b ws))))%nat
    = length ws.
Proof.
  induction n as [| n IH]; intros b ws Hn.
  - destruct b; [| cbn in Hn; lia]. rewrite _pump_body. reflexivity.
  - rewrite _pump_body.
    destruct (Z.ltb_spec (blen b) 8) as [H8 | H8]; [reflexivity |].
    destruct (Z.ltb_spec (blen b) (8 + ChainsyncTip.len b)) as [Hc | Hc];
      [reflexivity |].
    pose proof (ChainsyncTip.len_range b) as Hr.
    assert (Hlt : (length (subarray_from b (Z.to_nat (8 + ChainsyncTip.len b)))
                   <= n)%nat).
    { unfold subarray_from. rewrite length_skipn. unfold blen in *. lia. }
    destruct (findIndex _ ws) as [i |] eqn:Hi.
    + cbv zeta. cbn [fst snd length].
      destruct (TipRuns.findIndex_Some _ ws
                  {| ChainsyncTip.filter := fun _ _ => false;
                     ChainsyncTip.promise := O |} i Hi) as [Hlen _].
      pose proof (IH _ (splice1 i ws) Hlt) as Hc'.
      pose proof (length_splice1 i ws Hlen). lia.
    + apply IH. exact Hlt.
Qed.

Lemma _pump_count (b : Buffer) (ws : list ChainsyncTip.waiter) :
  (length (snd (ChainsyncTip._pump b ws))
   + length (ChainsyncTip.waiters (fst (ChainsyncTip._pump b ws))))%nat
  = length ws.
Proof. apply (_pump_count_bounded (length b)). lia. Qed.

(** The waiters that [_pump] leaves are among those it was given, and
    each promise that it resolves is the promise of a waiter whose
    filter accepts the frame. *)
Lemma _pump_sound_bounded (n : nat) :
  forall (b : Buffer) (ws : list ChainsyncTip.waiter),
    (length b <= n)%nat ->
    Forall (fun pf =>
              exists w, In w ws /\ ChainsyncTip.promise w = fst pf
                        /\ ChainsyncTip.filter w
                             (ChainsyncTip.miniProtocolId (snd pf))
                             (ChainsyncTip.mode (snd pf)) = true)
           (snd (ChainsyncTip._pump b ws))
    /\ incl (ChainsyncTip.waiters (fst (ChainsyncTip._pump b ws))) ws.
Proof.
  induction n as [| n IH]; intros b ws Hn.
  - destruct b; [| cbn in Hn; lia]. rewrite _pump_body.
    split; [constructor | apply incl_refl].
  - rewrite _pump_body.
    destruct (Z.ltb_spec (blen b) 8) as [H8 | H8];
      [split; [constructor | apply incl_refl] |].
    destruct (Z.ltb_spec (blen b) (8 + ChainsyncTip.len b)) as [Hc | Hc];
      [split; [constructor | apply incl_refl] |].
    pose proof (ChainsyncTip.len_range b) as Hr.
    assert (Hlt : (length (subarray_from b (Z.to_nat (8 + ChainsyncTip.len b)))
                   <= n)%nat).
    { unfold subarray_from. rewrite length_skipn. unfold blen in *. lia. }
    destruct (findIndex _ ws) as [i |] eqn:Hi.
    + cbv zeta. cbn [fst snd].
      destruct (TipRuns.findIndex_Some _ ws
                  {| ChainsyncTip.filter := fun _ _ => false;
                     ChainsyncTip.promise := O |} i Hi) as [Hlen Hf].
      destruct (IH _ (splice1 i ws) Hlt) as [IH1 IH2].
      split.
      * constructor.
        -- cbn [fst snd]. eexists.
           split; [apply nth_In; exact Hlen | split; [reflexivity | exact Hf]].
        -- eapply Forall_impl; [| exact IH1].
           intros pf (w & Hw & Hp & Hfw). exists w.
           split; [apply (TipRuns.In_splice1 i); exact Hw | split; assumption].
      * intros w Hw. apply (TipRuns.In_splice1 i). apply IH2. exact Hw.
    + apply IH. exact Hlt.
Qed.

End Leftover.

(** X3.  A reader stops only on an incomplete buffer: what [_pump],
    [push] and the data listener of the lab script leave holds no
    complete frame, so that running the loop again on it, without new
    bytes, does nothing (this is why the [_pump] call at the end of
    [readFrame] never delivers a frame). *)
Theorem reader_leaves_no_frame :
  (forall (b : Buffer) (ws ws' : list ChainsyncTip.waiter),
      let left := ChainsyncTip.buf (fst (ChainsyncTip._pump b ws)) in
      Leftover.starved ChainsyncTip.len left
      /\ ChainsyncTip._pump left ws'
         = ({| ChainsyncTip.buf := left; ChainsyncTip.waiters := ws' |}, []))
  /\
  (forall (S : Type) (onSegment : FetchTip.segment -> S -> raised S S)
          (b : Buffer) (s s' : S),
      match FetchTip.push_loop onSegment b s with
      | inl _ => True
      | inr r =>
          Leftover.starved FetchTip.length_field (fst r)
          /\ FetchTip.push onSegment [] (fst r) s' = inr (fst r, s')
      end)
  /\
  (forall (RT : Runtime) (Date_now : nat -> Z) (b : Buffer)
          (st st' : Lab.state),
      let left := fst (Lab.data_loop Date_now b st) in
      Leftover.starved Lab.payloadLen_of left
      /\ Lab.data_loop Date_now left st' = (left, st')).
Proof.
  split; [| split].
  - intros b ws ws' left.
    assert (Hs : Leftover.starved ChainsyncTip.len left)
      by (apply (Leftover._pump_starved_bounded (length b)); lia).
    split; [exact Hs | apply Leftover._pump_idle].
  - intros S onSegment b s s'.
    destruct (FetchTip.push_loop onSegment b s) as [e | r] eqn:Hr; [exact I |].
    assert (Hs : Leftover.starved FetchTip.length_field (fst r))
      by (apply (Leftover.push_loop_starved_bounded onSegment (length b) b s);
          [lia | exact Hr]).
    split; [exact Hs |].
    unfold FetchTip.push. rewrite app_nil_r.
    apply Leftover.starved_push. exact Hs.
  - intros RT Date_now b st st' left.
    assert (Hs : Leftover.starved Lab.payloadLen_of left)
      by (apply (Leftover.data_loop_starved_bounded Date_now (length b)); lia).
    split; [exact Hs | apply Leftover.starved_data_loop; exact Hs].
Qed.

(** X4.  [_pump] settles promises one for one: the promises it resolves
    and the waiters it leaves add up to the waiters it was given; each
    resolved promise is that of a given waiter whose filter accepts the
    mini-protocol number and mode of the frame; the waiters left were
    all given.  With no waiter every complete frame is dropped. *)
Theorem pump_resolves_waiters (b : Buffer) (ws : list ChainsyncTip.waiter) :
  let r := ChainsyncTip._pump b ws in
  (length (snd r) + length (ChainsyncTip.waiters (fst r)))%nat = length ws
  /\ Forall (fun pf =>
               exists w, In w ws /\ ChainsyncTip.promise w = fst pf
                         /\ ChainsyncTip.filter w
                              (ChainsyncTip.miniProtocolId (snd pf))
                              (ChainsyncTip.mode (snd pf)) = true)
            (snd r)
  /\ incl (ChainsyncTip.waiters (fst r)) ws
  /\ snd (ChainsyncTip._pump b []) = [].
Proof.
  intros r. split; [apply Leftover._pump_count |].
  destruct (Leftover._pump_sound_bounded (length b) b ws (le_n _)) as [H1 H2].
  split; [exact H1 | split; [exact H2 |]].
  pose proof (Leftover._pump_count b []) as Hc. cbn [length] in Hc.
  destruct (snd (ChainsyncTip._pump b [])); [reflexivity | cbn in Hc; lia].
Qed.

(** * Further properties of the runs of [chainsync-tip.cjs] *)

(** The bytes of a segment with the given header fields *)
Definition sdu (t mode mpid : Z) (payload : Buffer) : Buffer :=
  be32 t ++ be32 (HeaderWord.pack mode mpid (blen payload)) ++ payload.

Module TipShape.

Import HeaderWord MuxFacts Chunks Written TipRuns Leftover.
Import ChainsyncTip.

Section Shape.

Context `{RT : Runtime}.
Variables (HOST : string) (PORT NETWORK_MAGIC : Z) (WANT_PEER_SHARING : bool).

#[local] Set Warnings "-notation-for-abbreviation".
Local Notation step :=
  (ChainsyncTip.step HOST PORT NETWORK_MAGIC WANT_PEER_SHARING).
Local Notation run :=
  (ChainsyncTip.run HOST PORT NETWORK_MAGIC WANT_PEER_SHARING).

(** [finish] ends the process, and touches neither the multiplexer nor
    what was written. *)
Lemma finish_ends (v d tip : value) (found : list peer) (st : state) :
  (exists code, at_phase (finish HOST PORT v d tip found st) = Exited code)
  /\ mux (finish HOST PORT v d tip found st) = mux st
  /\ written (finish HOST PORT v d tip found st) = written st.
Proof.
  unfold finish. destruct (printable _); cbn [fail at_phase mux written];
    (split; [eexists; reflexivity | split; reflexivity]).
Qed.

(** The exception of [JSON.stringify] on a report *)
Definition unprintable : error :=
  TypeError "Do not know how to serialize a BigInt".

(** What the process has written and printed, phase by phase *)
Definition outputs_at (ph : phase) (sent : list Z) (out : list report)
    (err : list error) : Prop :=
  match ph with
  | Connecting => sent = [] /\ out = [] /\ err = []
  | AwaitHandshake => sent = [MP_HANDSHAKE] /\ out = [] /\ err = []
  | AwaitChainSync _ _ =>
      sent = [MP_HANDSHAKE; MP_CHAINSYNC] /\ out = [] /\ err = []
  | AwaitPeerShare _ _ _ =>
      (sent = [MP_HANDSHAKE; MP_CHAINSYNC; MP_PEERSHARE]
       /\ WANT_PEER_SHARING = true)
      /\ out = [] /\ err = []
  | Exited code =>
      (code = 0
       /\ (sent = [MP_HANDSHAKE; MP_CHAINSYNC]
           \/ (sent = [MP_HANDSHAKE; MP_CHAINSYNC; MP_PEERSHARE]
               /\ WANT_PEER_SHARING = true))
       /\ err = []
       /\ exists r,
            out = [r] /\ peer_host r = HOST /\ peer_port r = PORT
            /\ tipCborHex r = toHex (encode (tipDecoded r))
            /\ printable r = true
            /\ (sent = [MP_HANDSHAKE; MP_CHAINSYNC] -> discoveredPeers r = []))
      \/ (code = 1 /\ out = []
          /\ exists e,
               err = [e]
               /\ (sent = [] \/ sent = [MP_HANDSHAKE]
                   \/ (sent = [MP_HANDSHAKE; MP_CHAINSYNC])
                   \/ (sent = [MP_HANDSHAKE; MP_CHAINSYNC; MP_PEERSHARE]
                       /\ WANT_PEER_SHARING = true /\ e = unprintable)))
  end.

Definition outputs (st : state) : Prop :=
  outputs_at (at_phase st) (map segment_mpid (written st)) (stdout st)
    (stderr st).

Lemma outputs_fail (e : error) (st : state) :
  outputs st ->
  (forall v d tip, at_phase st <> AwaitPeerShare v d tip) ->
  (forall code, at_phase st <> Exited code) ->
  outputs (fail e st).
Proof.
  unfold outputs, fail. cbn [at_phase written stdout stderr].
  intros H Hps Hex.
  destruct (at_phase st) as [| | v d | v d tip | code];
    try (exfalso; eapply Hps; reflexivity);
    try (exfalso; eapply Hex; reflexivity);
    destruct H as (Hs & -> & ->); right;
    (split; [reflexivity |]); (split; [reflexivity |]);
    exists e; (split; [reflexivity | tauto]).
Qed.

Lemma outputs_finish (v d tip : value) (found : list peer) (st : state) :
  outputs st ->
  ((exists v' d', at_phase st = AwaitChainSync v' d') /\ found = []
   \/ exists v' d' tip', at_phase st = AwaitPeerShare v' d' tip') ->
  outputs (finish HOST PORT v d tip found st).
Proof.
  unfold outputs, finish.
  intros H [[(v' & d' & Hp) ->] | (v' & d' & tip' & Hp)]; rewrite Hp in H;
    destruct (printable _) eqn:Hpr;
    cbn [fail at_phase written stdout stderr outputs_at].
  - destruct H as (Hs & -> & ->). left.
    split; [reflexivity |]. split; [left; exact Hs |]. split; [reflexivity |].
    eexists. split; [reflexivity |]. cbn [peer_host peer_port tipCborHex
                                          tipDecoded discoveredPeers].
    repeat split; try reflexivity. exact Hpr.
  - destruct H as (Hs & -> & ->). right.
    split; [reflexivity |]. split; [reflexivity |].
    eexists. split; [reflexivity |]. right. right. left. exact Hs.
  - destruct H as ((Hs & Hw) & -> & ->). left.
    split; [reflexivity |]. split; [right; split; assumption |].
    split; [reflexivity |].
    eexists. split; [reflexivity |]. cbn [peer_host peer_port tipCborHex
                                          tipDecoded discoveredPeers].
    repeat split; try reflexivity; [exact Hpr |]. rewrite Hs. discriminate.
  - destruct H as ((Hs & Hw) & -> & ->). right.
    split; [reflexivity |]. split; [reflexivity |].
    eexists. split; [reflexivity |]. right. right. right.
    repeat split; assumption.
Qed.

Lemma outputs_with_mux (m : MuxReader) (st : state) :
  outputs st -> outputs (with_mux m st).
Proof. intros H. exact H. Qed.

Lemma outputs_sent (seg : Buffer) (st : state) (mp : Z) (sent : list Z) :
  map segment_mpid (written st) = sent -> segment_mpid seg = mp ->
  map segment_mpid (written st ++ [seg]) = sent ++ [mp].
Proof. intros <- <-. rewrite map_app. reflexivity. Qed.

Lemma outputs_resume (f : frame) (st : state) :
  outputs st -> outputs (resume HOST PORT WANT_PEER_SHARING f st).
Proof.
  intros H. unfold resume.
  destruct (at_phase st) as [| | v d | v d tip | code] eqn:Hp; try exact H.
  - destruct (after_handshake_cases f st)
      as [[e ->] | (seg & rest & _ & Hm & ->)].
    + apply outputs_fail; [exact H | |]; intros; rewrite Hp; discriminate.
    + unfold outputs in *. rewrite Hp in H. destruct H as (Hs & Ho & He).
      cbn [readFrame socket_write at_phase written stdout stderr outputs_at].
      rewrite (outputs_sent seg st MP_CHAINSYNC _ Hs (muxFrame_mpid _ _ _ Hm)).
      repeat split; assumption.
  - destruct (after_chainsync_cases HOST PORT WANT_PEER_SHARING v d f st)
      as [[e ->] | [[tip ->] | (Hw & seg & tip & Hm & ->)]].
    + apply outputs_fail; [exact H | |]; intros; rewrite Hp; discriminate.
    + apply outputs_finish; [exact H |]. left. split; [| reflexivity].
      exists v, d. exact Hp.
    + unfold outputs in *. rewrite Hp in H. destruct H as (Hs & Ho & He).
      cbn [readFrame socket_write at_phase written stdout stderr outputs_at].
      rewrite (outputs_sent seg st MP_PEERSHARE _ Hs (muxFrame_mpid _ _ _ Hm)).
      repeat split; assumption.
  - unfold after_peershare. apply outputs_finish; [exact H |]. right.
    exists v, d, tip. exact Hp.
Qed.

Lemma outputs_reject (e : error) (st : state) :
  outputs st -> (forall code, at_phase st <> Exited code) ->
  outputs (reject HOST PORT e st).
Proof.
  intros H Hex. unfold reject.
  destruct (at_phase st) as [| | v d | v d tip | code] eqn:Hp;
    try (apply outputs_fail; [exact H | |]; intros; rewrite Hp;
         discriminate).
  - apply outputs_finish; [exact H |]. right. exists v, d, tip. exact Hp.
  - exfalso. apply (Hex code). reflexivity.
Qed.

Lemma outputs_step (st : state) (ev : event) :
  outputs st -> outputs (step st ev).
Proof.
  intros H. unfold ChainsyncTip.step.
  destruct (at_phase st) as [| | v d | v d tip | code] eqn:Hp; try exact H.
  - destruct ev; try exact H;
      try (apply outputs_fail; [exact H | |]; intros; rewrite Hp;
           discriminate).
    unfold on_connect.
    destruct (muxFrame MP_HANDSHAKE 0 _) as [e | seg] eqn:Hm.
    + apply outputs_fail; [exact H | |]; intros; rewrite Hp; discriminate.
    + unfold outputs in *. rewrite Hp in H. destruct H as (Hs & Ho & He).
      cbn [readFrame socket_write at_phase written stdout stderr outputs_at].
      rewrite (outputs_sent seg st MP_HANDSHAKE _ Hs (muxFrame_mpid _ _ _ Hm)).
      repeat split; assumption.
  - destruct ev; try exact H;
      try (apply outputs_reject; [exact H |]; cbn [with_mux at_phase];
           intros; rewrite Hp; discriminate).
    destruct (snd (on_data (mux st) d)) as [| [p f] more]; [exact H |].
    apply outputs_resume. exact H.
  - destruct ev; try exact H;
      try (apply outputs_reject; [exact H |]; cbn [with_mux at_phase];
           intros; rewrite Hp; discriminate).
    destruct (snd (on_data (mux st) d0)) as [| [p f] more]; [exact H |].
    apply outputs_resume. exact H.
  - destruct ev; try exact H;
      try (apply outputs_reject; [exact H |]; cbn [with_mux at_phase];
           intros; rewrite Hp; discriminate).
    destruct (snd (on_data (mux st) d0)) as [| [p f] more]; [exact H |].
    apply outputs_resume. exact H.
Qed.

Lemma outputs_run (evs : list event) : outputs (run evs).
Proof.
  induction evs as [| ev evs IH] using rev_ind.
  - unfold outputs. cbn. repeat split; reflexivity.
  - rewrite tip_run_snoc. apply outputs_step. exact IH.
Qed.

Lemma outputs_fold (rest : list event) :
  forall st, outputs st -> outputs (fold_left step rest st).
Proof.
  induction rest as [| ev rest IH]; intros st H; [exact H |].
  cbn [fold_left]. apply IH. apply outputs_step. exact H.
Qed.

(** *** The waiter of each phase *)

Definition hs_waiter : waiter := {| filter := hs_filter; promise := 0 |}.
Definition cs_waiter : waiter := {| filter := cs_filter; promise := 1 |}.
Definition ps_waiter : waiter := {| filter := ps_filter; promise := 2 |}.

(** The waiters that a process which has ended can have left, with what
    it had sent: none, or the one whose timer fired. *)
Definition left_over (sent : list Z) (ws : list waiter) : Prop :=
  ws = []
  \/ (ws = [hs_waiter] /\ sent = [MP_HANDSHAKE])
  \/ (ws = [cs_waiter] /\ sent = [MP_HANDSHAKE; MP_CHAINSYNC])
  \/ (ws = [ps_waiter] /\ sent = [MP_HANDSHAKE; MP_CHAINSYNC; MP_PEERSHARE]).

Definition waiting_at (ph : phase) (sent : list Z) (ws : list waiter) : Prop :=
  match ph with
  | Connecting => ws = []
  | AwaitHandshake => ws = [hs_waiter]
  | AwaitChainSync _ _ => ws = [cs_waiter]
  | AwaitPeerShare _ _ _ => ws = [ps_waiter]
  | Exited _ => left_over sent ws
  end.

Definition waiting (st : state) : Prop :=
  waiting_at (at_phase st) (map segment_mpid (written st)) (waiters (mux st)).

Lemma waiting_resume (f : frame) (st : state) :
  waiters (mux st) = [] ->
  (forall code, at_phase st <> Exited code) ->
  waiting (resume HOST PORT WANT_PEER_SHARING f st).
Proof.
  intros Hw Hex. unfold resume, waiting.
  destruct (at_phase st) as [| | v d | v d tip | code] eqn:Hp.
  - rewrite Hp. exact Hw.
  - destruct (after_handshake_cases f st)
      as [[e ->] | (seg & rest & _ & Hm & ->)]; [left; exact Hw |].
    cbn [readFrame socket_write at_phase mux enqueue waiters waiting_at].
    rewrite Hw. reflexivity.
  - destruct (after_chainsync_cases HOST PORT WANT_PEER_SHARING v d f st)
      as [[e ->] | [[tip ->] | (_ & seg & tip & Hm & ->)]].
    + left. exact Hw.
    + destruct (finish_ends v d tip [] st) as ((code & Hc) & Hm & _).
      rewrite Hc, Hm. left. exact Hw.
    + cbn [readFrame socket_write at_phase mux enqueue waiters waiting_at].
      rewrite Hw. reflexivity.
  - unfold after_peershare.
    match goal with
    | |- context [finish _ _ _ _ _ ?found _] =>
        destruct (finish_ends v d tip found st) as ((code & Hc) & Hm & _)
    end.
    rewrite Hc, Hm. left. exact Hw.
  - exfalso. apply (Hex code). reflexivity.
Qed.

(** A rejected [await] ends the process with the waiters as they
    were. *)
Lemma reject_ends (e : error) (st : state) :
  (exists code, at_phase (reject HOST PORT e st) = Exited code)
  /\ mux (reject HOST PORT e st) = mux st
  /\ written (reject HOST PORT e st) = written st.
Proof.
  unfold reject.
  destruct (at_phase st) as [| | v d | v d tip | code];
    try (cbn [fail at_phase mux written];
         split; [eexists; reflexivity | split; reflexivity]).
  apply finish_ends.
Qed.

Lemma waiting_reject (e : error) (st : state) :
  left_over (map segment_mpid (written st)) (waiters (mux st)) ->
  waiting (reject HOST PORT e st).
Proof.
  intros Hw. unfold waiting.
  destruct (reject_ends e st) as ((code & Hc) & Hm & Hwr).
  rewrite Hc, Hm, Hwr. exact Hw.
Qed.

(** The timer of [readFrame] removes no waiter. *)
Lemma expire_same (m : MuxReader) (p : nat) : expire m p = m.
Proof.
  unfold expire.
  assert (H : findIndex (fun w => same_resolve w p) (waiters m) = None).
  { induction (waiters m) as [| w ws IH]; [reflexivity |].
    cbn [findIndex same_resolve]. rewrite IH. reflexivity. }
  rewrite H. reflexivity.
Qed.

Lemma with_mux_mux (st : state) : with_mux (mux st) st = st.
Proof. destruct st. reflexivity. Qed.

Lemma waiting_data (st : state) (d : Buffer) (w : waiter) :
  waiters (mux st) = [w] ->
  match snd (on_data (mux st) d) with
  | [] => waiters (fst (on_data (mux st) d)) = [w]
  | _ :: _ => waiters (fst (on_data (mux st) d)) = []
  end.
Proof.
  intros Hw. unfold on_data. rewrite Hw.
  pose proof (_pump_count (buf (mux st) ++ d) [w]) as Hc.
  destruct (snd (_pump (buf (mux st) ++ d) [w])) as [| x more] eqn:Hs.
  - apply (_pump_quiet_bounded (length (buf (mux st) ++ d))); [lia | exact Hs].
  - cbn [length] in Hc.
    destruct (waiters (fst (_pump (buf (mux st) ++ d) [w])));
      [reflexivity | cbn [length] in Hc; lia].
Qed.

(** The events of a suspended [run], the waiter of the phase being
    [w] *)
Lemma waiting_suspended (st : state) (ev : event) (w : waiter) :
  at_phase st <> Connecting -> (forall code, at_phase st <> Exited code) ->
  waiters (mux st) = [w] ->
  waiting_at (at_phase st) (map segment_mpid (written st)) [w] ->
  left_over (map segment_mpid (written st)) [w] ->
  waiting
    match ev with
    | SocketConnect => st
    | SocketData d =>
        let r := on_data (mux st) d in
        match snd r with
        | [] => with_mux (fst r) st
        | (_, f) :: _ =>
            resume HOST PORT WANT_PEER_SHARING f (with_mux (fst r) st)
        end
    | SocketClose =>
        reject HOST PORT (Error "socket closed")
          (with_mux (fst (_failAll (mux st))) st)
    | SocketError e =>
        reject HOST PORT e (with_mux (fst (_failAll (mux st))) st)
    | TimerFired =>
        reject HOST PORT (Error "timeout waiting for mux frame")
          (with_mux (expire (mux st) (awaited (at_phase st))) st)
    end.
Proof.
  intros Hc Hex Hw Hat Hleft. destruct ev.
  - unfold waiting. rewrite Hw. exact Hat.
  - cbv zeta. pose proof (waiting_data st d w Hw) as Hd.
    destruct (snd (on_data (mux st) d)) as [| [p f] more].
    + unfold waiting. cbn [with_mux at_phase mux written]. rewrite Hd.
      exact Hat.
    + apply waiting_resume; [exact Hd | exact Hex].
  - apply waiting_reject. cbn [with_mux mux written _failAll fst waiters].
    left. reflexivity.
  - apply waiting_reject. cbn [with_mux mux written _failAll fst waiters].
    left. reflexivity.
  - rewrite expire_same, with_mux_mux. apply waiting_reject.
    rewrite Hw. exact Hleft.
Qed.

Lemma waiting_step (st : state) (ev : event) :
  outputs st -> waiting st -> waiting (step st ev).
Proof.
  intros Ho H. unfold ChainsyncTip.step.
  unfold outputs in Ho. unfold waiting in H.
  destruct (at_phase st) as [| | v d | v d tip | code] eqn:Hp;
    cbn [waiting_at outputs_at] in H, Ho.
  - destruct ev; try (unfold waiting; rewrite Hp; exact H);
      try (unfold waiting, fail; cbn [at_phase mux written waiting_at];
           left; exact H).
    unfold on_connect.
    destruct (muxFrame MP_HANDSHAKE 0 _) as [e | seg];
      [unfold waiting, fail; cbn [at_phase mux written waiting_at];
       left; exact H |].
    unfold waiting.
    cbn [readFrame socket_write at_phase mux enqueue waiters waiting_at].
    rewrite H. reflexivity.
  - apply (waiting_suspended st ev hs_waiter);
      try (rewrite Hp; try discriminate; try exact eq_refl);
      try exact H; try (intros; discriminate).
    right. left. split; [reflexivity | apply Ho].
  - apply (waiting_suspended st ev cs_waiter);
      try (rewrite Hp; try discriminate; try exact eq_refl);
      try exact H; try (intros; discriminate).
    right. right. left. split; [reflexivity | apply Ho].
  - apply (waiting_suspended st ev ps_waiter);
      try (rewrite Hp; try discriminate; try exact eq_refl);
      try exact H; try (intros; discriminate).
    right. right. right. split; [reflexivity | apply Ho].
  - unfold waiting. rewrite Hp. exact H.
Qed.

Lemma waiting_run (evs : list event) : waiting (run evs).
Proof.
  induction evs as [| ev evs IH] using rev_ind.
  - reflexivity.
  - rewrite tip_run_snoc. apply waiting_step; [apply outputs_run | exact IH].
Qed.

End Shape.

End TipShape.

(** X5.  [run] writes in a fixed order and waits for one thing at a
    time.  In every run the mini-protocol numbers of the written
    segments are a prefix of handshake, ChainSync, PeerSharing, each
    written at most once; while [run] is suspended exactly one waiter is
    queued, with the filter of the mini-protocol whose request was
    written last; a PeerSharing request is written only when peer
    sharing is wanted.  The timer of [readFrame] takes no waiter off the
    queue: once the process has ended, the queue is empty or still holds
    the waiter of the last request, whose timer fired. *)
Theorem tip_writes_in_order `{RT : Runtime} (HOST : string)
    (PORT NETWORK_MAGIC : Z) (WANT_PEER_SHARING : bool)
    (evs : list ChainsyncTip.event) :
  let st := ChainsyncTip.run HOST PORT NETWORK_MAGIC WANT_PEER_SHARING evs in
  let sent := map segment_mpid (ChainsyncTip.written st) in
  let ws := ChainsyncTip.waiters (ChainsyncTip.mux st) in
  let hs := {| ChainsyncTip.filter := ChainsyncTip.hs_filter;
               ChainsyncTip.promise := 0 |} in
  let cs := {| ChainsyncTip.filter := ChainsyncTip.cs_filter;
               ChainsyncTip.promise := 1 |} in
  let ps := {| ChainsyncTip.filter := ChainsyncTip.ps_filter;
               ChainsyncTip.promise := 2 |} in
  (forall m p, ChainsyncTip.expire m p = m)
  /\
  match ChainsyncTip.at_phase st with
  | ChainsyncTip.Connecting => sent = [] /\ ws = []
  | ChainsyncTip.AwaitHandshake => sent = [MP_HANDSHAKE] /\ ws = [hs]
  | ChainsyncTip.AwaitChainSync _ _ =>
      sent = [MP_HANDSHAKE; MP_CHAINSYNC] /\ ws = [cs]
  | ChainsyncTip.AwaitPeerShare _ _ _ =>
      sent = [MP_HANDSHAKE; MP_CHAINSYNC; MP_PEERSHARE] /\ ws = [ps]
      /\ WANT_PEER_SHARING = true
  | ChainsyncTip.Exited _ =>
      (sent = [] \/ sent = [MP_HANDSHAKE]
       \/ sent = [MP_HANDSHAKE; MP_CHAINSYNC]
       \/ (sent = [MP_HANDSHAKE; MP_CHAINSYNC; MP_PEERSHARE]
           /\ WANT_PEER_SHARING = true))
      /\ (ws = []
          \/ (ws = [hs] /\ sent = [MP_HANDSHAKE])
          \/ (ws = [cs] /\ sent = [MP_HANDSHAKE; MP_CHAINSYNC])
          \/ (ws = [ps]
              /\ sent = [MP_HANDSHAKE; MP_CHAINSYNC; MP_PEERSHARE]))
  end.
Proof.
  intros st sent ws hs cs ps. split; [apply TipShape.expire_same |].
  pose proof (TipShape.outputs_run HOST PORT NETWORK_MAGIC WANT_PEER_SHARING
                evs) as Ho.
  pose proof (TipShape.waiting_run HOST PORT NETWORK_MAGIC WANT_PEER_SHARING
                evs) as Hw.
  unfold TipShape.outputs, TipShape.waiting in Ho, Hw.
  fold st in Ho, Hw. fold sent in Ho, Hw. fold ws in Hw.
  destruct (ChainsyncTip.at_phase st) as [| | v d | v d tip | code];
    cbn [TipShape.outputs_at TipShape.waiting_at] in Ho, Hw.
  - split; [apply Ho | exact Hw].
  - split; [apply Ho | exact Hw].
  - split; [apply Ho | exact Hw].
  - destruct Ho as ((Hs & Hwant) & _). repeat split; assumption.
  - split; [| exact Hw].
    destruct Ho as [(_ & [Hs | Hs] & _) | (_ & _ & e & _ & Hs)]; tauto.
Qed.

(** X6.  The exit status tells what was printed.  While [run] has not
    ended nothing is printed.  It ends with status 0 or 1 only: with 0
    it has printed exactly one report and no error, the report names the
    host and port of the command line, its [tipCborHex] is the hex text
    of the encoding of its [tipDecoded], it holds no BigInt where
    [JSON.stringify] looks, and without the peer-sharing option it lists
    no peer; with 1 it has printed exactly one error and no report, and
    if it had written a PeerSharing request the error is the exception
    of [JSON.stringify] on the report. *)
Theorem tip_exit_status `{RT : Runtime} (HOST : string)
    (PORT NETWORK_MAGIC : Z) (WANT_PEER_SHARING : bool)
    (evs : list ChainsyncTip.event) :
  let st := ChainsyncTip.run HOST PORT NETWORK_MAGIC WANT_PEER_SHARING evs in
  match ChainsyncTip.at_phase st with
  | ChainsyncTip.Exited code =>
      (code = 0 /\ ChainsyncTip.stderr st = []
       /\ exists r,
            ChainsyncTip.stdout st = [r]
            /\ ChainsyncTip.peer_host r = HOST
            /\ ChainsyncTip.peer_port r = PORT
            /\ ChainsyncTip.tipCborHex r
               = toHex (encode (ChainsyncTip.tipDecoded r))
            /\ ChainsyncTip.printable r = true
            /\ (WANT_PEER_SHARING = false ->
                ChainsyncTip.discoveredPeers r = []))
      \/ (code = 1 /\ ChainsyncTip.stdout st = []
          /\ exists e,
               ChainsyncTip.stderr st = [e]
               /\ (In MP_PEERSHARE
                      (map segment_mpid (ChainsyncTip.written st)) ->
                   e = TypeError "Do not know how to serialize a BigInt"))
  | _ => ChainsyncTip.stdout st = [] /\ ChainsyncTip.stderr st = []
  end.
Proof.
  intros st.
  pose proof (TipShape.outputs_run HOST PORT NETWORK_MAGIC WANT_PEER_SHARING
                evs) as Ho.
  unfold TipShape.outputs in Ho. fold st in Ho.
  destruct (ChainsyncTip.at_phase st) as [| | v d | v d tip | code];
    cbn [TipShape.outputs_at] in Ho; try (split; apply Ho).
  destruct Ho as [(Hc & Hs & He & r & Hr & Hh & Hp & Hx & Hpr & Hd)
                 | (Hc & Ho & e & He & Hs)].
  - left. split; [exact Hc |]. split; [exact He |].
    exists r. repeat split; try assumption.
    intros Hw. destruct Hs as [Hs | [_ Hs]]; [apply Hd; exact Hs |].
    rewrite Hw in Hs. discriminate Hs.
  - right. split; [exact Hc |]. split; [exact Ho |].
    exists e. split; [exact He |].
    intros Hin.
    destruct Hs as [Hs | [Hs | [Hs | (_ & _ & Hs)]]]; [| | | exact Hs];
      rewrite Hs in Hin; cbn in Hin;
      repeat (destruct Hin as [Hin | Hin]; [discriminate Hin |]);
      destruct Hin.
Qed.

Module TipFrames.

Import HeaderWord MuxFacts Chunks Written TipRuns Leftover.
Import ChainsyncTip.

(** A complete frame for which nobody waits is dropped. *)
Lemma framed_pump_none (t mode mpid : Z) (payload : Buffer) :
  0 <= t < 2 ^ 32 -> 0 <= mode <= 1 -> 0 <= mpid <= 32767 ->
  blen payload <= 65535 ->
  _pump (sdu t mode mpid payload) []
  = ({| buf := []; waiters := [] |}, []).
Proof.
  intros Ht Hmode Hmpid Hlen. unfold sdu. rewrite _pump_body.
  pose proof (blen_nonneg payload).
  rewrite (framed_len t mode mpid payload Hmode Hmpid Hlen _ eq_refl).
  rewrite (framed_blen t mode mpid payload _ eq_refl).
  destruct (Z.ltb_spec (8 + blen payload) 8); [lia |].
  destruct (Z.ltb_spec (8 + blen payload) (8 + blen payload)); [lia |].
  cbn [findIndex].
  rewrite (framed_rest t mode mpid payload _ eq_refl).
  rewrite _pump_body. reflexivity.
Qed.

Lemma framed_pump_one (t mode mpid : Z) (payload : Buffer) (w : waiter) :
  0 <= t < 2 ^ 32 -> 0 <= mode <= 1 -> 0 <= mpid <= 32767 ->
  blen payload <= 65535 -> filter w mpid mode = true ->
  _pump (sdu t mode mpid payload) [w]
  = ({| buf := []; waiters := [] |},
     [(promise w,
       {| transmissionTime := t; mode := mode; miniProtocolId := mpid;
          payload := payload |})]).
Proof.
  intros Ht Hmode Hmpid Hlen Hw.
  apply (framed_pump t mode mpid payload Ht Hmode Hmpid Hlen _ eq_refl w Hw).
Qed.

Section Steps.

Context `{RT : Runtime}.
Variables (HOST : string) (PORT NETWORK_MAGIC : Z) (WANT_PEER_SHARING : bool).

#[local] Set Warnings "-notation-for-abbreviation".
Local Notation step :=
  (ChainsyncTip.step HOST PORT NETWORK_MAGIC WANT_PEER_SHARING).

(** A data event that brings exactly the awaited frame *)
Lemma step_framed (st : state) (w : waiter) (t mode mpid : Z)
    (payload : Buffer) :
  0 <= t < 2 ^ 32 -> 0 <= mode <= 1 -> 0 <= mpid <= 32767 ->
  blen payload <= 65535 ->
  buf (mux st) = [] -> waiters (mux st) = [w] -> filter w mpid mode = true ->
  at_phase st <> Connecting -> (forall code, at_phase st <> Exited code) ->
  step st (SocketData (sdu t mode mpid payload))
  = resume HOST PORT WANT_PEER_SHARING
      {| transmissionTime := t; mode := mode; miniProtocolId := mpid;
         payload := payload |}
      (with_mux {| buf := []; waiters := [] |} st).
Proof.
  intros Ht Hmode Hmpid Hlen Hb Hws Hw Hc Hex.
  unfold ChainsyncTip.step, on_data. rewrite Hb, Hws. cbn [app].
  rewrite (framed_pump_one t mode mpid payload w Ht Hmode Hmpid Hlen Hw).
  cbn [fst snd].
  destruct (at_phase st) as [| | v d | v d tip | code] eqn:Hp;
    try reflexivity; try contradiction.
  exfalso. apply (Hex code). reflexivity.
Qed.

Lemma decodeCbor_ok (b : Buffer) (v : value) :
  decode b = inr v -> decodeCbor b = v.
Proof. intros H. unfold decodeCbor. rewrite H. reflexivity. Qed.

End Steps.

End TipFrames.

(** X7.  A frame that follows the awaited one in the same chunk is
    lost: when [run] waits with one waiter on an empty buffer and a
    chunk brings a frame that the waiter accepts and then another
    complete frame, the process goes on exactly as if the second frame
    had not been sent.  [_pump] parses the second frame while no waiter
    is queued and drops it, before [run] resumes and queues the next
    one. *)
Theorem tip_later_frame_dropped `{RT : Runtime} (HOST : string)
    (PORT NETWORK_MAGIC : Z) (WANT_PEER_SHARING : bool)
    (st : ChainsyncTip.state) (w : ChainsyncTip.waiter)
    (t mode mpid t' mode' mpid' : Z) (payload payload' : Buffer) :
  0 <= t < 2 ^ 32 -> 0 <= mode <= 1 -> 0 <= mpid <= 32767 ->
  blen payload <= 65535 ->
  0 <= t' < 2 ^ 32 -> 0 <= mode' <= 1 -> 0 <= mpid' <= 32767 ->
  blen payload' <= 65535 ->
  ChainsyncTip.buf (ChainsyncTip.mux st) = [] ->
  ChainsyncTip.waiters (ChainsyncTip.mux st) = [w] ->
  ChainsyncTip.filter w mpid mode = true ->
  ChainsyncTip.step HOST PORT NETWORK_MAGIC WANT_PEER_SHARING st
    (ChainsyncTip.SocketData
       (sdu t mode mpid payload ++ sdu t' mode' mpid' payload'))
  = ChainsyncTip.step HOST PORT NETWORK_MAGIC WANT_PEER_SHARING st
      (ChainsyncTip.SocketData (sdu t mode mpid payload)).
Proof.
  intros Ht Hmode Hmpid Hlen Ht' Hmode' Hmpid' Hlen' Hb Hws Hw.
  unfold ChainsyncTip.step, ChainsyncTip.on_data. rewrite Hb, Hws.
  cbn [app].
  rewrite (Chunks._pump_app (sdu t mode mpid payload)
             (sdu t' mode' mpid' payload') [w]).
  rewrite (TipFrames.framed_pump_one t mode mpid payload w
             Ht Hmode Hmpid Hlen Hw).
  unfold Chunks.then_pump. cbn [fst snd ChainsyncTip.buf ChainsyncTip.waiters app].
  rewrite (TipFrames.framed_pump_none t' mode' mpid' payload'
             Ht' Hmode' Hmpid' Hlen').
  reflexivity.
Qed.

Lemma tip_later_frame_dropped_witness :
  let run := ChainsyncTip.run (RT := Reference.runtime)
               "relay" 3001 764824073 false in
  ChainsyncTip.step (RT := Reference.runtime) "relay" 3001 764824073 false
    (run [ChainsyncTip.SocketConnect])
    (ChainsyncTip.SocketData
       (sdu 0 1 0 (Reference.cbor_encode accept_example)
        ++ sdu 0 1 2 (Reference.cbor_encode (VArr [VNum 6; VNum 7]))))
  = ChainsyncTip.step (RT := Reference.runtime) "relay" 3001 764824073 false
      (run [ChainsyncTip.SocketConnect])
      (ChainsyncTip.SocketData
         (sdu 0 1 0 (Reference.cbor_encode accept_example))).
Proof.
  refine (tip_later_frame_dropped (RT := Reference.runtime)
            "relay" 3001 764824073 false
            (ChainsyncTip.run (RT := Reference.runtime)
               "relay" 3001 764824073 false [ChainsyncTip.SocketConnect])
            {| ChainsyncTip.filter := ChainsyncTip.hs_filter;
               ChainsyncTip.promise := 0 |}
            0 1 0 0 1 2
            (Reference.cbor_encode accept_example)
            (Reference.cbor_encode (VArr [VNum 6; VNum 7]))
            _ _ _ _ _ _ _ _ _ _ _);
    first [ vm_compute; reflexivity | vm_compute; discriminate
          | vm_compute; split; first [discriminate | reflexivity] ].
Defined.

Module TipEnd.

Import HeaderWord MuxFacts Chunks Written TipRuns Leftover TipFrames.
Import ChainsyncTip.

Section Ends.

Context `{RT : Runtime}.
Variables (HOST : string) (PORT NETWORK_MAGIC : Z) (WANT_PEER_SHARING : bool).

#[local] Set Warnings "-notation-for-abbreviation".
Local Notation step :=
  (ChainsyncTip.step HOST PORT NETWORK_MAGIC WANT_PEER_SHARING).
Local Notation run :=
  (ChainsyncTip.run HOST PORT NETWORK_MAGIC WANT_PEER_SHARING).

(** The report on a tip, version and version data, with the peers
    found *)
Definition report_of (v d tip : value) (found : list peer) : report :=
  {| peer_host := HOST; peer_port := PORT; handshake_version := v;
     handshake_versionData := d; tipDecoded := tip;
     tipCborHex := toHex (encode tip); discoveredPeers := found |}.

Variables (v d tip : value).

Definition tip_pending (st : state) : Prop :=
  at_phase st = AwaitPeerShare v d tip /\ stdout st = [] /\ stderr st = [].

(** How the output block ends a process that had printed nothing: with
    the report [r] and status 0 when [JSON.stringify] prints [r], with
    its exception and status 1 when not. *)
Definition ended_with (r : report) (st : state) : Prop :=
  if printable r then
    at_phase st = Exited 0 /\ stderr st = [] /\ stdout st = [r]
  else
    at_phase st = Exited 1 /\ stdout st = []
    /\ stderr st = [TypeError "Do not know how to serialize a BigInt"].

Definition tip_reported (st : state) : Prop :=
  exists found, ended_with (report_of v d tip found) st.

Lemma ended_with_exited (r : report) (st : state) :
  ended_with r st -> exists code, at_phase st = Exited code.
Proof.
  unfold ended_with. destruct (printable r); intros (H & _);
    eexists; exact H.
Qed.

Lemma finish_ended (found : list peer) (st : state) :
  stdout st = [] -> stderr st = [] ->
  ended_with (report_of v d tip found) (finish HOST PORT v d tip found st).
Proof.
  intros Ho He. unfold ended_with, finish. fold (report_of v d tip found).
  destruct (printable (report_of v d tip found));
    cbn [fail at_phase stdout stderr]; rewrite Ho, He; repeat split.
Qed.

Lemma peershare_step (st : state) (ev : event) :
  tip_pending st -> tip_pending (step st ev) \/ tip_reported (step st ev).
Proof.
  intros (Hp & Ho & He). unfold ChainsyncTip.step. rewrite Hp.
  destruct ev.
  - left. repeat split; assumption.
  - destruct (snd (on_data (mux st) d0)) as [| [p f] more].
    + left. repeat split; assumption.
    + right. unfold resume. cbn [with_mux at_phase]. rewrite Hp.
      unfold after_peershare, tip_reported.
      eexists. apply finish_ended; assumption.
  - right. unfold reject. cbn [with_mux at_phase]. rewrite Hp.
    exists []. apply finish_ended; assumption.
  - right. unfold reject. cbn [with_mux at_phase]. rewrite Hp.
    exists []. apply finish_ended; assumption.
  - right. unfold reject. cbn [with_mux at_phase]. rewrite Hp.
    exists []. apply finish_ended; assumption.
Qed.

Lemma peershare_fold (rest : list event) :
  forall st, tip_pending st ->
             tip_pending (fold_left step rest st)
             \/ tip_reported (fold_left step rest st).
Proof.
  induction rest as [| ev rest IH]; intros st H; [left; exact H |].
  cbn [fold_left]. destruct (peershare_step st ev H) as [H' | H'].
  - apply IH. exact H'.
  - right. destruct H' as [found H'].
    destruct (ended_with_exited _ _ H') as [code Hc].
    rewrite (tip_exited_absorbs HOST PORT NETWORK_MAGIC WANT_PEER_SHARING
               rest _ code Hc).
    exists found. exact H'.
Qed.

(** The failure of the PeerSharing exchange: the socket closes or
    fails, or the timer of [readFrame] fires. *)
Definition breaks (ev : event) : Prop :=
  match ev with
  | SocketClose | SocketError _ | TimerFired => True
  | SocketConnect | SocketData _ => False
  end.

Lemma peershare_breaks (st : state) (ev : event) :
  tip_pending st -> breaks ev ->
  ended_with (report_of v d tip []) (step st ev).
Proof.
  intros (Hp & Ho & He) Hb. unfold ChainsyncTip.step. rewrite Hp.
  destruct ev; try contradiction;
    unfold reject; cbn [with_mux at_phase]; rewrite Hp;
    apply finish_ended; assumption.
Qed.

End Ends.

End TipEnd.

(** X8.  Once the tip is read the run can fail on printing only.  From
    the moment [run] waits for the PeerSharing response, whatever the
    events that follow, the process either still waits, having printed
    nothing, or has ended in the output block, on a report with the
    negotiated version, the version data and the tip that it held when
    it began to wait: with status 0, no error and that report alone when
    [JSON.stringify] prints it; with status 1, no report and the
    exception of [JSON.stringify] when the report holds a BigInt.  If
    what follows is the close of the socket, a socket error or the timer
    of [readFrame], the report is the one that lists no peer. *)
Theorem tip_known_outcome `{RT : Runtime} (HOST : string)
    (PORT NETWORK_MAGIC : Z) (WANT_PEER_SHARING : bool)
    (evs : list ChainsyncTip.event) (v d tip : value) :
  let run := ChainsyncTip.run HOST PORT NETWORK_MAGIC WANT_PEER_SHARING in
  let ended_with := fun (found : list ChainsyncTip.peer) st =>
    let r := TipEnd.report_of HOST PORT v d tip found in
    if ChainsyncTip.printable r then
      ChainsyncTip.at_phase st = ChainsyncTip.Exited 0
      /\ ChainsyncTip.stderr st = []
      /\ ChainsyncTip.stdout st = [r]
    else
      ChainsyncTip.at_phase st = ChainsyncTip.Exited 1
      /\ ChainsyncTip.stdout st = []
      /\ ChainsyncTip.stderr st
         = [TypeError "Do not know how to serialize a BigInt"] in
  ChainsyncTip.at_phase (run evs) = ChainsyncTip.AwaitPeerShare v d tip ->
  (forall rest,
      (ChainsyncTip.at_phase (run (evs ++ rest))
       = ChainsyncTip.AwaitPeerShare v d tip
       /\ ChainsyncTip.stdout (run (evs ++ rest)) = []
       /\ ChainsyncTip.stderr (run (evs ++ rest)) = [])
      \/ exists found, ended_with found (run (evs ++ rest)))
  /\
  (forall ev rest,
      TipEnd.breaks ev -> ended_with [] (run (evs ++ ev :: rest))).
Proof.
  intros run ended_with Hp. subst run ended_with.
  pose proof (TipShape.outputs_run HOST PORT NETWORK_MAGIC WANT_PEER_SHARING
                evs) as Ho.
  unfold TipShape.outputs in Ho. rewrite Hp in Ho.
  destruct Ho as (_ & Hout & Herr).
  assert (Hpend : TipEnd.tip_pending v d tip
                    (ChainsyncTip.run HOST PORT NETWORK_MAGIC
                       WANT_PEER_SHARING evs))
    by (repeat split; assumption).
  split.
  - intros rest. rewrite TipRuns.tip_run_app.
    apply (TipEnd.peershare_fold HOST PORT NETWORK_MAGIC WANT_PEER_SHARING
             v d tip rest _ Hpend).
  - intros ev rest Hb. rewrite TipRuns.tip_run_app. cbn [fold_left].
    pose proof (TipEnd.peershare_breaks HOST PORT NETWORK_MAGIC
                  WANT_PEER_SHARING v d tip _ ev Hpend Hb) as H.
    destruct (TipEnd.ended_with_exited _ _ H) as [code Hc].
    rewrite (TipRuns.tip_exited_absorbs HOST PORT NETWORK_MAGIC
               WANT_PEER_SHARING rest _ code Hc).
    exact H.
Qed.

Lemma tip_known_outcome_witness :
  let run := ChainsyncTip.run (RT := Reference.runtime)
               "relay" 3001 764824073 true in
  let evs := [ChainsyncTip.SocketConnect;
              ChainsyncTip.SocketData
                (sdu 0 1 0 (Reference.cbor_encode accept_example));
              ChainsyncTip.SocketData
                (sdu 0 1 2 (Reference.cbor_encode (VArr [VNum 6; VNum 7])))] in
  ChainsyncTip.at_phase (run (evs ++ [ChainsyncTip.TimerFired]))
  = ChainsyncTip.Exited 0
  /\ ChainsyncTip.stderr (run (evs ++ [ChainsyncTip.TimerFired])) = []
  /\ ChainsyncTip.stdout (run (evs ++ [ChainsyncTip.TimerFired]))
     = [TipEnd.report_of (RT := Reference.runtime) "relay" 3001
          (VNum 14)
          (VArr [VNum 764824073; VBool false; VNum 1; VBool false])
          (VNum 7) []].
Proof.
  refine (proj2 (tip_known_outcome (RT := Reference.runtime)
                   "relay" 3001 764824073 true
                   [ChainsyncTip.SocketConnect;
                    ChainsyncTip.SocketData
                      (sdu 0 1 0 (Reference.cbor_encode accept_example));
                    ChainsyncTip.SocketData
                      (sdu 0 1 2
                         (Reference.cbor_encode (VArr [VNum 6; VNum 7])))]
                   (VNum 14)
                   (VArr [VNum 764824073; VBool false; VNum 1; VBool false])
                   (VNum 7) _)
            ChainsyncTip.TimerFired [] _).
  - vm_compute. reflexivity.
  - exact I.
Defined.

Module TipScenario.

Import HeaderWord MuxFacts Chunks Written TipRuns Leftover TipFrames.
Import ChainsyncTip.

Section Scenario.

Context `{RT : Runtime}.
Variables (HOST : string) (PORT NETWORK_MAGIC : Z) (WANT_PEER_SHARING : bool).

#[local] Set Warnings "-notation-for-abbreviation".
Local Notation step :=
  (ChainsyncTip.step HOST PORT NETWORK_MAGIC WANT_PEER_SHARING).
Local Notation run :=
  (ChainsyncTip.run HOST PORT NETWORK_MAGIC WANT_PEER_SHARING).

Definition proposal : Buffer :=
  sdu 0 0 MP_HANDSHAKE
    (encode (handshakePropose NETWORK_MAGIC WANT_PEER_SHARING)).

Definition findIntersect : Buffer :=
  sdu 0 0 MP_CHAINSYNC (encode (VArr [VNum 4; VArr []])).

Definition shareRequest : Buffer :=
  sdu 0 0 MP_PEERSHARE (encode (VArr [VNum 0; VNum 25])).

Hypothesis Hpropose :
  blen (encode (handshakePropose NETWORK_MAGIC WANT_PEER_SHARING)) <= 65535.
Hypothesis Hfind : blen (encode (VArr [VNum 4; VArr []])) <= 65535.

Definition idle : MuxReader := {| buf := []; waiters := [] |}.

Definition connected : state :=
  {| mux := {| buf := [];
               waiters := [{| filter := hs_filter; promise := 0 |}] |};
     at_phase := AwaitHandshake; written := [proposal];
     stdout := []; stderr := [] |}.

Lemma tip_run_connect : run [SocketConnect] = connected.
Proof.
  unfold ChainsyncTip.run. cbn [fold_left].
  unfold ChainsyncTip.step. cbn [initial at_phase]. unfold on_connect.
  rewrite muxFrame_ok by (try exact Hpropose; unfold MP_HANDSHAKE; lia).
  reflexivity.
Qed.

Variables (v d : value) (t1 : Z) (p1 : Buffer).
Hypothesis Ht1 : 0 <= t1 < 2 ^ 32.
Hypothesis Hp1 : blen p1 <= 65535.
Hypothesis Hd1 : decode p1 = inr (VArr [VNum 1; v; d]).

Definition accepted : state :=
  {| mux := {| buf := [];
               waiters := [{| filter := cs_filter; promise := 1 |}] |};
     at_phase := AwaitChainSync v d; written := [proposal; findIntersect];
     stdout := []; stderr := [] |}.

Lemma tip_step_accept :
  step connected (SocketData (sdu t1 1 MP_HANDSHAKE p1)) = accepted.
Proof.
  rewrite (step_framed HOST PORT NETWORK_MAGIC WANT_PEER_SHARING connected
             {| filter := hs_filter; promise := 0 |});
    try reflexivity; try assumption; try lia; try discriminate;
    try (unfold MP_HANDSHAKE; lia).
  unfold resume. cbn [with_mux connected at_phase].
  unfold after_handshake. cbn [payload].
  rewrite (decodeCbor_ok _ _ Hd1).
  cbn [isArray negb elements length Nat.ltb Nat.leb orb item nth is_num
       Z.eqb].
  rewrite muxFrame_ok by (try exact Hfind; unfold MP_CHAINSYNC; lia).
  reflexivity.
Qed.

Variables (tip : value) (t2 : Z) (p2 : Buffer).
Hypothesis Ht2 : 0 <= t2 < 2 ^ 32.
Hypothesis Hp2 : blen p2 <= 65535.
Hypothesis Hd2 :
  decode p2 = inr (VArr [VNum 6; tip])
  \/ exists point, decode p2 = inr (VArr [VNum 5; point; tip]).

Lemma tip_of_reply : tip_of (decodeCbor p2) = inr tip.
Proof.
  destruct Hd2 as [H | [point H]]; rewrite (decodeCbor_ok _ _ H); reflexivity.
Qed.

(** The end of a run that reaches the output block with the peers
    [found], having written [sent] and printed nothing *)
Definition reported (found : list peer) (sent : list Buffer) : state :=
  finish HOST PORT v d tip found
    {| mux := idle; at_phase := Connecting; written := sent;
       stdout := []; stderr := [] |}.

Lemma reported_written (found : list peer) (sent : list Buffer) :
  written (reported found sent) = sent.
Proof.
  unfold reported, finish. destruct (printable _); reflexivity.
Qed.

Lemma reported_printed (found : list peer) (sent : list Buffer) :
  printable (TipEnd.report_of HOST PORT v d tip found) = true ->
  at_phase (reported found sent) = Exited 0
  /\ stderr (reported found sent) = []
  /\ stdout (reported found sent)
     = [TipEnd.report_of HOST PORT v d tip found].
Proof.
  intros H. unfold reported, finish.
  fold (TipEnd.report_of HOST PORT v d tip found). rewrite H.
  repeat split.
Qed.

Lemma reported_unprinted (found : list peer) (sent : list Buffer) :
  printable (TipEnd.report_of HOST PORT v d tip found) = false ->
  at_phase (reported found sent) = Exited 1
  /\ stdout (reported found sent) = []
  /\ stderr (reported found sent)
     = [TypeError "Do not know how to serialize a BigInt"].
Proof.
  intros H. unfold reported, finish.
  fold (TipEnd.report_of HOST PORT v d tip found). rewrite H.
  repeat split.
Qed.

Lemma step_tip_alone :
  WANT_PEER_SHARING = false ->
  step accepted (SocketData (sdu t2 1 MP_CHAINSYNC p2))
  = reported [] [proposal; findIntersect].
Proof.
  intros Hw.
  rewrite (step_framed HOST PORT NETWORK_MAGIC WANT_PEER_SHARING accepted
             {| filter := cs_filter; promise := 1 |});
    try reflexivity; try assumption; try lia; try discriminate;
    try (unfold MP_CHAINSYNC; lia).
  unfold resume. cbn [with_mux accepted at_phase].
  unfold after_chainsync. cbn [payload]. rewrite tip_of_reply, Hw.
  unfold reported, finish. destruct (printable _); reflexivity.
Qed.

Hypothesis Hshare : blen (encode (VArr [VNum 0; VNum 25])) <= 65535.

Definition sharing : state :=
  {| mux := {| buf := [];
               waiters := [{| filter := ps_filter; promise := 2 |}] |};
     at_phase := AwaitPeerShare v d tip;
     written := [proposal; findIntersect; shareRequest];
     stdout := []; stderr := [] |}.

Lemma step_tip_sharing :
  WANT_PEER_SHARING = true ->
  step accepted (SocketData (sdu t2 1 MP_CHAINSYNC p2)) = sharing.
Proof.
  intros Hw.
  rewrite (step_framed HOST PORT NETWORK_MAGIC WANT_PEER_SHARING accepted
             {| filter := cs_filter; promise := 1 |});
    try reflexivity; try assumption; try lia; try discriminate;
    try (unfold MP_CHAINSYNC; lia).
  unfold resume. cbn [with_mux accepted at_phase].
  unfold after_chainsync. cbn [payload]. rewrite tip_of_reply, Hw.
  cbv zeta.
  rewrite muxFrame_ok by (try exact Hshare; unfold MP_PEERSHARE; lia).
  reflexivity.
Qed.

Variables (addrs : list value) (t3 : Z) (p3 : Buffer).
Hypothesis Ht3 : 0 <= t3 < 2 ^ 32.
Hypothesis Hp3 : blen p3 <= 65535.
Hypothesis Hd3 : decode p3 = inr (VArr [VNum 1; VArr addrs]).

(** The peers that the [map] callback makes of [addrs]: none when it
    throws, the exception being caught. *)
Definition found_in (addrs : list value) : list peer :=
  match map_result peer_of addrs with
  | inr found => found
  | inl _ => []
  end.

Lemma step_peers :
  step sharing (SocketData (sdu t3 1 MP_PEERSHARE p3))
  = reported (found_in addrs) [proposal; findIntersect; shareRequest].
Proof.
  rewrite (step_framed HOST PORT NETWORK_MAGIC WANT_PEER_SHARING sharing
             {| filter := ps_filter; promise := 2 |});
    try reflexivity; try assumption; try lia; try discriminate;
    try (unfold MP_PEERSHARE; lia).
  unfold resume. cbn [with_mux sharing at_phase].
  unfold after_peershare. cbn [payload].
  rewrite (decodeCbor_ok _ _ Hd3).
  cbn [isArray elements item nth is_num Z.eqb Pos.eqb andb].
  fold (found_in addrs).
  unfold reported, finish. destruct (printable _); reflexivity.
Qed.

Lemma run_to_tip :
  run [SocketConnect; SocketData (sdu t1 1 MP_HANDSHAKE p1);
       SocketData (sdu t2 1 MP_CHAINSYNC p2)]
  = if WANT_PEER_SHARING then sharing
    else reported [] [proposal; findIntersect].
Proof.
  change (run [SocketConnect; SocketData (sdu t1 1 MP_HANDSHAKE p1);
               SocketData (sdu t2 1 MP_CHAINSYNC p2)])
    with (step (step (run [SocketConnect])
                  (SocketData (sdu t1 1 MP_HANDSHAKE p1)))
            (SocketData (sdu t2 1 MP_CHAINSYNC p2))).
  rewrite tip_run_connect, tip_step_accept.
  destruct (Bool.bool_dec WANT_PEER_SHARING true) as [Hw | Hw].
  - rewrite (step_tip_sharing Hw). rewrite Hw. reflexivity.
  - apply not_true_is_false in Hw.
    rewrite (step_tip_alone Hw). rewrite Hw. reflexivity.
Qed.

Lemma run_to_peers :
  WANT_PEER_SHARING = true ->
  run [SocketConnect; SocketData (sdu t1 1 MP_HANDSHAKE p1);
       SocketData (sdu t2 1 MP_CHAINSYNC p2);
       SocketData (sdu t3 1 MP_PEERSHARE p3)]
  = reported (found_in addrs) [proposal; findIntersect; shareRequest].
Proof.
  intros Hw.
  change (run [SocketConnect; SocketData (sdu t1 1 MP_HANDSHAKE p1);
               SocketData (sdu t2 1 MP_CHAINSYNC p2);
               SocketData (sdu t3 1 MP_PEERSHARE p3)])
    with (step (run [SocketConnect; SocketData (sdu t1 1 MP_HANDSHAKE p1);
                     SocketData (sdu t2 1 MP_CHAINSYNC p2)])
            (SocketData (sdu t3 1 MP_PEERSHARE p3))).
  rewrite run_to_tip.
  transitivity (step sharing (SocketData (sdu t3 1 MP_PEERSHARE p3)));
    [rewrite Hw; reflexivity | apply step_peers].
Qed.

End Scenario.

End TipScenario.

(** X9.  A complete exchange.  When the responder answers the proposal
    with an accept [[1, v, d]], the [FindIntersect] with
    [[6, tip]] or [[5, point, tip]] and, if peer sharing is wanted, the
    share request with [[1, addrs]], each answer in a segment of its
    own chunk with the responder's mode bit, the process has written the
    proposal, the [FindIntersect] and, if wanted, the share request, in
    this order and nothing else, and it ends in the output block, on the
    report with [v], [d], [tip] and the peers that the [map] callback
    makes of [addrs] (none when the callback throws, on a BigInt in the
    place of a number): with status 0, no error and that report alone
    when [JSON.stringify] prints it; with status 1, no report and the
    exception of [JSON.stringify] when the report holds a BigInt. *)
Theorem tip_run_complete `{RT : Runtime} (HOST : string)
    (PORT NETWORK_MAGIC : Z) (WANT_PEER_SHARING : bool)
    (v d tip : value) (addrs : list value) (t1 t2 t3 : Z)
    (p1 p2 p3 : Buffer) :
  let propose :=
    encode (ChainsyncTip.handshakePropose NETWORK_MAGIC WANT_PEER_SHARING) in
  let find := encode (VArr [VNum 4; VArr []]) in
  let share := encode (VArr [VNum 0; VNum 25]) in
  blen propose <= 65535 -> blen find <= 65535 -> blen share <= 65535 ->
  0 <= t1 < 2 ^ 32 -> blen p1 <= 65535 ->
  decode p1 = inr (VArr [VNum 1; v; d]) ->
  0 <= t2 < 2 ^ 32 -> blen p2 <= 65535 ->
  (decode p2 = inr (VArr [VNum 6; tip])
   \/ exists point, decode p2 = inr (VArr [VNum 5; point; tip])) ->
  0 <= t3 < 2 ^ 32 -> blen p3 <= 65535 ->
  decode p3 = inr (VArr [VNum 1; VArr addrs]) ->
  let st :=
    ChainsyncTip.run HOST PORT NETWORK_MAGIC WANT_PEER_SHARING
      ([ChainsyncTip.SocketConnect;
        ChainsyncTip.SocketData (sdu t1 1 MP_HANDSHAKE p1);
        ChainsyncTip.SocketData (sdu t2 1 MP_CHAINSYNC p2)]
       ++ if WANT_PEER_SHARING
          then [ChainsyncTip.SocketData (sdu t3 1 MP_PEERSHARE p3)]
          else []) in
  let r :=
    {| ChainsyncTip.peer_host := HOST;
       ChainsyncTip.peer_port := PORT;
       ChainsyncTip.handshake_version := v;
       ChainsyncTip.handshake_versionData := d;
       ChainsyncTip.tipDecoded := tip;
       ChainsyncTip.tipCborHex := toHex (encode tip);
       ChainsyncTip.discoveredPeers :=
         if WANT_PEER_SHARING
         then match map_result ChainsyncTip.peer_of addrs with
              | inr found => found
              | inl _ => []
              end
         else [] |} in
  ChainsyncTip.written st
  = [sdu 0 0 MP_HANDSHAKE propose; sdu 0 0 MP_CHAINSYNC find]
    ++ (if WANT_PEER_SHARING then [sdu 0 0 MP_PEERSHARE share] else [])
  /\ (ChainsyncTip.printable r = true ->
      ChainsyncTip.at_phase st = ChainsyncTip.Exited 0
      /\ ChainsyncTip.stderr st = []
      /\ ChainsyncTip.stdout st = [r])
  /\ (ChainsyncTip.printable r = false ->
      ChainsyncTip.at_phase st = ChainsyncTip.Exited 1
      /\ ChainsyncTip.stdout st = []
      /\ ChainsyncTip.stderr st
         = [TypeError "Do not know how to serialize a BigInt"]).
Proof.
  intros propose find share Hpropose Hfind Hshare Ht1 Hp1 Hd1 Ht2 Hp2 Hd2
    Ht3 Hp3 Hd3 st r.
  subst st r propose find share.
  destruct WANT_PEER_SHARING; cbn [app].
  - rewrite (TipScenario.run_to_peers HOST PORT NETWORK_MAGIC true
               Hpropose Hfind v d t1 p1 Ht1 Hp1 Hd1 tip t2 p2 Ht2 Hp2 Hd2
               Hshare addrs t3 p3 Ht3 Hp3 Hd3 eq_refl).
    split; [apply TipScenario.reported_written |].
    split; intros Hq.
    + exact (TipScenario.reported_printed HOST PORT v d tip _ _ Hq).
    + exact (TipScenario.reported_unprinted HOST PORT v d tip _ _ Hq).
  - rewrite (TipScenario.run_to_tip HOST PORT NETWORK_MAGIC false
               Hpropose Hfind v d t1 p1 Ht1 Hp1 Hd1 tip t2 p2 Ht2 Hp2 Hd2
               Hshare).
    split; [apply TipScenario.reported_written |].
    split; intros Hq.
    + exact (TipScenario.reported_printed HOST PORT v d tip _ _ Hq).
    + exact (TipScenario.reported_unprinted HOST PORT v d tip _ _ Hq).
Qed.

Lemma tip_run_complete_witness :
  let st :=
    ChainsyncTip.run (RT := Reference.runtime) "relay" 3001 764824073 true
      [ChainsyncTip.SocketConnect;
       ChainsyncTip.SocketData
         (sdu 0 1 MP_HANDSHAKE (Reference.cbor_encode accept_example));
       ChainsyncTip.SocketData
         (sdu 0 1 MP_CHAINSYNC
            (Reference.cbor_encode (VArr [VNum 6; VNum 7])));
       ChainsyncTip.SocketData
         (sdu 0 1 MP_PEERSHARE
            (Reference.cbor_encode
               (VArr [VNum 1;
                      VArr [VArr [VNum 0; VNum 16909066; VNum 3001]]])))] in
  ChainsyncTip.at_phase st = ChainsyncTip.Exited 0
  /\ ChainsyncTip.stderr st = []
  /\ ChainsyncTip.written st
     = [sdu 0 0 MP_HANDSHAKE
          (Reference.cbor_encode
             (ChainsyncTip.handshakePropose 764824073 true));
        sdu 0 0 MP_CHAINSYNC (Reference.cbor_encode (VArr [VNum 4; VArr []]));
        sdu 0 0 MP_PEERSHARE (Reference.cbor_encode (VArr [VNum 0; VNum 25]))]
  /\ ChainsyncTip.stdout st
     = [{| ChainsyncTip.peer_host := "relay";
           ChainsyncTip.peer_port := 3001;
           ChainsyncTip.handshake_version := VNum 14;
           ChainsyncTip.handshake_versionData :=
             VArr [VNum 764824073; VBool false; VNum 1; VBool false];
           ChainsyncTip.tipDecoded := VNum 7;
           ChainsyncTip.tipCborHex := toHex (Reference.cbor_encode (VNum 7));
           ChainsyncTip.discoveredPeers :=
             [ChainsyncTip.PeerAddr "1.2.3.10" (VNum 3001)] |}].
Proof.
  pose proof (tip_run_complete (RT := Reference.runtime)
                "relay" 3001 764824073 true
                (VNum 14)
                (VArr [VNum 764824073; VBool false; VNum 1; VBool false])
                (VNum 7)
                [VArr [VNum 0; VNum 16909066; VNum 3001]]
                0 0 0
                (Reference.cbor_encode accept_example)
                (Reference.cbor_encode (VArr [VNum 6; VNum 7]))
                (Reference.cbor_encode
                   (VArr [VNum 1;
                          VArr [VArr [VNum 0; VNum 16909066; VNum 3001]]])))
    as H.
  cbv zeta in H.
  repeat match type of H with
         | ?A -> _ =>
             assert (Ha : A)
               by first [ vm_compute; reflexivity
                        | vm_compute; discriminate
                        | vm_compute; split; first [discriminate | reflexivity]
                        | left; vm_compute; reflexivity ];
             specialize (H Ha); clear Ha
         end.
  destruct H as (Hw & Hok & _).
  destruct (Hok ltac:(vm_compute; reflexivity)) as (H1 & H2 & H3).
  cbv zeta. split; [exact H1 |]. split; [exact H2 |].
  split; [exact Hw | exact H3].
Defined.

(** * Further properties of the runs of [connectAndFetchTip] *)

Module FetchShape.

Import HeaderWord MuxFacts Chunks Written FetchRuns.
Import FetchTip.

Section Shape.

Context `{RT : Runtime}.
Variable Date_now : nat -> Z.
Variables (host : string) (port_arg : Z).

#[local] Set Warnings "-notation-for-abbreviation".
Local Notation onSegment := (FetchTip.onSegment Date_now).
Local Notation step := (FetchTip.step Date_now host port_arg).
Local Notation run := (FetchTip.run Date_now host port_arg).

(** [gotTip] and the promise: the flag is set exactly when [resolve]
    was called, which also ends the socket. *)
Definition sound (st : state) : Prop :=
  (forall r, settled st = Some (inr r) ->
             gotTip (cl st) = true /\ writable st = false)
  /\ (settled st = None -> gotTip (cl st) = false).

Lemma sound_same (st st' : state) :
  gotTip (cl st') = gotTip (cl st) -> settled st' = settled st ->
  writable st' = writable st -> sound st -> sound st'.
Proof.
  intros Hg Hs Hw [H1 H2]. unfold sound. rewrite Hg, Hs, Hw.
  split; assumption.
Qed.

Lemma sound_kill (e : error) (st : state) : sound st -> sound (kill e st).
Proof.
  intros [H1 H2]. unfold sound. cbn [kill settled cl writable].
  destruct (settled st) as [[e' | r'] |] eqn:Hs.
  - split; [intros r [=] | discriminate].
  - split; [| discriminate]. intros r [= <-].
    split; [apply (H1 r' eq_refl) | reflexivity].
  - split; [intros r [=] | discriminate].
Qed.

Lemma sound_write (mp : Z) (payloadBuf : Buffer) (st : state) :
  sound st ->
  match write_segment Date_now mp payloadBuf st with
  | inl (_, st') => sound st'
  | inr st' => sound st'
  end.
Proof.
  intros H. unfold write_segment.
  destruct (packSegment _ mp 0 payloadBuf) as [e | seg]; [exact H |].
  apply (sound_same st); try reflexivity. exact H.
Qed.

Lemma sound_onSegment (seg : segment) (st : state) :
  sound st ->
  match onSegment seg st with
  | inl (_, st') => sound st'
  | inr st' => sound st'
  end.
Proof.
  intros H. unfold FetchTip.onSegment.
  destruct (decode (payload seg)) as [e | msg]; [apply sound_kill; exact H |].
  destruct (miniProtocolId seg =? HANDSHAKE).
  - destruct (negb (isArray msg) || (length (elements msg) <? 1)%nat);
      [exact H |].
    destruct (is_num (item (elements msg) 0) 1).
    + set (st1 := with_client _ st).
      assert (H1 : sound st1) by (apply (sound_same st); try reflexivity; exact H).
      pose proof (sound_write PEERSHARE (encode (VArr [VNum 0; VNum 8])) st1 H1)
        as H2.
      destruct (write_segment Date_now PEERSHARE _ st1) as [[e st2] | st2];
        [exact H2 |].
      apply sound_write. exact H2.
    + destruct (is_num (item (elements msg) 0) 2); [| exact H].
      destruct (stringify msg); [exact H | apply sound_kill; exact H].
  - destruct (miniProtocolId seg =? PEERSHARE).
    + destruct (isArray msg && is_num (item (elements msg) 0) 1); [| exact H].
      destruct (parsePeerAddresses (item (elements msg) 1)); [exact H |].
      apply (sound_same st); try reflexivity. exact H.
    + destruct (miniProtocolId seg =? CHAINSYNC); [| exact H].
      destruct (isArray msg && _); [| exact H].
      destruct H as [H1 H2]. unfold sound.
      cbn [resolve with_client settled cl writable gotTip].
      split; [intros r _; split; reflexivity |].
      destruct (settled st); discriminate.
Qed.

Lemma sound_handle (st : state) (ev : event) :
  sound st ->
  match handle Date_now st ev with
  | inl (_, st') => sound st'
  | inr st' => sound st'
  end.
Proof.
  intros H. destruct ev; cbn [handle].
  - unfold on_connect. apply sound_write. exact H.
  - unfold push.
    pose proof (push_loop_keeps onSegment sound sound_onSegment
                  (mux_buf st ++ chunk) st H) as Hp.
    destruct (push_loop onSegment (mux_buf st ++ chunk) st)
      as [[e st'] | [b st']]; [exact Hp |].
    cbn [fst snd]. apply (sound_same st'); try reflexivity. exact Hp.
  - apply sound_kill. exact H.
  - destruct (negb (gotTip (cl st))); [apply sound_kill |]; exact H.
  - apply sound_kill. exact H.
Qed.

(** The report that the success handler prints for the resolution
    [res], read from the state at that moment *)
Definition report_of (res : resolution) (st : state) : report :=
  {| rep_host := host; rep_port := port_arg;
     rep_negotiatedVersion := res_negotiatedVersion res;
     rep_tip := res_tip res;
     rep_peersDiscovered := firstn 30 (peers (cl st));
     rep_peersDiscoveredCount := Z.of_nat (length (peers (cl st))) |}.

Definition ended (st : state) : Prop :=
  match exited st with
  | None =>
      settled st = None /\ gotTip (cl st) = false
      /\ stdout st = [] /\ stderr st = []
  | Some code =>
      (code = 0 /\ gotTip (cl st) = true /\ writable st = false
       /\ stderr st = []
       /\ exists res, settled st = Some (inr res)
                      /\ stdout st = [report_of res st])
      \/ (code = 1 /\ stdout st = [] /\ exists e, stderr st = [e])
  end.

Lemma ended_step (st : state) (ev : event) : ended st -> ended (step st ev).
Proof.
  intros H. unfold FetchTip.step.
  destruct (exited st) as [code |] eqn:Hex; [exact H |].
  unfold ended in H. rewrite Hex in H. destruct H as (Hs & Hg & Ho & He).
  assert (Hq : sound st).
  { split; [intros r Hr; rewrite Hs in Hr; discriminate Hr | intros _; exact Hg]. }
  pose proof (kept_handle Date_now st ev) as Hk.
  pose proof (sound_handle st ev Hq) as Hq'.
  destruct (handle Date_now st ev) as [[e st'] | st'].
  - unfold ended, crash. cbn [exited stdout stderr]. right.
    rewrite (kept_stdout _ _ Hk), (kept_stderr _ _ Hk), Ho, He.
    split; [reflexivity |]. split; [reflexivity |]. eexists. reflexivity.
  - unfold settle. rewrite (kept_exited _ _ Hk), Hex.
    destruct Hq' as [Hq1 Hq2].
    destruct (settled st') as [[e | r] |] eqn:Hs'.
    + unfold ended. cbn [failed exited stdout stderr]. right.
      rewrite (kept_stdout _ _ Hk), (kept_stderr _ _ Hk), Ho, He.
      split; [reflexivity |]. split; [reflexivity |]. eexists. reflexivity.
    + destruct (printable _).
      * unfold ended. cbn [exited stdout stderr cl writable settled]. left.
        destruct (Hq1 r eq_refl) as [Hg' Hw'].
        rewrite (kept_stdout _ _ Hk), (kept_stderr _ _ Hk), Ho, He.
        split; [reflexivity |]. split; [exact Hg' |]. split; [exact Hw' |].
        split; [reflexivity |]. exists r. split; reflexivity.
      * unfold ended. cbn [failed exited stdout stderr]. right.
        rewrite (kept_stdout _ _ Hk), (kept_stderr _ _ Hk), Ho, He.
        split; [reflexivity |]. split; [reflexivity |].
        eexists. reflexivity.
    + unfold ended. rewrite (kept_exited _ _ Hk), Hex.
      rewrite (kept_stdout _ _ Hk), (kept_stderr _ _ Hk).
      repeat split; try assumption. apply Hq2. reflexivity.
Qed.

(** How the handlers of the promise end a process that had printed
    nothing, once the promise is resolved: with the report [rep] and
    status 0 when [JSON.stringify] prints [rep], with its exception and
    status 1 when not. *)
Definition ends_on (rep : report) (st : state) : Prop :=
  (printable rep = true ->
   exited st = Some 0 /\ stdout st = [rep] /\ stderr st = [])
  /\ (printable rep = false ->
      exited st = Some 1 /\ stdout st = []
      /\ stderr st = [TypeError "Do not know how to serialize a BigInt"]).

Lemma settle_resolved (st : state) (r : resolution) :
  exited st = None -> settled st = Some (inr r) ->
  stdout st = [] -> stderr st = [] ->
  ends_on (report_of r st) (settle host port_arg st).
Proof.
  intros Hex Hs Ho He. unfold ends_on, settle. rewrite Hex, Hs.
  fold (report_of r st).
  destruct (printable (report_of r st)); cbn [failed exited stdout stderr];
    rewrite Ho, He; split; intros H; try discriminate H; repeat split.
Qed.

Lemma ends_on_exited (rep : report) (st : state) :
  ends_on rep st -> exists code, exited st = Some code.
Proof.
  intros [H1 H2]. destruct (printable rep).
  - exists 0. apply H1. reflexivity.
  - exists 1. apply H2. reflexivity.
Qed.

Lemma ended_run (evs : list event) : ended (run evs).
Proof.
  induction evs as [| ev evs IH] using rev_ind.
  - unfold ended. cbn. repeat split; reflexivity.
  - rewrite fetch_run_snoc. apply ended_step. exact IH.
Qed.

(** A chunk that holds exactly two segments *)
Lemma push_two {S : Type} (on : segment -> S -> raised S S) (s : S)
    (t1 m1 mp1 t2 m2 mp2 : Z) (p1 p2 : Buffer) :
  0 <= t1 < 2 ^ 32 -> 0 <= m1 <= 1 -> 0 <= mp1 <= 32767 ->
  blen p1 <= 65535 ->
  0 <= t2 < 2 ^ 32 -> 0 <= m2 <= 1 -> 0 <= mp2 <= 32767 ->
  blen p2 <= 65535 ->
  push_loop on (sdu t1 m1 mp1 p1 ++ sdu t2 m2 mp2 p2) s
  = match on {| t := t1; modeBit := m1; miniProtocolId := mp1;
                payload := p1 |} s with
    | inl e => inl e
    | inr s1 =>
        match on {| t := t2; modeBit := m2; miniProtocolId := mp2;
                    payload := p2 |} s1 with
        | inl e => inl e
        | inr s2 => inr ([], s2)
        end
    end.
Proof.
  intros Ht1 Hm1 Hmp1 Hp1 Ht2 Hm2 Hmp2 Hp2.
  rewrite (push_loop_app on (sdu t1 m1 mp1 p1) (sdu t2 m2 mp2 p2) s).
  unfold sdu.
  rewrite (framed_push t1 m1 mp1 p1 Ht1 Hm1 Hmp1 Hp1 _ eq_refl on s).
  destruct (on _ s) as [e | s1]; [reflexivity |].
  cbn [fst snd app].
  apply (framed_push t2 m2 mp2 p2 Ht2 Hm2 Hmp2 Hp2 _ eq_refl on s1).
Qed.

Lemma push_one {S : Type} (on : segment -> S -> raised S S) (s : S)
    (t1 m1 mp1 : Z) (p1 : Buffer) :
  0 <= t1 < 2 ^ 32 -> 0 <= m1 <= 1 -> 0 <= mp1 <= 32767 ->
  blen p1 <= 65535 ->
  push_loop on (sdu t1 m1 mp1 p1) s
  = match on {| t := t1; modeBit := m1; miniProtocolId := mp1;
                payload := p1 |} s with
    | inl e => inl e
    | inr s1 => inr ([], s1)
    end.
Proof.
  intros Ht1 Hm1 Hmp1 Hp1.
  apply (framed_push t1 m1 mp1 p1 Ht1 Hm1 Hmp1 Hp1 _ eq_refl on s).
Qed.

(** What the callback does with a tip and with shared peers *)
Lemma onSegment_tip (seg : segment) (st : state) (tip : value) :
  miniProtocolId seg = CHAINSYNC ->
  decode (payload seg) = inr (VArr [VNum 5; tip]) ->
  onSegment seg st
  = inr (resolve {| res_negotiatedVersion := negotiatedVersion (cl st);
                    res_tip := prettyTip tip; res_tipRaw := tip |}
           (with_client {| handshakeDone := handshakeDone (cl st);
                           negotiatedVersion := negotiatedVersion (cl st);
                           peers := peers (cl st); gotTip := true |} st)).
Proof.
  intros Hmp Hd. unfold FetchTip.onSegment. rewrite Hd, Hmp. reflexivity.
Qed.

Lemma onSegment_peers (seg : segment) (st : state) (addrs : value)
    (found : list peer) :
  miniProtocolId seg = PEERSHARE ->
  decode (payload seg) = inr (VArr [VNum 1; addrs]) ->
  parsePeerAddresses addrs = inr found ->
  onSegment seg st
  = inr (with_client {| handshakeDone := handshakeDone (cl st);
                        negotiatedVersion := negotiatedVersion (cl st);
                        peers := peers (cl st) ++ found;
                        gotTip := gotTip (cl st) |} st).
Proof.
  intros Hmp Hd Hf. unfold FetchTip.onSegment. rewrite Hd, Hmp.
  cbn [Z.eqb HANDSHAKE PEERSHARE isArray elements item nth is_num andb].
  rewrite Hf. reflexivity.
Qed.

End Shape.

End FetchShape.

(** X10.  The exit status of [connectAndFetchTip] tells what was
    printed.  While the process runs, the promise is pending, [gotTip]
    is false and nothing is printed.  It ends with status 0 or 1 only:
    with 0 the promise was resolved, [gotTip] is set, the socket was
    ended, no error is printed and exactly one report is, which lists
    the first 30 of the peers collected and counts them all; with 1
    exactly one error is printed and no report. *)
Theorem fetch_exit_status `{RT : Runtime} (Date_now : nat -> Z)
    (host : string) (port_arg : Z) (evs : list FetchTip.event) :
  let st := FetchTip.run Date_now host port_arg evs in
  match FetchTip.exited st with
  | None =>
      FetchTip.settled st = None
      /\ FetchTip.gotTip (FetchTip.cl st) = false
      /\ FetchTip.stdout st = [] /\ FetchTip.stderr st = []
  | Some code =>
      (code = 0
       /\ FetchTip.gotTip (FetchTip.cl st) = true
       /\ FetchTip.writable st = false
       /\ FetchTip.stderr st = []
       /\ exists res,
            FetchTip.settled st = Some (inr res)
            /\ FetchTip.stdout st
               = [{| FetchTip.rep_host := host;
                     FetchTip.rep_port := port_arg;
                     FetchTip.rep_negotiatedVersion :=
                       FetchTip.res_negotiatedVersion res;
                     FetchTip.rep_tip := FetchTip.res_tip res;
                     FetchTip.rep_peersDiscovered :=
                       firstn 30 (FetchTip.peers (FetchTip.cl st));
                     FetchTip.rep_peersDiscoveredCount :=
                       Z.of_nat (length (FetchTip.peers (FetchTip.cl st)))
                  |}])
      \/ (code = 1 /\ FetchTip.stdout st = []
          /\ exists e, FetchTip.stderr st = [e])
  end.
Proof.
  intros st. exact (FetchShape.ended_run Date_now host port_arg evs).
Qed.

(** X11.  Peers that arrive behind the tip in the same chunk are still
    reported.  The promise is resolved with the array [state.peers]
    itself and its handler runs only after [push] has returned: when a
    chunk holds the ChainSync reply and then a [MsgSharePeers], the
    peers parsed from the latter are in the report of the handler and in
    its count.  Sent in a chunk of their own after the reply, they are
    not: the process has exited before.  In both cases the process ends
    with status 0, that report alone and no error when [JSON.stringify]
    prints the report, and with status 1, no report and the exception of
    [JSON.stringify] when the negotiated version or the tip holds a
    BigInt.  The mode bit of the segments plays no part. *)
Theorem fetch_peers_behind_tip `{RT : Runtime} (Date_now : nat -> Z)
    (host : string) (port_arg : Z) (evs : list FetchTip.event)
    (tip addrs : value) (found : list FetchTip.peer)
    (t1 m1 t2 m2 : Z) (p1 p2 : Buffer) :
  let run := FetchTip.run Date_now host port_arg in
  let st := run evs in
  let reply := sdu t1 m1 FetchTip.CHAINSYNC p1 in
  let shared := sdu t2 m2 FetchTip.PEERSHARE p2 in
  let report_with := fun collected =>
    {| FetchTip.rep_host := host; FetchTip.rep_port := port_arg;
       FetchTip.rep_negotiatedVersion :=
         FetchTip.negotiatedVersion (FetchTip.cl st);
       FetchTip.rep_tip := FetchTip.prettyTip tip;
       FetchTip.rep_peersDiscovered := firstn 30 collected;
       FetchTip.rep_peersDiscoveredCount := Z.of_nat (length collected) |} in
  let ends_on := fun (rep : FetchTip.report) (st' : FetchTip.state) =>
    (FetchTip.printable rep = true ->
     FetchTip.exited st' = Some 0 /\ FetchTip.stdout st' = [rep]
     /\ FetchTip.stderr st' = [])
    /\ (FetchTip.printable rep = false ->
        FetchTip.exited st' = Some 1 /\ FetchTip.stdout st' = []
        /\ FetchTip.stderr st'
           = [TypeError "Do not know how to serialize a BigInt"]) in
  FetchTip.exited st = None -> FetchTip.mux_buf st = [] ->
  0 <= t1 < 2 ^ 32 -> 0 <= m1 <= 1 -> blen p1 <= 65535 ->
  0 <= t2 < 2 ^ 32 -> 0 <= m2 <= 1 -> blen p2 <= 65535 ->
  decode p1 = inr (VArr [VNum 5; tip]) ->
  decode p2 = inr (VArr [VNum 1; addrs]) ->
  FetchTip.parsePeerAddresses addrs = inr found ->
  ends_on (report_with (FetchTip.peers (FetchTip.cl st) ++ found))
    (run (evs ++ [FetchTip.SocketData (reply ++ shared)]))
  /\
  ends_on (report_with (FetchTip.peers (FetchTip.cl st)))
    (run (evs ++ [FetchTip.SocketData reply; FetchTip.SocketData shared])).
Proof.
  intros run st reply shared report_with ends_on Hex Hbuf Ht1 Hm1 Hp1
    Ht2 Hm2 Hp2 Hd1 Hd2 Hf.
  pose proof (FetchShape.ended_run Date_now host port_arg evs) as He.
  unfold FetchShape.ended in He. fold run in He. fold st in He.
  rewrite Hex in He. destruct He as (Hs & Hg & Ho & Herr).
  assert (Hcs : 0 <= FetchTip.CHAINSYNC <= 32767)
    by (unfold FetchTip.CHAINSYNC; lia).
  assert (Hps : 0 <= FetchTip.PEERSHARE <= 32767)
    by (unfold FetchTip.PEERSHARE; lia).
  split.
  - unfold run. rewrite FetchRuns.fetch_run_snoc. fold run. fold st.
    unfold FetchTip.step. rewrite Hex. cbn [FetchTip.handle].
    unfold FetchTip.push. rewrite Hbuf. cbn [app].
    unfold reply, shared.
    rewrite (FetchShape.push_two (FetchTip.onSegment Date_now) st
               t1 m1 _ t2 m2 _ p1 p2 Ht1 Hm1 Hcs Hp1 Ht2 Hm2 Hps Hp2).
    rewrite (FetchShape.onSegment_tip Date_now
               {| FetchTip.t := t1; FetchTip.modeBit := m1;
                  FetchTip.miniProtocolId := FetchTip.CHAINSYNC;
                  FetchTip.payload := p1 |}
               st tip eq_refl Hd1).
    rewrite (FetchShape.onSegment_peers Date_now
               {| FetchTip.t := t2; FetchTip.modeBit := m2;
                  FetchTip.miniProtocolId := FetchTip.PEERSHARE;
                  FetchTip.payload := p2 |}
               _ addrs found eq_refl Hd2 Hf).
    cbn [fst snd].
    refine (FetchShape.settle_resolved host port_arg _
              {| FetchTip.res_negotiatedVersion :=
                   FetchTip.negotiatedVersion (FetchTip.cl st);
                 FetchTip.res_tip := FetchTip.prettyTip tip;
                 FetchTip.res_tipRaw := tip |} _ _ _ _).
    + exact Hex.
    + cbn [FetchTip.with_buf FetchTip.with_client FetchTip.resolve
           FetchTip.settled]. rewrite Hs. reflexivity.
    + exact Ho.
    + exact Herr.
  - unfold run.
    change (evs ++ [FetchTip.SocketData reply; FetchTip.SocketData shared])
      with (evs ++ [FetchTip.SocketData reply] ++ [FetchTip.SocketData shared]).
    rewrite app_assoc, FetchRuns.fetch_run_snoc.
    rewrite FetchRuns.fetch_run_snoc. fold run. fold st.
    assert (H1 : FetchTip.step Date_now host port_arg st
                   (FetchTip.SocketData reply)
                 = FetchTip.settle host port_arg
                     (FetchTip.with_buf []
                        (FetchTip.resolve
                           {| FetchTip.res_negotiatedVersion :=
                                FetchTip.negotiatedVersion (FetchTip.cl st);
                              FetchTip.res_tip := FetchTip.prettyTip tip;
                              FetchTip.res_tipRaw := tip |}
                           (FetchTip.with_client
                              {| FetchTip.handshakeDone :=
                                   FetchTip.handshakeDone (FetchTip.cl st);
                                 FetchTip.negotiatedVersion :=
                                   FetchTip.negotiatedVersion (FetchTip.cl st);
                                 FetchTip.peers := FetchTip.peers (FetchTip.cl st);
                                 FetchTip.gotTip := true |} st)))).
    { unfold FetchTip.step. rewrite Hex. cbn [FetchTip.handle].
      unfold FetchTip.push. rewrite Hbuf. cbn [app]. unfold reply.
      rewrite (FetchShape.push_one (FetchTip.onSegment Date_now) st
                 t1 m1 _ p1 Ht1 Hm1 Hcs Hp1).
      rewrite (FetchShape.onSegment_tip Date_now
               {| FetchTip.t := t1; FetchTip.modeBit := m1;
                  FetchTip.miniProtocolId := FetchTip.CHAINSYNC;
                  FetchTip.payload := p1 |}
               st tip eq_refl Hd1).
      reflexivity. }
    rewrite H1. clear H1.
    set (s1 := FetchTip.settle host port_arg _).
    assert (H2 : ends_on (report_with (FetchTip.peers (FetchTip.cl st))) s1).
    { unfold s1.
      match goal with
      | |- _ _ (FetchTip.settle _ _ ?s) =>
          refine (FetchShape.settle_resolved host port_arg s
                    {| FetchTip.res_negotiatedVersion :=
                         FetchTip.negotiatedVersion (FetchTip.cl st);
                       FetchTip.res_tip := FetchTip.prettyTip tip;
                       FetchTip.res_tipRaw := tip |} _ _ _ _)
      end.
      - exact Hex.
      - cbn [FetchTip.with_buf FetchTip.with_client FetchTip.resolve
             FetchTip.settled]. rewrite Hs. reflexivity.
      - exact Ho.
      - exact Herr. }
    destruct (FetchShape.ends_on_exited _ _ H2) as [code Hc].
    assert (H3 : FetchTip.step Date_now host port_arg s1
                   (FetchTip.SocketData shared) = s1)
      by (unfold FetchTip.step; rewrite Hc; reflexivity).
    rewrite H3. exact H2.
Qed.

Lemma fetch_peers_behind_tip_witness :
  let run := FetchTip.run (RT := Reference.runtime) (fun _ => 0)
               "relay" 3001 in
  let evs := [FetchTip.SocketConnect;
              FetchTip.SocketData
                (sdu 0 1 0 (Reference.cbor_encode accept_example))] in
  let reply :=
    sdu 0 1 FetchTip.CHAINSYNC
      (Reference.cbor_encode (VArr [VNum 5; VNum 7])) in
  let shared :=
    sdu 0 1 FetchTip.PEERSHARE
      (Reference.cbor_encode
         (VArr [VNum 1; VArr [VArr [VNum 0; VNum 16909066; VNum 3001]]])) in
  map FetchTip.rep_peersDiscoveredCount
    (FetchTip.stdout (run (evs ++ [FetchTip.SocketData (reply ++ shared)])))
  = [1]
  /\ map FetchTip.rep_peersDiscoveredCount
       (FetchTip.stdout
          (run (evs ++ [FetchTip.SocketData reply;
                        FetchTip.SocketData shared])))
     = [0].
Proof.
  intros run evs reply shared.
  pose proof (fetch_peers_behind_tip (RT := Reference.runtime) (fun _ => 0)
                "relay" 3001 evs (VNum 7)
                (VArr [VArr [VNum 0; VNum 16909066; VNum 3001]])
                [{| FetchTip.ip := "1.2.3.10"; FetchTip.port := 3001 |}]
                0 1 0 1
                (Reference.cbor_encode (VArr [VNum 5; VNum 7]))
                (Reference.cbor_encode
                   (VArr [VNum 1;
                          VArr [VArr [VNum 0; VNum 16909066; VNum 3001]]])))
    as H.
  cbv zeta in H.
  repeat match type of H with
         | ?A -> _ =>
             let a := fresh in
             assert (a : A)
               by first [ vm_compute; reflexivity | vm_compute; discriminate
                        | vm_compute; split;
                          first [discriminate | reflexivity] ];
             specialize (H a); clear a
         end.
  destruct H as [[H1 _] [H2 _]].
  destruct (H1 ltac:(vm_compute; reflexivity)) as (_ & H1' & _).
  destruct (H2 ltac:(vm_compute; reflexivity)) as (_ & H2' & _).
  unfold run, reply, shared. rewrite H1', H2'.
  split; vm_compute; reflexivity.
Defined.

Module FetchScenario.

Import HeaderWord MuxFacts Chunks Written FetchRuns FetchShape.
Import FetchTip.

Section Scenario.

Context `{RT : Runtime}.
Variable Date_now : nat -> Z.
Variables (host : string) (port_arg : Z).

#[local] Set Warnings "-notation-for-abbreviation".
Local Notation onSegment := (FetchTip.onSegment Date_now).
Local Notation step := (FetchTip.step Date_now host port_arg).
Local Notation run := (FetchTip.run Date_now host port_arg).

(** The segment that [packSegment] makes at the [n]-th reading of the
    clock *)
Definition sent_at (n : nat) (mp : Z) (msg : value) : Buffer :=
  sdu (now32 (Date_now n)) 0 mp (encode msg).

Lemma write_segment_ok (mp : Z) (msg : value) (st : state) :
  blen (encode msg) <= 65535 ->
  write_segment Date_now mp (encode msg) st
  = inr {| cl := cl st; mux_buf := mux_buf st; writable := writable st;
           written := if writable st
                      then written st ++ [sent_at (ticks st) mp msg]
                      else written st;
           settled := settled st; ticks := S (ticks st);
           stdout := stdout st; stderr := stderr st; exited := exited st |}.
Proof.
  intros H. unfold write_segment. rewrite packSegment_ok by exact H.
  reflexivity.
Qed.

Hypothesis Hpropose : blen (encode propose) <= 65535.
Hypothesis Hshare : blen (encode (VArr [VNum 0; VNum 8])) <= 65535.
Hypothesis Hfind : blen (encode (VArr [VNum 4; VArr []])) <= 65535.

Definition connected : state :=
  {| cl := cl initial; mux_buf := []; writable := true;
     written := [sent_at 0 HANDSHAKE propose];
     settled := None; ticks := 1; stdout := []; stderr := [];
     exited := None |}.

Lemma fetch_run_connect : run [SocketConnect] = connected.
Proof.
  unfold FetchTip.run. cbn [fold_left]. unfold FetchTip.step.
  cbn [initial exited handle]. unfold on_connect.
  rewrite write_segment_ok by exact Hpropose. reflexivity.
Qed.

Variables (v : value) (rest : list value) (t1 m1 : Z) (p1 : Buffer).
Hypothesis Ht1 : 0 <= t1 < 2 ^ 32.
Hypothesis Hm1 : 0 <= m1 <= 1.
Hypothesis Hp1 : blen p1 <= 65535.
Hypothesis Hd1 : decode p1 = inr (VArr (VNum 1 :: v :: rest)).

Definition accepted : state :=
  {| cl := {| handshakeDone := true; negotiatedVersion := v; peers := [];
              gotTip := false |};
     mux_buf := []; writable := true;
     written := [sent_at 0 HANDSHAKE propose;
                 sent_at 1 PEERSHARE (VArr [VNum 0; VNum 8]);
                 sent_at 2 CHAINSYNC (VArr [VNum 4; VArr []])];
     settled := None; ticks := 3; stdout := []; stderr := [];
     exited := None |}.

Lemma fetch_step_accept :
  step connected (SocketData (sdu t1 m1 HANDSHAKE p1)) = accepted.
Proof.
  unfold FetchTip.step. cbn [connected exited handle mux_buf].
  unfold push. cbn [app].
  rewrite (push_one onSegment connected t1 m1 HANDSHAKE p1 Ht1 Hm1
             ltac:(unfold HANDSHAKE; lia) Hp1).
  unfold FetchTip.onSegment. cbn [payload miniProtocolId]. rewrite Hd1.
  cbn [Z.eqb HANDSHAKE isArray negb elements length Nat.ltb Nat.leb orb item
       nth is_num].
  rewrite write_segment_ok by exact Hshare.
  rewrite write_segment_ok by exact Hfind.
  reflexivity.
Qed.

Variables (tip : value) (t2 m2 : Z) (p2 : Buffer).
Hypothesis Ht2 : 0 <= t2 < 2 ^ 32.
Hypothesis Hm2 : 0 <= m2 <= 1.
Hypothesis Hp2 : blen p2 <= 65535.
Hypothesis Hd2 :
  decode p2 = inr (VArr [VNum 5; tip])
  \/ exists point, decode p2 = inr (VArr [VNum 6; point; tip]).

(** The state in which the promise is resolved, and the one its
    handlers leave *)
Definition resolved : state :=
  {| cl := {| handshakeDone := true; negotiatedVersion := v; peers := [];
              gotTip := true |};
     mux_buf := []; writable := false;
     written := [sent_at 0 HANDSHAKE propose;
                 sent_at 1 PEERSHARE (VArr [VNum 0; VNum 8]);
                 sent_at 2 CHAINSYNC (VArr [VNum 4; VArr []])];
     settled := Some (inr {| res_negotiatedVersion := v;
                             res_tip := prettyTip tip;
                             res_tipRaw := tip |});
     ticks := 3; stdout := []; stderr := []; exited := None |}.

Definition reported : state := settle host port_arg resolved.

Lemma fetch_reported_written :
  written reported
  = [sent_at 0 HANDSHAKE propose;
     sent_at 1 PEERSHARE (VArr [VNum 0; VNum 8]);
     sent_at 2 CHAINSYNC (VArr [VNum 4; VArr []])].
Proof.
  unfold reported, settle. cbn [resolved exited settled].
  destruct (printable _); reflexivity.
Qed.

Lemma reported_ends :
  ends_on {| rep_host := host; rep_port := port_arg;
             rep_negotiatedVersion := v; rep_tip := prettyTip tip;
             rep_peersDiscovered := [];
             rep_peersDiscoveredCount := 0 |} reported.
Proof.
  exact (settle_resolved host port_arg resolved _ eq_refl eq_refl eq_refl
           eq_refl).
Qed.

Lemma fetch_step_tip :
  step accepted (SocketData (sdu t2 m2 CHAINSYNC p2)) = reported.
Proof.
  unfold FetchTip.step. cbn [accepted exited handle mux_buf].
  unfold push. cbn [app].
  rewrite (push_one onSegment accepted t2 m2 CHAINSYNC p2 Ht2 Hm2
             ltac:(unfold CHAINSYNC; lia) Hp2).
  unfold FetchTip.onSegment. cbn [payload miniProtocolId].
  destruct Hd2 as [H | [point H]]; rewrite H; reflexivity.
Qed.

Lemma fetch_run_to_report :
  run [SocketConnect; SocketData (sdu t1 m1 HANDSHAKE p1);
       SocketData (sdu t2 m2 CHAINSYNC p2)] = reported.
Proof.
  change (run [SocketConnect; SocketData (sdu t1 m1 HANDSHAKE p1);
               SocketData (sdu t2 m2 CHAINSYNC p2)])
    with (step (step (run [SocketConnect])
                  (SocketData (sdu t1 m1 HANDSHAKE p1)))
            (SocketData (sdu t2 m2 CHAINSYNC p2))).
  rewrite fetch_run_connect, fetch_step_accept. apply fetch_step_tip.
Qed.

End Scenario.

End FetchScenario.

(** X12.  A complete exchange of [connectAndFetchTip].  When the peer
    answers the proposal with an accept [[1, v, ...]] and the
    [FindIntersect] with [[5, tip]] or [[6, point, tip]], each answer
    in a segment of its own chunk, whatever its mode bit, the process
    has written three segments: the proposal and then, on the accept,
    the PeerSharing request [[0, 8]] before the [FindIntersect]
    [[4, []]], each stamped with a fresh reading of the clock.  It ends
    on the report that carries [v] and the tip as [prettyTip] shows it,
    and no peer: with status 0, that report alone and no error when
    [JSON.stringify] prints it; with status 1, no report and the
    exception of [JSON.stringify] when [v] or the tip holds a BigInt. *)
Theorem fetch_run_complete `{RT : Runtime} (Date_now : nat -> Z)
    (host : string) (port_arg : Z) (v tip : value) (rest : list value)
    (t1 m1 t2 m2 : Z) (p1 p2 : Buffer) :
  blen (encode FetchTip.propose) <= 65535 ->
  blen (encode (VArr [VNum 0; VNum 8])) <= 65535 ->
  blen (encode (VArr [VNum 4; VArr []])) <= 65535 ->
  0 <= t1 < 2 ^ 32 -> 0 <= m1 <= 1 -> blen p1 <= 65535 ->
  decode p1 = inr (VArr (VNum 1 :: v :: rest)) ->
  0 <= t2 < 2 ^ 32 -> 0 <= m2 <= 1 -> blen p2 <= 65535 ->
  (decode p2 = inr (VArr [VNum 5; tip])
   \/ exists point, decode p2 = inr (VArr [VNum 6; point; tip])) ->
  let st :=
    FetchTip.run Date_now host port_arg
      [FetchTip.SocketConnect;
       FetchTip.SocketData (sdu t1 m1 FetchTip.HANDSHAKE p1);
       FetchTip.SocketData (sdu t2 m2 FetchTip.CHAINSYNC p2)] in
  let rep :=
    {| FetchTip.rep_host := host; FetchTip.rep_port := port_arg;
       FetchTip.rep_negotiatedVersion := v;
       FetchTip.rep_tip := FetchTip.prettyTip tip;
       FetchTip.rep_peersDiscovered := [];
       FetchTip.rep_peersDiscoveredCount := 0 |} in
  FetchTip.written st
  = [sdu (FetchTip.now32 (Date_now 0%nat)) 0 FetchTip.HANDSHAKE
       (encode FetchTip.propose);
     sdu (FetchTip.now32 (Date_now 1%nat)) 0 FetchTip.PEERSHARE
       (encode (VArr [VNum 0; VNum 8]));
     sdu (FetchTip.now32 (Date_now 2%nat)) 0 FetchTip.CHAINSYNC
       (encode (VArr [VNum 4; VArr []]))]
  /\ (FetchTip.printable rep = true ->
      FetchTip.exited st = Some 0 /\ FetchTip.stdout st = [rep]
      /\ FetchTip.stderr st = [])
  /\ (FetchTip.printable rep = false ->
      FetchTip.exited st = Some 1 /\ FetchTip.stdout st = []
      /\ FetchTip.stderr st
         = [TypeError "Do not know how to serialize a BigInt"]).
Proof.
  intros Hpropose Hshare Hfind Ht1 Hm1 Hp1 Hd1 Ht2 Hm2 Hp2 Hd2 st rep.
  subst st rep.
  rewrite (FetchScenario.fetch_run_to_report Date_now host port_arg
             Hpropose Hshare Hfind v rest t1 m1 p1 Ht1 Hm1 Hp1 Hd1
             tip t2 m2 p2 Ht2 Hm2 Hp2 Hd2).
  split.
  - apply FetchScenario.fetch_reported_written.
  - exact (FetchScenario.reported_ends Date_now host port_arg v tip).
Qed.

Lemma fetch_run_complete_witness :
  let st :=
    FetchTip.run (RT := Reference.runtime) (fun n => Z.of_nat n)
      "relay" 3001
      [FetchTip.SocketConnect;
       FetchTip.SocketData
         (sdu 0 1 FetchTip.HANDSHAKE (Reference.cbor_encode accept_example));
       FetchTip.SocketData
         (sdu 0 1 FetchTip.CHAINSYNC
            (Reference.cbor_encode (VArr [VNum 5; VNum 7])))] in
  FetchTip.exited st = Some 0
  /\ FetchTip.stderr st = []
  /\ FetchTip.written st
     = [sdu 0 0 FetchTip.HANDSHAKE (Reference.cbor_encode FetchTip.propose);
        sdu 1 0 FetchTip.PEERSHARE
          (Reference.cbor_encode (VArr [VNum 0; VNum 8]));
        sdu 2 0 FetchTip.CHAINSYNC
          (Reference.cbor_encode (VArr [VNum 4; VArr []]))]
  /\ FetchTip.stdout st
     = [{| FetchTip.rep_host := "relay"; FetchTip.rep_port := 3001;
           FetchTip.rep_negotiatedVersion := VNum 14;
           FetchTip.rep_tip := FetchTip.RawTip (VNum 7);
           FetchTip.rep_peersDiscovered := [];
           FetchTip.rep_peersDiscoveredCount := 0 |}].
Proof.
  pose proof (fetch_run_complete (RT := Reference.runtime)
                (fun n => Z.of_nat n)
                "relay" 3001 (VNum 14) (VNum 7)
                [VArr [VNum 764824073; VBool false; VNum 1; VBool false]]
                0 1 0 1
                (Reference.cbor_encode accept_example)
                (Reference.cbor_encode (VArr [VNum 5; VNum 7]))) as H.
  cbv zeta in H.
  repeat match type of H with
         | ?A -> _ =>
             assert (Ha : A)
               by first [ vm_compute; reflexivity
                        | vm_compute; discriminate
                        | vm_compute; split; first [discriminate | reflexivity]
                        | left; vm_compute; reflexivity ];
             specialize (H Ha); clear Ha
         end.
  destruct H as (Hw & Hok & _).
  destruct (Hok ltac:(vm_compute; reflexivity)) as (H1 & H2 & H3).
  cbv zeta. split; [exact H1 |]. split; [exact H3 |].
  split; [exact Hw | exact H2].
Defined.

(** X13.  How a run of [connectAndFetchTip] fails.  While the process
    runs, the timer, an error of the socket and the end of the stream
    each end it with status 1, having printed one error (the timeout
    message, the socket's error, or "Socket ended before receiving
    tip.") and no report, and having written nothing more; so does a
    chunk that holds one segment whose payload the decoder rejects, with
    a message that names the mini-protocol number of the segment. *)
Theorem fetch_failures `{RT : Runtime} (Date_now : nat -> Z)
    (host : string) (port_arg : Z) (evs : list FetchTip.event) :
  let run := FetchTip.run Date_now host port_arg in
  FetchTip.exited (run evs) = None ->
  (forall ev err,
      (ev = FetchTip.TimerFired
       /\ err = Error "Timeout waiting for handshake/tip (peer may not like our handshake or mux framing).")
      \/ (ev = FetchTip.SocketEnd
          /\ err = Error "Socket ended before receiving tip.")
      \/ ev = FetchTip.SocketError err ->
      FetchTip.exited (run (evs ++ [ev])) = Some 1
      /\ FetchTip.stderr (run (evs ++ [ev])) = [err]
      /\ FetchTip.stdout (run (evs ++ [ev])) = []
      /\ FetchTip.written (run (evs ++ [ev])) = FetchTip.written (run evs))
  /\
  (forall (t m mp : Z) (p : Buffer) (e : error),
      FetchTip.mux_buf (run evs) = [] ->
      0 <= t < 2 ^ 32 -> 0 <= m <= 1 -> 0 <= mp <= 32767 ->
      blen p <= 65535 -> decode p = inl e ->
      let st' := run (evs ++ [FetchTip.SocketData (sdu t m mp p)]) in
      FetchTip.exited st' = Some 1
      /\ FetchTip.stderr st'
         = [Error ("CBOR decode failed on miniProtocol " ++ decimal mp ++ ": "
                   ++ match e with
                      | Error msg | RangeError msg | TypeError msg => msg
                      end)]
      /\ FetchTip.stdout st' = []
      /\ FetchTip.written st' = FetchTip.written (run evs)).
Proof.
  intros run Hex.
  pose proof (FetchShape.ended_run Date_now host port_arg evs) as He.
  unfold FetchShape.ended in He. fold run in He.
  rewrite Hex in He. destruct He as (Hs & Hg & Ho & Herr).
  assert (Hkill : forall err,
             FetchTip.settle host port_arg (FetchTip.kill err (run evs))
             = {| FetchTip.cl := FetchTip.cl (run evs);
                  FetchTip.mux_buf := FetchTip.mux_buf (run evs);
                  FetchTip.writable := false;
                  FetchTip.written := FetchTip.written (run evs);
                  FetchTip.settled := Some (inl err);
                  FetchTip.ticks := FetchTip.ticks (run evs);
                  FetchTip.stdout := [];
                  FetchTip.stderr := [err];
                  FetchTip.exited := Some 1 |}).
  { intros err. unfold FetchTip.settle, FetchTip.kill.
    cbn [FetchTip.exited FetchTip.settled FetchTip.cl FetchTip.mux_buf
         FetchTip.writable FetchTip.written FetchTip.ticks FetchTip.stdout
         FetchTip.stderr].
    rewrite Hex, Hs, Ho, Herr. reflexivity. }
  split.
  - intros ev err Hev. unfold run. rewrite FetchRuns.fetch_run_snoc.
    fold run. unfold FetchTip.step. rewrite Hex.
    destruct Hev as [[-> ->] | [[-> ->] | ->]]; cbn [FetchTip.handle];
      try rewrite Hg; cbn [negb]; rewrite Hkill; repeat split.
  - intros t m mp p e Hbuf Ht Hm Hmp Hp Hd st'. subst st'.
    unfold run. rewrite FetchRuns.fetch_run_snoc. fold run.
    unfold FetchTip.step. rewrite Hex. cbn [FetchTip.handle].
    unfold FetchTip.push. rewrite Hbuf. cbn [app].
    rewrite (FetchShape.push_one (FetchTip.onSegment Date_now) (run evs)
               t m mp p Ht Hm Hmp Hp).
    unfold FetchTip.onSegment. cbn [FetchTip.payload FetchTip.miniProtocolId].
    rewrite Hd. cbn [fst snd].
    unfold FetchTip.settle, FetchTip.kill, FetchTip.with_buf.
    cbn [FetchTip.exited FetchTip.settled FetchTip.cl FetchTip.mux_buf
         FetchTip.writable FetchTip.written FetchTip.ticks FetchTip.stdout
         FetchTip.stderr].
    rewrite Hex, Hs, Ho, Herr. repeat split.
Qed.

Lemma fetch_failures_witness :
  let run := FetchTip.run (RT := Reference.runtime) (fun _ => 0)
               "relay" 3001 in
  FetchTip.exited (run [FetchTip.SocketConnect; FetchTip.SocketEnd]) = Some 1
  /\ FetchTip.stderr (run [FetchTip.SocketConnect; FetchTip.SocketEnd])
     = [Error "Socket ended before receiving tip."]
  /\ FetchTip.stdout (run [FetchTip.SocketConnect; FetchTip.SocketEnd]) = []
  /\ FetchTip.written (run [FetchTip.SocketConnect; FetchTip.SocketEnd])
     = FetchTip.written (run [FetchTip.SocketConnect]).
Proof.
  refine (proj1 (fetch_failures (RT := Reference.runtime) (fun _ => 0)
                   "relay" 3001 [FetchTip.SocketConnect] _)
            FetchTip.SocketEnd (Error "Socket ended before receiving tip.")
            (or_intror (or_introl (conj eq_refl eq_refl)))).
  vm_compute. reflexivity.
Defined.

(** * Further properties of the lab script *)

Module LabFrames.

Import HeaderWord MuxFacts Chunks Written LabChunks LabRuns.

(** [x & 0xFFFFFFFF] is the signed 32-bit reading of [x]. *)
Lemma and_all_ones (x : Z) : JS.and x 0xFFFFFFFF = JS.ToInt32 x.
Proof.
  unfold JS.and. change (JS.ToInt32 4294967295) with (-1).
  apply Z.land_m1_r.
Qed.

Lemma ToInt32_low (x : Z) :
  x mod 2 ^ 32 < 2 ^ 31 -> JS.ToInt32 x = x mod 2 ^ 32.
Proof.
  intros H. unfold JS.ToInt32. cbv zeta.
  destruct (Z.ltb_spec (x mod 2 ^ 32) (2 ^ 31)); [reflexivity | lia].
Qed.

Lemma ToInt32_high (x : Z) :
  2 ^ 31 <= x mod 2 ^ 32 -> JS.ToInt32 x = x mod 2 ^ 32 - 2 ^ 32.
Proof.
  intros H. unfold JS.ToInt32. cbv zeta.
  destruct (Z.ltb_spec (x mod 2 ^ 32) (2 ^ 31)); [lia | reflexivity].
Qed.

(** Below [2^53] the product of two integers is exact. *)
Lemma times_exact (a b : Z) :
  Z.abs (a * b) < 2 ^ 53 -> JS.times a b = a * b.
Proof.
  intros H. unfold JS.times, JS.to_double. cbv zeta.
  destruct (Z.ltb_spec (Z.abs (a * b)) (2 ^ 53)); [reflexivity | lia].
Qed.

(** Beyond, it is rounded: the clock [72057594037929] gives the product
    [2^56 + 1064], which no double holds; the stamp is that of the
    nearest one, [2^56 + 1056]. *)
Example times_rounds :
  72057594037929 * 1000 = 2 ^ 56 + 1064
  /\ JS.times 72057594037929 1000 = 2 ^ 56 + 1056
  /\ JS.and (JS.times 72057594037929 1000) 0xFFFFFFFF = 1056.
Proof. repeat split. Qed.

Lemma createMuxFrame_ok (now pid : Z) (payload : Buffer) :
  JS.times now 1000 mod 2 ^ 32 < 2 ^ 31 -> 0 <= pid < 2 ^ 16 ->
  blen payload < 2 ^ 16 ->
  Lab.createMuxFrame now pid payload
  = inr (be32 (JS.times now 1000 mod 2 ^ 32) ++ be16 pid
         ++ be16 (blen payload) ++ payload).
Proof.
  intros Hlow Hpid Hlen. unfold Lab.createMuxFrame.
  rewrite and_all_ones, (ToInt32_low _ Hlow).
  pose proof (Z.mod_pos_bound (JS.times now 1000) (2 ^ 32) ltac:(lia)) as Hr.
  set (stamp := JS.times now 1000 mod 2 ^ 32) in *.
  unfold writeUInt32BE, writeUInt16BE.
  cbn [alloc repeat length Nat.leb Nat.add].
  destruct (Z.leb_spec 0 stamp); [| lia].
  destruct (Z.ltb_spec stamp (2 ^ 32)); [| lia].
  cbn [andb bind Ok blit be32 firstn skipn length Nat.add app Nat.leb].
  destruct (Z.leb_spec 0 pid); [| lia].
  destruct (Z.ltb_spec pid (2 ^ 16)); [| lia].
  cbn [andb bind Ok blit be16 firstn skipn length Nat.add app Nat.leb].
  pose proof (blen_nonneg payload).
  destruct (Z.leb_spec 0 (blen payload)); [| lia].
  destruct (Z.ltb_spec (blen payload) (2 ^ 16)); [| lia].
  cbn [andb bind Ok blit be16 firstn skipn length Nat.add app Nat.leb].
  reflexivity.
Qed.

Lemma createMuxFrame_negative (now pid : Z) (payload : Buffer) :
  2 ^ 31 <= JS.times now 1000 mod 2 ^ 32 ->
  Lab.createMuxFrame now pid payload = inl (RangeError "value out of range").
Proof.
  intros Hhigh. unfold Lab.createMuxFrame.
  rewrite and_all_ones, (ToInt32_high _ Hhigh).
  pose proof (Z.mod_pos_bound (JS.times now 1000) (2 ^ 32) ltac:(lia)) as Hr.
  set (stamp := JS.times now 1000 mod 2 ^ 32) in *.
  unfold writeUInt32BE.
  destruct (Z.leb_spec 0 (stamp - 2 ^ 32)); [lia |].
  reflexivity.
Qed.

(** The two 16-bit fields that the data listener reads are the halves
    of the second header word. *)
Lemma read_halves (t w : Z) (payload : Buffer) :
  0 <= w < 2 ^ 32 ->
  Lab.protocolId_of (be32 t ++ be32 w ++ payload) = w / 2 ^ 16
  /\ Lab.payloadLen_of (be32 t ++ be32 w ++ payload) = w mod 2 ^ 16.
Proof.
  intros Hw. unfold Lab.protocolId_of, Lab.payloadLen_of, readUInt16BE,
    byte_at, be32.
  cbn [nth app Nat.add]. rewrite !Z_of_byte_of_Z.
  change (2 ^ 24) with 16777216. change (2 ^ 16) with 65536.
  change (2 ^ 8) with 256. change (2 ^ 32) with 4294967296 in Hw.
  split; Z.div_mod_to_equations; lia.
Qed.

Lemma sdu_halves (t mode mpid : Z) (payload : Buffer) :
  0 <= mode <= 1 -> 0 <= mpid <= 32767 -> blen payload <= 65535 ->
  Lab.protocolId_of (sdu t mode mpid payload) = mode * 32768 + mpid
  /\ Lab.payloadLen_of (sdu t mode mpid payload) = blen payload.
Proof.
  intros Hmode Hmpid Hlen. unfold sdu.
  pose proof (blen_nonneg payload) as H0.
  destruct (read_halves t (pack mode mpid (blen payload)) payload
              (pack_range _ _ _)) as [H1 H2].
  rewrite H1, H2, pack_value by lia.
  change (2 ^ 31) with 2147483648. change (2 ^ 16) with 65536.
  split; Z.div_mod_to_equations; lia.
Qed.

Section Listener.

Context `{RT : Runtime}.
Variable Date_now : nat -> Z.

(** A chunk that is exactly one segment, on an empty buffer *)
Lemma on_data_sdu (st : Lab.state) (t mode mpid : Z) (payload : Buffer) :
  0 <= mode <= 1 -> 0 <= mpid <= 32767 -> blen payload <= 65535 ->
  Lab.buffer st = [] ->
  Lab.on_data Date_now (sdu t mode mpid payload) st
  = Lab.with_buffer []
      (Lab.dispatch Date_now (mode * 32768 + mpid) payload st).
Proof.
  intros Hmode Hmpid Hlen Hb. unfold Lab.on_data. rewrite Hb. cbn [app].
  destruct (sdu_halves t mode mpid payload Hmode Hmpid Hlen) as [Hp Hl].
  rewrite data_loop_body, Hp, Hl.
  pose proof (blen_nonneg payload) as H0.
  assert (Hbl : blen (sdu t mode mpid payload) = 8 + blen payload)
    by apply blen_framed.
  rewrite Hbl.
  destruct (Z.geb_spec (8 + blen payload) 8); [| lia].
  destruct (Z.ltb_spec (8 + blen payload) (8 + blen payload)); [lia |].
  unfold sdu. rewrite payload_framed, rest_framed.
  rewrite data_loop_body. reflexivity.
Qed.

Lemma dispatch_other (pid : Z) (payload : Buffer) (st : Lab.state) :
  pid <> Lab.HANDSHAKE -> pid <> Lab.CHAIN_SYNC ->
  Lab.dispatch Date_now pid payload st = st.
Proof.
  intros H0 H2. unfold Lab.dispatch.
  destruct (Z.eqb_spec pid Lab.HANDSHAKE); [contradiction |].
  destruct (Z.eqb_spec pid Lab.CHAIN_SYNC); [contradiction |].
  reflexivity.
Qed.

Lemma with_buffer_same (st : Lab.state) :
  Lab.buffer st = [] -> Lab.with_buffer [] st = st.
Proof. intros H. destruct st; cbn in *. subst. reflexivity. Qed.

Lemma step_responder (st : Lab.state) (t mpid : Z) (payload : Buffer) :
  0 <= mpid <= 32767 -> blen payload <= 65535 -> Lab.buffer st = [] ->
  Lab.step Date_now st (Lab.SocketData (sdu t 1 mpid payload)) = st.
Proof.
  intros Hmpid Hlen Hb. unfold Lab.step.
  destruct (Lab.exited st); [reflexivity |].
  rewrite (on_data_sdu st t 1 mpid payload ltac:(lia) Hmpid Hlen Hb).
  rewrite dispatch_other
    by (unfold Lab.HANDSHAKE, Lab.CHAIN_SYNC; lia).
  apply with_buffer_same. exact Hb.
Qed.

(** The events that bring one responder segment each *)
Definition responder_chunks (frames : list (Z * Z * Buffer))
  : list Lab.event :=
  map (fun f => Lab.SocketData (sdu (fst (fst f)) 1 (snd (fst f)) (snd f)))
      frames.

Lemma fold_responder (frames : list (Z * Z * Buffer)) :
  forall st,
    Forall (fun f => 0 <= snd (fst f) <= 32767 /\ blen (snd f) <= 65535)
           frames ->
    Lab.buffer st = [] ->
    fold_left (Lab.step Date_now) (responder_chunks frames) st = st.
Proof.
  induction frames as [| [[t mpid] p] frames IH]; intros st Hf Hb;
    [reflexivity |].
  inversion Hf as [| x l [Hm Hl] Hrest]; subst. cbn [fst snd] in Hm, Hl.
  cbn [responder_chunks map fold_left fst snd].
  rewrite (step_responder st t mpid p Hm Hl Hb).
  apply IH; assumption.
Qed.

Lemma buffer_connect :
  Lab.buffer (Lab.run Date_now [Lab.SocketConnect]) = [].
Proof.
  unfold Lab.run. cbn [fold_left]. unfold Lab.step.
  cbn [Lab.initial Lab.exited]. unfold Lab.on_connect, Lab.write_frame.
  destruct (Lab.createMuxFrame _ _ _); reflexivity.
Qed.

End Listener.

End LabFrames.

(** X14.  The time stamp of [createMuxFrame] is a signed value.
    [Date.now() * 1000] is a product of doubles: the exact product as
    long as that is below [2^53] in magnitude, and the double nearest to
    it beyond.  [(Date.now() * 1000) & 0xFFFFFFFF] is the signed 32-bit
    reading of the product of doubles, so whenever bit 31 of it is set
    the stamp is negative, [writeUInt32BE] rejects it and
    [createMuxFrame] throws a [RangeError]; otherwise the frame is the
    stamp, the protocol number and the payload length as big-endian
    fields, then the payload.  In the connection callback nothing
    catches the exception: with such a clock the script ends with
    status 1 after its two connection lines, having sent nothing. *)
Theorem lab_time_stamp_sign `{RT : Runtime} (now pid : Z) (payload : Buffer) :
  let product := JS.times now 1000 in
  (Z.abs (now * 1000) < 2 ^ 53 -> product = now * 1000)
  /\
  (product mod 2 ^ 32 < 2 ^ 31 -> 0 <= pid < 2 ^ 16 ->
   blen payload < 2 ^ 16 ->
   Lab.createMuxFrame now pid payload
   = inr (be32 (product mod 2 ^ 32) ++ be16 pid ++ be16 (blen payload)
          ++ payload))
  /\
  (2 ^ 31 <= product mod 2 ^ 32 ->
   Lab.createMuxFrame now pid payload = inl (RangeError "value out of range")
   /\ forall Date_now : nat -> Z,
        Date_now O = now ->
        let st := Lab.run Date_now [Lab.SocketConnect] in
        Lab.exited st = Some 1 /\ Lab.written st = []
        /\ Lab.console st = [Lab.Connected; Lab.SendingHandshake]).
Proof.
  intros product. subst product.
  split; [apply LabFrames.times_exact |]. split.
  - apply LabFrames.createMuxFrame_ok.
  - intros Hhigh. split; [apply LabFrames.createMuxFrame_negative; exact Hhigh |].
    intros Date_now Hnow st. subst st.
    unfold Lab.run. cbn [fold_left]. unfold Lab.step.
    cbn [Lab.initial Lab.exited]. unfold Lab.on_connect, Lab.write_frame.
    cbn [Lab.log Lab.ticks Lab.initial]. rewrite Hnow.
    rewrite LabFrames.createMuxFrame_negative by exact Hhigh.
    repeat split.
Qed.

Lemma lab_time_stamp_sign_witness :
  Lab.createMuxFrame 2147484 Lab.HANDSHAKE Lab.buildHandshakePayload
  = inl (RangeError "value out of range")
  /\ Lab.exited (Lab.run (RT := Reference.runtime) (fun _ => 2147484)
                   [Lab.SocketConnect]) = Some 1.
Proof.
  assert (Hhigh : 2 ^ 31 <= JS.times 2147484 1000 mod 2 ^ 32)
    by (vm_compute; discriminate).
  destruct (proj2 (proj2 (lab_time_stamp_sign (RT := Reference.runtime)
                            2147484 Lab.HANDSHAKE
                            Lab.buildHandshakePayload)) Hhigh)
    as [H1 H2].
  split; [exact H1 |].
  exact (proj1 (H2 (fun _ => 2147484) eq_refl)).
Defined.

(** X15.  The data listener reads the mode bit as part of the protocol
    number.  A chunk that is one segment, arriving on an empty buffer,
    is dispatched under the number [mode * 32768 + mpid]; the number of
    a segment with the responder's mode bit is therefore never that of
    the handshake or of ChainSync, and the segment changes nothing.  A
    run in which every chunk after the connection is one responder
    segment stays where the connection left it. *)
Theorem lab_mode_bit_in_protocol `{RT : Runtime} (Date_now : nat -> Z) :
  (forall (st : Lab.state) (t mode mpid : Z) (payload : Buffer),
      0 <= mode <= 1 -> 0 <= mpid <= 32767 -> blen payload <= 65535 ->
      Lab.buffer st = [] ->
      Lab.protocolId_of (sdu t mode mpid payload) = mode * 32768 + mpid
      /\ Lab.on_data Date_now (sdu t mode mpid payload) st
         = Lab.with_buffer []
             (Lab.dispatch Date_now (mode * 32768 + mpid) payload st)
      /\ Lab.step Date_now st (Lab.SocketData (sdu t 1 mpid payload)) = st)
  /\
  (forall frames : list (Z * Z * Buffer),
      Forall (fun f => 0 <= snd (fst f) <= 32767 /\ blen (snd f) <= 65535)
             frames ->
      Lab.run Date_now
        (Lab.SocketConnect :: LabFrames.responder_chunks frames)
      = Lab.run Date_now [Lab.SocketConnect]).
Proof.
  split.
  - intros st t mode mpid payload Hmode Hmpid Hlen Hb.
    split; [apply (LabFrames.sdu_halves t mode mpid payload); assumption |].
    split; [apply LabFrames.on_data_sdu; assumption |].
    apply LabFrames.step_responder; assumption.
  - intros frames Hf.
    change (Lab.SocketConnect :: LabFrames.responder_chunks frames)
      with ([Lab.SocketConnect] ++ LabFrames.responder_chunks frames).
    rewrite LabRuns.lab_run_app.
    apply LabFrames.fold_responder; [exact Hf |].
    apply LabFrames.buffer_connect.
Qed.

Lemma lab_mode_bit_in_protocol_witness :
  Lab.run (RT := Reference.runtime) (fun _ => 0)
    [Lab.SocketConnect;
     Lab.SocketData (sdu 0 1 0 (Reference.cbor_encode accept_example));
     Lab.SocketData
       (sdu 0 1 2 (Reference.cbor_encode (VArr [VNum 6; VNum 7])))]
  = Lab.run (RT := Reference.runtime) (fun _ => 0) [Lab.SocketConnect].
Proof.
  refine (proj2 (lab_mode_bit_in_protocol (RT := Reference.runtime)
                   (fun _ => 0))
            [(0, 0, Reference.cbor_encode accept_example);
             (0, 2, Reference.cbor_encode (VArr [VNum 6; VNum 7]))] _).
  repeat constructor; vm_compute; discriminate.
Defined.

Module LabTip.

Section Tip.

Context `{RT : Runtime}.
Variable Date_now : nat -> Z.


End Tip.

End LabTip.



(** * Further properties of the peer addresses *)

Module PeerEntries.

Import HeaderWord WordFields.

Section Entries.

Context `{RT : Runtime}.











(** The dotted form of an unsigned 32-bit address *)
Definition dotted (n : Z) : string :=
  (decimal (n / 2 ^ 24) ++ "." ++ decimal (n / 2 ^ 16 mod 256) ++ "."
   ++ decimal (n / 2 ^ 8 mod 256) ++ "." ++ decimal (n mod 256))%string.

Lemma octets (n : Z) :
  0 <= n < 2 ^ 32 ->
  JS.and (JS.shru n 24) 255 = n / 2 ^ 24
  /\ JS.and (JS.shru n 16) 255 = n / 2 ^ 16 mod 256
  /\ JS.and (JS.shru n 8) 255 = n / 2 ^ 8 mod 256
  /\ JS.and n 255 = n mod 256.
Proof.
  intros Hn. rewrite !and_ff, !shru_small by lia.
  repeat split.
  change (2 ^ 24) with 16777216. change (2 ^ 32) with 4294967296 in Hn.
  Z.div_mod_to_equations. lia.
Qed.

Lemma ipv4_dotted (n : Z) :
  0 <= n < 2 ^ 32 -> FetchTip.ipv4FromWord32 n = dotted n.
Proof.
  intros Hn. unfold FetchTip.ipv4FromWord32, dotted.
  destruct (octets n Hn) as (H1 & H2 & H3 & H4).
  change 0xff with 255. rewrite H1, H2, H3, H4.
  cbn [String.concat]. reflexivity.
Qed.

End Entries.

End PeerEntries.



(** X18.  An IPv4 entry.  The entry [[0, w, port]] with a number [w] is
    rendered by both clients as the four octets of [w >>> 0], most
    significant first, in decimal and joined by dots.
    [connectAndFetchTip] coerces the port with [>>> 0], which throws on
    a BigInt; [chainsync-tip.cjs] keeps the decoded port as it is, and
    does not look at the length of the entry: the entry [[0]] gives it
    the address 0.0.0.0 with an undefined port, while
    [parsePeerAddresses] skips that entry.  When [w] is a BigInt the
    shift throws in both clients. *)
Theorem ipv4_entry `{RT : Runtime} (w : Z) (port : value)
    (out : list FetchTip.peer) :
  let n := JS.ToUint32 w in
  FetchTip.parse_one out (VArr [VNum 0; VNum w; port])
  = (p <- shru0 port ;;
     Ok (out ++ [{| FetchTip.ip := PeerEntries.dotted n;
                    FetchTip.port := p |}]))
  /\ ChainsyncTip.peer_of (VArr [VNum 0; VNum w; port])
     = Ok (ChainsyncTip.PeerAddr (PeerEntries.dotted n) port)
  /\ (0 <= n / 2 ^ 24 < 256 /\ 0 <= n < 2 ^ 32)
  /\ ChainsyncTip.peer_of (VArr [VNum 0])
     = Ok (ChainsyncTip.PeerAddr "0.0.0.0" VUndefined)
  /\ FetchTip.parse_one out (VArr [VNum 0]) = Ok out
  /\ FetchTip.parse_one out (VArr [VNum 0; VBig w; port])
     = throw (TypeError "Cannot mix BigInt and other types, use explicit conversions")
  /\ ChainsyncTip.peer_of (VArr [VNum 0; VBig w; port])
     = throw (TypeError "Cannot mix BigInt and other types, use explicit conversions").
Proof.
  intros n.
  assert (Hn : 0 <= n < 2 ^ 32) by apply Hex.ToUint32_range.
  assert (Hs : shru0 (VNum w) = Ok n)
    by (unfold shru0, ToNumber, bind, Ok; rewrite Hex.shru_0; reflexivity).
  split; [| split; [| split; [| split; [| split; [| split]]]]].
  - unfold FetchTip.parse_one.
    cbn [isArray negb elements length Nat.ltb Nat.leb orb item nth is_num
         Z.eqb Nat.eqb andb].
    rewrite Hs. cbv beta iota delta [bind Ok].
    rewrite (PeerEntries.ipv4_dotted n Hn). reflexivity.
  - unfold ChainsyncTip.peer_of.
    cbn [isArray negb elements item nth is_num Z.eqb].
    rewrite Hs. cbv beta iota delta [bind Ok].
    destruct (PeerEntries.octets n Hn) as (H1 & H2 & H3 & H4).
    rewrite H1, H2, H3, H4. reflexivity.
  - split; [| exact Hn].
    change (2 ^ 24) with 16777216. change (2 ^ 32) with 4294967296 in Hn.
    Z.div_mod_to_equations. lia.
  - reflexivity.
  - reflexivity.
  - reflexivity.
  - reflexivity.
Qed.

(** X19.  A [MsgSharePeers] whose addresses are not a list.  When the
    second element of [[1, x]] is a number other than zero,
    [parsePeerAddresses] throws on iterating it; nothing catches the
    exception in the segment callback, so [connectAndFetchTip] ends
    with status 1 on the uncaught error, whatever else the chunk holds
    behind that segment.  [chainsync-tip.cjs] tests [Array.isArray]
    first and prints its report with no peer. *)
Theorem share_peers_not_a_list `{RT : Runtime} (Date_now : nat -> Z)
    (host : string) (port_arg : Z) (n : Z) (p : Buffer) :
  n <> 0 -> decode p = inr (VArr [VNum 1; VNum n]) ->
  (forall (st : FetchTip.state) (t m : Z) (more : Buffer),
      FetchTip.exited st = None -> FetchTip.mux_buf st = [] ->
      0 <= t < 2 ^ 32 -> 0 <= m <= 1 -> blen p <= 65535 ->
      let st' :=
        FetchTip.step Date_now host port_arg st
          (FetchTip.SocketData (sdu t m FetchTip.PEERSHARE p ++ more)) in
      FetchTip.exited st' = Some 1
      /\ (exists e, FetchTip.stderr st' = FetchTip.stderr st ++ [e])
      /\ FetchTip.stdout st' = FetchTip.stdout st
      /\ FetchTip.written st' = FetchTip.written st)
  /\
  (forall (st : ChainsyncTip.state) (v d tip : value)
          (f : ChainsyncTip.frame),
      ChainsyncTip.payload f = p ->
      ChainsyncTip.after_peershare host port_arg v d tip f st
      = ChainsyncTip.finish host port_arg v d tip [] st).
Proof.
  intros Hn Hd. split.
  - intros st t m more Hex Hbuf Ht Hm Hp st'. subst st'.
    unfold FetchTip.step. rewrite Hex. cbn [FetchTip.handle].
    unfold FetchTip.push. rewrite Hbuf. cbn [app].
    rewrite (Chunks.push_loop_app (FetchTip.onSegment Date_now)
               (sdu t m FetchTip.PEERSHARE p) more st).
    rewrite (FetchShape.push_one (FetchTip.onSegment Date_now) st
               t m FetchTip.PEERSHARE p Ht Hm
               ltac:(unfold FetchTip.PEERSHARE; lia) Hp).
    assert (Hon : FetchTip.onSegment Date_now
                    {| FetchTip.t := t; FetchTip.modeBit := m;
                       FetchTip.miniProtocolId := FetchTip.PEERSHARE;
                       FetchTip.payload := p |} st
                  = inl (TypeError "value is not iterable", st)).
    { unfold FetchTip.onSegment.
      cbn [FetchTip.payload FetchTip.miniProtocolId]. rewrite Hd.
      cbn [Z.eqb FetchTip.HANDSHAKE FetchTip.PEERSHARE isArray elements item
           nth is_num andb].
      unfold FetchTip.parsePeerAddresses. cbn [falsy].
      destruct (Z.eqb_spec n 0); [contradiction |]. reflexivity. }
    rewrite Hon.
    cbn [FetchTip.crash FetchTip.exited FetchTip.stderr FetchTip.stdout
         FetchTip.written].
    repeat split. eexists. reflexivity.
  - intros st v d tip f Hf. unfold ChainsyncTip.after_peershare.
    unfold ChainsyncTip.decodeCbor. rewrite Hf, Hd. reflexivity.
Qed.

Lemma share_peers_not_a_list_witness :
  let st' :=
    FetchTip.run (RT := Reference.runtime) (fun _ => 0) "relay" 3001
      [FetchTip.SocketConnect;
       FetchTip.SocketData
         (sdu 0 1 FetchTip.PEERSHARE
            (Reference.cbor_encode (VArr [VNum 1; VNum 5])) ++ [])] in
  FetchTip.exited st' = Some 1
  /\ FetchTip.stdout st' = [].
Proof.
  pose proof (proj1 (share_peers_not_a_list (RT := Reference.runtime)
                       (fun _ => 0) "relay" 3001 5
                       (Reference.cbor_encode (VArr [VNum 1; VNum 5]))
                       ltac:(discriminate) eq_refl)
                (FetchTip.run (RT := Reference.runtime) (fun _ => 0)
                   "relay" 3001 [FetchTip.SocketConnect])
                0 1 []) as H.
  cbv zeta in H.
  repeat match type of H with
         | ?A -> _ =>
             let a := fresh in
             assert (a : A)
               by first [ vm_compute; reflexivity | vm_compute; discriminate
                        | vm_compute; split;
                          first [discriminate | reflexivity] ];
             specialize (H a); clear a
         end.
  destruct H as (H1 & _ & H3 & _).
  split; [exact H1 | exact H3].
Defined.

(** X20.  A payload that the decoder rejects.  [decodeCbor] of
    [chainsync-tip.cjs] turns the exception into an object, which is no
    array: as the handshake response it makes [run] fail with "bad
    handshake response", as the ChainSync response with "unexpected
    ChainSync response" and the JSON text of that object, which holds
    the error and the payload in hex; as the PeerSharing response it
    only leaves the peer list empty.  In the lab script the exception
    reaches the [catch] of the data listener, which prints it and
    destroys the socket, for a handshake frame and for a ChainSync frame
    alike. *)
Theorem undecodable_payload `{RT : Runtime} (Date_now : nat -> Z)
    (HOST : string) (PORT : Z) (WANT_PEER_SHARING : bool)
    (p : Buffer) (e : error) (f : ChainsyncTip.frame) :
  decode p = inl e -> ChainsyncTip.payload f = p ->
  let shown :=
    VObj [("_decodeError"%string, VStr (error_string e));
          ("_hex"%string, VStr (toHex p))] in
  (forall st,
      ChainsyncTip.after_handshake f st
      = ChainsyncTip.fail (Error "bad handshake response") st)
  /\ (forall st v d,
         ChainsyncTip.after_chainsync HOST PORT WANT_PEER_SHARING v d f st
         = ChainsyncTip.fail
             (Error ("unexpected ChainSync response: "
                     ++ JSON_stringify shown)) st)
  /\ (forall st v d tip,
         ChainsyncTip.after_peershare HOST PORT v d tip f st
         = ChainsyncTip.finish HOST PORT v d tip [] st)
  /\ (forall st pid,
         pid = Lab.HANDSHAKE \/ pid = Lab.CHAIN_SYNC ->
         Lab.dispatch Date_now pid p st
         = Lab.destroy (Lab.log (Lab.DecodingError e) st)).
Proof.
  intros Hd Hf shown.
  assert (Hc : ChainsyncTip.decodeCbor (ChainsyncTip.payload f) = shown).
  { unfold ChainsyncTip.decodeCbor. rewrite Hf, Hd. reflexivity. }
  split; [| split; [| split]].
  - intros st. unfold ChainsyncTip.after_handshake. rewrite Hc. reflexivity.
  - intros st v d. unfold ChainsyncTip.after_chainsync. rewrite Hc.
    reflexivity.
  - intros st v d tip. unfold ChainsyncTip.after_peershare. rewrite Hc.
    reflexivity.
  - intros st pid [-> | ->]; unfold Lab.dispatch;
      [change (Lab.HANDSHAKE =? Lab.HANDSHAKE) with true
      | change (Lab.CHAIN_SYNC =? Lab.HANDSHAKE) with false;
        change (Lab.CHAIN_SYNC =? Lab.CHAIN_SYNC) with true];
      cbv iota; unfold Lab.handleHandshake, Lab.handleChainSync;
      rewrite Hd; reflexivity.
Qed.

Lemma undecodable_payload_witness :
  ChainsyncTip.after_handshake (RT := Reference.runtime)
    {| ChainsyncTip.transmissionTime := 0; ChainsyncTip.mode := 1;
       ChainsyncTip.miniProtocolId := 0; ChainsyncTip.payload := [x82] |}
    ChainsyncTip.initial
  = ChainsyncTip.fail (Error "bad handshake response") ChainsyncTip.initial.
Proof.
  refine (proj1 (undecodable_payload (RT := Reference.runtime) (fun _ => 0)
                   "relay" 3001 false [x82]
                   (Error "Unexpected end of CBOR data")
                   {| ChainsyncTip.transmissionTime := 0;
                      ChainsyncTip.mode := 1;
                      ChainsyncTip.miniProtocolId := 0;
                      ChainsyncTip.payload := [x82] |} _ eq_refl)
            ChainsyncTip.initial).
  vm_compute. reflexivity.
Defined.

(** * The command line *)

(** [arg(name, def)] of [chainsync-tip.cjs] looks [name] up in
    [process.argv]; [getArg(k, def)] of the other client is the same
    function on [process.argv.slice(2)]. *)
Module Cli.

(** [argv.indexOf(name)], [None] standing for [-1] *)
Definition indexOf (argv : list string) (name : string) : option nat :=
  findIndex (fun a => String.eqb a name) argv.

(** [argv[i]] *)
Definition at_index (argv : list string) (i : nat) : value :=
  match nth_error argv i with
  | Some s => VStr s
  | None => VUndefined
  end.

Definition arg (argv : list string) (name def : string) : value :=
  match indexOf argv name with
  | Some i => at_index argv (i + 1)
  | None => VStr def
  end.

Definition getArg (args : list string) (k def : string) : value :=
  match indexOf args k with
  | Some i => at_index args (i + 1)
  | None => VStr def
  end.

(** [arg('--peer-sharing', '0') === '1'] *)
Definition WANT_PEER_SHARING (argv : list string) : bool :=
  match arg argv "--peer-sharing" "0" with
  | VStr s => String.eqb s "1"
  | _ => false
  end.

Lemma indexOf_absent (argv : list string) (name : string) :
  ~ In name argv -> indexOf argv name = None.
Proof.
  unfold indexOf. induction argv as [| a argv IH]; intros H; [reflexivity |].
  cbn [findIndex]. destruct (String.eqb_spec a name) as [-> | Hne].
  - exfalso. apply H. left. reflexivity.
  - rewrite IH; [reflexivity |]. intros Hin. apply H. right. exact Hin.
Qed.

Lemma indexOf_first (pre post : list string) (name : string) :
  ~ In name pre -> indexOf (pre ++ name :: post) name = Some (length pre).
Proof.
  unfold indexOf. induction pre as [| a pre IH]; intros H.
  - cbn [app findIndex length]. rewrite String.eqb_refl. reflexivity.
  - cbn [app findIndex length].
    destruct (String.eqb_spec a name) as [-> | Hne].
    + exfalso. apply H. left. reflexivity.
    + rewrite IH; [reflexivity |]. intros Hin. apply H. right. exact Hin.
Qed.

Lemma at_index_after (pre post : list string) (name : string) :
  at_index (pre ++ name :: post) (length pre + 1)
  = match post with
    | x :: _ => VStr x
    | [] => VUndefined
    end.
Proof.
  unfold at_index.
  replace (length pre + 1)%nat with (length pre + 1 + 0)%nat by lia.
  rewrite <- Nat.add_assoc.
  rewrite nth_error_app2 by lia.
  replace (length pre + (1 + 0) - length pre)%nat with 1%nat by lia.
  destruct post; reflexivity.
Qed.

End Cli.

(** X21.  Looking up a flag on the command line.  [arg] and [getArg]
    give the default only when the flag is absent.  When it is present
    they give the argument that follows its first occurrence, whatever
    that is, another flag included; when the first occurrence is the
    last argument they give [undefined], not the default.  Peer sharing
    is wanted exactly when the value found this way is the string
    "1". *)
Theorem cli_flag_lookup (name def : string) (pre post : list string) :
  ~ In name pre ->
  Cli.arg pre name def = VStr def
  /\ Cli.arg (pre ++ name :: post) name def
     = match post with
       | x :: _ => VStr x
       | [] => VUndefined
       end
  /\ Cli.getArg (pre ++ name :: post) name def
     = Cli.arg (pre ++ name :: post) name def
  /\ (name = "--peer-sharing"%string ->
      Cli.WANT_PEER_SHARING pre = false
      /\ (Cli.WANT_PEER_SHARING (pre ++ name :: post) = true
          <-> exists rest, post = "1"%string :: rest)).
Proof.
  intros Hpre.
  assert (Habsent : Cli.arg pre name def = VStr def).
  { unfold Cli.arg. rewrite (Cli.indexOf_absent pre name Hpre). reflexivity. }
  assert (Hfound : Cli.arg (pre ++ name :: post) name def
                   = match post with
                     | x :: _ => VStr x
                     | [] => VUndefined
                     end).
  { unfold Cli.arg. rewrite (Cli.indexOf_first pre post name Hpre).
    apply Cli.at_index_after. }
  split; [exact Habsent | split; [exact Hfound | split; [reflexivity |]]].
  intros ->. split.
  - unfold Cli.WANT_PEER_SHARING, Cli.arg.
    rewrite (Cli.indexOf_absent pre _ Hpre). reflexivity.
  - unfold Cli.WANT_PEER_SHARING, Cli.arg.
    rewrite (Cli.indexOf_first pre post _ Hpre), Cli.at_index_after.
    destruct post as [| x rest].
    + split; [discriminate | intros [rest H]; discriminate H].
    + split.
      * intros H. apply String.eqb_eq in H. subst x. exists rest. reflexivity.
      * intros [rest' H]. injection H as -> _. reflexivity.
Qed.

Lemma cli_flag_lookup_witness :
  Cli.arg ["node"; "chainsync-tip.cjs"; "--host"]%string "--host" "127.0.0.1"
  = VUndefined.
Proof.
  refine (proj1 (proj2 (cli_flag_lookup "--host" "127.0.0.1"
                          ["node"; "chainsync-tip.cjs"]%string [] _))).
  intros [H | [H | H]]; [discriminate H | discriminate H | exact H].
Defined.

(** * The mode bit in [chainsync-tip.cjs] *)

Module TipMode.

Import HeaderWord MuxFacts Chunks Written TipRuns Leftover TipFrames.
Import ChainsyncTip.

(** A complete frame that the only waiter refuses is dropped and the
    waiter stays. *)
Lemma framed_pump_refused (t mode mpid : Z) (payload : Buffer) (w : waiter) :
  0 <= t < 2 ^ 32 -> 0 <= mode <= 1 -> 0 <= mpid <= 32767 ->
  blen payload <= 65535 -> filter w mpid mode = false ->
  _pump (sdu t mode mpid payload) [w]
  = ({| buf := []; waiters := [w] |}, []).
Proof.
  intros Ht Hmode Hmpid Hlen Hw. unfold sdu. rewrite _pump_body.
  pose proof (blen_nonneg payload).
  rewrite (framed_len t mode mpid payload Hmode Hmpid Hlen _ eq_refl).
  rewrite (framed_head_frame t mode mpid payload Ht Hmode Hmpid Hlen _ eq_refl).
  rewrite (framed_blen t mode mpid payload _ eq_refl).
  destruct (Z.ltb_spec (8 + blen payload) 8); [lia |].
  destruct (Z.ltb_spec (8 + blen payload) (8 + blen payload)); [lia |].
  cbn [miniProtocolId ChainsyncTip.mode findIndex]. rewrite Hw.
  cbn [option_map].
  rewrite (framed_rest t mode mpid payload _ eq_refl).
  rewrite _pump_body. reflexivity.
Qed.

Lemma with_mux_same (st : state) : with_mux (mux st) st = st.
Proof. destruct st; reflexivity. Qed.

End TipMode.

(** X22.  [chainsync-tip.cjs] hears responders only.  Each filter that
    [run] waits with asks for mode 1, so a segment with the initiator's
    mode bit, of whatever mini-protocol, is parsed and dropped: arriving
    as a chunk of its own on an empty buffer, in any run, it leaves the
    process exactly as it was. *)
Theorem tip_requires_responder_mode `{RT : Runtime} (HOST : string)
    (PORT NETWORK_MAGIC : Z) (WANT_PEER_SHARING : bool)
    (evs : list ChainsyncTip.event) (t mpid : Z) (payload : Buffer) :
  0 <= t < 2 ^ 32 -> 0 <= mpid <= 32767 -> blen payload <= 65535 ->
  let st := ChainsyncTip.run HOST PORT NETWORK_MAGIC WANT_PEER_SHARING evs in
  ChainsyncTip.buf (ChainsyncTip.mux st) = [] ->
  ChainsyncTip.step HOST PORT NETWORK_MAGIC WANT_PEER_SHARING st
    (ChainsyncTip.SocketData (sdu t 0 mpid payload))
  = st.
Proof.
  intros Ht Hmpid Hlen st Hb.
  pose proof (TipShape.waiting_run HOST PORT NETWORK_MAGIC WANT_PEER_SHARING
                evs) as Hw.
  unfold TipShape.waiting in Hw. fold st in Hw.
  unfold ChainsyncTip.step, ChainsyncTip.on_data. rewrite Hb. cbn [app].
  destruct (ChainsyncTip.at_phase st) as [| | v d | v d tip | code];
    try reflexivity; cbn [TipShape.waiting_at] in Hw; rewrite Hw;
    rewrite (TipMode.framed_pump_refused t 0 mpid payload _ Ht
               ltac:(lia) Hmpid Hlen)
      by (cbn [ChainsyncTip.filter]; unfold ChainsyncTip.hs_filter,
            ChainsyncTip.cs_filter, ChainsyncTip.ps_filter;
          apply andb_false_r);
    cbn [fst snd]; rewrite <- Hw, <- Hb;
    replace {| ChainsyncTip.buf := ChainsyncTip.buf (ChainsyncTip.mux st);
               ChainsyncTip.waiters :=
                 ChainsyncTip.waiters (ChainsyncTip.mux st) |}
      with (ChainsyncTip.mux st) by (destruct (ChainsyncTip.mux st); reflexivity);
    apply TipMode.with_mux_same.
Qed.

Lemma tip_requires_responder_mode_witness :
  let st := ChainsyncTip.run (RT := Reference.runtime)
              "relay" 3001 764824073 false [ChainsyncTip.SocketConnect] in
  ChainsyncTip.step (RT := Reference.runtime) "relay" 3001 764824073 false st
    (ChainsyncTip.SocketData
       (sdu 0 0 0 (Reference.cbor_encode accept_example)))
  = st.
Proof.
  refine (tip_requires_responder_mode (RT := Reference.runtime)
            "relay" 3001 764824073 false [ChainsyncTip.SocketConnect]
            0 0 (Reference.cbor_encode accept_example) _ _ _ _);
    first [ vm_compute; reflexivity | vm_compute; discriminate
          | vm_compute; split; first [discriminate | reflexivity] ].
Defined.

(** * A complete exchange of the lab script *)

Module LabScenario.

Import HeaderWord MuxFacts Chunks Written LabChunks LabRuns LabFrames.

Section Scenario.

Context `{RT : Runtime}.
Variable Date_now : nat -> Z.

#[local] Set Warnings "-notation-for-abbreviation".
Local Notation step := (Lab.step Date_now).
Local Notation run := (Lab.run Date_now).

(** The frame that [createMuxFrame] makes at the [n]-th reading of the
    clock *)
Definition frame_at (n : nat) (pid : Z) (payload : Buffer) : Buffer :=
  be32 (JS.times (Date_now n) 1000 mod 2 ^ 32) ++ be16 pid
  ++ be16 (blen payload) ++ payload.


Hypothesis Hclock0 : JS.times (Date_now 0) 1000 mod 2 ^ 32 < 2 ^ 31.
Hypothesis Hclock1 : JS.times (Date_now 1) 1000 mod 2 ^ 32 < 2 ^ 31.

Definition connected : Lab.state :=
  {| Lab.buffer := []; Lab.destroyed := false;
     Lab.written := [frame_at 0 Lab.HANDSHAKE Lab.buildHandshakePayload];
     Lab.console := [Lab.Connected; Lab.SendingHandshake];
     Lab.ticks := 1; Lab.exited := None |}.


Variables (v : value) (rest : list value) (t1 : Z) (p1 : Buffer).
Hypothesis Hp1 : blen p1 <= 65535.
Hypothesis Hd1 : decode p1 = inr (VArr (VNum 1 :: v :: rest)).

Definition accepted : Lab.state :=
  {| Lab.buffer := []; Lab.destroyed := false;
     Lab.written := [frame_at 0 Lab.HANDSHAKE Lab.buildHandshakePayload;
                     frame_at 1 Lab.CHAIN_SYNC [x82; x04; x80]];
     Lab.console := [Lab.Connected; Lab.SendingHandshake;
                     Lab.HandshakeAccepted v; Lab.SendingChainSync];
     Lab.ticks := 2; Lab.exited := None |}.


Variables (tag : Z) (pre : list value) (slotv blockNov : value) (h : Buffer)
          (t2 : Z) (p2 : Buffer).
Hypothesis Htag : tag = Lab.INTERSECT_FOUND \/ tag = Lab.INTERSECT_NOT_FOUND.
Hypothesis Hp2 : blen p2 <= 65535.
Hypothesis Hd2 :
  decode p2
  = inr (VArr (VNum tag :: pre ++ [VArr [VArr [slotv; VBuf h]; blockNov]])).




End Scenario.

End LabScenario.


